(** * i915 submission core: a shallow embedding of the driver's C code

    The development follows the C sources of the backported i915 driver:

    - [UFence]  : gem/i915_gem_wait_user_fence.c  (value-based user fences)
    - [Context] : gt/intel_context.c, i915_gem_ww.c (context pinning)
    - [Engine]  : gt/intel_engine_cs.c             (idle detection)
    - [Irq]     : i915_irq.c                        (interrupt dispatch and
                                                     hardware-error decoding)

    Fixed-width C integers are integers of [Z] with the wrap-around written
    out; calls into code outside these files take their results from an
    explicit environment. *)

From Stdlib Require Import ZArith Lia Bool List String.
From stdpp Require Import gmap list.
Import ListNotations.

Local Open Scope Z_scope.

(** ** C integer types *)

Definition wrap (bits : Z) (x : Z) : Z := x mod 2 ^ bits.

(** Conversion to a signed type of [bits] bits, as gcc does it: reduce
    modulo [2^bits] and read the result in two's complement. *)
Definition to_signed (bits : Z) (x : Z) : Z :=
  let y := wrap bits x in
  if y <? 2 ^ (bits - 1) then y else y - 2 ^ bits.

Definition u8 := wrap 8.
Definition u16 := wrap 16.
Definition u32 := wrap 32.
Definition u64 := wrap 64.
Definition s8 := to_signed 8.
Definition s16 := to_signed 16.
Definition s32 := to_signed 32.
Definition s64 := to_signed 64.

(** ** errno values (include/uapi/asm-generic/errno-base.h, errno.h) *)

Definition ENOENT : Z := 2.
Definition EINTR : Z := 4.
Definition EIO : Z := 5.
Definition EAGAIN : Z := 11.
Definition EALREADY : Z := 114.
Definition ENOMEM : Z := 12.
Definition EFAULT : Z := 14.
Definition EINVAL : Z := 22.
Definition EDEADLK : Z := 35.
Definition ETIME : Z := 62.
Definition ERESTARTSYS : Z := 512.

(** ** Kernel bit helpers (include/linux/bitops.h, log2.h, math.h) *)

(** [fls64]: position of the most significant set bit, counted from 1;
    0 for 0. *)
Definition fls64 (x : Z) : Z := if x =? 0 then 0 else Z.log2 x + 1.

(** [roundup_pow_of_two(n)] is [1UL << fls_long(n - 1)]. *)
Definition roundup_pow_of_two (n : Z) : Z := Z.shiftl 1 (fls64 (n - 1)).

Definition DIV_ROUND_UP (n d : Z) : Z := (n + d - 1) / d.

(** [IS_ALIGNED(x, a)] is [((x) & ((typeof(x))(a) - 1)) == 0]. *)
Definition IS_ALIGNED (x a : Z) : bool := Z.land x (a - 1) =? 0.

(** [hweight]: number of set bits among the low [n] bits. *)
Fixpoint hweight (n : nat) (x : Z) : Z :=
  match n with
  | O => 0
  | S k => (if Z.testbit x (Z.of_nat k) then 1 else 0) + hweight k x
  end.

(** [for_each_set_bit(bit, &word, size)]: the set bits below [size], in
    increasing order. *)
Definition set_bits (word : Z) (size : nat) : list Z :=
  filter (fun b => Z.testbit word b = true) (map Z.of_nat (seq 0 size)).

(** * User fences: gem/i915_gem_wait_user_fence.c *)

Module UFence.

(** The comparison operators of the uapi, PRELIM_I915_UFENCE_WAIT_*. *)
Inductive ufence_op : Type :=
| WAIT_EQ | WAIT_NEQ | WAIT_GT | WAIT_GTE | WAIT_LT | WAIT_LTE
| WAIT_AFTER | WAIT_BEFORE.

(** [struct ufence_wake], without the task pointer. *)
Record ufence_wake : Type := {
  ptr : Z;      (* void __user *ptr *)
  value : Z;    (* u64 *)
  mask : Z;     (* u64 *)
  width : Z;    (* u16 *)
  op : Z        (* u16 *)
}.

(** User memory: the byte at an address, or nothing where the access
    faults. *)
Definition user_memory : Type := Z -> option Byte.byte.

(** [struct prelim_drm_i915_gem_wait_user_fence]. *)
Record wait_user_fence_arg : Type := {
  extensions : Z;
  addr : Z;
  ctx_id : Z;
  arg_op : Z;
  flags : Z;
  arg_value : Z;
  arg_mask : Z;
  timeout : Z    (* __s64 *)
}.

(** Reading [n] consecutive bytes; a fault on any of them leaves bytes
    uncopied. *)
Fixpoint read_bytes (mem : user_memory) (a : Z) (n : nat)
  : option (list Byte.byte) :=
  match n with
  | O => Some []
  | S k =>
      match mem a, read_bytes mem (a + 1) k with
      | Some b, Some bs => Some (b :: bs)
      | _, _ => None
      end
  end.

(** Little-endian value of a byte string. *)
Fixpoint le_value (bs : list Byte.byte) : Z :=
  match bs with
  | [] => 0
  | b :: r => Z.of_N (Byte.to_N b) + 256 * le_value r
  end.

(** [__copy_from_user_inatomic_nocache(&target, ptr, width)] overwrites
    the low [width] bytes of the 8-byte local [target]; the bytes above
    keep what the stack held ([stale]). *)
Definition copy_into_u64 (stale : Z) (bs : list Byte.byte) : Z :=
  let bits := 8 * Z.of_nat (length bs) in
  u64 (le_value bs + Z.shiftl (Z.shiftr stale bits) bits).

(** The operand width in the words of the interface description: the byte
    count of the smallest power of two that covers the position of the
    mask's highest set bit. *)
Definition is_pow2 (q : Z) : Prop := exists k, 0 <= k /\ q = 2 ^ k.

Definition covering_pow2 (pos p : Z) : Prop :=
  is_pow2 p /\ pos <= p /\ forall q, is_pow2 q -> pos <= q -> p <= q.

Definition operand_width (m w : Z) : Prop :=
  exists p, covering_pow2 (fls64 m) p /\ w = (p + 7) / 8.

Section WithUapi.

(** Constants of the uapi header (i915_drm_prelim.h) and of the kernel
    configuration; the header is not part of these sources.  A [switch]
    over the operator constants is a partial map from codes to cases. *)
Variable ufence_code : Z -> option ufence_op.
Variable PRELIM_I915_UFENCE_WAIT_SOFT : Z.
Variable PRELIM_I915_UFENCE_WAIT_ABSTIME : Z.
Variable PAGE_SHIFT : Z.

(** ufence_compare *)
Definition ufence_compare (mem : user_memory) (stale : Z)
    (wake : ufence_wake) : bool :=
  match read_bytes mem (ptr wake) (Z.to_nat (width wake)) with
  | None => false                       (* remaining != 0 *)
  | Some bs =>
      let target := Z.land (copy_into_u64 stale bs) (mask wake) in
      let value := Z.land (value wake) (mask wake) in
      match ufence_code (op wake) with
      | Some WAIT_EQ => value =? target
      | Some WAIT_NEQ => negb (value =? target)
      | Some WAIT_GT => value <? target
      | Some WAIT_GTE => value <=? target
      | Some WAIT_LT => target <? value
      | Some WAIT_LTE => target <=? value
      | Some WAIT_AFTER =>
          if width wake =? 1 then 0 <? s8 (u64 (target - value))
          else if width wake =? 2 then 0 <? s16 (u64 (target - value))
          else if width wake =? 4 then 0 <? s32 (u64 (target - value))
          else 0 <? s64 (u64 (target - value))
      | Some WAIT_BEFORE =>
          if width wake =? 1 then s8 (u64 (target - value)) <? 0
          else if width wake =? 2 then s16 (u64 (target - value)) <? 0
          else if width wake =? 4 then s32 (u64 (target - value)) <? 0
          else s64 (u64 (target - value)) <? 0
      | None => true
      end
  end.

(** ufence_fault: [get_user] of one byte at the fence address; true when
    the access faults. *)
Definition ufence_fault (mem : user_memory) (wake : ufence_wake) : bool :=
  match mem (ptr wake) with
  | Some _ => false
  | None => true
  end.

(** *** The ioctl *)

(** What the ioctl does to the outside world, in order. *)
Inductive event : Type :=
| EvContextLookup (id : Z)
| EvUserExtensions (ext : Z)
| EvFault (wake : ufence_wake)        (* ufence_fault: get_user *)
| EvCompare (wake : ufence_wake)      (* ufence_compare: copy_from_user *)
| EvAddSoftWait
| EvAddGtWait
| EvSchedule (timeout : Z)            (* io_schedule_timeout *)
| EvRemoveWaits
| EvContextPut.

(** One pass through the body of the wait loop, as the rest of the system
    presents it. *)
Record wakeup : Type := {
  wk_mem : user_memory;        (* memory when the fence is compared *)
  wk_stale : Z;
  wk_signal : bool;            (* signal_pending(wake.tsk) *)
  wk_remaining : Z;            (* result of io_schedule_timeout *)
  wk_fault_mem : user_memory   (* memory when the page is faulted in again *)
}.

Record ioctl_env : Type := {
  ctx_found : bool;            (* i915_gem_context_lookup() != NULL *)
  ext_err : Z;                 (* i915_user_extensions() *)
  mem0 : user_memory;          (* memory at the first fault and compare *)
  stale0 : Z;
  gt_wait_err : Z;             (* add_gt_wait(): 0 or -ENOMEM *)
  wakeups : list wakeup;
  elapsed_ns : Z               (* ktime_sub(ktime_get(), start) *)
}.

Inductive outcome : Type :=
| Ret (err : Z) (timeout' : Z)   (* return value and arg->timeout *)
| Bug                            (* a GEM_BUG_ON fired *)
| Blocked.                       (* still asleep after the last wakeup *)

(** Kernel time conversion, outside these sources. *)
Variable HZ : Z.
Variable MAX_JIFFY_OFFSET : Z.
Variable nsecs_to_jiffies64 : Z -> Z.
Variable nsecs_to_jiffies : Z -> Z.
Variable drm_timeout_abs_to_jiffies : Z -> Z.

Definition NSEC_PER_SEC : Z := 1000000000.
Definition MAX_SCHEDULE_TIMEOUT : Z := 2 ^ 63 - 1.

Definition nsecs_to_jiffies_timeout (n : Z) : Z :=
  if negb (NSEC_PER_SEC mod HZ =? 0) && (MAX_JIFFY_OFFSET / HZ <=? n / NSEC_PER_SEC)
  then MAX_JIFFY_OFFSET
  else Z.min MAX_JIFFY_OFFSET (u64 (nsecs_to_jiffies64 n + 1)).

Definition to_wait_timeout (arg : wait_user_fence_arg) : Z :=
  if negb (Z.land (flags arg) PRELIM_I915_UFENCE_WAIT_ABSTIME =? 0)
  then drm_timeout_abs_to_jiffies (timeout arg)
  else if timeout arg <? 0 then MAX_SCHEDULE_TIMEOUT
  else if timeout arg =? 0 then 0
  else nsecs_to_jiffies_timeout (timeout arg).

(** The [for (;;)] loop of the ioctl; [err] is 0 on entry. *)
Fixpoint wait_loop (wake : ufence_wake) (timeout : Z) (ws : list wakeup)
  : option (Z * list event) :=
  match ws with
  | [] => None
  | w :: rest =>
      if ufence_compare (wk_mem w) (wk_stale w) wake
      then Some (0, [EvCompare wake])
      else if timeout =? 0 then Some (- ETIME, [EvCompare wake])
      else if wk_signal w then Some (- ERESTARTSYS, [EvCompare wake])
      else if ufence_fault (wk_fault_mem w) wake
      then Some (- EFAULT, [EvCompare wake; EvSchedule timeout; EvFault wake])
      else
        match wait_loop wake (wk_remaining w) rest with
        | None => None
        | Some (err, tr) =>
            Some (err, EvCompare wake :: EvSchedule timeout :: EvFault wake :: tr)
        end
  end.

(** The write-back of the remaining time after the loop. *)
Definition update_timeout (arg : wait_user_fence_arg) (elapsed err : Z)
  : Z * Z :=
  if (Z.land (flags arg) PRELIM_I915_UFENCE_WAIT_ABSTIME =? 0) && (0 <? timeout arg)
  then
    let t1 := s64 (timeout arg - elapsed) in
    let t2 := if t1 <? 0 then 0 else t1 in
    let t3 := if (err =? - ETIME) && (nsecs_to_jiffies t2 =? 0) then 0 else t2 in
    let err' := if (err =? - ETIME) && negb (t3 =? 0) then - EAGAIN else err in
    (err', t3)
  else (err, timeout arg).

Definition put_ctx (soft : bool) : list event :=
  if soft then [] else [EvContextPut].

(** i915_gem_wait_user_fence_ioctl *)
Definition i915_gem_wait_user_fence_ioctl (env : ioctl_env)
    (arg : wait_user_fence_arg) : outcome * list event :=
  if negb (Z.land (flags arg)
             (Z.lnot (Z.lor PRELIM_I915_UFENCE_WAIT_SOFT
                            PRELIM_I915_UFENCE_WAIT_ABSTIME)) =? 0)
  then (Ret (- EINVAL) (timeout arg), [])
  else
  match ufence_code (arg_op arg) with
  | None => (Ret (- EINVAL) (timeout arg), [])
  | Some _ =>
  let width0 := u16 (fls64 (arg_mask arg)) in
  if width0 =? 0 then (Ret (- EINVAL) (timeout arg), [])
  else
  (* Restrict the user address to be "naturally" aligned *)
  let width1 := u16 (DIV_ROUND_UP (roundup_pow_of_two width0) 8) in
  if negb (IS_ALIGNED (addr arg) width1) then (Ret (- EINVAL) (timeout arg), [])
  else
  (* Natural alignment means the address cannot cross a page boundary *)
  if negb (Z.shiftr (addr arg) PAGE_SHIFT
           =? Z.shiftr (u64 (addr arg + width1 - 1)) PAGE_SHIFT)
  then (Bug, [])
  else
  let soft := negb (Z.land (flags arg) PRELIM_I915_UFENCE_WAIT_SOFT =? 0) in
  if negb soft && negb (ctx_found env)
  then (Ret (- ENOENT) (timeout arg), [EvContextLookup (ctx_id arg)])
  else
  let lookup := if soft then [] else [EvContextLookup (ctx_id arg)] in
  let wake := {| ptr := addr arg; value := arg_value arg;
                 mask := arg_mask arg; width := width1; op := arg_op arg |} in
  let tr1 := lookup ++ [EvUserExtensions (extensions arg)] in
  if negb (ext_err env =? 0)
  then (Ret (ext_err env) (timeout arg), tr1 ++ put_ctx soft)
  else
  let tr2 := tr1 ++ [EvFault wake] in
  if ufence_fault (mem0 env) wake
  then (Ret (- EFAULT) (timeout arg), tr2 ++ put_ctx soft)
  else
  let tr3 := tr2 ++ [EvCompare wake] in
  if ufence_compare (mem0 env) (stale0 env) wake
  then (Ret 0 (timeout arg), tr3 ++ put_ctx soft)
  else
  let timeout0 := to_wait_timeout arg in
  if timeout0 =? 0
  then (Ret (- ETIME) (timeout arg), tr3 ++ put_ctx soft)
  else
  let tr4 := tr3 ++ [EvAddSoftWait] in
  if negb soft && negb (gt_wait_err env =? 0)
  then (Ret (gt_wait_err env) (timeout arg),
        tr4 ++ [EvAddGtWait; EvRemoveWaits] ++ put_ctx soft)
  else
  let tr5 := tr4 ++ (if soft then [] else [EvAddGtWait]) in
  match wait_loop wake timeout0 (wakeups env) with
  | None => (Blocked, tr5)
  | Some (err, trl) =>
      let '(err', t') := update_timeout arg (elapsed_ns env) err in
      (Ret err' t', tr5 ++ trl ++ [EvRemoveWaits] ++ put_ctx soft)
  end
  end.

(** *** Width and alignment *)

Lemma fls64_range m : 0 < m < 2 ^ 64 -> 1 <= fls64 m <= 64.
Proof.
  intros H. unfold fls64. destruct (Z.eqb_spec m 0); [lia|].
  assert (Z.log2 m < 64) by (apply Z.log2_lt_pow2; lia).
  pose proof (Z.log2_nonneg m). lia.
Qed.

Lemma roundup_pow_of_two_covering n :
  1 <= n -> covering_pow2 n (roundup_pow_of_two n).
Proof.
  intros Hn. unfold roundup_pow_of_two, fls64.
  destruct (Z.eqb_spec (n - 1) 0) as [E|E].
  - rewrite Z.shiftl_0_r. repeat split.
    + exists 0. lia.
    + lia.
    + intros q [k [Hk ->]] _. pose proof (Z.pow_pos_nonneg 2 k). lia.
  - pose proof (Z.log2_nonneg (n - 1)) as Hl.
    destruct (Z.log2_spec (n - 1)) as [Hlo Hhi]; [lia|].
    rewrite Z.shiftl_1_l. repeat split.
    + exists (Z.log2 (n - 1) + 1). lia.
    + replace (Z.succ (Z.log2 (n - 1))) with (Z.log2 (n - 1) + 1) in Hhi by lia.
      lia.
    + intros q [k [Hk ->]] Hq.
      apply Z.pow_le_mono_r; [lia|].
      destruct (Z_lt_le_dec k (Z.log2 (n - 1) + 1)) as [Hlt|]; [|lia].
      assert (2 ^ k <= 2 ^ Z.log2 (n - 1)) by (apply Z.pow_le_mono_r; lia).
      lia.
Qed.

Lemma covering_pow2_unique pos p q :
  covering_pow2 pos p -> covering_pow2 pos q -> p = q.
Proof.
  intros (Hp & Hlp & Hmp) (Hq & Hlq & Hmq).
  specialize (Hmp q Hq Hlq). specialize (Hmq p Hp Hlp). lia.
Qed.

Lemma operand_width_unique m w w' :
  operand_width m w -> operand_width m w' -> w = w'.
Proof.
  intros (p & Hp & ->) (q & Hq & ->).
  now rewrite (covering_pow2_unique _ _ _ Hp Hq).
Qed.

(** The 64 possible bit positions, tabulated. *)
Definition width_table_ok (n : Z) : bool :=
  let w := DIV_ROUND_UP (roundup_pow_of_two n) 8 in
  ((w =? 1) || (w =? 2) || (w =? 4) || (w =? 8))
  && (w =? (roundup_pow_of_two n + 7) / 8).

Lemma width_table : forallb width_table_ok (map Z.of_nat (seq 1 64)) = true.
Proof. vm_compute. reflexivity. Qed.

Lemma width_cases n :
  1 <= n <= 64 ->
  let w := DIV_ROUND_UP (roundup_pow_of_two n) 8 in
  (w = 1 \/ w = 2 \/ w = 4 \/ w = 8) /\ w = (roundup_pow_of_two n + 7) / 8.
Proof.
  intros Hn. pose proof width_table as T.
  rewrite forallb_forall in T. specialize (T n).
  assert (In n (map Z.of_nat (seq 1 64))) as Hin.
  { apply in_map_iff. exists (Z.to_nat n). split; [lia|]. apply in_seq. lia. }
  specialize (T Hin). unfold width_table_ok in T.
  apply andb_true_iff in T. destruct T as [T1 T2].
  repeat rewrite orb_true_iff in T1. cbv zeta. lia.
Qed.

(** The width the ioctl stores in [wake.width]. *)
Definition ioctl_width (m : Z) : Z :=
  u16 (DIV_ROUND_UP (roundup_pow_of_two (u16 (fls64 m))) 8).

Lemma ioctl_width_spec m :
  0 < m < 2 ^ 64 ->
  operand_width m (ioctl_width m) /\
  exists j, 0 <= j <= 3 /\ ioctl_width m = 2 ^ j.
Proof.
  intros Hm. pose proof (fls64_range m Hm) as Hr.
  unfold ioctl_width.
  assert (u16 (fls64 m) = fls64 m) as ->
    by (unfold u16, wrap; apply Z.mod_small; lia).
  destruct (width_cases (fls64 m) Hr) as [Hc Hw]. cbv zeta in Hc, Hw.
  assert (u16 (DIV_ROUND_UP (roundup_pow_of_two (fls64 m)) 8)
          = DIV_ROUND_UP (roundup_pow_of_two (fls64 m)) 8) as ->
    by (unfold u16, wrap; apply Z.mod_small; lia).
  split.
  - exists (roundup_pow_of_two (fls64 m)). split; [|exact Hw].
    apply roundup_pow_of_two_covering. lia.
  - destruct Hc as [E|[E|[E|E]]]; rewrite E;
      [exists 0|exists 1|exists 2|exists 3]; split; (lia || reflexivity).
Qed.

Lemma land_pow2_mod a j : 0 <= j -> Z.land a (2 ^ j - 1) = a mod 2 ^ j.
Proof.
  intros Hj. rewrite <- Z.land_ones by lia. f_equal.
  rewrite Z.ones_equiv. lia.
Qed.

Lemma aligned_same_page a j PS :
  0 <= a < 2 ^ 64 -> 0 <= j <= 3 -> 3 <= PS ->
  a mod 2 ^ j = 0 ->
  u64 (a + 2 ^ j - 1) = a + 2 ^ j - 1 /\
  Z.shiftr a PS = Z.shiftr (a + 2 ^ j - 1) PS.
Proof.
  intros Ha Hj HPS Hal.
  assert (0 < 2 ^ j) by (apply Z.pow_pos_nonneg; lia).
  apply Z.mod_divide in Hal; [|lia]. destruct Hal as [q Hq].
  assert (2 ^ 64 = 2 ^ (64 - j) * 2 ^ j) as E64
    by (rewrite <- Z.pow_add_r by lia; f_equal; lia).
  assert (2 ^ PS = 2 ^ (PS - j) * 2 ^ j) as EPS
    by (rewrite <- Z.pow_add_r by lia; f_equal; lia).
  assert (0 < 2 ^ (PS - j)) by (apply Z.pow_pos_nonneg; lia).
  assert (0 < 2 ^ (64 - j)) by (apply Z.pow_pos_nonneg; lia).
  split.
  - unfold u64, wrap. apply Z.mod_small. subst a.
    assert (q < 2 ^ (64 - j)) by nia.
    assert ((q + 1) * 2 ^ j <= 2 ^ (64 - j) * 2 ^ j)
      by (apply Z.mul_le_mono_nonneg_r; lia).
    nia.
  - rewrite !Z.shiftr_div_pow2 by lia. rewrite EPS.
    rewrite (Z.mul_comm (2 ^ (PS - j))).
    rewrite <- !Z.div_div by lia. f_equal.
    subst a. rewrite Z.div_mul by lia.
    replace (q * 2 ^ j + 2 ^ j - 1) with (q * 2 ^ j + (2 ^ j - 1)) by lia.
    rewrite Z.div_add_l by lia. rewrite Z.div_small by lia. lia.
Qed.

(** Every access to user memory recorded in a trace goes through [wake]. *)
Definition accesses_only (wake : ufence_wake) (tr : list event) : Prop :=
  forall wk, In (EvCompare wk) tr \/ In (EvFault wk) tr -> wk = wake.

Lemma wait_loop_accesses wake ws : forall t err tr,
  wait_loop wake t ws = Some (err, tr) -> accesses_only wake tr.
Proof.
  induction ws as [|w rest IH]; intros t err tr; simpl; [discriminate|].
  destruct (ufence_compare _ _ _);
    [intros [= <- <-]; intros wk [[E|[]]|[E|[]]]; congruence|].
  destruct (t =? 0);
    [intros [= <- <-]; intros wk [[E|[]]|[E|[]]]; congruence|].
  destruct (wk_signal w);
    [intros [= <- <-]; intros wk [[E|[]]|[E|[]]]; congruence|].
  destruct (ufence_fault _ _).
  - intros [= <- <-]. intros wk [H|H]; simpl in H;
      repeat (destruct H as [H|H]; try congruence); contradiction.
  - destruct (wait_loop wake (wk_remaining w) rest) as [[e' tr']|] eqn:E;
      [|discriminate].
    intros [= <- <-]. specialize (IH _ _ _ E).
    intros wk [H|H]; simpl in H.
    + destruct H as [H|[H|[H|H]]]; try congruence. apply IH; now left.
    + destruct H as [H|[H|[H|H]]]; try congruence. apply IH; now right.
Qed.



Lemma accesses_only_app wake tr1 tr2 :
  accesses_only wake tr1 -> accesses_only wake tr2 ->
  accesses_only wake (tr1 ++ tr2).
Proof.
  intros H1 H2 wk [H|H]; apply in_app_or in H; destruct H as [H|H];
    [apply H1|apply H2|apply H1|apply H2]; auto.
Qed.

Lemma accesses_only_put wake soft : accesses_only wake (put_ctx soft).
Proof.
  destruct soft; intros wk [H|H]; simpl in H;
    repeat (destruct H as [H|H]; try discriminate); contradiction.
Qed.

Lemma accesses_only_nil wake : accesses_only wake [].
Proof. intros wk [[]|[]]. Qed.

Lemma accesses_only_cons wake e tr :
  (forall wk, e = EvCompare wk \/ e = EvFault wk -> wk = wake) ->
  accesses_only wake tr -> accesses_only wake (e :: tr).
Proof.
  intros He Htr wk [[H|H]|[H|H]]; try (apply He; auto; fail);
    apply Htr; auto.
Qed.

Ltac accesses :=
  repeat first
    [ apply accesses_only_nil
    | apply accesses_only_put
    | assumption
    | apply accesses_only_app
    | apply accesses_only_cons; [intros ? [?|?]; congruence|]
    | match goal with
      | |- accesses_only _ (if ?c then _ else _) => destruct c
      end ].

(** The checks before the context lookup: what they refuse leaves no
    trace, and what they let through is never a page-crossing operand. *)
Lemma ioctl_alignment_core env arg :
  0 <= arg_mask arg < 2 ^ 64 -> 0 <= addr arg < 2 ^ 64 -> 3 <= PAGE_SHIFT ->
  let r := i915_gem_wait_user_fence_ioctl env arg in
  (arg_mask arg = 0 -> r = (Ret (- EINVAL) (timeout arg), [])) /\
  (forall w, operand_width (arg_mask arg) w -> addr arg mod w <> 0 ->
             r = (Ret (- EINVAL) (timeout arg), [])) /\
  fst r <> Bug /\
  (forall wake, In (EvCompare wake) (snd r) \/ In (EvFault wake) (snd r) ->
     operand_width (arg_mask arg) (width wake) /\
     ptr wake = addr arg /\
     ptr wake mod width wake = 0 /\
     Z.shiftr (ptr wake) PAGE_SHIFT
       = Z.shiftr (ptr wake + width wake - 1) PAGE_SHIFT).
Proof.
  intros Hm Ha HPS r. subst r. unfold i915_gem_wait_user_fence_ioctl.
  cbv zeta. fold (ioctl_width (arg_mask arg)).
  destruct (negb (Z.land (flags arg) _ =? 0));
    [simpl; intuition (try discriminate; auto)|].
  destruct (ufence_code (arg_op arg));
    [|simpl; intuition (try discriminate; auto)].
  destruct (Z.eq_dec (arg_mask arg) 0) as [E0|N0].
  { rewrite E0. simpl. intuition (try discriminate; auto). }
  assert (0 < arg_mask arg < 2 ^ 64) as Hm' by lia.
  pose proof (fls64_range _ Hm') as Hr.
  destruct (ioctl_width_spec _ Hm') as [Hw [j [Hj Ej]]].
  assert ((u16 (fls64 (arg_mask arg)) =? 0) = false) as ->.
  { apply Z.eqb_neq. unfold u16, wrap. rewrite Z.mod_small; lia. }
  unfold IS_ALIGNED.
  destruct (Z.eqb_spec (Z.land (addr arg) (ioctl_width (arg_mask arg) - 1)) 0)
    as [Hal|Hal]; simpl negb; cbv iota.
  2:{ simpl; intuition (try discriminate; auto). }
  rewrite Ej in Hal. rewrite land_pow2_mod in Hal by lia.
  destruct (aligned_same_page _ _ _ Ha Hj HPS Hal) as [Hu Hs].
  rewrite <- Ej in Hal, Hu, Hs.
  rewrite Hu, <- Hs, Z.eqb_refl. simpl negb. cbv iota.
  split; [intros; contradiction|].
  split.
  { intros w Hw' Hn. rewrite (operand_width_unique _ _ _ Hw' Hw) in Hn.
    contradiction. }
  match goal with
  | |- fst ?r <> Bug /\ _ =>
      assert (fst r <> Bug /\
              accesses_only
                {| ptr := addr arg; value := arg_value arg;
                   mask := arg_mask arg;
                   width := ioctl_width (arg_mask arg);
                   op := arg_op arg |} (snd r)) as [Hb Hacc]
  end.
  { repeat match goal with
           | |- context [if ?c then _ else _] =>
               destruct c eqn:?; try (split; [discriminate|simpl snd; accesses])
           end.
    all: destruct (wait_loop _ _ _) as [[err trl]|] eqn:EL;
      [ destruct (update_timeout arg (elapsed_ns env) err) as [err' t'];
        split; [discriminate|]; simpl snd;
        pose proof (wait_loop_accesses _ _ _ _ _ EL); accesses
      | split; [discriminate|simpl snd; accesses] ]. }
  split; [exact Hb|].
  intros wake Hin. rewrite (Hacc wake Hin). simpl. auto.
Qed.

(** What the ioctl does with a request that passed the checks. *)
Lemma ioctl_past_validation env arg :
  0 <= arg_mask arg < 2 ^ 64 -> 0 <= addr arg < 2 ^ 64 -> 3 <= PAGE_SHIFT ->
  Z.land (flags arg)
    (Z.lnot (Z.lor PRELIM_I915_UFENCE_WAIT_SOFT
                   PRELIM_I915_UFENCE_WAIT_ABSTIME)) = 0 ->
  ufence_code (arg_op arg) <> None ->
  arg_mask arg <> 0 ->
  addr arg mod ioctl_width (arg_mask arg) = 0 ->
  let r := i915_gem_wait_user_fence_ioctl env arg in
  let soft := negb (Z.land (flags arg) PRELIM_I915_UFENCE_WAIT_SOFT =? 0) in
  let wake := {| ptr := addr arg; value := arg_value arg;
                 mask := arg_mask arg;
                 width := ioctl_width (arg_mask arg); op := arg_op arg |} in
  if negb soft && negb (ctx_found env)
  then r = (Ret (- ENOENT) (timeout arg), [EvContextLookup (ctx_id arg)])
  else In (EvUserExtensions (extensions arg)) (snd r)
       /\ (ext_err env = 0 -> In (EvFault wake) (snd r)).
Proof.
  intros Hm Ha HPS Hf Hc N0 Hal r soft wake. subst r soft wake.
  unfold i915_gem_wait_user_fence_ioctl.
  cbv zeta. fold (ioctl_width (arg_mask arg)).
  rewrite Hf. cbn [Z.eqb negb].
  destruct (ufence_code (arg_op arg)); [| contradiction].
  assert (0 < arg_mask arg < 2 ^ 64) as Hm' by lia.
  pose proof (fls64_range _ Hm') as Hr.
  destruct (ioctl_width_spec _ Hm') as [Hw [j [Hj Ej]]].
  assert ((u16 (fls64 (arg_mask arg)) =? 0) = false) as ->.
  { apply Z.eqb_neq. unfold u16, wrap. rewrite Z.mod_small; lia. }
  unfold IS_ALIGNED.
  assert (Z.land (addr arg) (ioctl_width (arg_mask arg) - 1) = 0) as ->.
  { rewrite Ej, land_pow2_mod by lia. rewrite <- Ej. exact Hal. }
  cbn [Z.eqb negb].
  rewrite Ej in Hal.
  destruct (aligned_same_page _ _ _ Ha Hj HPS Hal) as [Hu Hs].
  rewrite <- Ej in Hu, Hs.
  rewrite Hu, <- Hs, Z.eqb_refl. cbn [negb].
  destruct (negb (negb (Z.land (flags arg) PRELIM_I915_UFENCE_WAIT_SOFT =? 0))
            && negb (ctx_found env)); [reflexivity |].
  destruct (Z.eqb_spec (ext_err env) 0) as [E0 | NE]; cbn [negb].
  2: { split; [| intros; contradiction].
       cbn [snd]. rewrite !in_app_iff. cbn [In]. intuition auto. }
  repeat match goal with
         | |- context [if ?c then (_, _) else _] => destruct c
         end;
    try (destruct (wait_loop _ _ _) as [[err trl] |];
         [destruct (update_timeout arg (elapsed_ns env) err) as [err' t'] |]);
    cbn [snd]; rewrite <- ?app_assoc;
    repeat match goal with
           | |- context [(?a ++ ?b) ++ ?c] => rewrite <- (app_assoc a b c)
           end;
    (split; [| intros _]); rewrite !in_app_iff; cbn [In]; intuition auto.
Qed.

(** C10.  At the ioctl, a zero mask is refused with -EINVAL; the operand
    width is the byte count of the smallest power of two covering the
    position of the mask's highest set bit; an address that is not a
    multiple of that width is refused with -EINVAL; and every access to
    user memory stays inside one page, so the page-crossing assertion
    never fires.  These checks, with those of the flags and of the
    operator before them, are all that refuses a request with -EINVAL
    before anything is done; a request that passes them, finds its
    context and has its extensions accepted does reach the operand, at
    the address given and with that width. *)
Theorem C10_wait_user_fence_alignment env arg :
  0 <= arg_mask arg < 2 ^ 64 -> 0 <= addr arg < 2 ^ 64 -> 3 <= PAGE_SHIFT ->
  let r := i915_gem_wait_user_fence_ioctl env arg in
  (arg_mask arg = 0 -> r = (Ret (- EINVAL) (timeout arg), [])) /\
  (forall w, operand_width (arg_mask arg) w -> addr arg mod w <> 0 ->
             r = (Ret (- EINVAL) (timeout arg), [])) /\
  fst r <> Bug /\
  (forall wake, In (EvCompare wake) (snd r) \/ In (EvFault wake) (snd r) ->
     operand_width (arg_mask arg) (width wake) /\
     ptr wake = addr arg /\
     ptr wake mod width wake = 0 /\
     Z.shiftr (ptr wake) PAGE_SHIFT
       = Z.shiftr (ptr wake + width wake - 1) PAGE_SHIFT) /\
  (r = (Ret (- EINVAL) (timeout arg), []) <->
     Z.land (flags arg)
       (Z.lnot (Z.lor PRELIM_I915_UFENCE_WAIT_SOFT
                      PRELIM_I915_UFENCE_WAIT_ABSTIME)) <> 0
     \/ ufence_code (arg_op arg) = None
     \/ arg_mask arg = 0
     \/ exists w, operand_width (arg_mask arg) w /\ addr arg mod w <> 0) /\
  (r <> (Ret (- EINVAL) (timeout arg), []) ->
   Z.land (flags arg) PRELIM_I915_UFENCE_WAIT_SOFT <> 0
   \/ ctx_found env = true ->
   ext_err env = 0 ->
   In (EvFault {| ptr := addr arg; value := arg_value arg;
                  mask := arg_mask arg;
                  width := ioctl_width (arg_mask arg); op := arg_op arg |})
      (snd r)).
Proof.
  intros Hm Ha HPS r.
  destruct (ioctl_alignment_core env arg Hm Ha HPS) as (C1 & C2 & C3 & C4).
  fold r in C1, C2, C3, C4.
  assert (Refused :
    Z.land (flags arg)
      (Z.lnot (Z.lor PRELIM_I915_UFENCE_WAIT_SOFT
                     PRELIM_I915_UFENCE_WAIT_ABSTIME)) <> 0
    \/ ufence_code (arg_op arg) = None
    \/ arg_mask arg = 0
    \/ (exists w, operand_width (arg_mask arg) w /\ addr arg mod w <> 0) ->
    r = (Ret (- EINVAL) (timeout arg), [])).
  { intros [Hf | [Hc | [H0 | (w & Hw & Hn)]]].
    - unfold r, i915_gem_wait_user_fence_ioctl.
      destruct (Z.eqb_spec (Z.land (flags arg)
                  (Z.lnot (Z.lor PRELIM_I915_UFENCE_WAIT_SOFT
                                 PRELIM_I915_UFENCE_WAIT_ABSTIME))) 0);
        [contradiction | reflexivity].
    - unfold r, i915_gem_wait_user_fence_ioctl. rewrite Hc.
      destruct (negb _); reflexivity.
    - exact (C1 H0).
    - exact (C2 w Hw Hn). }
  assert (Passed :
    ~ (Z.land (flags arg)
         (Z.lnot (Z.lor PRELIM_I915_UFENCE_WAIT_SOFT
                        PRELIM_I915_UFENCE_WAIT_ABSTIME)) <> 0
       \/ ufence_code (arg_op arg) = None
       \/ arg_mask arg = 0
       \/ (exists w, operand_width (arg_mask arg) w /\ addr arg mod w <> 0)) ->
    if negb (negb (Z.land (flags arg) PRELIM_I915_UFENCE_WAIT_SOFT =? 0))
       && negb (ctx_found env)
    then r = (Ret (- ENOENT) (timeout arg), [EvContextLookup (ctx_id arg)])
    else In (EvUserExtensions (extensions arg)) (snd r)
         /\ (ext_err env = 0 ->
             In (EvFault {| ptr := addr arg; value := arg_value arg;
                            mask := arg_mask arg;
                            width := ioctl_width (arg_mask arg);
                            op := arg_op arg |}) (snd r))).
  { intros Hn.
    assert (Hf : Z.land (flags arg)
                   (Z.lnot (Z.lor PRELIM_I915_UFENCE_WAIT_SOFT
                                  PRELIM_I915_UFENCE_WAIT_ABSTIME)) = 0).
    { destruct (Z.eq_dec (Z.land (flags arg)
                  (Z.lnot (Z.lor PRELIM_I915_UFENCE_WAIT_SOFT
                                 PRELIM_I915_UFENCE_WAIT_ABSTIME))) 0)
        as [E | N]; [exact E | exfalso; apply Hn; auto]. }
    assert (Hc : ufence_code (arg_op arg) <> None)
      by (intros E; apply Hn; auto).
    assert (N0 : arg_mask arg <> 0) by (intros E; apply Hn; auto).
    assert (Hal : addr arg mod ioctl_width (arg_mask arg) = 0).
    { destruct (Z.eq_dec (addr arg mod ioctl_width (arg_mask arg)) 0)
        as [E | N]; [exact E |].
      exfalso. apply Hn. right. right. right.
      exists (ioctl_width (arg_mask arg)). split; [| exact N].
      apply ioctl_width_spec. lia. }
    exact (ioctl_past_validation env arg Hm Ha HPS Hf Hc N0 Hal). }
  split; [exact C1 |]. split; [exact C2 |]. split; [exact C3 |].
  split; [exact C4 |]. split.
  - split; [| exact Refused].
    intros E.
    destruct (Z.eq_dec (Z.land (flags arg)
                (Z.lnot (Z.lor PRELIM_I915_UFENCE_WAIT_SOFT
                               PRELIM_I915_UFENCE_WAIT_ABSTIME))) 0)
      as [Hf | Hf]; [| auto].
    destruct (ufence_code (arg_op arg)) as [c |] eqn:Hc; [| auto].
    destruct (Z.eq_dec (arg_mask arg) 0) as [H0 | N0]; [auto |].
    destruct (Z.eq_dec (addr arg mod ioctl_width (arg_mask arg)) 0)
      as [Hal | Hal].
    2: { right. right. right. exists (ioctl_width (arg_mask arg)).
         split; [apply ioctl_width_spec; lia | exact Hal]. }
    exfalso.
    assert (Hc' : ufence_code (arg_op arg) <> None) by (rewrite Hc; discriminate).
    pose proof (ioctl_past_validation env arg Hm Ha HPS Hf Hc' N0 Hal) as P.
    cbv zeta in P. fold r in P. rewrite E in P.
    destruct (negb _ && negb _); [discriminate P |].
    destruct P as [P _]. exact P.
  - intros NR Hctx He.
    assert (Hn : ~ (Z.land (flags arg)
                      (Z.lnot (Z.lor PRELIM_I915_UFENCE_WAIT_SOFT
                                     PRELIM_I915_UFENCE_WAIT_ABSTIME)) <> 0
                    \/ ufence_code (arg_op arg) = None
                    \/ arg_mask arg = 0
                    \/ (exists w, operand_width (arg_mask arg) w
                                  /\ addr arg mod w <> 0)))
      by (intros H; apply NR, Refused, H).
    specialize (Passed Hn).
    assert (S : negb (negb (Z.land (flags arg) PRELIM_I915_UFENCE_WAIT_SOFT
                             =? 0))
                && negb (ctx_found env) = false).
    { destruct Hctx as [Hs | Hx].
      - destruct (Z.eqb_spec (Z.land (flags arg) PRELIM_I915_UFENCE_WAIT_SOFT) 0);
          [contradiction | reflexivity].
      - rewrite Hx. apply andb_false_r. }
    rewrite S in Passed. apply Passed, He.
Qed.

(** *** The comparison operators *)

Lemma read_bytes_length mem n : forall a bs,
  read_bytes mem a n = Some bs -> length bs = n.
Proof.
  induction n as [|n IH]; intros a bs; simpl.
  - now intros [= <-].
  - destruct (mem a); [|discriminate].
    destruct (read_bytes mem (a + 1) n) eqn:E; [|discriminate].
    intros [= <-]. simpl. f_equal. eauto.
Qed.

Lemma le_value_range bs : 0 <= le_value bs < 2 ^ (8 * Z.of_nat (length bs)).
Proof.
  induction bs as [|b r IH]; [simpl; lia|].
  cbn [le_value length]. pose proof (Byte.to_N_bounded b).
  replace (8 * Z.of_nat (S (length r))) with (8 + 8 * Z.of_nat (length r)) by lia.
  rewrite Z.pow_add_r by lia. change (2 ^ 8) with 256. lia.
Qed.

Lemma mod_mod_pow2 x a b : 0 <= b <= a -> (x mod 2 ^ a) mod 2 ^ b = x mod 2 ^ b.
Proof.
  intros H. replace a with (b + (a - b)) by lia.
  rewrite Z.pow_add_r by lia.
  assert (0 < 2 ^ b) by (apply Z.pow_pos_nonneg; lia).
  assert (0 < 2 ^ (a - b)) by (apply Z.pow_pos_nonneg; lia).
  rewrite Z.rem_mul_r by lia.
  rewrite Z.mul_comm, Z.mod_add by lia. apply Z.mod_mod. lia.
Qed.

(** Under a mask that fits the operand, the stale upper bytes of the
    local do not matter. *)
Lemma masked_target stale bs m :
  0 <= 8 * Z.of_nat (length bs) <= 64 ->
  0 <= m < 2 ^ (8 * Z.of_nat (length bs)) ->
  Z.land (copy_into_u64 stale bs) m = Z.land (le_value bs) m.
Proof.
  intros Hb Hm. unfold copy_into_u64. cbv zeta.
  set (b := 8 * Z.of_nat (length bs)) in *.
  assert (m = Z.land (Z.ones b) m) as Em.
  { rewrite Z.land_comm, Z.land_ones by lia. symmetry. apply Z.mod_small. lia. }
  rewrite Em at 1. rewrite Z.land_assoc. rewrite Z.land_ones by lia.
  unfold u64, wrap. rewrite mod_mod_pow2 by lia.
  rewrite Z.shiftl_mul_pow2 by lia. rewrite Z.mod_add.
  - rewrite Z.mod_small by (apply le_value_range). reflexivity.
  - assert (0 < 2 ^ b) by (apply Z.pow_pos_nonneg; lia). lia.
Qed.

Lemma to_signed_wrap64 bits x :
  0 < bits <= 64 -> to_signed bits (u64 x) = to_signed bits x.
Proof.
  intros H. unfold to_signed, u64, wrap. now rewrite mod_mod_pow2 by lia.
Qed.

Lemma ioctl_width_covers m :
  0 < m < 2 ^ 64 -> m < 2 ^ (8 * ioctl_width m).
Proof.
  intros Hm. destruct (ioctl_width_spec m Hm) as [(p & Hp & Ew) _].
  destruct Hp as ([k [Hk Ep]] & Hle & _).
  assert (m < 2 ^ fls64 m).
  { unfold fls64. destruct (Z.eqb_spec m 0); [lia|].
    destruct (Z.log2_spec m); [lia|].
    replace (Z.log2 m + 1) with (Z.succ (Z.log2 m)) by lia. lia. }
  pose proof (fls64_range m Hm).
  assert (2 ^ fls64 m <= 2 ^ (8 * ioctl_width m)); [|lia].
  apply Z.pow_le_mono_r; [lia|]. rewrite Ew.
  assert (p <= 8 * ((p + 7) / 8)); [|lia].
  pose proof (Z.div_mod (p + 7) 8 ltac:(lia)).
  pose proof (Z.mod_pos_bound (p + 7) 8 ltac:(lia)). lia.
Qed.

(** C9.  On the operand the ioctl set up (its width derived from the
    mask), the eight operators compare the masked memory value [m] with
    the masked supplied value [v]: EQ and NEQ test equality, GT, GTE, LT
    and LTE are the unsigned orders, and AFTER and BEFORE test the sign of
    [m - v] read as a two's-complement number of the operand width; any
    operator code outside the eight makes the ioctl return -EINVAL with no
    access to memory. *)
Theorem C9_ufence_compare_operators mem stale wake bs env arg :
  0 < mask wake < 2 ^ 64 ->
  width wake = ioctl_width (mask wake) ->
  read_bytes mem (ptr wake) (Z.to_nat (width wake)) = Some bs ->
  let m := Z.land (le_value bs) (mask wake) in
  let v := Z.land (value wake) (mask wake) in
  (forall o, ufence_code (op wake) = Some o ->
     ufence_compare mem stale wake =
       match o with
       | WAIT_EQ => m =? v
       | WAIT_NEQ => negb (m =? v)
       | WAIT_GT => v <? m
       | WAIT_GTE => v <=? m
       | WAIT_LT => m <? v
       | WAIT_LTE => m <=? v
       | WAIT_AFTER => 0 <? to_signed (8 * width wake) (m - v)
       | WAIT_BEFORE => to_signed (8 * width wake) (m - v) <? 0
       end) /\
  (ufence_code (arg_op arg) = None ->
   i915_gem_wait_user_fence_ioctl env arg = (Ret (- EINVAL) (timeout arg), [])).
Proof.
  intros Hm Hw Hrd m v. split.
  - intros o Ho. unfold ufence_compare. rewrite Hrd, Ho.
    pose proof (read_bytes_length _ _ _ _ Hrd) as Hlen.
    destruct (ioctl_width_spec _ Hm) as [_ [j [Hj Ej]]].
    pose proof (ioctl_width_covers _ Hm) as Hc.
    rewrite <- Hw in Ej, Hc.
    assert (width wake = 1 \/ width wake = 2 \/ width wake = 4 \/ width wake = 8)
      as Hcases.
    { assert (j = 0 \/ j = 1 \/ j = 2 \/ j = 3) as [-> | [-> | [-> | ->]]] by lia;
        rewrite Ej; auto. }
    assert (Z.of_nat (length bs) = width wake) as Hlz by lia.
    rewrite masked_target by (rewrite Hlz; lia).
    fold m v.
    destruct o; try reflexivity; try apply Z.eqb_sym;
      try (f_equal; apply Z.eqb_sym).
    all: destruct Hcases as [E|[E|[E|E]]]; rewrite E; simpl Z.eqb; cbv iota;
      unfold s8, s16, s32, s64; rewrite to_signed_wrap64 by lia; reflexivity.
  - intros Hn. unfold i915_gem_wait_user_fence_ioctl. rewrite Hn.
    destruct (negb _); reflexivity.
Qed.

(** *** Timeouts *)

(** X1: a relative timeout becomes a number of jiffies as follows: a
    negative one waits for ever, zero does not wait, and a positive one
    waits at least one jiffy and at most MAX_JIFFY_OFFSET. *)
Theorem X1_relative_timeout_in_jiffies (arg : wait_user_fence_arg) :
  Z.land (flags arg) PRELIM_I915_UFENCE_WAIT_ABSTIME = 0 ->
  1 <= MAX_JIFFY_OFFSET ->
  0 <= nsecs_to_jiffies64 (timeout arg) < 2 ^ 64 - 1 ->
  (timeout arg < 0 -> to_wait_timeout arg = MAX_SCHEDULE_TIMEOUT)
  /\ (timeout arg = 0 -> to_wait_timeout arg = 0)
  /\ (0 < timeout arg -> 1 <= to_wait_timeout arg <= MAX_JIFFY_OFFSET).
Proof.
  intros Habs Hmax Hj. unfold to_wait_timeout. rewrite Habs.
  change (0 =? 0) with true. cbn [negb].
  split; [| split].
  - intros H. destruct (Z.ltb_spec (timeout arg) 0); [reflexivity | lia].
  - intros H. rewrite H. reflexivity.
  - intros H.
    destruct (Z.ltb_spec (timeout arg) 0); [lia |].
    destruct (Z.eqb_spec (timeout arg) 0); [lia |].
    unfold nsecs_to_jiffies_timeout.
    destruct (negb (NSEC_PER_SEC mod HZ =? 0)
              && (MAX_JIFFY_OFFSET / HZ <=? timeout arg / NSEC_PER_SEC));
      [lia |].
    assert (E : u64 (nsecs_to_jiffies64 (timeout arg) + 1)
                = nsecs_to_jiffies64 (timeout arg) + 1).
    { unfold u64, wrap. apply Z.mod_small. lia. }
    rewrite E. lia.
Qed.


(** *** What the ioctl leaves behind *)

(** The events of the wait loop: comparisons, sleeps and page faults. *)
Definition loop_event (e : event) : bool :=
  match e with
  | EvCompare _ | EvSchedule _ | EvFault _ => true
  | _ => false
  end.

Lemma wait_loop_events (wake : ufence_wake) (ws : list wakeup) :
  forall t err tr,
    wait_loop wake t ws = Some (err, tr) -> forallb loop_event tr = true.
Proof.
  induction ws as [| w rest IH]; intros t err tr; cbn [wait_loop];
    [discriminate |].
  destruct (ufence_compare _ _ _); [intros [= <- <-]; reflexivity |].
  destruct (t =? 0); [intros [= <- <-]; reflexivity |].
  destruct (wk_signal w); [intros [= <- <-]; reflexivity |].
  destruct (ufence_fault _ _); [intros [= <- <-]; reflexivity |].
  destruct (wait_loop wake (wk_remaining w) rest) as [[e1 tr1] |] eqn:E;
    [| discriminate].
  intros [= <- <-]. cbn [forallb loop_event andb]. exact (IH _ _ _ E).
Qed.

(** How often an event of a kind occurs in a trace. *)
Definition occurrences (kind : event -> bool) (tr : list event) : nat :=
  length (List.filter kind tr).

Lemma occurrences_app (kind : event -> bool) (tr1 tr2 : list event) :
  occurrences kind (tr1 ++ tr2)
  = (occurrences kind tr1 + occurrences kind tr2)%nat.
Proof.
  unfold occurrences. rewrite List.filter_app, length_app. reflexivity.
Qed.

Lemma occurrences_cons (kind : event -> bool) (e : event)
  (tr : list event) :
  occurrences kind (e :: tr)
  = ((if kind e then 1 else 0) + occurrences kind tr)%nat.
Proof. unfold occurrences. cbn [List.filter]. destruct (kind e); reflexivity. Qed.

Lemma occurrences_loop (kind : event -> bool) (tr : list event) :
  (forall e, loop_event e = true -> kind e = false) ->
  forallb loop_event tr = true -> occurrences kind tr = 0%nat.
Proof.
  intros Hk. induction tr as [| e r IH]; [reflexivity |].
  cbn [forallb]. intros H. apply andb_prop in H. destruct H as [He Hr].
  unfold occurrences in *. cbn [List.filter]. rewrite (Hk e He).
  exact (IH Hr).
Qed.

Definition is_add_soft_wait (e : event) : bool :=
  match e with EvAddSoftWait => true | _ => false end.

Definition is_remove_waits (e : event) : bool :=
  match e with EvRemoveWaits => true | _ => false end.

Definition is_context_lookup (e : event) : bool :=
  match e with EvContextLookup _ => true | _ => false end.

Definition is_context_put (e : event) : bool :=
  match e with EvContextPut => true | _ => false end.

Definition is_schedule (e : event) : bool :=
  match e with EvSchedule _ => true | _ => false end.

(** The operand the ioctl waits on. *)
Definition ioctl_wake (arg : wait_user_fence_arg) : ufence_wake :=
  {| ptr := addr arg; value := arg_value arg; mask := arg_mask arg;
     width := ioctl_width (arg_mask arg); op := arg_op arg |}.

(** The ioctl case by case: every way out of it, with the trace it
    leaves. *)
Ltac ioctl_cases :=
  unfold i915_gem_wait_user_fence_ioctl; cbv zeta;
  repeat match goal with
         | |- context [match ufence_code ?c with _ => _ end] =>
             destruct (ufence_code c) eqn:?
         | |- context [if ?c then _ else _] => destruct c eqn:?
         | |- context [match wait_loop ?a ?b ?c with _ => _ end] =>
             destruct (wait_loop a b c) as [[? ?] |] eqn:?
         | |- context [let '(_, _) := update_timeout ?a ?b ?c in _] =>
             destruct (update_timeout a b c) as [? ?] eqn:?
         end.

(** X3: whenever the ioctl returns, the waits it added have been removed
    and the context it looked up has been put: in its trace the removals
    equal the additions, and there is one put exactly when the lookup
    found a context, and none without a lookup. *)
Theorem X3_waits_removed_context_put (env : ioctl_env)
  (arg : wait_user_fence_arg) (err t1 : Z) (tr : list event) :
  i915_gem_wait_user_fence_ioctl env arg = (Ret err t1, tr) ->
  occurrences is_remove_waits tr = occurrences is_add_soft_wait tr
  /\ (occurrences is_context_lookup tr <= 1)%nat
  /\ occurrences is_context_put tr
     = (if ctx_found env then occurrences is_context_lookup tr else 0%nat).
Proof.
  ioctl_cases; intros [= <- <- <-];
    repeat (rewrite occurrences_cons || rewrite occurrences_app);
    repeat match goal with
           | H : wait_loop _ _ _ = Some (_, ?l) |- _ =>
               pose proof (wait_loop_events _ _ _ _ _ H) as Hloop;
               rewrite (occurrences_loop is_remove_waits l),
                 (occurrences_loop is_add_soft_wait l),
                 (occurrences_loop is_context_lookup l),
                 (occurrences_loop is_context_put l)
                 by (try exact Hloop; intros []; cbn; congruence);
               clear H
           end;
    repeat match goal with
           | H : negb _ = _ |- _ => apply (f_equal negb) in H;
                                    rewrite negb_involutive in H; cbn in H
           | H : _ && _ = true |- _ => apply andb_prop in H; destruct H
           end;
    repeat match goal with
           | H : ctx_found env = _ |- _ => rewrite H in *
           end;
    cbn; try (repeat split; (reflexivity || lia)).
Qed.



Lemma not_in_occurrences (kind : event -> bool) (e : event)
  (tr : list event) :
  kind e = true -> occurrences kind tr = 0%nat -> ~ In e tr.
Proof.
  intros Hk. induction tr as [| x r IH]; [intros _ [] |].
  rewrite occurrences_cons. intros H [E | Hin].
  - subst x. rewrite Hk in H. discriminate H.
  - apply IH; [| exact Hin]. destruct (kind x); [discriminate H | exact H].
Qed.

(** X2: when the timeout amounts to no jiffies the ioctl is a poll: it
    returns without having added a wait or slept, and leaves the timeout
    of the argument as it was. *)
Theorem X2_zero_timeout_polls (env : ioctl_env) (arg : wait_user_fence_arg) :
  to_wait_timeout arg = 0 ->
  let r := i915_gem_wait_user_fence_ioctl env arg in
  fst r <> Blocked
  /\ occurrences is_add_soft_wait (snd r) = 0%nat
  /\ occurrences is_schedule (snd r) = 0%nat
  /\ (forall err t1, fst r = Ret err t1 -> t1 = timeout arg).
Proof.
  intros H0 r. subst r.
  unfold i915_gem_wait_user_fence_ioctl. cbv zeta. rewrite H0.
  change (0 =? 0) with true. cbv iota.
  repeat match goal with
         | |- context [match ufence_code ?c with _ => _ end] =>
             destruct (ufence_code c) eqn:?
         | |- context [if ?c then _ else _] => destruct c eqn:?
         end;
    cbn [fst snd];
    repeat (rewrite occurrences_cons || rewrite occurrences_app);
    cbn;
    (split; [discriminate |]);
    (split; [reflexivity |]);
    (split; [reflexivity |]);
    intros err t1 E; congruence.
Qed.

(** *** When the ioctl reports success *)

Lemma wait_loop_success (wake : ufence_wake) (ws : list wakeup) :
  forall t tr,
    wait_loop wake t ws = Some (0, tr) ->
    exists w, In w ws /\ ufence_compare (wk_mem w) (wk_stale w) wake = true.
Proof.
  induction ws as [| w rest IH]; intros t tr; cbn [wait_loop];
    [discriminate |].
  destruct (ufence_compare (wk_mem w) (wk_stale w) wake) eqn:C.
  { intros _. exists w. split; [left; reflexivity | exact C]. }
  destruct (t =? 0); [intros [= E]; discriminate E |].
  destruct (wk_signal w); [intros [= E]; discriminate E |].
  destruct (ufence_fault _ _); [intros [= E]; discriminate E |].
  destruct (wait_loop wake (wk_remaining w) rest) as [[e1 tr1] |] eqn:E;
    [| discriminate].
  intros [= -> <-]. destruct (IH _ _ E) as [w1 [Hin Hc]].
  exists w1. split; [right; exact Hin | exact Hc].
Qed.

Lemma update_timeout_success (arg : wait_user_fence_arg) (elapsed err : Z)
  (t1 : Z) :
  update_timeout arg elapsed err = (0, t1) -> err = 0.
Proof.
  unfold update_timeout.
  destruct ((Z.land (flags arg) PRELIM_I915_UFENCE_WAIT_ABSTIME =? 0)
            && (0 <? timeout arg)); [| intros [= -> _]; reflexivity].
  cbv zeta.
  match goal with
  | |- ((if ?c then _ else _), _) = _ -> _ => destruct c
  end; intros [= E _];
    first [exact E | exfalso; unfold EAGAIN in E; lia].
Qed.

Lemma ret_inj (a b c d : Z) : Ret a b = Ret c d -> a = c /\ b = d.
Proof. intros H. inversion H. split; reflexivity. Qed.

(** X5: the ioctl reports success only when a comparison of the fence
    held: the one made on entry, or the one made at some wakeup. *)
Theorem X5_success_means_fence_seen (env : ioctl_env)
  (arg : wait_user_fence_arg) (t1 : Z) (tr : list event) :
  i915_gem_wait_user_fence_ioctl env arg = (Ret 0 t1, tr) ->
  ufence_compare (mem0 env) (stale0 env) (ioctl_wake arg) = true
  \/ exists w, In w (wakeups env)
       /\ ufence_compare (wk_mem w) (wk_stale w) (ioctl_wake arg) = true.
Proof.
  unfold ioctl_wake, ioctl_width.
  ioctl_cases; intros E; apply (f_equal fst) in E; cbn [fst] in E;
    try discriminate E;
    apply ret_inj in E; destruct E as [E1 E2];
    repeat match goal with
           | H : negb (?x =? 0) = true |- _ =>
               apply negb_true_iff, Z.eqb_neq in H
           | H : _ && _ = true |- _ => apply andb_prop in H; destruct H
           end;
    try discriminate; try congruence; try (left; reflexivity).
  all: match goal with
       | H : update_timeout _ _ ?e = (_, _) |- _ =>
           rewrite E1 in H; apply update_timeout_success in H; subst e
       end.
  all: match goal with
       | H : wait_loop _ _ _ = Some (0, _) |- _ =>
           right; exact (wait_loop_success _ _ _ _ H)
       end.
Qed.

(** *** The list of engine waits *)

(** What the wait list does to the outside world. *)
Inductive wait_op : Type :=
| OpAddWaitQueue                    (* add_wait_queue(&i915->user_fence_wq) *)
| OpRemoveWaitQueue                 (* remove_wait_queue(...) *)
| OpKmalloc (ok : bool)
| OpBreadcrumbsAddWait (b : Z)      (* intel_breadcrumbs_add_wait *)
| OpBreadcrumbsRemoveWait (b : Z)   (* intel_breadcrumbs_remove_wait *)
| OpKfree (b : Z).                  (* kfree of the wait on [b] *)

(** The chain of [struct engine_wait] behind [wait.next], each node given
    by its breadcrumbs, first node first. *)
Definition wait_chain : Type := list Z.

(** wait_exists *)
Fixpoint wait_exists (wait : wait_chain) (b : Z) : bool :=
  match wait with
  | [] => false
  | b1 :: next => if b1 =? b then true else wait_exists next b
  end.

(** add_engine_wait over the engines of [engine->mask], each given by its
    breadcrumbs, if it has any.  [kmalloc n] tells whether the allocation
    number [n] succeeds; [n] counts the allocations made. *)
Fixpoint add_engine_wait (kmalloc : nat -> bool) (engines : list (option Z))
  (head : wait_chain) (n : nat) : Z * wait_chain * nat * list wait_op :=
  match engines with
  | [] => (0, head, n, [])
  | None :: rest => add_engine_wait kmalloc rest head n
  | Some b :: rest =>
      if wait_exists head b       (* O(N^2), hopefully small N *)
      then add_engine_wait kmalloc rest head n
      else if negb (kmalloc n)
      then (- ENOMEM, head, S n, [OpKmalloc false])
      else
        let '(err, head1, n1, ops) :=
          add_engine_wait kmalloc rest (b :: head) (S n) in
        (err, head1, n1, OpKmalloc true :: OpBreadcrumbsAddWait b :: ops)
  end.

(** add_gt_wait over the engines of the context. *)
Fixpoint add_gt_wait (kmalloc : nat -> bool)
  (ctx_engines : list (list (option Z))) (head : wait_chain) (n : nat)
  : Z * wait_chain * nat * list wait_op :=
  match ctx_engines with
  | [] => (0, head, n, [])
  | engine :: rest =>
      let '(err, head1, n1, ops1) := add_engine_wait kmalloc engine head n in
      if negb (err =? 0) then (err, head1, n1, ops1)
      else
        let '(err2, head2, n2, ops2) := add_gt_wait kmalloc rest head1 n1 in
        (err2, head2, n2, ops1 ++ ops2)
  end.

(** remove_waits on the wait of the ioctl, whose [next] is the chain. *)
Definition remove_waits (next : wait_chain) : list wait_op :=
  OpRemoveWaitQueue
  :: flat_map (fun b => [OpBreadcrumbsRemoveWait b; OpKfree b]) next.

(** The waits of the ioctl from [add_soft_wait] to [remove_waits]; a
    failure of add_gt_wait goes to [out_wait] all the same. *)
Definition ioctl_waits (kmalloc : nat -> bool)
  (ctx_engines : option (list (list (option Z)))) : Z * list wait_op :=
  match ctx_engines with
  | None => (0, OpAddWaitQueue :: remove_waits [])
  | Some engines =>
      let '(err, next, _, ops) := add_gt_wait kmalloc engines [] 0 in
      (err, OpAddWaitQueue :: ops ++ remove_waits next)
  end.

Lemma wait_exists_in (wait : wait_chain) (b : Z) :
  wait_exists wait b = true <-> In b wait.
Proof.
  induction wait as [| b1 next IH]; cbn [wait_exists In].
  - split; [discriminate | intros []].
  - destruct (Z.eqb_spec b1 b) as [E | N].
    + split; [intros _; left; exact E | reflexivity].
    + rewrite IH. split; [intros H; right; exact H |].
      intros [E | H]; [contradiction | exact H].
Qed.

(** The nodes added and the memory allocated, going by the operations. *)
Fixpoint added (ops : list wait_op) : list Z :=
  match ops with
  | [] => []
  | OpBreadcrumbsAddWait b :: rest => b :: added rest
  | _ :: rest => added rest
  end.

Fixpoint removed (ops : list wait_op) : list Z :=
  match ops with
  | [] => []
  | OpBreadcrumbsRemoveWait b :: rest => b :: removed rest
  | _ :: rest => removed rest
  end.

Fixpoint allocated (ops : list wait_op) : nat :=
  match ops with
  | [] => 0
  | OpKmalloc true :: rest => S (allocated rest)
  | _ :: rest => allocated rest
  end.

Fixpoint freed (ops : list wait_op) : nat :=
  match ops with
  | [] => 0
  | OpKfree _ :: rest => S (freed rest)
  | _ :: rest => freed rest
  end.

Lemma added_app (a b : list wait_op) : added (a ++ b) = added a ++ added b.
Proof.
  induction a as [| [] r IH]; cbn [app added]; try exact IH.
  - reflexivity.
  - rewrite IH. reflexivity.
Qed.

Lemma removed_app (a b : list wait_op) :
  removed (a ++ b) = removed a ++ removed b.
Proof.
  induction a as [| [] r IH]; cbn [app removed]; try exact IH.
  - reflexivity.
  - rewrite IH. reflexivity.
Qed.

Lemma allocated_app (a b : list wait_op) :
  allocated (a ++ b) = (allocated a + allocated b)%nat.
Proof.
  induction a as [| [| | [] | | |] r IH]; cbn [app allocated]; try exact IH.
  - reflexivity.
  - rewrite IH. reflexivity.
Qed.

Lemma freed_app (a b : list wait_op) :
  freed (a ++ b) = (freed a + freed b)%nat.
Proof.
  induction a as [| [] r IH]; cbn [app freed]; try exact IH.
  - reflexivity.
  - rewrite IH. reflexivity.
Qed.

Definition is_queue_op (o : wait_op) : bool :=
  match o with
  | OpAddWaitQueue | OpRemoveWaitQueue => true
  | _ => false
  end.

(** What add_engine_wait and add_gt_wait keep: the chain stays free of
    duplicates, it is the old chain with the added nodes in front, newest
    first, one allocation each, and on success it holds the breadcrumbs
    of every engine. *)
Record chain_grown (head : wait_chain) (err : Z) (head1 : wait_chain)
  (ops : list wait_op) : Prop := {
  grown_nodup : List.NoDup head -> List.NoDup head1;
  grown_chain : head1 = rev (added ops) ++ head;
  grown_alloc : allocated ops = length (added ops);
  grown_clean : removed ops = [] /\ freed ops = 0%nat;
  grown_queue : List.filter is_queue_op ops = [];
  grown_err : err = 0 \/ err = - ENOMEM
}.

Lemma add_engine_wait_grows (kmalloc : nat -> bool)
  (engines : list (option Z)) :
  forall head n,
    let r := add_engine_wait kmalloc engines head n in
    chain_grown head (fst (fst (fst r))) (snd (fst (fst r))) (snd r)
    /\ (fst (fst (fst r)) = 0 ->
        forall b, In (Some b) engines -> In b (snd (fst (fst r)))).
Proof.
  induction engines as [| [b |] rest IH]; intros head n;
    cbn [add_engine_wait].
  - cbn. split; [| intros _ b []].
    split; auto; repeat split.
  - destruct (wait_exists head b) eqn:Ex.
    + destruct (IH head n) as [G C]. split; [exact G |].
      intros E b1 [H | H]; [| exact (C E b1 H)].
      injection H as <-. destruct G as [_ Gc _ _ _ _]. rewrite Gc.
      apply in_or_app. right. apply wait_exists_in. exact Ex.
    + destruct (kmalloc n); cbn [negb].
      * specialize (IH (b :: head) (S n)).
        destruct (add_engine_wait kmalloc rest (b :: head) (S n))
          as [[[err head1] n1] ops].
        cbn [fst snd] in *. destruct IH as [[Gn Gc Ga [Gr Gf] Gq Ge] C].
        split.
        -- split.
           ++ intros Hn. apply Gn. apply List.NoDup_cons; [| exact Hn].
              intros Hin. apply wait_exists_in in Hin. congruence.
           ++ cbn [added rev]. rewrite <- app_assoc. exact Gc.
           ++ cbn [allocated added length]. rewrite Ga. reflexivity.
           ++ cbn [removed freed]. split; assumption.
           ++ cbn [List.filter is_queue_op]. exact Gq.
           ++ exact Ge.
        -- intros E b1 [H | H]; [| exact (C E b1 H)].
           injection H as <-. rewrite Gc. apply in_or_app. right.
           left. reflexivity.
      * cbn [fst snd]. split; [| intros E; unfold ENOMEM in E; lia].
        split; auto; repeat split.
  - destruct (IH head n) as [G C]. split; [exact G |].
    intros E b [H | H]; [discriminate H | exact (C E b H)].
Qed.

Lemma add_gt_wait_grows (kmalloc : nat -> bool)
  (ctx_engines : list (list (option Z))) :
  forall head n,
    let r := add_gt_wait kmalloc ctx_engines head n in
    chain_grown head (fst (fst (fst r))) (snd (fst (fst r))) (snd r)
    /\ (fst (fst (fst r)) = 0 ->
        forall engine b, In engine ctx_engines -> In (Some b) engine ->
                         In b (snd (fst (fst r)))).
Proof.
  induction ctx_engines as [| engine rest IH]; intros head n;
    cbn [add_gt_wait].
  - cbn. split; [| intros _ e b []].
    split; auto; repeat split.
  - pose proof (add_engine_wait_grows kmalloc engine head n) as H1.
    destruct (add_engine_wait kmalloc engine head n)
      as [[[err head1] n1] ops1].
    cbn [fst snd] in H1. destruct H1 as [[Gn Gc Ga [Gr Gf] Gq Ge] C].
    destruct (Z.eqb_spec err 0) as [E0 | N0]; cbn [negb].
    + specialize (IH head1 n1).
      destruct (add_gt_wait kmalloc rest head1 n1)
        as [[[err2 head2] n2] ops2].
      cbn [fst snd] in *. destruct IH as [[Hn Hc Ha [Hr Hf] Hq He] C2].
      split.
      * split.
        -- intros Hnd. apply Hn, Gn, Hnd.
        -- rewrite added_app, rev_app_distr, <- app_assoc, <- Gc. exact Hc.
        -- rewrite allocated_app, added_app, length_app, Ga, Ha.
           reflexivity.
        -- rewrite removed_app, freed_app, Gr, Hr, Gf, Hf. split; reflexivity.
        -- rewrite List.filter_app, Gq, Hq. reflexivity.
        -- exact He.
      * intros E e b [<- | Hin] Hb.
        -- rewrite Hc. apply in_or_app. right. exact (C E0 b Hb).
        -- exact (C2 E e b Hin Hb).
    + cbn [fst snd]. split; [| intros E; contradiction].
      split; auto.
Qed.

(** X6: add_gt_wait never waits twice on the same breadcrumbs: from a
    chain without duplicates it gives one without, with the old chain at
    its end; it fails only for want of memory, and when it succeeds the
    chain holds the breadcrumbs of every engine of the context. *)
Theorem X6_engine_waits_without_duplicates (kmalloc : nat -> bool)
  (ctx_engines : list (list (option Z))) (head : wait_chain) (n : nat) :
  List.NoDup head ->
  let r := add_gt_wait kmalloc ctx_engines head n in
  let err := fst (fst (fst r)) in
  let head1 := snd (fst (fst r)) in
  List.NoDup head1
  /\ (exists front, head1 = front ++ head)
  /\ (err = 0 \/ err = - ENOMEM)
  /\ (err = 0 ->
      forall engine b, In engine ctx_engines -> In (Some b) engine ->
                       In b head1).
Proof.
  intros Hnd r err head1.
  destruct (add_gt_wait_grows kmalloc ctx_engines head n)
    as [[Gn Gc _ _ _ Ge] C].
  fold r in Gn, Gc, Ge, C.
  split; [exact (Gn Hnd) |].
  split; [exists (rev (added (snd r))); exact Gc |].
  split; [exact Ge | exact C].
Qed.

Lemma remove_waits_removes (next : wait_chain) :
  removed (remove_waits next) = next
  /\ freed (remove_waits next) = length next
  /\ added (remove_waits next) = []
  /\ allocated (remove_waits next) = 0%nat
  /\ List.filter is_queue_op (remove_waits next) = [OpRemoveWaitQueue].
Proof.
  unfold remove_waits. cbn [removed freed added allocated List.filter
                            is_queue_op].
  induction next as [| b r [IH1 [IH2 [IH3 [IH4 IH5]]]]];
    cbn [flat_map app removed freed added allocated length List.filter
         is_queue_op].
  - repeat split.
  - rewrite IH1, IH2. repeat split; assumption.
Qed.

(** X7: in the ioctl the waits are taken down as they were put up,
    whether add_gt_wait succeeded or ran out of memory: the breadcrumbs
    waits removed are those added, the last added first and none twice,
    every allocation is freed, and the wait on the queue of the device is
    added once and removed once. *)
Theorem X7_waits_put_up_are_taken_down (kmalloc : nat -> bool)
  (ctx_engines : option (list (list (option Z)))) :
  let ops := snd (ioctl_waits kmalloc ctx_engines) in
  removed ops = rev (added ops)
  /\ List.NoDup (added ops)
  /\ freed ops = allocated ops
  /\ List.filter is_queue_op ops = [OpAddWaitQueue; OpRemoveWaitQueue].
Proof.
  unfold ioctl_waits. destruct ctx_engines as [engines |].
  - destruct (add_gt_wait_grows kmalloc engines [] 0)
      as [[Gn Gc Ga [Gr Gf] Gq _] _].
    destruct (add_gt_wait kmalloc engines [] 0) as [[[err next] n1] ops].
    cbn [fst snd] in *. rewrite app_nil_r in Gc.
    destruct (remove_waits_removes next) as [R1 [R2 [R3 [R4 R5]]]].
    cbn [removed added freed allocated List.filter is_queue_op].
    rewrite removed_app, added_app, freed_app, allocated_app,
      List.filter_app.
    rewrite Gr, Gf, Gq, R1, R2, R3, R4, R5, app_nil_r, Ga. cbn [app].
    split; [exact Gc |].
    split.
    { specialize (Gn (List.NoDup_nil Z)). rewrite Gc in Gn.
      apply List.NoDup_rev in Gn. rewrite rev_involutive in Gn. exact Gn. }
    split; [rewrite Gc, length_rev; cbn; lia | reflexivity].
  - cbn. repeat split. apply List.NoDup_nil.
Qed.
End WithUapi.

(** *** A worked instance *)

(** One numbering of the operators and flags, with 4 KiB pages. *)
Definition sample_code (c : Z) : option ufence_op :=
  nth_error [WAIT_EQ; WAIT_NEQ; WAIT_GT; WAIT_GTE; WAIT_LT; WAIT_LTE;
             WAIT_BEFORE; WAIT_AFTER] (Z.to_nat c).

Definition sample_soft : Z := 2 ^ 15.
Definition sample_abstime : Z := 1.

(** A 16-bit fence at 0x1000 holding 0xfffe; the rest of memory faults. *)
Definition sample_mem : user_memory := fun a =>
  if a =? 4096 then Some Byte.xfe
  else if a =? 4097 then Some Byte.xff
  else None.

Definition sample_wake : ufence_wake :=
  {| ptr := 4096; value := 3; mask := 65535; width := 2; op := 7 |}.

Definition sample_arg : wait_user_fence_arg :=
  {| extensions := 0; addr := 4096; ctx_id := 0; arg_op := 9;
     flags := sample_soft; arg_value := 3; arg_mask := 65535; timeout := 0 |}.

Definition sample_env : ioctl_env :=
  {| ctx_found := true; ext_err := 0; mem0 := sample_mem; stale0 := 0;
     gt_wait_err := 0; wakeups := []; elapsed_ns := 0 |}.

(** 0xfffe is "before" 3 in 16-bit sequence arithmetic although it is the
    larger number. *)
Example sample_after :
  ufence_compare sample_code sample_mem 0 sample_wake = false.
Proof. reflexivity. Qed.

Example sample_gt :
  ufence_compare sample_code sample_mem 0
    {| ptr := 4096; value := 3; mask := 65535; width := 2; op := 2 |} = true.
Proof. reflexivity. Qed.

Lemma C9_ufence_compare_operators_witness :
  0 < mask sample_wake < 2 ^ 64 /\
  width sample_wake = ioctl_width (mask sample_wake) /\
  read_bytes sample_mem (ptr sample_wake) (Z.to_nat (width sample_wake))
    = Some [Byte.xfe; Byte.xff] /\
  ufence_compare sample_code sample_mem 0 sample_wake
    = (0 <? to_signed 16 (65534 - 3)) /\
  i915_gem_wait_user_fence_ioctl sample_code sample_soft sample_abstime 12
      1000 (2 ^ 62) (fun n => n / 1000000) (fun n => n / 1000000) (fun n => n)
      sample_env sample_arg
    = (Ret (- EINVAL) 0, []).
Proof.
  assert (0 < mask sample_wake < 2 ^ 64) as H1 by (simpl; lia).
  assert (width sample_wake = ioctl_width (mask sample_wake)) as H2
    by reflexivity.
  assert (read_bytes sample_mem (ptr sample_wake)
            (Z.to_nat (width sample_wake)) = Some [Byte.xfe; Byte.xff]) as H3
    by reflexivity.
  destruct (C9_ufence_compare_operators sample_code sample_soft sample_abstime
              12 1000 (2 ^ 62) (fun n => n / 1000000) (fun n => n / 1000000)
              (fun n => n) sample_mem 0 sample_wake [Byte.xfe; Byte.xff]
              sample_env sample_arg H1 H2 H3) as [Hc Hi].
  exact (conj H1 (conj H2 (conj H3
           (conj (Hc WAIT_AFTER eq_refl) (Hi eq_refl))))).
Defined.

(** A valid request on the 16-bit fence, which polls it once, and the
    same request one byte further on, which is refused. *)
Definition aligned_arg : wait_user_fence_arg :=
  {| extensions := 0; addr := 4096; ctx_id := 0; arg_op := 7;
     flags := sample_soft; arg_value := 3; arg_mask := 65535; timeout := 0 |}.

Definition misaligned_arg : wait_user_fence_arg :=
  {| extensions := 0; addr := 4097; ctx_id := 0; arg_op := 7;
     flags := sample_soft; arg_value := 3; arg_mask := 65535; timeout := 0 |}.

Example aligned_request_polls :
  i915_gem_wait_user_fence_ioctl sample_code sample_soft sample_abstime 12
    1000 (2 ^ 62) (fun n => n / 1000000) (fun n => n / 1000000) (fun n => n)
    sample_env aligned_arg
  = (Ret (- ETIME) 0,
     [EvUserExtensions 0; EvFault sample_wake; EvCompare sample_wake]).
Proof. reflexivity. Qed.

Lemma C10_wait_user_fence_alignment_witness :
  In (EvFault sample_wake)
    (snd (i915_gem_wait_user_fence_ioctl sample_code sample_soft
            sample_abstime 12 1000 (2 ^ 62) (fun n => n / 1000000)
            (fun n => n / 1000000) (fun n => n) sample_env aligned_arg)) /\
  operand_width (arg_mask aligned_arg) (width sample_wake) /\
  ptr sample_wake mod width sample_wake = 0 /\
  Z.shiftr (ptr sample_wake) 12
    = Z.shiftr (ptr sample_wake + width sample_wake - 1) 12 /\
  i915_gem_wait_user_fence_ioctl sample_code sample_soft sample_abstime 12
    1000 (2 ^ 62) (fun n => n / 1000000) (fun n => n / 1000000) (fun n => n)
    sample_env misaligned_arg
  = (Ret (- EINVAL) 0, []).
Proof.
  assert (0 <= arg_mask aligned_arg < 2 ^ 64) as H1 by (simpl; lia).
  assert (0 <= addr aligned_arg < 2 ^ 64) as H2 by (simpl; lia).
  assert (0 <= addr misaligned_arg < 2 ^ 64) as H2' by (simpl; lia).
  assert (3 <= 12) as H3 by lia.
  pose proof (C10_wait_user_fence_alignment sample_code sample_soft
                sample_abstime 12 1000 (2 ^ 62) (fun n => n / 1000000)
                (fun n => n / 1000000) (fun n => n) sample_env aligned_arg
                H1 H2 H3) as A.
  pose proof (C10_wait_user_fence_alignment sample_code sample_soft
                sample_abstime 12 1000 (2 ^ 62) (fun n => n / 1000000)
                (fun n => n / 1000000) (fun n => n) sample_env
                misaligned_arg H1 H2' H3) as M.
  cbv zeta in A, M.
  destruct A as (_ & _ & _ & Page & _ & Reached).
  destruct M as (_ & Refused & _).
  assert (In (EvFault sample_wake)
            (snd (i915_gem_wait_user_fence_ioctl sample_code sample_soft
                    sample_abstime 12 1000 (2 ^ 62) (fun n => n / 1000000)
                    (fun n => n / 1000000) (fun n => n) sample_env
                    aligned_arg))) as Hin.
  { apply Reached.
    - discriminate.
    - left. vm_compute. discriminate.
    - reflexivity. }
  destruct (Page sample_wake (or_intror Hin)) as (W & _ & Al & Pg).
  split; [exact Hin |]. split; [exact W |]. split; [exact Al |].
  split; [exact Pg |].
  apply (Refused (width sample_wake) W). vm_compute. discriminate.
Defined.


(** *** A wait that is woken once *)

(** The fence reads 0 on entry and 0xfffe at the wakeup. *)
Definition zero_mem : user_memory := fun a =>
  if a =? 4096 then Some Byte.x00
  else if a =? 4097 then Some Byte.x00
  else None.

(** Wait for 5 ms, in the context 7, until the fence equals 0xfffe. *)
Definition waiting_arg : wait_user_fence_arg :=
  {| extensions := 0; addr := 4096; ctx_id := 7; arg_op := 0;
     flags := 0; arg_value := 65534; arg_mask := 65535;
     timeout := 5000000 |}.

Definition waiting_env : ioctl_env :=
  {| ctx_found := true; ext_err := 0; mem0 := zero_mem; stale0 := 0;
     gt_wait_err := 0;
     wakeups := [{| wk_mem := sample_mem; wk_stale := 0; wk_signal := false;
                    wk_remaining := 4; wk_fault_mem := sample_mem |}];
     elapsed_ns := 2000000 |}.

Definition sample_ioctl (env : ioctl_env) (arg : wait_user_fence_arg)
  : outcome * list event :=
  i915_gem_wait_user_fence_ioctl sample_code sample_soft sample_abstime 12
    1000 (2 ^ 62) (fun n => n / 1000000) (fun n => n / 1000000) (fun n => n)
    env arg.

Example waiting_ioctl_run :
  sample_ioctl waiting_env waiting_arg
  = (Ret 0 3000000,
     [EvContextLookup 7; EvUserExtensions 0;
      EvFault (ioctl_wake waiting_arg); EvCompare (ioctl_wake waiting_arg);
      EvAddSoftWait; EvAddGtWait;
      EvCompare (ioctl_wake waiting_arg);
      EvRemoveWaits; EvContextPut]).
Proof. vm_compute. reflexivity. Qed.

(** The same request with no time to wait. *)
Definition polling_arg : wait_user_fence_arg :=
  {| extensions := 0; addr := 4096; ctx_id := 7; arg_op := 0;
     flags := 0; arg_value := 65534; arg_mask := 65535; timeout := 0 |}.

Example polling_ioctl_run :
  sample_ioctl waiting_env polling_arg
  = (Ret (- ETIME) 0,
     [EvContextLookup 7; EvUserExtensions 0;
      EvFault (ioctl_wake polling_arg); EvCompare (ioctl_wake polling_arg);
      EvContextPut]).
Proof. vm_compute. reflexivity. Qed.

Lemma X1_relative_timeout_in_jiffies_witness :
  1 <= to_wait_timeout sample_abstime 1000 (2 ^ 62) (fun n => n / 1000000)
         (fun n => n) waiting_arg <= 2 ^ 62.
Proof.
  assert (H1 : Z.land (flags waiting_arg) sample_abstime = 0)
    by reflexivity.
  assert (H2 : 1 <= 2 ^ 62) by lia.
  assert (H3 : 0 <= timeout waiting_arg / 1000000 < 2 ^ 64 - 1)
    by (vm_compute; split; congruence).
  assert (H4 : 0 < timeout waiting_arg) by (cbn; lia).
  exact (proj2 (proj2 (X1_relative_timeout_in_jiffies sample_abstime 1000
                         (2 ^ 62) (fun n => n / 1000000) (fun n => n)
                         waiting_arg H1 H2 H3)) H4).
Defined.

Lemma X2_zero_timeout_polls_witness :
  fst (sample_ioctl waiting_env polling_arg) <> Blocked
  /\ occurrences is_add_soft_wait (snd (sample_ioctl waiting_env polling_arg))
     = 0%nat
  /\ occurrences is_schedule (snd (sample_ioctl waiting_env polling_arg))
     = 0%nat
  /\ (forall err t1,
        fst (sample_ioctl waiting_env polling_arg) = Ret err t1 ->
        t1 = timeout polling_arg).
Proof.
  exact (X2_zero_timeout_polls sample_code sample_soft sample_abstime 12
           1000 (2 ^ 62) (fun n => n / 1000000) (fun n => n / 1000000)
           (fun n => n) waiting_env polling_arg eq_refl).
Defined.

Lemma X3_waits_removed_context_put_witness :
  let tr := snd (sample_ioctl waiting_env waiting_arg) in
  occurrences is_remove_waits tr = occurrences is_add_soft_wait tr
  /\ (occurrences is_context_lookup tr <= 1)%nat
  /\ occurrences is_context_put tr
     = (if ctx_found waiting_env then occurrences is_context_lookup tr
        else 0%nat).
Proof.
  exact (X3_waits_removed_context_put sample_code sample_soft sample_abstime
           12 1000 (2 ^ 62) (fun n => n / 1000000) (fun n => n / 1000000)
           (fun n => n) waiting_env waiting_arg 0 3000000
           (snd (sample_ioctl waiting_env waiting_arg)) eq_refl).
Defined.


Lemma X5_success_means_fence_seen_witness :
  ufence_compare sample_code (mem0 waiting_env) (stale0 waiting_env)
    (ioctl_wake waiting_arg) = true
  \/ exists w, In w (wakeups waiting_env)
       /\ ufence_compare sample_code (wk_mem w) (wk_stale w)
            (ioctl_wake waiting_arg) = true.
Proof.
  exact (X5_success_means_fence_seen sample_code sample_soft sample_abstime
           12 1000 (2 ^ 62) (fun n => n / 1000000) (fun n => n / 1000000)
           (fun n => n) waiting_env waiting_arg 3000000
           (snd (sample_ioctl waiting_env waiting_arg)) eq_refl).
Defined.

(** A context with two engines sharing the breadcrumbs 7, a third engine
    with none, and memory for one wait only. *)
Definition shared_engines : list (list (option Z)) :=
  [[Some 7; None]; [Some 7; Some 9]].

Example shared_breadcrumbs_waited_once :
  add_gt_wait (fun _ => true) shared_engines [] 0
  = (0, [9; 7], 2%nat,
     [OpKmalloc true; OpBreadcrumbsAddWait 7;
      OpKmalloc true; OpBreadcrumbsAddWait 9]).
Proof. reflexivity. Qed.

Example out_of_memory_waits_taken_down :
  ioctl_waits (fun n => Nat.eqb n 0) (Some shared_engines)
  = (- ENOMEM,
     [OpAddWaitQueue; OpKmalloc true; OpBreadcrumbsAddWait 7;
      OpKmalloc false; OpRemoveWaitQueue; OpBreadcrumbsRemoveWait 7;
      OpKfree 7]).
Proof. reflexivity. Qed.

Lemma X6_engine_waits_without_duplicates_witness :
  List.NoDup (snd (fst (fst (add_gt_wait (fun _ => true) shared_engines
                               [7] 0)))).
Proof.
  assert (H : List.NoDup [7])
    by (apply List.NoDup_cons; [intros [] | apply List.NoDup_nil]).
  exact (proj1 (X6_engine_waits_without_duplicates (fun _ => true)
                  shared_engines [7] 0 H)).
Defined.
End UFence.

(** * Engine idle detection: gt/intel_engine_cs.c *)

Module Engine.

(** The ring registers read through [ENGINE_READ]. *)
Inductive ring_reg : Type := RING_HEAD | RING_TAIL | RING_MI_MODE.

(** The submission tasklet of [engine->sched_engine]. *)
Record tasklet_struct : Type := {
  has_callback : bool;       (* t->callback != NULL *)
  locked_elsewhere : bool;   (* tasklet_trylock() would fail *)
  enabled : bool             (* __tasklet_is_enabled() *)
}.

(** The part of [struct intel_engine_cs] that idle detection looks at. *)
Record intel_engine_cs : Type := {
  gt_wedged : bool;            (* intel_gt_is_wedged(engine->gt) *)
  pm_wakeref : Z;              (* engine->wakeref count *)
  uses_guc : bool;             (* intel_engine_uses_guc(engine) *)
  mmio_base : Z;
  sched_queue : list Z;        (* sched_engine->queue: ready requests *)
  tasklet : tasklet_struct;
  ring_regs : ring_reg -> Z;   (* what the hardware registers hold *)
  mmio_reads : list ring_reg   (* the ENGINE_READs done so far *)
}.

Definition set_pm_wakeref (n : Z) (e : intel_engine_cs) : intel_engine_cs :=
  {| gt_wedged := gt_wedged e; pm_wakeref := n; uses_guc := uses_guc e;
     mmio_base := mmio_base e; sched_queue := sched_queue e;
     tasklet := tasklet e; ring_regs := ring_regs e;
     mmio_reads := mmio_reads e |}.

Definition ENGINE_READ (e : intel_engine_cs) (r : ring_reg)
  : Z * intel_engine_cs :=
  (ring_regs e r,
   {| gt_wedged := gt_wedged e; pm_wakeref := pm_wakeref e;
      uses_guc := uses_guc e; mmio_base := mmio_base e;
      sched_queue := sched_queue e; tasklet := tasklet e;
      ring_regs := ring_regs e; mmio_reads := mmio_reads e ++ [r] |}).

(** Helpers of intel_engine_pm.h, intel_gt.h and i915_scheduler.h. *)
Definition intel_engine_pm_is_awake (e : intel_engine_cs) : bool :=
  negb (pm_wakeref e =? 0).

Definition intel_engine_pm_get_if_awake (e : intel_engine_cs)
  : bool * intel_engine_cs :=
  if pm_wakeref e =? 0 then (false, e)
  else (true, set_pm_wakeref (pm_wakeref e + 1) e).

Definition intel_engine_pm_put_async (e : intel_engine_cs) : intel_engine_cs :=
  set_pm_wakeref (pm_wakeref e - 1) e.

Definition i915_sched_engine_is_empty (e : intel_engine_cs) : bool :=
  match sched_queue e with
  | [] => true
  | _ :: _ => false
  end.

Section WithHardware.

(** Register field masks (intel_engine_regs.h), the selftest
    configuration, and what running the submission tasklet does to the
    engine, here or on another processor. *)
Variable HEAD_ADDR TAIL_ADDR MODE_IDLE : Z.
Variable selftest : bool.
Variable tasklet_callback : intel_engine_cs -> intel_engine_cs.
Variable tasklet_on_other_cpu : intel_engine_cs -> intel_engine_cs.

(** ring_is_idle; [None] when the GEM_BUG_ON fires. *)
Definition ring_is_idle (e : intel_engine_cs)
  : option (bool * intel_engine_cs) :=
  (* GuC submission shouldn't access HEAD & TAIL via MMIO *)
  if uses_guc e then None
  else if selftest && (mmio_base e =? 0) then Some (true, e)
  else
    let '(awake, e1) := intel_engine_pm_get_if_awake e in
    if negb awake then Some (true, e1)
    else
      let '(head, e2) := ENGINE_READ e1 RING_HEAD in
      let '(tail, e3) := ENGINE_READ e2 RING_TAIL in
      (* First check that no commands are left in the ring *)
      let idle1 :=
        if negb (Z.land head HEAD_ADDR =? Z.land tail TAIL_ADDR)
        then false else true in
      let '(mode, e4) := ENGINE_READ e3 RING_MI_MODE in
      let idle2 := if Z.land mode MODE_IDLE =? 0 then false else idle1 in
      Some (idle2, intel_engine_pm_put_async e4).

(** __intel_engine_flush_submission(engine, sync) *)
Definition __intel_engine_flush_submission (e : intel_engine_cs)
    (sync : bool) : intel_engine_cs :=
  let t := tasklet e in
  if negb (has_callback t) then e
  else
    let e1 :=
      if negb (locked_elsewhere t)
      then (if enabled t then tasklet_callback e else e)
      else e in
    (* Synchronise and wait for the tasklet on another CPU *)
    if sync && locked_elsewhere t then tasklet_on_other_cpu e1 else e1.

(** intel_engine_flush_submission (intel_engine.h) *)
Definition intel_engine_flush_submission (e : intel_engine_cs)
  : intel_engine_cs :=
  __intel_engine_flush_submission e true.

(** intel_engine_is_idle *)
Definition intel_engine_is_idle (e : intel_engine_cs)
  : option (bool * intel_engine_cs) :=
  (* More white lies, if wedged, hw state is inconsistent *)
  if gt_wedged e then Some (true, e)
  else if negb (intel_engine_pm_is_awake e) then Some (true, e)
  else
    (* Waiting to drain ELSP? *)
    let e1 := intel_engine_flush_submission e in
    (* ELSP is empty, but there are ready requests? E.g. after reset *)
    if negb (i915_sched_engine_is_empty e1) then Some (false, e1)
    else if uses_guc e1 then Some (false, e1)
    else
      (* Ring stopped? *)
      ring_is_idle e1.

(** The claim as the interface description words it: a GuC engine is idle
    exactly when it is wedged, asleep, or its queue is empty after the
    flush. *)
Definition guc_idle_from_queue_alone : Prop :=
  forall e, uses_guc e = true ->
    exists e',
      intel_engine_is_idle e
      = Some (gt_wedged e || negb (intel_engine_pm_is_awake e)
              || i915_sched_engine_is_empty (intel_engine_flush_submission e),
              e').

(** What the registers say, for the backends that own them. *)
Definition ring_registers_idle (e : intel_engine_cs) : bool :=
  (Z.land (ring_regs e RING_HEAD) HEAD_ADDR
   =? Z.land (ring_regs e RING_TAIL) TAIL_ADDR)
  && negb (Z.land (ring_regs e RING_MI_MODE) MODE_IDLE =? 0).

(** C8 (amended).  A wedged or sleeping engine is reported idle without
    further checks.  Otherwise the engine is reported busy while its
    scheduler queue still holds a request after the flush; a GuC engine is
    then reported busy in every case, its ring registers never read; any
    other engine is idle exactly when the registers show head equal to
    tail and the command streamer idle (or when it fell asleep, or has no
    register base under selftest). *)
Theorem C8_engine_idle_composition e :
  (gt_wedged e = true \/ intel_engine_pm_is_awake e = false ->
     intel_engine_is_idle e = Some (true, e)) /\
  (gt_wedged e = false -> intel_engine_pm_is_awake e = true ->
   let e1 := intel_engine_flush_submission e in
   (i915_sched_engine_is_empty e1 = false ->
      intel_engine_is_idle e = Some (false, e1)) /\
   (uses_guc e1 = true ->
      intel_engine_is_idle e = Some (false, e1)) /\
   (i915_sched_engine_is_empty e1 = true -> uses_guc e1 = false ->
      exists r e2,
        intel_engine_is_idle e = Some (r, e2) /\
        r = (selftest && (mmio_base e1 =? 0))
            || negb (intel_engine_pm_is_awake e1)
            || ring_registers_idle e1)).
Proof.
  unfold intel_engine_is_idle. split.
  - intros [H|H]; rewrite H; [reflexivity|].
    destruct (gt_wedged e); reflexivity.
  - intros Hw Ha. rewrite Hw, Ha. cbn [negb]. cbv zeta.
    set (e1 := intel_engine_flush_submission e). repeat split.
    + intros ->. reflexivity.
    + intros Hg. rewrite Hg. destruct (i915_sched_engine_is_empty e1); reflexivity.
    + intros -> Hg. cbn [negb]. rewrite Hg.
      unfold ring_is_idle. rewrite Hg.
      destruct (selftest && (mmio_base e1 =? 0)) eqn:Es;
        [eexists _, _; split; reflexivity|].
      unfold intel_engine_pm_get_if_awake, intel_engine_pm_is_awake,
        ring_registers_idle.
      destruct (pm_wakeref e1 =? 0) eqn:Ep; cbn [negb];
        [eexists _, _; split; reflexivity|].
      cbn [ENGINE_READ set_pm_wakeref ring_regs orb].
      eexists _, _; split; [reflexivity|].
      destruct (Z.land (ring_regs e1 RING_HEAD) HEAD_ADDR
                =? Z.land (ring_regs e1 RING_TAIL) TAIL_ADDR);
        destruct (Z.land (ring_regs e1 RING_MI_MODE) MODE_IDLE =? 0);
        reflexivity.
Qed.

(** A GuC engine never touches the ring registers in idle detection. *)
Lemma guc_no_ring_reads e r e' :
  uses_guc (intel_engine_flush_submission e) = true ->
  intel_engine_is_idle e = Some (r, e') ->
  e' = e \/ e' = intel_engine_flush_submission e.
Proof.
  unfold intel_engine_is_idle. intros Hg.
  destruct (gt_wedged e); [intros [= _ <-]; auto|].
  destruct (negb (intel_engine_pm_is_awake e)); [intros [= _ <-]; auto|].
  destruct (negb (i915_sched_engine_is_empty _)); [intros [= _ <-]; auto|].
  rewrite Hg. intros [= _ <-]; auto.
Qed.

(** *** What idle detection leaves behind *)

(** The engine as the checks after the first two find it. *)
Definition after_flush (e : intel_engine_cs) : intel_engine_cs :=
  if gt_wedged e || negb (intel_engine_pm_is_awake e) then e
  else intel_engine_flush_submission e.

(** X14: intel_engine_is_idle always answers: the assertion of
    ring_is_idle on GuC submission cannot fire through it.  Past the
    flush of the submission tasklet it leaves the wakeref count as it
    found it, and it reads either no register at all or RING_HEAD,
    RING_TAIL and RING_MI_MODE once each, in this order; it reads none
    for an engine under GuC submission, nor for one with requests still
    queued. *)
Theorem X14_idle_check_balanced (e : intel_engine_cs) :
  exists r e',
    intel_engine_is_idle e = Some (r, e')
    /\ pm_wakeref e' = pm_wakeref (after_flush e)
    /\ sched_queue e' = sched_queue (after_flush e)
    /\ (mmio_reads e' = mmio_reads (after_flush e)
        \/ mmio_reads e'
           = mmio_reads (after_flush e)
               ++ [RING_HEAD; RING_TAIL; RING_MI_MODE])
    /\ (uses_guc (after_flush e) = true
        \/ i915_sched_engine_is_empty (after_flush e) = false ->
        e' = after_flush e).
Proof.
  unfold intel_engine_is_idle, after_flush.
  destruct (gt_wedged e); cbn [orb].
  { eexists _, _. repeat split; auto. }
  destruct (negb (intel_engine_pm_is_awake e)).
  { eexists _, _. repeat split; auto. }
  cbv zeta. set (e1 := intel_engine_flush_submission e).
  destruct (i915_sched_engine_is_empty e1) eqn:Eq; cbn [negb].
  2:{ eexists _, _. repeat split; auto. }
  destruct (uses_guc e1) eqn:Eg.
  { eexists _, _. repeat split; auto. }
  unfold ring_is_idle. rewrite Eg.
  destruct (selftest && (mmio_base e1 =? 0)).
  { eexists _, _. repeat split; auto. }
  unfold intel_engine_pm_get_if_awake.
  destruct (pm_wakeref e1 =? 0); cbn [negb].
  { eexists _, _. repeat split; auto. }
  cbn [ENGINE_READ]. eexists _, _. split; [reflexivity |].
  cbn [intel_engine_pm_put_async set_pm_wakeref pm_wakeref sched_queue
       mmio_reads].
  split; [lia |]. split; [reflexivity |].
  split; [right; rewrite <- !app_assoc; reflexivity |].
  intros [H | H]; discriminate H.
Qed.

End WithHardware.

(** An awake, unwedged GuC engine with nothing queued and no tasklet. *)
Definition quiet_guc_engine : intel_engine_cs :=
  {| gt_wedged := false; pm_wakeref := 1; uses_guc := true;
     mmio_base := 8192; sched_queue := [];
     tasklet := {| has_callback := false; locked_elsewhere := false;
                   enabled := true |};
     ring_regs := fun _ => 0; mmio_reads := [] |}.

Example quiet_guc_engine_busy :
  intel_engine_is_idle 0 0 0 false (fun e => e) (fun e => e) quiet_guc_engine
  = Some (false, quiet_guc_engine).
Proof. reflexivity. Qed.

Lemma C8_counterexample :
  ~ guc_idle_from_queue_alone 0 0 0 false (fun e => e) (fun e => e).
Proof.
  intros H. destruct (H quiet_guc_engine eq_refl) as [e' He'].
  vm_compute in He'. discriminate He'.
Qed.

Lemma C8_engine_idle_composition_witness :
  gt_wedged quiet_guc_engine = false /\
  intel_engine_pm_is_awake quiet_guc_engine = true /\
  uses_guc quiet_guc_engine = true /\
  intel_engine_is_idle 0 0 0 false (fun e => e) (fun e => e) quiet_guc_engine
  = Some (false, quiet_guc_engine).
Proof.
  assert (gt_wedged quiet_guc_engine = false) as H1 by reflexivity.
  assert (intel_engine_pm_is_awake quiet_guc_engine = true) as H2
    by reflexivity.
  assert (uses_guc quiet_guc_engine = true) as H3 by reflexivity.
  exact (conj H1 (conj H2 (conj H3
    (proj1 (proj2 (proj2 (C8_engine_idle_composition 0 0 0 false
       (fun e => e) (fun e => e) quiet_guc_engine) H1 H2)) H3)))).
Defined.


(** ** Logical engine instances *)

(** One entry of [intel_engines[]]. *)
Record engine_info : Type := {
  class : Z;
  instance : Z
}.

Section WithEngines.

(** The table [intel_engines[]] indexed by engine id,
    [gt->info.engine_mask], and VIDEO_DECODE_CLASS and
    MAX_ENGINE_INSTANCE of intel_engine_types.h. *)
Variable intel_engines : list engine_info.
Variable engine_mask : Z.
Variable VIDEO_DECODE_CLASS : Z.
Variable MAX_ENGINE_INSTANCE : nat.

(** HAS_ENGINE(gt, id) *)
Definition HAS_ENGINE (id : Z) : bool := Z.testbit engine_mask id.

(** The inner loop of populate_logical_ids from engine [i] on: whether
    it reaches the assignment and the [break] for the instance [m]. *)
Fixpoint engine_for (cls m : Z) (i : Z) (engines : list engine_info) : bool :=
  match engines with
  | [] => false
  | info :: rest =>
      if negb (HAS_ENGINE i) || negb (class info =? cls)
      then engine_for cls m (i + 1) rest
      else if instance info =? m then true
      else engine_for cls m (i + 1) rest
  end.

(** populate_logical_ids from the map entry [j] on; [logical_ids] maps
    an instance to its logical id. *)
Fixpoint populate_from (cls : Z) (map : list Z) (logical_ids : Z -> Z)
    (current_logical_id : Z) : Z -> Z :=
  match map with
  | [] => logical_ids
  | m :: rest =>
      if engine_for cls m 0 intel_engines
      then populate_from cls rest
             (fun n => if n =? m then current_logical_id else logical_ids n)
             (u8 (current_logical_id + 1))
      else populate_from cls rest logical_ids current_logical_id
  end.

Definition populate_logical_ids (logical_ids : Z -> Z) (cls : Z)
    (map : list Z) : Z -> Z :=
  populate_from cls map logical_ids 0.

(** The map setup_logical_ids walks. *)
Definition logical_map (slim_vdbox : bool) (media_ver : Z) (cls : Z)
  : list Z :=
  (* Logical to physical mapping is needed for proper support
     to split-frame feature. *)
  if slim_vdbox && (cls =? VIDEO_DECODE_CLASS) then [0; 2; 1]
  else if (11 <=? media_ver) && (cls =? VIDEO_DECODE_CLASS)
  then [0; 2; 4; 6; 1; 3; 5; 7]
  else List.map Z.of_nat (seq 0 (MAX_ENGINE_INSTANCE + 1)).

(** setup_logical_ids *)
Definition setup_logical_ids (slim_vdbox : bool) (media_ver : Z)
    (logical_ids : Z -> Z) (cls : Z) : Z -> Z :=
  populate_logical_ids logical_ids cls (logical_map slim_vdbox media_ver cls).

(** How many of the entries have an engine. *)
Definition engines_among (cls : Z) (l : list Z) : Z :=
  Z.of_nat (length (List.filter (fun m => engine_for cls m 0 intel_engines) l)).

Lemma populate_from_other (cls : Z) (map : list Z) :
  forall ids c n,
    ~ List.In n (List.filter (fun m => engine_for cls m 0 intel_engines) map) ->
    populate_from cls map ids c n = ids n.
Proof.
  induction map as [| m rest IH]; intros ids c n Hn; cbn [populate_from].
  - reflexivity.
  - cbn [List.filter] in Hn.
    destruct (engine_for cls m 0 intel_engines).
    + rewrite IH by (intros H; apply Hn; right; exact H).
      destruct (Z.eqb_spec n m) as [-> | _]; [| reflexivity].
      exfalso. apply Hn. left. reflexivity.
    + apply IH. exact Hn.
Qed.

Lemma populate_from_nth (cls : Z) (map : list Z) :
  forall ids c j m,
    List.NoDup map ->
    0 <= c -> c + Z.of_nat (length map) < 256 ->
    nth_error map j = Some m ->
    engine_for cls m 0 intel_engines = true ->
    populate_from cls map ids c m = c + engines_among cls (firstn j map).
Proof.
  induction map as [| m0 rest IH]; intros ids c j m Hnd Hc Hlen Hj Hm.
  - destruct j; discriminate Hj.
  - apply List.NoDup_cons_iff in Hnd. destruct Hnd as [Hnot Hnd].
    cbn [length] in Hlen. cbn [populate_from].
    destruct j as [| j]; cbn [nth_error] in Hj.
    + injection Hj as ->. rewrite Hm.
      rewrite populate_from_other.
      * rewrite Z.eqb_refl. unfold engines_among.
        cbn [firstn List.filter length Z.of_nat]. lia.
      * intros H. apply List.filter_In in H. apply Hnot, H.
    + unfold engines_among. cbn [firstn List.filter].
      destruct (engine_for cls m0 0 intel_engines).
      * assert (U : u8 (c + 1) = c + 1)
          by (unfold u8, wrap; change (2 ^ 8) with 256;
              apply Z.mod_small; lia).
        rewrite U, (IH _ (c + 1) j m Hnd) by (assumption || lia).
        unfold engines_among. cbn [length]. lia.
      * rewrite (IH _ c j m Hnd) by (assumption || lia).
        reflexivity.
Qed.

Lemma logical_map_nodup slim_vdbox media_ver cls :
  List.NoDup (logical_map slim_vdbox media_ver cls).
Proof.
  unfold logical_map.
  destruct (slim_vdbox && (cls =? VIDEO_DECODE_CLASS)).
  { repeat (apply List.NoDup_cons; [cbn; lia |]). apply List.NoDup_nil. }
  destruct ((11 <=? media_ver) && (cls =? VIDEO_DECODE_CLASS)).
  { repeat (apply List.NoDup_cons; [cbn; lia |]). apply List.NoDup_nil. }
  apply List.NoDup_map_inv with (f := Z.to_nat).
  rewrite List.map_map.
  rewrite (List.map_ext _ (fun n => n)) by (intros n; apply Nat2Z.id).
  rewrite List.map_id. apply List.seq_NoDup.
Qed.

(** X15: the logical ids handed out by setup_logical_ids number the
    engines of a class without gaps, in the order of the map: the
    instance at place [j] of the map, if the GT has an engine of the class
    for it, gets as id the number of earlier places that have one.  An
    instance without an engine keeps what [logical_ids] held.  Of two
    instances that have an engine, the one that comes first in the map
    gets the smaller id. *)
Theorem X15_logical_ids_dense (slim_vdbox : bool) (media_ver : Z)
    (logical_ids : Z -> Z) (cls : Z) :
  (MAX_ENGINE_INSTANCE < 255)%nat ->
  let map := logical_map slim_vdbox media_ver cls in
  let ids := setup_logical_ids slim_vdbox media_ver logical_ids cls in
  (forall j m, nth_error map j = Some m ->
               engine_for cls m 0 intel_engines = true ->
               ids m = engines_among cls (firstn j map))
  /\ (forall m, engine_for cls m 0 intel_engines = false ->
                ids m = logical_ids m)
  /\ (forall j k a b,
        nth_error map j = Some a -> nth_error map k = Some b ->
        engine_for cls a 0 intel_engines = true ->
        engine_for cls b 0 intel_engines = true ->
        (j < k)%nat -> ids a < ids b).
Proof.
  intros Hmax map ids.
  assert (Hlen : 0 + Z.of_nat (length map) < 256).
  { unfold map, logical_map.
    destruct (slim_vdbox && (cls =? VIDEO_DECODE_CLASS)); [cbn; lia |].
    destruct ((11 <=? media_ver) && (cls =? VIDEO_DECODE_CLASS));
      [cbn; lia |].
    rewrite List.length_map, List.length_seq. lia. }
  pose proof (logical_map_nodup slim_vdbox media_ver cls) as Hnd.
  fold map in Hnd.
  assert (N : forall j m, nth_error map j = Some m ->
                          engine_for cls m 0 intel_engines = true ->
                          ids m = engines_among cls (firstn j map)).
  { intros j m Hj Hm. unfold ids, setup_logical_ids, populate_logical_ids.
    fold map.
    rewrite (populate_from_nth cls map logical_ids 0 j m Hnd) by
      (assumption || lia).
    lia. }
  split; [exact N |]. split.
  - intros m Hm. unfold ids, setup_logical_ids, populate_logical_ids.
    apply populate_from_other. intros H. apply List.filter_In in H.
    destruct H as [_ H]. congruence.
  - intros j k a b Hj Hk Ha Hb Hjk.
    rewrite (N j a Hj Ha), (N k b Hk Hb). unfold engines_among.
    assert (F : firstn k map = firstn j map ++ a :: firstn (k - S j)
                                                   (skipn (S j) map)).
    { clear - Hj Hjk. revert j k Hj Hjk.
      induction map as [| x l IH]; intros j k Hj Hjk.
      - destruct j; discriminate Hj.
      - destruct k as [| k]; [lia |]. destruct j as [| j].
        + cbn in Hj. injection Hj as ->. cbn. rewrite Nat.sub_0_r.
          reflexivity.
        + cbn [nth_error] in Hj. cbn [firstn skipn app].
          rewrite (IH j k Hj) by lia. reflexivity. }
    rewrite F, List.filter_app, List.length_app. cbn [List.filter].
    rewrite Ha. cbn [length]. lia.
Qed.

End WithEngines.

(** The engines of a GT with the render engine and three video decode
    engines, of which the one of instance 1 is fused off. *)
Definition sample_engines : list engine_info :=
  [{| class := 0; instance := 0 |}; {| class := 1; instance := 0 |};
   {| class := 1; instance := 1 |}; {| class := 1; instance := 2 |};
   {| class := 1; instance := 3 |}].

Example split_frame_ids :
  List.map (setup_logical_ids sample_engines 27 1 8 false 12 (fun _ => 255) 1)
    [0; 1; 2; 3]
  = [0; 255; 1; 2].
Proof. reflexivity. Qed.

Lemma X15_logical_ids_dense_witness :
  setup_logical_ids sample_engines 27 1 8 false 12 (fun _ => 255) 1 2
  < setup_logical_ids sample_engines 27 1 8 false 12 (fun _ => 255) 1 3.
Proof.
  assert (H : (8 < 255)%nat) by lia.
  exact (proj2 (proj2 (X15_logical_ids_dense sample_engines 27 1 8 false 12
                         (fun _ => 255) 1 H))
           1%nat 5%nat 2 3 eq_refl eq_refl eq_refl eq_refl ltac:(lia)).
Defined.

(** ** Copy engines fused off *)

(** GENMASK(h, l) on a 64-bit [unsigned long] (include/linux/bits.h). *)
Definition GENMASK (h l : Z) : Z :=
  Z.land (u64 (Z.ones 64 - Z.shiftl 1 l + 1)) (Z.shiftr (Z.ones 64) (63 - h)).

(** IP_VER(ver, rel) *)
Definition IP_VER (ver rel : Z) : Z := Z.lor (Z.shiftl ver 8) rel.

(** [for_each_clear_bit(bit, &word, size)]: the clear bits below [size],
    in increasing order. *)
Definition clear_bits (word : Z) (size : nat) : list Z :=
  List.filter (fun b => negb (Z.testbit word b)) (List.map Z.of_nat (seq 0 size)).

Section WithCopyEngines.

(** The engine id BCS0 and GEN12_MAX_MSLICES, from the headers. *)
Variable BCS0 : Z.
Variable GEN12_MAX_MSLICES : nat.

Definition _BCS (n : Z) : Z := BCS0 + n.

(** The body of the loop of engine_mask_apply_copy_fuses for one quad;
    the mask is an [intel_engine_mask_t], 32 bits wide. *)
Definition fuse_off_quad (engine_mask quad : Z) : Z :=
  let instance := quad * 2 + 1 in
  let mask := u32 (GENMASK (_BCS (instance + 1)) (_BCS instance)) in
  if negb (Z.land mask engine_mask =? 0)
  then Z.land engine_mask (u32 (Z.lnot mask))
  else engine_mask.

(** engine_mask_apply_copy_fuses; [meml3_mask] is the field
    GEN12_MEML3_EN_MASK of GEN10_MIRROR_FUSE3. *)
Definition engine_mask_apply_copy_fuses (graphics_ver_full meml3_mask : Z)
    (engine_mask : Z) : Z :=
  if negb ((IP_VER 12 60 <=? graphics_ver_full)
           && (graphics_ver_full <? IP_VER 12 70))
  then engine_mask
  else
    (* Link Copy engines may be fused off according to meml3_mask. Each
       bit is a quad that houses 2 Link Copy and two Sub Copy engines. *)
    fold_left fuse_off_quad (clear_bits meml3_mask GEN12_MAX_MSLICES)
      engine_mask.

(** Whether the engine of id [b] is one of the two link copy engines of
    a quad in [quads]. *)
Definition in_fused_quad (quads : list Z) (b : Z) : bool :=
  existsb (fun quad => (b =? _BCS (quad * 2 + 1))
                       || (b =? _BCS (quad * 2 + 2))) quads.

Lemma GENMASK_testbit (h l b : Z) :
  0 <= l <= h -> h < 64 -> 0 <= b ->
  Z.testbit (GENMASK h l) b = (l <=? b) && (b <=? h).
Proof.
  intros Hl Hh Hb. unfold GENMASK.
  assert (E : u64 (Z.ones 64 - Z.shiftl 1 l + 1)
              = Z.shiftl (Z.ones (64 - l)) l).
  { rewrite !Z.ones_equiv, !Z.shiftl_mul_pow2, Z.mul_1_l by lia.
    unfold u64, wrap.
    assert (P : 2 ^ 64 = 2 ^ (64 - l) * 2 ^ l)
      by (rewrite <- Z.pow_add_r by lia; f_equal; lia).
    assert (0 < 2 ^ l) by (apply Z.pow_pos_nonneg; lia).
    assert (0 < 2 ^ (64 - l)) by (apply Z.pow_pos_nonneg; lia).
    rewrite Z.mod_small by nia. nia. }
  rewrite E, Z.land_spec, Z.shiftl_spec, Z.shiftr_spec by lia.
  destruct (Z.leb_spec l b) as [Hlb | Hlb].
  - rewrite Z.testbit_ones by lia.
    rewrite Z.testbit_ones by lia.
    destruct (Z.leb_spec b h); cbn [andb];
      repeat match goal with
             | |- context [?x <=? ?y] => destruct (Z.leb_spec x y)
             | |- context [?x <? ?y] => destruct (Z.ltb_spec x y)
             end; cbn [andb]; try reflexivity; lia.
  - rewrite (Z.testbit_neg_r _ (b - l)) by lia. reflexivity.
Qed.

Lemma u32_testbit (x b : Z) :
  0 <= b -> Z.testbit (u32 x) b = (b <? 32) && Z.testbit x b.
Proof.
  intros Hb. unfold u32, wrap.
  destruct (Z.ltb_spec b 32); cbn [andb].
  - apply Z.mod_pow2_bits_low. lia.
  - apply Z.mod_pow2_bits_high. lia.
Qed.

Lemma fuse_off_quad_testbit (engine_mask quad b : Z) :
  0 <= BCS0 -> 0 <= quad -> _BCS (quad * 2 + 2) < 32 ->
  0 <= engine_mask < 2 ^ 32 -> 0 <= b ->
  Z.testbit (fuse_off_quad engine_mask quad) b
  = Z.testbit engine_mask b
    && negb ((b =? _BCS (quad * 2 + 1)) || (b =? _BCS (quad * 2 + 2))).
Proof.
  intros H0 Hq H32 Hem Hb. unfold fuse_off_quad, _BCS in *. cbv zeta.
  set (mask := u32 (GENMASK (BCS0 + (quad * 2 + 1 + 1)) (BCS0 + (quad * 2 + 1)))).
  assert (M : forall i, 0 <= i ->
                Z.testbit mask i
                = (i =? BCS0 + (quad * 2 + 1)) || (i =? BCS0 + (quad * 2 + 2))).
  { intros i Hi. unfold mask. rewrite u32_testbit, GENMASK_testbit by lia.
    repeat match goal with
           | |- context [?x <=? ?y] => destruct (Z.leb_spec x y)
           | |- context [?x <? ?y] => destruct (Z.ltb_spec x y)
           | |- context [?x =? ?y] => destruct (Z.eqb_spec x y)
           end; cbn [andb orb]; try reflexivity; lia. }
  assert (A : Z.testbit (Z.land engine_mask (u32 (Z.lnot mask))) b
              = Z.testbit engine_mask b
                && negb ((b =? BCS0 + (quad * 2 + 1))
                         || (b =? BCS0 + (quad * 2 + 2)))).
  { rewrite Z.land_spec, u32_testbit, Z.lnot_spec, M by lia.
    destruct (Z.ltb_spec b 32); cbn [andb]; [reflexivity |].
    assert (T : Z.testbit engine_mask b = false).
    { destruct (Z.eq_dec engine_mask 0) as [-> | Hne];
        [apply Z.bits_0 |].
      apply Z.bits_above_log2; [lia |].
      assert (Z.log2 engine_mask < 32) by (apply Z.log2_lt_pow2; lia). lia. }
    rewrite T. reflexivity. }
  destruct (Z.eqb_spec (Z.land mask engine_mask) 0) as [E | N]; cbn [negb].
  - assert (T : Z.testbit (Z.land mask engine_mask) b = false)
      by (rewrite E; apply Z.bits_0).
    rewrite Z.land_spec, M in T by lia.
    destruct (Z.testbit engine_mask b); cbn [andb]; [| reflexivity].
    rewrite andb_true_r in T. rewrite T. reflexivity.
  - exact A.
Qed.

Lemma land_u32_range (a b : Z) :
  0 <= a < 2 ^ 32 -> 0 <= b -> 0 <= Z.land a b < 2 ^ 32.
Proof.
  intros Ha Hb.
  assert (N : 0 <= Z.land a b) by (apply Z.land_nonneg; left; lia).
  split; [exact N |].
  destruct (Z.eq_dec (Z.land a b) 0) as [-> | Hne]; [lia |].
  assert (Hpos : 0 < a).
  { destruct (Z.eq_dec a 0) as [-> | ?]; [| lia].
    rewrite Z.land_0_l in Hne. contradiction. }
  apply Z.log2_lt_pow2; [lia |].
  pose proof (Z.log2_land a b ltac:(lia) Hb) as L.
  assert (Z.log2 a < 32) by (apply Z.log2_lt_pow2; lia). lia.
Qed.

Lemma fuse_off_quad_range (engine_mask quad : Z) :
  0 <= engine_mask < 2 ^ 32 ->
  0 <= fuse_off_quad engine_mask quad < 2 ^ 32.
Proof.
  intros Hem. unfold fuse_off_quad. cbv zeta.
  destruct (negb _); [| exact Hem].
  apply land_u32_range; [exact Hem |].
  unfold u32, wrap. apply Z.mod_pos_bound. lia.
Qed.

Lemma fold_fuse_off_testbit (quads : list Z) :
  forall engine_mask b,
    0 <= BCS0 ->
    Forall (fun quad => 0 <= quad /\ _BCS (quad * 2 + 2) < 32) quads ->
    0 <= engine_mask < 2 ^ 32 -> 0 <= b ->
    Z.testbit (fold_left fuse_off_quad quads engine_mask) b
    = Z.testbit engine_mask b && negb (in_fused_quad quads b).
Proof.
  induction quads as [| q rest IH]; intros em b H0 Hall Hem Hb;
    cbn [fold_left in_fused_quad existsb].
  - rewrite andb_true_r. reflexivity.
  - pose proof (Forall_inv Hall) as [Hq H32].
    pose proof (Forall_inv_tail Hall) as Hrest.
    rewrite (IH _ b H0 Hrest (fuse_off_quad_range em q Hem) Hb).
    rewrite (fuse_off_quad_testbit em q b H0 Hq H32 Hem Hb).
    fold (in_fused_quad rest b).
    rewrite (negb_orb (_ || _) (in_fused_quad rest b)), andb_assoc.
    reflexivity.
Qed.

(** X16: on the platforms of graphics version 12.60 up to 12.70 the copy
    fuses remove from the engine mask exactly the two link copy engines
    of every quad that GEN12_MEML3_EN_MASK shows disabled, and nothing
    else: the main copy engine BCS0 and every engine that is no copy
    engine stay as they were.  On other platforms the mask is left
    alone. *)
Theorem X16_copy_fuses_remove_quads (graphics_ver_full meml3_mask : Z)
    (engine_mask : Z) :
  0 <= BCS0 -> BCS0 + 2 * Z.of_nat GEN12_MAX_MSLICES < 32 ->
  0 <= engine_mask < 2 ^ 32 ->
  let fused := engine_mask_apply_copy_fuses graphics_ver_full meml3_mask
                 engine_mask in
  (graphics_ver_full < IP_VER 12 60 \/ IP_VER 12 70 <= graphics_ver_full ->
   fused = engine_mask)
  /\ (IP_VER 12 60 <= graphics_ver_full < IP_VER 12 70 ->
      forall b, 0 <= b ->
        Z.testbit fused b
        = Z.testbit engine_mask b
          && negb (in_fused_quad (clear_bits meml3_mask GEN12_MAX_MSLICES) b))
  /\ Z.testbit fused BCS0 = Z.testbit engine_mask BCS0
  /\ (forall b, 0 <= b < BCS0 \/ BCS0 + 2 * Z.of_nat GEN12_MAX_MSLICES < b ->
        Z.testbit fused b = Z.testbit engine_mask b)
  /\ (forall b, Z.testbit fused b = true -> Z.testbit engine_mask b = true).
Proof.
  intros H0 H32 Hem fused.
  assert (Hall : Forall (fun quad => 0 <= quad /\ _BCS (quad * 2 + 2) < 32)
                   (clear_bits meml3_mask GEN12_MAX_MSLICES)).
  { apply List.Forall_forall. intros q Hq. unfold clear_bits in Hq.
    apply List.filter_In in Hq. destruct Hq as [Hq _].
    apply List.in_map_iff in Hq. destruct Hq as (n & <- & Hn).
    apply List.in_seq in Hn. unfold _BCS. lia. }
  assert (Hin : forall b, in_fused_quad
                            (clear_bits meml3_mask GEN12_MAX_MSLICES) b = true ->
                          BCS0 < b <= BCS0 + 2 * Z.of_nat GEN12_MAX_MSLICES).
  { intros b Hb. unfold in_fused_quad in Hb. apply List.existsb_exists in Hb.
    destruct Hb as (q & Hq & Hb). unfold clear_bits in Hq.
    apply List.filter_In in Hq. destruct Hq as [Hq _].
    apply List.in_map_iff in Hq. destruct Hq as (n & <- & Hn).
    apply List.in_seq in Hn. unfold _BCS in Hb.
    apply orb_true_iff in Hb. destruct Hb as [Hb | Hb];
      apply Z.eqb_eq in Hb; lia. }
  assert (B : forall b, 0 <= b ->
                Z.testbit fused b
                = Z.testbit engine_mask b
                  && negb (if (IP_VER 12 60 <=? graphics_ver_full)
                              && (graphics_ver_full <? IP_VER 12 70)
                           then in_fused_quad
                                  (clear_bits meml3_mask GEN12_MAX_MSLICES) b
                           else false)).
  { intros b Hb. unfold fused, engine_mask_apply_copy_fuses.
    destruct ((IP_VER 12 60 <=? graphics_ver_full)
              && (graphics_ver_full <? IP_VER 12 70)); cbn [negb].
    - apply fold_fuse_off_testbit; assumption.
    - rewrite andb_true_r. reflexivity. }
  assert (O : forall b, 0 <= b ->
                in_fused_quad (clear_bits meml3_mask GEN12_MAX_MSLICES) b
                = false ->
                Z.testbit fused b = Z.testbit engine_mask b).
  { intros b Hb Hf. rewrite (B b Hb), Hf.
    destruct (_ && _); rewrite andb_true_r; reflexivity. }
  assert (Out : forall b, 0 <= b ->
                  ~ BCS0 < b <= BCS0 + 2 * Z.of_nat GEN12_MAX_MSLICES ->
                  Z.testbit fused b = Z.testbit engine_mask b).
  { intros b Hb Hn. apply (O b Hb).
    destruct (in_fused_quad _ b) eqn:E; [| reflexivity].
    exfalso. apply Hn, Hin, E. }
  split.
  { intros Hv. unfold fused, engine_mask_apply_copy_fuses.
    destruct (Z.leb_spec (IP_VER 12 60) graphics_ver_full);
      destruct (Z.ltb_spec graphics_ver_full (IP_VER 12 70));
      cbn [andb negb]; try reflexivity; lia. }
  split.
  { intros Hv b Hb. rewrite (B b Hb).
    destruct (Z.leb_spec (IP_VER 12 60) graphics_ver_full); [| lia].
    destruct (Z.ltb_spec graphics_ver_full (IP_VER 12 70)); [| lia].
    reflexivity. }
  split; [apply Out; lia |].
  split; [intros b Hb; apply Out; lia |].
  intros b Hb.
  destruct (Z.neg_nonneg_cases b) as [Hneg | Hpos].
  - rewrite Z.testbit_neg_r in Hb by exact Hneg. discriminate Hb.
  - rewrite (B b Hpos) in Hb. apply andb_true_iff in Hb. apply Hb.
Qed.

(** The engine mask the copy fuses leave. *)
Lemma copy_fuses_engine_mask (graphics_ver_full meml3_mask : Z)
    (engine_mask : Z) :
  0 <= BCS0 -> BCS0 + 2 * Z.of_nat GEN12_MAX_MSLICES < 32 ->
  0 <= engine_mask < 2 ^ 32 ->
  let fused := engine_mask_apply_copy_fuses graphics_ver_full meml3_mask
                 engine_mask in
  0 <= fused < 2 ^ 32
  /\ (forall b, 0 <= b ->
        Z.testbit fused b = true -> Z.testbit engine_mask b = true)
  /\ (forall b, 0 <= b ->
        ~ BCS0 < b <= BCS0 + 2 * Z.of_nat GEN12_MAX_MSLICES ->
        Z.testbit fused b = Z.testbit engine_mask b).
Proof.
  intros H0 H32 Hem fused.
  assert (Hall : Forall (fun quad => 0 <= quad /\ _BCS (quad * 2 + 2) < 32)
                   (clear_bits meml3_mask GEN12_MAX_MSLICES)).
  { apply List.Forall_forall. intros q Hq. unfold clear_bits in Hq.
    apply List.filter_In in Hq. destruct Hq as [Hq _].
    apply List.in_map_iff in Hq. destruct Hq as (n & <- & Hn).
    apply List.in_seq in Hn. unfold _BCS. lia. }
  assert (Hin : forall b, in_fused_quad
                            (clear_bits meml3_mask GEN12_MAX_MSLICES) b = true ->
                          BCS0 < b <= BCS0 + 2 * Z.of_nat GEN12_MAX_MSLICES).
  { intros b Hb. unfold in_fused_quad in Hb. apply List.existsb_exists in Hb.
    destruct Hb as (q & Hq & Hb). unfold clear_bits in Hq.
    apply List.filter_In in Hq. destruct Hq as [Hq _].
    apply List.in_map_iff in Hq. destruct Hq as (n & <- & Hn).
    apply List.in_seq in Hn. unfold _BCS in Hb.
    apply orb_true_iff in Hb. destruct Hb as [Hb | Hb];
      apply Z.eqb_eq in Hb; lia. }
  assert (R : forall quads em, 0 <= em < 2 ^ 32 ->
                0 <= fold_left fuse_off_quad quads em < 2 ^ 32).
  { induction quads as [| q rest IH]; intros em He; cbn [fold_left];
      [exact He |]. apply IH, fuse_off_quad_range, He. }
  unfold fused, engine_mask_apply_copy_fuses.
  destruct (negb _).
  { split; [exact Hem |]. split; intros; [assumption | reflexivity]. }
  split; [apply R, Hem |]. split.
  - intros b Hb T. rewrite fold_fuse_off_testbit in T by assumption.
    apply andb_true_iff in T. apply T.
  - intros b Hb Out. rewrite fold_fuse_off_testbit by assumption.
    destruct (in_fused_quad _ b) eqn:E.
    + exfalso. apply Out, Hin, E.
    + apply andb_true_r.
Qed.

End WithCopyEngines.

(** A GT with the render engine at id 0 and the nine copy engines at
    ids 1 to 9, of which the quads 1 and 3 are disabled: the link copy
    engines of ids 4, 5, 8 and 9 go. *)
Example two_quads_fused :
  engine_mask_apply_copy_fuses 1 4 (IP_VER 12 60) 5 1023 = 1023 - 48 - 768.
Proof. reflexivity. Qed.

Lemma X16_copy_fuses_remove_quads_witness :
  Z.testbit (engine_mask_apply_copy_fuses 1 4 (IP_VER 12 60) 5 1023) 1
  = Z.testbit 1023 1.
Proof.
  assert (H1 : 0 <= 1) by lia.
  assert (H2 : 1 + 2 * Z.of_nat 4 < 32) by (cbn; lia).
  assert (H3 : 0 <= 1023 < 2 ^ 32) by lia.
  exact (proj1 (proj2 (proj2 (X16_copy_fuses_remove_quads 1 4 (IP_VER 12 60)
                                5 1023 H1 H2 H3)))).
Defined.

(** ** Media engines fused off *)

(** What engine_mask_apply_media_fuses does besides changing
    [gt->info]: the fuse registers it reads and the messages it prints. *)
Inductive fuse_reg : Type := GEN11_GT_VEBOX_VDBOX_DISABLE | HSW_PAVP_FUSE1.

Inductive fuse_msg : Type :=
| UncoreRead (r : fuse_reg)
| DrmDbg (fmt : string) (args : list Z)
| DrmInfo (fmt : string) (args : list Z)
| DrmWarn (fmt : string)
| DrmWarnOnSlimVdbox.

(** The fields of [struct intel_gt_info] the media fuses touch:
    [engine_mask] is an [intel_engine_mask_t] of 32 bits, [sfc_mask] and
    [vdbox_sfc_access] are [u8]. *)
Record intel_gt_info : Type := {
  engine_mask : Z;
  sfc_mask : Z;
  vdbox_sfc_access : Z
}.

Definition BIT (n : Z) : Z := Z.shiftl 1 n.

(** [__bf_shf] and REG_FIELD_GET. *)
Definition bf_shf (mask : Z) : Z := Z.log2 (Z.land mask (- mask)).

Definition REG_FIELD_GET (mask val : Z) : Z :=
  Z.shiftr (Z.land val mask) (bf_shf mask).

Section WithMediaEngines.

(** The engine ids and register fields of the headers. *)
Variable VCS0 VECS0 : Z.
Variable I915_MAX_VCS I915_MAX_VECS : nat.
Variable GEN11_GT_VDBOX_DISABLE_MASK : Z.
Variable GEN11_GT_VEBOX_DISABLE_MASK : Z.
Variable GEN11_GT_VEBOX_DISABLE_SHIFT : Z.
Variable XEHP_SFC_ENABLE_MASK : Z.

(** The platform: HAS_SLIM_VDBOX, MEDIA_VER and the release that
    MEDIA_VER_FULL adds to it. *)
Variable slim_vdbox : bool.
Variable media_ver media_rel : Z.

Definition MEDIA_VER_FULL : Z := IP_VER media_ver media_rel.

Definition _VCS (n : Z) : Z := VCS0 + n.
Definition _VECS (n : Z) : Z := VECS0 + n.

(** ENGINE_INSTANCES_MASK(gt, first, count), of which VDBOX_MASK and
    VEBOX_MASK are instances. *)
Definition ENGINE_INSTANCES_MASK (info : intel_gt_info) (first : Z)
    (count : nat) : Z :=
  Z.shiftr (Z.land (engine_mask info)
              (GENMASK (first + Z.of_nat count - 1) first)) first.

Definition VDBOX_MASK (info : intel_gt_info) : Z :=
  ENGINE_INSTANCES_MASK info VCS0 I915_MAX_VCS.

Definition VEBOX_MASK (info : intel_gt_info) : Z :=
  ENGINE_INSTANCES_MASK info VECS0 I915_MAX_VECS.

(** gen11_vdbox_has_sfc, with the warning it may raise. *)
Definition gen11_vdbox_has_sfc (info : intel_gt_info)
    (physical_vdbox logical_vdbox vdbox_mask : Z) : bool * list fuse_msg :=
  if Z.land (sfc_mask info) (BIT (physical_vdbox / 2)) =? 0 then (false, [])
  else if slim_vdbox then
    (* Should already be caught by the SFC fuse check *)
    (false, [DrmWarnOnSlimVdbox])
  else if 12 <=? media_ver then
    ((physical_vdbox mod 2 =? 0)
     || (Z.land (BIT (physical_vdbox - 1)) vdbox_mask =? 0), [])
  else if media_ver =? 11 then (logical_vdbox mod 2 =? 0, [])
  else (false, []).

(** The variables of the loops of engine_mask_apply_media_fuses. *)
Record fuse_state : Type := {
  fs_info : intel_gt_info;
  fs_mask : Z;             (* vdbox_mask or vebox_mask, a u16 *)
  fs_logical_vdbox : Z;    (* unsigned int *)
  fs_log : list fuse_msg
}.

Definition clear_engine (id : Z) (info : intel_gt_info) : intel_gt_info :=
  {| engine_mask := u32 (Z.land (engine_mask info) (Z.lnot (BIT id)));
     sfc_mask := sfc_mask info;
     vdbox_sfc_access := vdbox_sfc_access info |}.

Definition grant_sfc (i : Z) (info : intel_gt_info) : intel_gt_info :=
  {| engine_mask := engine_mask info;
     sfc_mask := sfc_mask info;
     vdbox_sfc_access := u8 (Z.lor (vdbox_sfc_access info) (BIT i)) |}.

Definition set_sfc_mask (v : Z) (info : intel_gt_info) : intel_gt_info :=
  {| engine_mask := engine_mask info;
     sfc_mask := v;
     vdbox_sfc_access := vdbox_sfc_access info |}.

(** The body of the loop over the video decode engines. *)
Definition vdbox_step (s : fuse_state) (i : Z) : fuse_state :=
  if negb (HAS_ENGINE (engine_mask (fs_info s)) (_VCS i)) then
    {| fs_info := fs_info s;
       fs_mask := u16 (Z.land (fs_mask s) (Z.lnot (BIT i)));
       fs_logical_vdbox := fs_logical_vdbox s;
       fs_log := fs_log s |}
  else if Z.land (BIT i) (fs_mask s) =? 0 then
    {| fs_info := clear_engine (_VCS i) (fs_info s);
       fs_mask := fs_mask s;
       fs_logical_vdbox := fs_logical_vdbox s;
       fs_log := fs_log s ++ [DrmDbg "vcs%u fused off\n" [i]] |}
  else
    let '(sfc, warned) :=
      gen11_vdbox_has_sfc (fs_info s) i (fs_logical_vdbox s) (fs_mask s) in
    {| fs_info := if sfc then grant_sfc i (fs_info s) else fs_info s;
       fs_mask := fs_mask s;
       fs_logical_vdbox := u32 (fs_logical_vdbox s + 1);
       fs_log := fs_log s ++ warned |}.

(** The body of the loop over the video enhancement engines. *)
Definition vebox_step (s : fuse_state) (i : Z) : fuse_state :=
  if negb (HAS_ENGINE (engine_mask (fs_info s)) (_VECS i)) then
    {| fs_info := fs_info s;
       fs_mask := u16 (Z.land (fs_mask s) (Z.lnot (BIT i)));
       fs_logical_vdbox := fs_logical_vdbox s;
       fs_log := fs_log s |}
  else if Z.land (BIT i) (fs_mask s) =? 0 then
    {| fs_info := clear_engine (_VECS i) (fs_info s);
       fs_mask := fs_mask s;
       fs_logical_vdbox := fs_logical_vdbox s;
       fs_log := fs_log s ++ [DrmDbg "vecs%u fused off\n" [i]] |}
  else s.

Definition instances (n : nat) : list Z := List.map Z.of_nat (seq 0 n).

(** The message and the check that follow each loop. *)
Definition report_mask (dbg warn : string) (mask instances_mask : Z)
    (log : list fuse_msg) : list fuse_msg :=
  let log1 := log ++ [DrmDbg dbg [mask; instances_mask]] in
  if negb (mask =? instances_mask) then log1 ++ [DrmWarn warn] else log1.

(** The fuse register as enable bits, and its two fields as the [u16]
    locals [vdbox_mask] and [vebox_mask] first hold them. *)
Definition media_fuse (fuse_reg_val : Z) : Z :=
  (* On newer platforms the fusing register is called 'enable' and has
     enable semantics, while on older platforms it is called 'disable'
     and bits have disable semantices. *)
  if MEDIA_VER_FULL <? IP_VER 12 50
  then u32 (Z.lnot (u32 fuse_reg_val)) else u32 fuse_reg_val.

Definition vdbox_enable (fuse_reg_val : Z) : Z :=
  u16 (Z.land (media_fuse fuse_reg_val) GEN11_GT_VDBOX_DISABLE_MASK).

Definition vebox_enable (fuse_reg_val : Z) : Z :=
  u16 (Z.shiftr (Z.land (media_fuse fuse_reg_val) GEN11_GT_VEBOX_DISABLE_MASK)
         GEN11_GT_VEBOX_DISABLE_SHIFT).

(** engine_mask_apply_media_fuses; [fuse_reg_val] and [pavp_fuse1] are
    what GEN11_GT_VEBOX_VDBOX_DISABLE and HSW_PAVP_FUSE1 hold. *)
Definition engine_mask_apply_media_fuses (fuse_reg_val pavp_fuse1 : Z)
    (info : intel_gt_info) : intel_gt_info * list fuse_msg :=
  if media_ver <? 11 then (info, [])
  else
    let vdbox_mask := vdbox_enable fuse_reg_val in
    let vebox_mask := vebox_enable fuse_reg_val in
    let '(info1, log1) :=
      if slim_vdbox then
        (* The SFC_ENABLE bits are broken on PVC and indicate that SFC is
           present, even though PVC has no SFC support. *)
        (set_sfc_mask 0 info, [UncoreRead GEN11_GT_VEBOX_VDBOX_DISABLE])
      else if IP_VER 12 50 <=? MEDIA_VER_FULL then
        (set_sfc_mask (u8 (REG_FIELD_GET XEHP_SFC_ENABLE_MASK (u32 pavp_fuse1)))
           info,
         [UncoreRead GEN11_GT_VEBOX_VDBOX_DISABLE; UncoreRead HSW_PAVP_FUSE1])
      else
        (set_sfc_mask (u8 (Z.lnot 0)) info,
         [UncoreRead GEN11_GT_VEBOX_VDBOX_DISABLE]) in
    let s1 :=
      fold_left vdbox_step (instances I915_MAX_VCS)
        {| fs_info := info1; fs_mask := vdbox_mask; fs_logical_vdbox := 0;
           fs_log := log1 |} in
    let log2 :=
      report_mask "vdbox enable: %04x, instances: %04lx\n"
        "%s: unexpected VDbox fuse value\n"
        (fs_mask s1) (VDBOX_MASK (fs_info s1)) (fs_log s1) in
    let s2 :=
      fold_left vebox_step (instances I915_MAX_VECS)
        {| fs_info := fs_info s1; fs_mask := vebox_mask;
           fs_logical_vdbox := fs_logical_vdbox s1; fs_log := log2 |} in
    (fs_info s2,
     report_mask "vebox enable: %04x, instances: %04lx\n"
       "%s: unexpected VEbox fuse value\n"
       (fs_mask s2) (VEBOX_MASK (fs_info s2)) (fs_log s2)).

(** The warnings among the messages. *)
Definition is_warning (m : fuse_msg) : bool :=
  match m with
  | DrmWarn _ | DrmWarnOnSlimVdbox => true
  | _ => false
  end.

(** How many of the video decode engines below instance [i] the mask
    has. *)
Definition vdboxes_below (mask : Z) (i : Z) : Z :=
  Z.of_nat (length (List.filter (fun k => Z.testbit mask (_VCS k))
                      (instances (Z.to_nat i)))).

(** *** Bits *)

Lemma wrap_testbit (n x b : Z) :
  0 <= n -> 0 <= b -> Z.testbit (wrap n x) b = (b <? n) && Z.testbit x b.
Proof.
  intros Hn Hb. unfold wrap.
  destruct (Z.ltb_spec b n); cbn [andb].
  - apply Z.mod_pow2_bits_low. lia.
  - apply Z.mod_pow2_bits_high. lia.
Qed.

Lemma BIT_testbit (i b : Z) : 0 <= i -> Z.testbit (BIT i) b = (b =? i).
Proof.
  intros Hi. unfold BIT. rewrite Z.shiftl_1_l, Z.pow2_bits_eqb by exact Hi.
  apply Z.eqb_sym.
Qed.

Lemma land_BIT_eqb (m i : Z) :
  0 <= i -> (Z.land (BIT i) m =? 0) = negb (Z.testbit m i).
Proof.
  intros Hi. destruct (Z.testbit m i) eqn:E; cbn [negb].
  - apply Z.eqb_neq. intros Z0.
    assert (T : Z.testbit (Z.land (BIT i) m) i = false)
      by (rewrite Z0; apply Z.bits_0).
    rewrite Z.land_spec, BIT_testbit, Z.eqb_refl, E in T by exact Hi.
    discriminate T.
  - apply Z.eqb_eq, Z.bits_inj'. intros b Hb.
    rewrite Z.land_spec, BIT_testbit, Z.bits_0 by exact Hi.
    destruct (Z.eqb_spec b i) as [-> | _]; cbn [andb]; [exact E | reflexivity].
Qed.

Lemma small_testbit (x n b : Z) :
  0 <= x < 2 ^ n -> n <= b -> Z.testbit x b = false.
Proof.
  intros Hx Hb.
  destruct (Z.eq_dec x 0) as [-> | Hne]; [apply Z.bits_0 |].
  assert (0 <= n).
  { destruct (Z.neg_nonneg_cases n) as [Hn | Hn]; [| exact Hn].
    rewrite Z.pow_neg_r in Hx by exact Hn. lia. }
  apply Z.bits_above_log2; [lia |].
  assert (Z.log2 x < n) by (apply Z.log2_lt_pow2; lia). lia.
Qed.

Lemma instances_S (n : nat) :
  instances (S n) = instances n ++ [Z.of_nat n].
Proof. unfold instances. rewrite seq_S, List.map_app. reflexivity. Qed.

Lemma in_instances (n : nat) (k : Z) :
  In k (instances n) <-> 0 <= k < Z.of_nat n.
Proof.
  unfold instances. rewrite in_map_iff. split.
  - intros [x [<- Hx]]. apply in_seq in Hx. lia.
  - intros Hk. exists (Z.to_nat k). split; [lia |]. apply in_seq. lia.
Qed.

Lemma filter_is_warning_app (l1 l2 : list fuse_msg) :
  List.filter is_warning (l1 ++ l2)
  = List.filter is_warning l1 ++ List.filter is_warning l2.
Proof. apply List.filter_app. Qed.

Lemma u16_testbit (x b : Z) :
  0 <= b -> Z.testbit (u16 x) b = (b <? 16) && Z.testbit x b.
Proof. intros Hb. apply wrap_testbit; lia. Qed.

Lemma u8_testbit (x b : Z) :
  0 <= b -> Z.testbit (u8 x) b = (b <? 8) && Z.testbit x b.
Proof. intros Hb. apply wrap_testbit; lia. Qed.

(** *** The loop over the video decode engines *)

Section VdboxLoop.

Variable s0 : fuse_state.

(** The engine of instance [i] is there and its fuse bit is set. *)
Definition vd_kept (i : Z) : bool :=
  Z.testbit (engine_mask (fs_info s0)) (_VCS i) && Z.testbit (fs_mask s0) i.

Definition count_kept (n : nat) : Z :=
  Z.of_nat (length (List.filter vd_kept (instances n))).

(** What gen11_vdbox_has_sfc answers for the instance [j] when the loop
    reaches it. *)
Definition sfc_rule (j : Z) : bool :=
  Z.testbit (sfc_mask (fs_info s0)) (j / 2)
  && (if 12 <=? media_ver then Z.even j || negb (vd_kept (j - 1))
      else if media_ver =? 11 then Z.even (count_kept (Z.to_nat j))
      else false).

Record vdbox_inv (s : fuse_state) (n : nat) : Prop := {
  vi_em : forall b, 0 <= b ->
    Z.testbit (engine_mask (fs_info s)) b
    = Z.testbit (engine_mask (fs_info s0)) b
      && negb ((VCS0 <=? b) && (b <? VCS0 + Z.of_nat n)
               && negb (Z.testbit (fs_mask s0) (b - VCS0)));
  vi_mask : forall j, 0 <= j ->
    Z.testbit (fs_mask s) j
    = Z.testbit (fs_mask s0) j
      && negb ((j <? Z.of_nat n)
               && negb (Z.testbit (engine_mask (fs_info s0)) (_VCS j)));
  vi_sfc : sfc_mask (fs_info s) = sfc_mask (fs_info s0);
  vi_logical : fs_logical_vdbox s = fs_logical_vdbox s0 + count_kept n;
  vi_access : forall j, 0 <= j < 8 ->
    Z.testbit (vdbox_sfc_access (fs_info s)) j
    = Z.testbit (vdbox_sfc_access (fs_info s0)) j
      || ((j <? Z.of_nat n) && vd_kept j && sfc_rule j);
  vi_log : List.filter is_warning (fs_log s) = List.filter is_warning (fs_log s0)
}.

Hypothesis VCS0_nonneg : 0 <= VCS0.
Hypothesis em_range : 0 <= engine_mask (fs_info s0) < 2 ^ 32.
Hypothesis mask_range : 0 <= fs_mask s0 < 2 ^ 16.
Hypothesis logical_zero : fs_logical_vdbox s0 = 0.
Hypothesis slim_no_sfc : slim_vdbox = true -> sfc_mask (fs_info s0) = 0.

Lemma count_kept_S (n : nat) :
  count_kept (S n)
  = count_kept n + (if vd_kept (Z.of_nat n) then 1 else 0).
Proof.
  unfold count_kept. rewrite instances_S, List.filter_app, length_app.
  cbn [List.filter]. destruct (vd_kept (Z.of_nat n)); cbn [length]; lia.
Qed.

Lemma count_kept_bound (n : nat) : 0 <= count_kept n <= Z.of_nat n.
Proof.
  induction n as [| n IH]; [unfold count_kept; cbn; lia |].
  rewrite count_kept_S. destruct (vd_kept (Z.of_nat n)); lia.
Qed.

Lemma vdbox_inv_start : vdbox_inv s0 0.
Proof.
  split; try reflexivity.
  - intros b Hb.
    replace (b <? VCS0 + Z.of_nat 0) with (b <? VCS0) by (f_equal; lia).
    destruct (Z.leb_spec VCS0 b); destruct (Z.ltb_spec b VCS0);
      cbn [andb negb]; try lia; rewrite andb_true_r; reflexivity.
  - intros j Hj. destruct (Z.ltb_spec j (Z.of_nat 0)); [lia |].
    cbn [andb negb]. rewrite andb_true_r. reflexivity.
  - unfold count_kept. cbn. lia.
  - intros j Hj. destruct (Z.ltb_spec j (Z.of_nat 0)); [lia |].
    cbn [andb]. rewrite orb_false_r. reflexivity.
Qed.

Ltac bool_cases :=
  repeat match goal with
         | |- context [?x <=? ?y] => destruct (Z.leb_spec x y)
         | |- context [?x <? ?y] => destruct (Z.ltb_spec x y)
         | |- context [?x =? ?y] => destruct (Z.eqb_spec x y)
         end.

Lemma vdbox_inv_step (s : fuse_state) (n : nat) :
  (n < 8)%nat -> vdbox_inv s n ->
  vdbox_inv (vdbox_step s (Z.of_nat n)) (S n).
Proof.
  intros Hn [Iem Imask Isfc Ilog Iacc Iw].
  set (i := Z.of_nat n).
  assert (Hi : 0 <= i < 8) by (unfold i; lia).
  assert (Sn : Z.of_nat (S n) = i + 1) by (unfold i; lia).
  assert (HasE : HAS_ENGINE (engine_mask (fs_info s)) (_VCS i)
                 = Z.testbit (engine_mask (fs_info s0)) (_VCS i)).
  { unfold HAS_ENGINE. rewrite Iem by (unfold _VCS; lia). unfold _VCS, i.
    destruct (Z.ltb_spec (VCS0 + Z.of_nat n) (VCS0 + Z.of_nat n)); [lia |].
    rewrite andb_false_r. cbn [andb negb]. apply andb_true_r. }
  assert (Mi : Z.testbit (fs_mask s) i = Z.testbit (fs_mask s0) i).
  { rewrite Imask by lia. unfold i.
    destruct (Z.ltb_spec (Z.of_nat n) (Z.of_nat n)); [lia |].
    cbn [andb negb]. apply andb_true_r. }
  assert (High : forall b, 32 <= b ->
                   Z.testbit (engine_mask (fs_info s0)) b = false)
    by (intros b Hb; apply (small_testbit _ 32); assumption).
  assert (High16 : forall j, 16 <= j -> Z.testbit (fs_mask s0) j = false)
    by (intros j Hj; apply (small_testbit _ 16); assumption).
  unfold vdbox_step. rewrite HasE, land_BIT_eqb, Mi by lia.
  fold i.
  destruct (Z.testbit (engine_mask (fs_info s0)) (_VCS i)) eqn:P;
    cbn [negb].
  2: { (* no such engine *)
    assert (Kf : vd_kept i = false) by (unfold vd_kept; rewrite P; reflexivity).
    split; cbn [fs_info fs_mask fs_logical_vdbox fs_log]; try assumption.
    - intros b Hb. rewrite Iem, Sn by exact Hb. fold i.
      destruct (Z.eq_dec b (_VCS i)) as [-> | Nb].
      + rewrite P. reflexivity.
      + unfold _VCS in Nb. f_equal. f_equal. bool_cases; cbn [andb];
          try reflexivity; lia.
    - intros j Hj.
      rewrite u16_testbit, Z.land_spec, Z.lnot_spec, BIT_testbit, Imask, Sn
        by lia.
      fold i. destruct (Z.eq_dec j i) as [-> | Nj].
      + rewrite Z.eqb_refl, P. cbn [negb]. rewrite !andb_false_r.
        destruct (Z.ltb_spec i (i + 1)); [| lia]. cbn [andb negb].
        rewrite andb_false_r. reflexivity.
      + destruct (Z.ltb_spec j 16); cbn [andb].
        * destruct (Z.eqb_spec j i); [contradiction |]. cbn [negb].
          rewrite andb_true_r. f_equal. f_equal. f_equal.
          bool_cases; try reflexivity; lia.
        * rewrite High16 by lia. reflexivity.
    - rewrite Ilog, count_kept_S. fold i. rewrite Kf. lia.
    - intros j Hj. rewrite Iacc, Sn by exact Hj. fold i.
      destruct (Z.eq_dec j i) as [-> | Nj].
      + rewrite !Kf, !andb_false_r. reflexivity.
      + f_equal. f_equal. f_equal. bool_cases; try reflexivity; lia. }
  destruct (Z.testbit (fs_mask s0) i) eqn:F; cbn [negb].
  2: { (* fused off *)
    assert (Kf : vd_kept i = false)
      by (unfold vd_kept; rewrite P, F; reflexivity).
    split; cbn [fs_info fs_mask fs_logical_vdbox fs_log clear_engine
                engine_mask sfc_mask vdbox_sfc_access]; try assumption.
    - intros b Hb.
      rewrite u32_testbit, Z.land_spec, Z.lnot_spec, BIT_testbit, Iem, Sn
        by (unfold _VCS; lia).
      fold i. destruct (Z.ltb_spec b 32); cbn [andb].
      + destruct (Z.eq_dec b (_VCS i)) as [-> | Nb].
        * rewrite Z.eqb_refl. cbn [negb]. rewrite andb_false_r.
          unfold _VCS. replace (VCS0 + i - VCS0) with i by lia. rewrite F.
          destruct (Z.leb_spec VCS0 (VCS0 + i)); [| lia].
          destruct (Z.ltb_spec (VCS0 + i) (VCS0 + (i + 1))); [| lia].
          cbn [andb negb]. rewrite andb_false_r. reflexivity.
        * destruct (Z.eqb_spec b (_VCS i)); [contradiction |]. cbn [negb].
          rewrite andb_true_r. unfold _VCS in Nb. f_equal. f_equal.
          bool_cases; cbn [andb]; try reflexivity; lia.
      + rewrite High by lia. reflexivity.
    - intros j Hj. rewrite Imask, Sn by exact Hj. fold i.
      destruct (Z.eq_dec j i) as [-> | Nj].
      + rewrite F. reflexivity.
      + f_equal. f_equal. f_equal. bool_cases; try reflexivity; lia.
    - rewrite Ilog, count_kept_S. fold i. rewrite Kf. lia.
    - intros j Hj. rewrite Iacc, Sn by exact Hj. fold i.
      destruct (Z.eq_dec j i) as [-> | Nj].
      + rewrite !Kf, !andb_false_r. reflexivity.
      + f_equal. f_equal. f_equal. bool_cases; try reflexivity; lia.
    - rewrite filter_is_warning_app, Iw. cbn. apply app_nil_r. }
  (* the engine stays *)
  assert (Kept : vd_kept i = true) by (unfold vd_kept; rewrite P, F; reflexivity).
  assert (Sfc : gen11_vdbox_has_sfc (fs_info s) i (fs_logical_vdbox s)
                  (fs_mask s) = (sfc_rule i, [])).
  { unfold gen11_vdbox_has_sfc, sfc_rule. rewrite Isfc, Z.land_comm.
    rewrite land_BIT_eqb by (apply Z.div_pos; lia).
    destruct (Z.testbit (sfc_mask (fs_info s0)) (i / 2)) eqn:S;
      cbn [negb andb]; [| reflexivity].
    destruct slim_vdbox eqn:Slim.
    { rewrite (slim_no_sfc eq_refl), Z.bits_0 in S. discriminate S. }
    destruct (12 <=? media_ver).
    - f_equal. rewrite Zeven_mod.
      destruct (Z.eq_dec i 0) as [-> | N0]; [reflexivity |].
      f_equal. rewrite land_BIT_eqb by lia. f_equal.
      rewrite Imask by lia. unfold vd_kept.
      destruct (Z.ltb_spec (i - 1) (Z.of_nat n)); [| unfold i in *; lia].
      cbn [andb].
      destruct (Z.testbit (engine_mask (fs_info s0)) (_VCS (i - 1)));
        cbn [negb andb]; [apply andb_true_r | apply andb_false_r].
    - destruct (media_ver =? 11); [| reflexivity].
      f_equal. rewrite Zeven_mod, Ilog, logical_zero. unfold i.
      rewrite Nat2Z.id. reflexivity. }
  rewrite Sfc.
  split; cbn [fs_info fs_mask fs_logical_vdbox fs_log].
  - intros b Hb.
    assert (E : engine_mask (if sfc_rule i then grant_sfc i (fs_info s)
                             else fs_info s) = engine_mask (fs_info s))
      by (destruct (sfc_rule i); reflexivity).
    rewrite E, Iem, Sn by exact Hb. fold i.
    destruct (Z.eq_dec b (_VCS i)) as [-> | Nb].
    + unfold _VCS. replace (VCS0 + i - VCS0) with i by lia. rewrite F.
      cbn [negb]. rewrite !andb_false_r. reflexivity.
    + unfold _VCS in Nb. f_equal. f_equal. bool_cases; cbn [andb];
        try reflexivity; lia.
  - intros j Hj. rewrite Imask, Sn by exact Hj. fold i.
    destruct (Z.eq_dec j i) as [-> | Nj].
    + rewrite P. cbn [negb]. rewrite !andb_false_r. reflexivity.
    + f_equal. f_equal. f_equal. bool_cases; try reflexivity; lia.
  - destruct (sfc_rule i); exact Isfc.
  - rewrite Ilog, count_kept_S. fold i. rewrite Kept, logical_zero.
    pose proof (count_kept_bound n). unfold u32, wrap.
    apply Z.mod_small. lia.
  - intros j Hj. rewrite Sn.
    assert (A : Z.testbit (vdbox_sfc_access
                  (if sfc_rule i then grant_sfc i (fs_info s) else fs_info s)) j
                = Z.testbit (vdbox_sfc_access (fs_info s)) j
                  || ((j =? i) && sfc_rule i)).
    { destruct (sfc_rule i); cbn [grant_sfc vdbox_sfc_access].
      - rewrite u8_testbit, Z.lor_spec, BIT_testbit by lia.
        destruct (Z.ltb_spec j 8); [| lia]. cbn [andb].
        rewrite andb_true_r. reflexivity.
      - rewrite andb_false_r, orb_false_r. reflexivity. }
    rewrite A, Iacc by exact Hj. fold i.
    destruct (Z.eq_dec j i) as [-> | Nj].
    + rewrite Z.eqb_refl, Kept. cbn [andb].
      destruct (Z.ltb_spec i i); [lia |].
      destruct (Z.ltb_spec i (i + 1)); [| lia]. cbn [andb].
      rewrite orb_false_r. reflexivity.
    + destruct (Z.eqb_spec j i); [contradiction |]. cbn [andb].
      rewrite orb_false_r. f_equal. f_equal. f_equal.
      bool_cases; try reflexivity; lia.
  - rewrite filter_is_warning_app, Iw. cbn. apply app_nil_r.
Qed.

Lemma vdbox_loop_inv (n : nat) :
  (n <= 8)%nat -> vdbox_inv (fold_left vdbox_step (instances n) s0) n.
Proof.
  induction n as [| n IH]; intros Hn.
  - exact vdbox_inv_start.
  - rewrite instances_S, fold_left_app. cbn [fold_left].
    apply vdbox_inv_step; [lia | apply IH; lia].
Qed.

End VdboxLoop.

(** *** The loop over the video enhancement engines *)

Section VeboxLoop.

Variable s0 : fuse_state.

Record vebox_inv (s : fuse_state) (n : nat) : Prop := {
  ve_em : forall b, 0 <= b ->
    Z.testbit (engine_mask (fs_info s)) b
    = Z.testbit (engine_mask (fs_info s0)) b
      && negb ((VECS0 <=? b) && (b <? VECS0 + Z.of_nat n)
               && negb (Z.testbit (fs_mask s0) (b - VECS0)));
  ve_mask : forall j, 0 <= j ->
    Z.testbit (fs_mask s) j
    = Z.testbit (fs_mask s0) j
      && negb ((j <? Z.of_nat n)
               && negb (Z.testbit (engine_mask (fs_info s0)) (_VECS j)));
  ve_sfc : sfc_mask (fs_info s) = sfc_mask (fs_info s0);
  ve_access : vdbox_sfc_access (fs_info s) = vdbox_sfc_access (fs_info s0);
  ve_log : List.filter is_warning (fs_log s) = List.filter is_warning (fs_log s0)
}.

Hypothesis VECS0_nonneg : 0 <= VECS0.
Hypothesis em_high :
  forall b, 32 <= b -> Z.testbit (engine_mask (fs_info s0)) b = false.
Hypothesis mask_range : 0 <= fs_mask s0 < 2 ^ 16.

Ltac bool_cases :=
  repeat match goal with
         | |- context [?x <=? ?y] => destruct (Z.leb_spec x y)
         | |- context [?x <? ?y] => destruct (Z.ltb_spec x y)
         | |- context [?x =? ?y] => destruct (Z.eqb_spec x y)
         end.

Lemma vebox_inv_start : vebox_inv s0 0.
Proof.
  split; try reflexivity.
  - intros b Hb.
    replace (b <? VECS0 + Z.of_nat 0) with (b <? VECS0) by (f_equal; lia).
    destruct (Z.leb_spec VECS0 b); destruct (Z.ltb_spec b VECS0);
      cbn [andb negb]; try lia; rewrite andb_true_r; reflexivity.
  - intros j Hj. destruct (Z.ltb_spec j (Z.of_nat 0)); [lia |].
    cbn [andb negb]. rewrite andb_true_r. reflexivity.
Qed.

Lemma vebox_inv_step (s : fuse_state) (n : nat) :
  vebox_inv s n -> vebox_inv (vebox_step s (Z.of_nat n)) (S n).
Proof.
  intros [Iem Imask Isfc Iacc Iw].
  set (i := Z.of_nat n).
  assert (Hi : 0 <= i) by (unfold i; lia).
  assert (Sn : Z.of_nat (S n) = i + 1) by (unfold i; lia).
  assert (HasE : HAS_ENGINE (engine_mask (fs_info s)) (_VECS i)
                 = Z.testbit (engine_mask (fs_info s0)) (_VECS i)).
  { unfold HAS_ENGINE. rewrite Iem by (unfold _VECS; lia). unfold _VECS, i.
    destruct (Z.ltb_spec (VECS0 + Z.of_nat n) (VECS0 + Z.of_nat n)); [lia |].
    rewrite andb_false_r. cbn [andb negb]. apply andb_true_r. }
  assert (Mi : Z.testbit (fs_mask s) i = Z.testbit (fs_mask s0) i).
  { rewrite Imask by lia. unfold i.
    destruct (Z.ltb_spec (Z.of_nat n) (Z.of_nat n)); [lia |].
    cbn [andb negb]. apply andb_true_r. }
  assert (High16 : forall j, 16 <= j -> Z.testbit (fs_mask s0) j = false)
    by (intros j Hj; apply (small_testbit _ 16); assumption).
  unfold vebox_step. rewrite HasE, land_BIT_eqb, Mi by lia.
  fold i.
  destruct (Z.testbit (engine_mask (fs_info s0)) (_VECS i)) eqn:P;
    cbn [negb].
  2: { (* no such engine *)
    split; cbn [fs_info fs_mask fs_logical_vdbox fs_log]; try assumption.
    - intros b Hb. rewrite Iem, Sn by exact Hb. fold i.
      destruct (Z.eq_dec b (_VECS i)) as [-> | Nb].
      + rewrite P. reflexivity.
      + unfold _VECS in Nb. f_equal. f_equal. bool_cases; cbn [andb];
          try reflexivity; lia.
    - intros j Hj.
      rewrite u16_testbit, Z.land_spec, Z.lnot_spec, BIT_testbit, Imask, Sn
        by lia.
      fold i. destruct (Z.eq_dec j i) as [-> | Nj].
      + rewrite Z.eqb_refl, P. cbn [negb]. rewrite !andb_false_r.
        destruct (Z.ltb_spec i (i + 1)); [| lia]. cbn [andb negb].
        rewrite andb_false_r. reflexivity.
      + destruct (Z.ltb_spec j 16); cbn [andb].
        * destruct (Z.eqb_spec j i); [contradiction |]. cbn [negb].
          rewrite andb_true_r. f_equal. f_equal. f_equal.
          bool_cases; try reflexivity; lia.
        * rewrite High16 by lia. reflexivity. }
  destruct (Z.testbit (fs_mask s0) i) eqn:F; cbn [negb].
  2: { (* fused off *)
    split; cbn [fs_info fs_mask fs_logical_vdbox fs_log clear_engine
                engine_mask sfc_mask vdbox_sfc_access]; try assumption.
    - intros b Hb.
      rewrite u32_testbit, Z.land_spec, Z.lnot_spec, BIT_testbit, Iem, Sn
        by (unfold _VECS; lia).
      fold i. destruct (Z.ltb_spec b 32); cbn [andb].
      + destruct (Z.eq_dec b (_VECS i)) as [-> | Nb].
        * rewrite Z.eqb_refl. cbn [negb]. rewrite andb_false_r.
          unfold _VECS. replace (VECS0 + i - VECS0) with i by lia. rewrite F.
          destruct (Z.leb_spec VECS0 (VECS0 + i)); [| lia].
          destruct (Z.ltb_spec (VECS0 + i) (VECS0 + (i + 1))); [| lia].
          cbn [andb negb]. rewrite andb_false_r. reflexivity.
        * destruct (Z.eqb_spec b (_VECS i)); [contradiction |]. cbn [negb].
          rewrite andb_true_r. unfold _VECS in Nb. f_equal. f_equal.
          bool_cases; cbn [andb]; try reflexivity; lia.
      + rewrite em_high by lia. reflexivity.
    - intros j Hj. rewrite Imask, Sn by exact Hj. fold i.
      destruct (Z.eq_dec j i) as [-> | Nj].
      + rewrite F. reflexivity.
      + f_equal. f_equal. f_equal. bool_cases; try reflexivity; lia.
    - rewrite filter_is_warning_app, Iw. cbn. apply app_nil_r. }
  (* the engine stays *)
  split; try assumption.
  - intros b Hb. rewrite Iem, Sn by exact Hb. fold i.
    destruct (Z.eq_dec b (_VECS i)) as [-> | Nb].
    + unfold _VECS. replace (VECS0 + i - VECS0) with i by lia. rewrite F.
      cbn [negb]. rewrite !andb_false_r. reflexivity.
    + unfold _VECS in Nb. f_equal. f_equal. bool_cases; cbn [andb];
        try reflexivity; lia.
  - intros j Hj. rewrite Imask, Sn by exact Hj. fold i.
    destruct (Z.eq_dec j i) as [-> | Nj].
    + rewrite P. cbn [negb]. rewrite !andb_false_r. reflexivity.
    + f_equal. f_equal. f_equal. bool_cases; try reflexivity; lia.
Qed.

Lemma vebox_loop_inv (n : nat) :
  vebox_inv (fold_left vebox_step (instances n) s0) n.
Proof.
  induction n as [| n IH].
  - exact vebox_inv_start.
  - rewrite instances_S, fold_left_app. cbn [fold_left].
    apply vebox_inv_step, IH.
Qed.

End VeboxLoop.

(** After either loop the local mask is the instances mask of the
    engines that are left: the check that follows cannot fail. *)
Lemma instances_mask_eq (info0 info : intel_gt_info) (mask0 mask first : Z)
    (count : nat) :
  0 <= first -> (1 <= count)%nat -> first + Z.of_nat count <= 64 ->
  0 <= mask0 < 2 ^ Z.of_nat count ->
  (forall b, 0 <= b ->
     Z.testbit (engine_mask info) b
     = Z.testbit (engine_mask info0) b
       && negb ((first <=? b) && (b <? first + Z.of_nat count)
                && negb (Z.testbit mask0 (b - first)))) ->
  (forall j, 0 <= j ->
     Z.testbit mask j
     = Z.testbit mask0 j
       && negb ((j <? Z.of_nat count)
                && negb (Z.testbit (engine_mask info0) (first + j)))) ->
  mask = ENGINE_INSTANCES_MASK info first count.
Proof.
  intros Hf Hc H64 Hm Iem Imask.
  apply Z.bits_inj'. intros j Hj.
  unfold ENGINE_INSTANCES_MASK.
  rewrite Z.shiftr_spec, Z.land_spec, GENMASK_testbit, Iem, Imask by lia.
  replace (j + first - first) with j by lia.
  replace (j + first) with (first + j) by lia.
  destruct (Z.ltb_spec j (Z.of_nat count)) as [Lt | Ge].
  - destruct (Z.leb_spec first (first + j)); [| lia].
    destruct (Z.ltb_spec (first + j) (first + Z.of_nat count)); [| lia].
    destruct (Z.leb_spec (first + j) (first + Z.of_nat count - 1)); [| lia].
    destruct (Z.testbit mask0 j);
      destruct (Z.testbit (engine_mask info0) (first + j)); reflexivity.
  - rewrite (small_testbit mask0 (Z.of_nat count)) by lia.
    destruct (Z.leb_spec (first + j) (first + Z.of_nat count - 1)); [lia |].
    cbn [andb]. rewrite !andb_false_r. reflexivity.
Qed.

Lemma report_mask_quiet (dbg warn : string) (mask : Z) (log : list fuse_msg) :
  List.filter is_warning (report_mask dbg warn mask mask log)
  = List.filter is_warning log.
Proof.
  unfold report_mask. rewrite Z.eqb_refl. cbn [negb].
  rewrite filter_is_warning_app. cbn. apply app_nil_r.
Qed.

Lemma land_small (a b n : Z) :
  0 <= a -> 0 <= b < 2 ^ n -> 0 <= Z.land a b < 2 ^ n.
Proof.
  intros Ha Hb.
  assert (N : 0 <= Z.land a b) by (apply Z.land_nonneg; left; exact Ha).
  split; [exact N |].
  destruct (Z.eq_dec (Z.land a b) 0) as [-> | Hne]; [lia |].
  assert (Hn : 0 <= n).
  { destruct (Z.neg_nonneg_cases n) as [Hn | Hn]; [| exact Hn].
    rewrite Z.pow_neg_r in Hb by exact Hn. lia. }
  assert (Hpos : 0 < b).
  { destruct (Z.eq_dec b 0) as [-> | ?]; [| lia].
    rewrite Z.land_0_r in Hne. contradiction. }
  apply Z.log2_lt_pow2; [lia |].
  pose proof (Z.log2_land a b Ha ltac:(lia)) as L.
  assert (Z.log2 b < n) by (apply Z.log2_lt_pow2; lia). lia.
Qed.

Lemma media_fuse_nonneg (v : Z) : 0 <= media_fuse v.
Proof.
  unfold media_fuse, u32, wrap.
  destruct (MEDIA_VER_FULL <? IP_VER 12 50); apply Z.mod_pos_bound; lia.
Qed.

Lemma vdbox_enable_range (v : Z) (n : nat) :
  (n <= 16)%nat -> 0 <= GEN11_GT_VDBOX_DISABLE_MASK < 2 ^ Z.of_nat n ->
  0 <= vdbox_enable v < 2 ^ Z.of_nat n.
Proof.
  intros Hn Hm. unfold vdbox_enable, u16, wrap.
  pose proof (land_small (media_fuse v) _ _ (media_fuse_nonneg v) Hm) as R.
  assert (2 ^ Z.of_nat n <= 2 ^ 16) by (apply Z.pow_le_mono_r; lia).
  rewrite Z.mod_small by lia. exact R.
Qed.

Lemma vebox_enable_range (v : Z) (n : nat) :
  (n <= 16)%nat -> 0 <= GEN11_GT_VEBOX_DISABLE_SHIFT ->
  0 <= Z.shiftr GEN11_GT_VEBOX_DISABLE_MASK GEN11_GT_VEBOX_DISABLE_SHIFT
    < 2 ^ Z.of_nat n ->
  0 <= vebox_enable v < 2 ^ Z.of_nat n.
Proof.
  intros Hn Hs Hm. unfold vebox_enable, u16, wrap.
  rewrite Z.shiftr_land.
  assert (S : 0 <= Z.shiftr (media_fuse v) GEN11_GT_VEBOX_DISABLE_SHIFT)
    by (apply Z.shiftr_nonneg, media_fuse_nonneg).
  pose proof (land_small _ _ _ S Hm) as R.
  assert (2 ^ Z.of_nat n <= 2 ^ 16) by (apply Z.pow_le_mono_r; lia).
  rewrite Z.mod_small by lia. exact R.
Qed.

(** X24: the media fuses take away exactly the engines whose enable bit
    is clear, and give each SFC to one engine.  From media version 11 on,
    a video decode or video enhancement engine stays in the engine mask
    exactly if it was there and its bit of the fuse register (inverted
    before 12.50) is set; every other engine stays as it was.  A video
    decode engine gains access to an SFC exactly if it stays, the SFC of
    its pair is present and, from media version 12 on, its instance is
    even or the even instance before it is gone (on version 11: an even
    number of video decode engines stay below it); with slim VDBOXes no
    SFC is present.  The two checks for an unexpected fuse value and the
    warning of gen11_vdbox_has_sfc never fire.  Before media version 11
    nothing is changed. *)
Theorem X24_media_fuses_keep_enabled_engines (fuse_reg_val pavp_fuse1 : Z)
    (info : intel_gt_info) :
  (1 <= I915_MAX_VCS <= 8)%nat -> (1 <= I915_MAX_VECS <= 16)%nat ->
  0 <= VCS0 -> 0 <= VECS0 ->
  VCS0 + Z.of_nat I915_MAX_VCS <= 32 ->
  VECS0 + Z.of_nat I915_MAX_VECS <= 32 ->
  VCS0 + Z.of_nat I915_MAX_VCS <= VECS0
  \/ VECS0 + Z.of_nat I915_MAX_VECS <= VCS0 ->
  0 <= GEN11_GT_VDBOX_DISABLE_MASK < 2 ^ Z.of_nat I915_MAX_VCS ->
  0 <= GEN11_GT_VEBOX_DISABLE_SHIFT ->
  0 <= Z.shiftr GEN11_GT_VEBOX_DISABLE_MASK GEN11_GT_VEBOX_DISABLE_SHIFT
    < 2 ^ Z.of_nat I915_MAX_VECS ->
  0 <= engine_mask info < 2 ^ 32 ->
  let r := engine_mask_apply_media_fuses fuse_reg_val pavp_fuse1 info in
  (media_ver < 11 -> r = (info, []))
  /\ (11 <= media_ver ->
      (forall i, 0 <= i < Z.of_nat I915_MAX_VCS ->
         Z.testbit (engine_mask (fst r)) (_VCS i)
         = Z.testbit (engine_mask info) (_VCS i)
           && Z.testbit (vdbox_enable fuse_reg_val) i)
      /\ (forall i, 0 <= i < Z.of_nat I915_MAX_VECS ->
            Z.testbit (engine_mask (fst r)) (_VECS i)
            = Z.testbit (engine_mask info) (_VECS i)
              && Z.testbit (vebox_enable fuse_reg_val) i)
      /\ (forall b, 0 <= b ->
            ~ VCS0 <= b < VCS0 + Z.of_nat I915_MAX_VCS ->
            ~ VECS0 <= b < VECS0 + Z.of_nat I915_MAX_VECS ->
            Z.testbit (engine_mask (fst r)) b
            = Z.testbit (engine_mask info) b)
      /\ (forall i, 0 <= i < Z.of_nat I915_MAX_VCS ->
            Z.testbit (vdbox_sfc_access (fst r)) i
            = Z.testbit (vdbox_sfc_access info) i
              || (Z.testbit (engine_mask (fst r)) (_VCS i)
                  && Z.testbit (sfc_mask (fst r)) (i / 2)
                  && (if 12 <=? media_ver
                      then Z.even i
                           || negb (Z.testbit (engine_mask (fst r))
                                      (_VCS (i - 1)))
                      else Z.even (vdboxes_below (engine_mask (fst r)) i))))
      /\ (slim_vdbox = true -> sfc_mask (fst r) = 0)
      /\ List.filter is_warning (snd r) = []).
Proof.
  intros Hvcs Hvecs Hv0 He0 Hv32 He32 Hdisj Hvm Hsh Hem Hmask r.
  split.
  { intros Hlt. unfold r, engine_mask_apply_media_fuses.
    destruct (Z.ltb_spec media_ver 11); [reflexivity | lia]. }
  intros Hge. unfold r, engine_mask_apply_media_fuses. clear r.
  destruct (Z.ltb_spec media_ver 11) as [? | _]; [lia |]. cbv zeta.
  set (setup := if slim_vdbox then _ else _).
  assert (S : exists info1 log1,
             setup = (info1, log1)
             /\ engine_mask info1 = engine_mask info
             /\ vdbox_sfc_access info1 = vdbox_sfc_access info
             /\ List.filter is_warning log1 = []
             /\ (slim_vdbox = true -> sfc_mask info1 = 0)).
  { unfold setup. destruct slim_vdbox.
    - eexists _, _. repeat split.
    - destruct (IP_VER 12 50 <=? MEDIA_VER_FULL); eexists _, _;
        repeat split; discriminate. }
  destruct S as (info1 & log1 & -> & E1 & A1 & W1 & Slim1).
  set (s0 := {| fs_info := info1; fs_mask := vdbox_enable fuse_reg_val;
                fs_logical_vdbox := 0; fs_log := log1 |}).
  pose proof (vdbox_enable_range fuse_reg_val I915_MAX_VCS ltac:(lia) Hvm)
    as Rv.
  assert (Rv16 : 0 <= fs_mask s0 < 2 ^ 16).
  { cbn [s0 fs_mask].
    assert (2 ^ Z.of_nat I915_MAX_VCS <= 2 ^ 16)
      by (apply Z.pow_le_mono_r; lia). lia. }
  assert (Em0 : 0 <= engine_mask (fs_info s0) < 2 ^ 32)
    by (cbn [s0 fs_info]; rewrite E1; exact Hmask).
  destruct (vdbox_loop_inv s0 Hv0 Em0 Rv16 eq_refl Slim1 I915_MAX_VCS
              ltac:(lia)) as [Vem Vmask Vsfc Vlog Vacc Vw].
  set (s1 := fold_left vdbox_step (instances I915_MAX_VCS) s0) in *.
  cbn [s0 fs_info fs_mask fs_log fs_logical_vdbox] in Vem, Vmask, Vsfc,
    Vlog, Vacc, Vw.
  assert (Q1 : fs_mask s1 = VDBOX_MASK (fs_info s1)).
  { unfold VDBOX_MASK.
    apply (instances_mask_eq info1 (fs_info s1) (vdbox_enable fuse_reg_val));
      try lia; assumption. }
  rewrite <- Q1.
  set (log2 := report_mask _ _ (fs_mask s1) (fs_mask s1) (fs_log s1)).
  assert (W2 : List.filter is_warning log2 = [])
    by (unfold log2; rewrite report_mask_quiet, Vw; exact W1).
  set (t0 := {| fs_info := fs_info s1; fs_mask := vebox_enable fuse_reg_val;
                fs_logical_vdbox := fs_logical_vdbox s1; fs_log := log2 |}).
  pose proof (vebox_enable_range fuse_reg_val I915_MAX_VECS ltac:(lia) Hsh
                Hem) as Re.
  assert (Re16 : 0 <= fs_mask t0 < 2 ^ 16).
  { cbn [t0 fs_mask].
    assert (2 ^ Z.of_nat I915_MAX_VECS <= 2 ^ 16)
      by (apply Z.pow_le_mono_r; lia). lia. }
  assert (High0 : forall b, 32 <= b -> Z.testbit (engine_mask info) b = false)
    by (intros b Hb; apply (small_testbit _ 32); assumption).
  assert (High1 : forall b, 32 <= b ->
                    Z.testbit (engine_mask (fs_info t0)) b = false).
  { intros b Hb. cbn [t0 fs_info]. rewrite Vem, E1, High0 by lia.
    reflexivity. }
  destruct (vebox_loop_inv t0 He0 High1 Re16 I915_MAX_VECS)
    as [Eem Emask Esfc Eacc Ew].
  set (t1 := fold_left vebox_step (instances I915_MAX_VECS) t0) in *.
  cbn [t0 fs_info fs_mask fs_log fs_logical_vdbox] in Eem, Emask, Esfc,
    Eacc, Ew.
  assert (Q2 : fs_mask t1 = VEBOX_MASK (fs_info t1)).
  { unfold VEBOX_MASK.
    apply (instances_mask_eq (fs_info s1) (fs_info t1)
             (vebox_enable fuse_reg_val)); try lia; assumption. }
  rewrite <- Q2. cbn [fst snd].
  (* the engine mask, bit by bit *)
  assert (B : forall b, 0 <= b ->
            Z.testbit (engine_mask (fs_info t1)) b
            = Z.testbit (engine_mask info) b
              && negb ((VCS0 <=? b) && (b <? VCS0 + Z.of_nat I915_MAX_VCS)
                       && negb (Z.testbit (vdbox_enable fuse_reg_val)
                                  (b - VCS0)))
              && negb ((VECS0 <=? b) && (b <? VECS0 + Z.of_nat I915_MAX_VECS)
                       && negb (Z.testbit (vebox_enable fuse_reg_val)
                                  (b - VECS0)))).
  { intros b Hb. rewrite Eem, Vem, E1 by exact Hb. reflexivity. }
  assert (Bv : forall i, 0 <= i < Z.of_nat I915_MAX_VCS ->
             Z.testbit (engine_mask (fs_info t1)) (_VCS i)
             = Z.testbit (engine_mask info) (_VCS i)
               && Z.testbit (vdbox_enable fuse_reg_val) i).
  { intros i Hi. rewrite B by (unfold _VCS; lia). unfold _VCS.
    replace (VCS0 + i - VCS0) with i by lia.
    destruct (Z.leb_spec VCS0 (VCS0 + i)); [| lia].
    destruct (Z.ltb_spec (VCS0 + i) (VCS0 + Z.of_nat I915_MAX_VCS)); [| lia].
    destruct (Z.leb_spec VECS0 (VCS0 + i));
      destruct (Z.ltb_spec (VCS0 + i) (VECS0 + Z.of_nat I915_MAX_VECS));
      cbn [andb negb]; try lia; rewrite ?negb_involutive, ?andb_true_r;
      reflexivity. }
  split; [exact Bv |].
  split.
  { intros i Hi. rewrite B by (unfold _VECS; lia). unfold _VECS.
    replace (VECS0 + i - VECS0) with i by lia.
    destruct (Z.leb_spec VECS0 (VECS0 + i)); [| lia].
    destruct (Z.ltb_spec (VECS0 + i) (VECS0 + Z.of_nat I915_MAX_VECS));
      [| lia].
    destruct (Z.leb_spec VCS0 (VECS0 + i));
      destruct (Z.ltb_spec (VECS0 + i) (VCS0 + Z.of_nat I915_MAX_VCS));
      cbn [andb negb]; try lia; rewrite ?negb_involutive, ?andb_true_r;
      reflexivity. }
  split.
  { intros b Hb Nv Ne. rewrite B by exact Hb.
    destruct (Z.leb_spec VCS0 b);
      destruct (Z.ltb_spec b (VCS0 + Z.of_nat I915_MAX_VCS));
      destruct (Z.leb_spec VECS0 b);
      destruct (Z.ltb_spec b (VECS0 + Z.of_nat I915_MAX_VECS));
      cbn [andb negb]; try lia; rewrite ?andb_true_r; reflexivity. }
  split.
  { intros i Hi. rewrite Eacc, Vacc, A1, Esfc, Vsfc by lia.
    destruct (Z.ltb_spec i (Z.of_nat I915_MAX_VCS)); [| lia]. cbn [andb].
    assert (K : forall k, 0 <= k < Z.of_nat I915_MAX_VCS ->
                  vd_kept s0 k = Z.testbit (engine_mask (fs_info t1)) (_VCS k)).
    { intros k Hk. rewrite (Bv k Hk). unfold vd_kept. cbn [s0 fs_info fs_mask].
      rewrite E1. reflexivity. }
    rewrite (K i Hi). f_equal. unfold sfc_rule. cbn [s0 fs_info].
    rewrite <- andb_assoc. f_equal. f_equal.
    destruct (12 <=? media_ver) eqn:V12.
    - destruct (Z.eq_dec i 0) as [-> | N0]; [reflexivity |].
      rewrite (K (i - 1)) by lia. reflexivity.
    - destruct (Z.eqb_spec media_ver 11) as [_ | N11];
        [| apply Z.leb_gt in V12; lia].
      f_equal. unfold count_kept, vdboxes_below. do 2 f_equal.
      apply List.filter_ext_in. intros k Hk. apply in_instances in Hk.
      apply K. lia. }
  split.
  { intros Slim. rewrite Esfc, Vsfc. exact (Slim1 Slim). }
  rewrite report_mask_quiet, Ew. exact W2.
Qed.

Lemma bits_below_range (x n : Z) :
  0 <= n -> (forall b, n <= b -> Z.testbit x b = false) -> 0 <= x < 2 ^ n.
Proof.
  intros Hn High.
  assert (E : x = x mod 2 ^ n).
  { apply Z.bits_inj'. intros b Hb.
    destruct (Z.lt_ge_cases b n).
    - rewrite Z.mod_pow2_bits_low by lia. reflexivity.
    - rewrite Z.mod_pow2_bits_high, High by lia. reflexivity. }
  rewrite E. apply Z.mod_pos_bound. apply Z.pow_pos_nonneg; lia.
Qed.

(** The engine mask the media fuses leave, bit by bit. *)
Lemma media_fuses_engine_mask (fuse_reg_val pavp_fuse1 : Z)
    (info : intel_gt_info) :
  (I915_MAX_VCS <= 8)%nat -> 0 <= VCS0 -> 0 <= VECS0 ->
  0 <= engine_mask info < 2 ^ 32 ->
  let r := engine_mask_apply_media_fuses fuse_reg_val pavp_fuse1 info in
  0 <= engine_mask (fst r) < 2 ^ 32
  /\ forall b, 0 <= b ->
       Z.testbit (engine_mask (fst r)) b
       = Z.testbit (engine_mask info) b
         && negb ((11 <=? media_ver)
                  && (((VCS0 <=? b) && (b <? VCS0 + Z.of_nat I915_MAX_VCS)
                       && negb (Z.testbit (vdbox_enable fuse_reg_val)
                                  (b - VCS0)))
                      || ((VECS0 <=? b) && (b <? VECS0 + Z.of_nat I915_MAX_VECS)
                          && negb (Z.testbit (vebox_enable fuse_reg_val)
                                     (b - VECS0))))).
Proof.
  intros Hvcs Hv0 He0 Hmask r.
  assert (High0 : forall b, 32 <= b -> Z.testbit (engine_mask info) b = false)
    by (intros b Hb; apply (small_testbit _ 32); assumption).
  assert (B : forall b, 0 <= b ->
       Z.testbit (engine_mask (fst r)) b
       = Z.testbit (engine_mask info) b
         && negb ((11 <=? media_ver)
                  && (((VCS0 <=? b) && (b <? VCS0 + Z.of_nat I915_MAX_VCS)
                       && negb (Z.testbit (vdbox_enable fuse_reg_val)
                                  (b - VCS0)))
                      || ((VECS0 <=? b) && (b <? VECS0 + Z.of_nat I915_MAX_VECS)
                          && negb (Z.testbit (vebox_enable fuse_reg_val)
                                     (b - VECS0)))))).
  { unfold r, engine_mask_apply_media_fuses. clear r.
    destruct (Z.ltb_spec media_ver 11) as [Lt | Ge].
    { intros b Hb. destruct (Z.leb_spec 11 media_ver); [lia |].
      cbn [fst andb negb]. rewrite andb_true_r. reflexivity. }
    destruct (Z.leb_spec 11 media_ver) as [_ | ?]; [| lia]. cbn [andb].
    cbv zeta.
    set (setup := if slim_vdbox then _ else _).
    assert (S : exists info1 log1,
               setup = (info1, log1)
               /\ engine_mask info1 = engine_mask info
               /\ (slim_vdbox = true -> sfc_mask info1 = 0)).
    { unfold setup. destruct slim_vdbox.
      - eexists _, _. repeat split.
      - destruct (IP_VER 12 50 <=? MEDIA_VER_FULL); eexists _, _;
          repeat split; discriminate. }
    destruct S as (info1 & log1 & -> & E1 & Slim1).
    set (s0 := {| fs_info := info1; fs_mask := vdbox_enable fuse_reg_val;
                  fs_logical_vdbox := 0; fs_log := log1 |}).
    assert (Rv16 : 0 <= fs_mask s0 < 2 ^ 16).
    { cbn [s0 fs_mask]. unfold vdbox_enable, u16, wrap.
      apply Z.mod_pos_bound. lia. }
    assert (Em0 : 0 <= engine_mask (fs_info s0) < 2 ^ 32)
      by (cbn [s0 fs_info]; rewrite E1; exact Hmask).
    destruct (vdbox_loop_inv s0 Hv0 Em0 Rv16 eq_refl Slim1 I915_MAX_VCS Hvcs)
      as [Vem _ _ _ _ _].
    set (s1 := fold_left vdbox_step (instances I915_MAX_VCS) s0) in *.
    cbn [s0 fs_info fs_mask] in Vem.
    set (log2 := report_mask _ _ _ _ _).
    set (t0 := {| fs_info := fs_info s1; fs_mask := vebox_enable fuse_reg_val;
                  fs_logical_vdbox := fs_logical_vdbox s1; fs_log := log2 |}).
    assert (Re16 : 0 <= fs_mask t0 < 2 ^ 16).
    { cbn [t0 fs_mask]. unfold vebox_enable, u16, wrap.
      apply Z.mod_pos_bound. lia. }
    assert (High1 : forall b, 32 <= b ->
                      Z.testbit (engine_mask (fs_info t0)) b = false).
    { intros b Hb. cbn [t0 fs_info]. rewrite Vem, E1, High0 by lia.
      reflexivity. }
    destruct (vebox_loop_inv t0 He0 High1 Re16 I915_MAX_VECS)
      as [Eem _ _ _ _].
    cbn [t0 fs_info fs_mask] in Eem. cbn [fst].
    intros b Hb. rewrite Eem, Vem, E1 by exact Hb.
    destruct (Z.testbit (engine_mask info) b); cbn [andb]; [| reflexivity].
    rewrite negb_orb. reflexivity. }
  split; [| exact B].
  apply bits_below_range; [lia |].
  intros b Hb. rewrite B, High0 by lia. reflexivity.
Qed.
End WithMediaEngines.

(** A GT of media version 12.0 with the render engine at id 0, the video
    decode engines at ids 10 to 17 and the video enhancement engines at
    ids 18 to 21; it has VCS0, VCS1, VCS2 and VECS0, and the fuse register
    disables VCS0. *)
Definition sample_media_info : intel_gt_info :=
  {| engine_mask := 1 + 1024 + 2048 + 4096 + 262144;
     sfc_mask := 0;
     vdbox_sfc_access := 0 |}.

Definition sample_media_fuses : intel_gt_info * list fuse_msg :=
  engine_mask_apply_media_fuses 10 18 8 4 255 983040 16 251658240
    false 12 0 1 0 sample_media_info.

(** VCS0 goes; VCS1, whose even neighbour is gone, and VCS2 get an SFC. *)
Example sample_media_fuses_result :
  sample_media_fuses
  = ({| engine_mask := 1 + 2048 + 4096 + 262144;
        sfc_mask := 255;
        vdbox_sfc_access := 6 |},
     [UncoreRead GEN11_GT_VEBOX_VDBOX_DISABLE;
      DrmDbg "vcs%u fused off\n" [0];
      DrmDbg "vdbox enable: %04x, instances: %04lx\n" [6; 6];
      DrmDbg "vebox enable: %04x, instances: %04lx\n" [1; 1]]).
Proof. vm_compute. reflexivity. Qed.

Lemma X24_media_fuses_keep_enabled_engines_witness :
  List.filter is_warning (snd sample_media_fuses) = [].
Proof.
  refine (proj2 (proj2 (proj2 (proj2 (proj2
    (proj2 (X24_media_fuses_keep_enabled_engines 10 18 8 4 255 983040 16
              251658240 false 12 0 1 0 sample_media_info
              _ _ _ _ _ _ _ _ _ _ _) _))))));
    first [lia | cbn; lia | vm_compute; intuition discriminate].
Defined.

(** ** The hex dump of the engine state *)

(** What hexdump prints through [i_printf], and the warning of its
    WARN_ON_ONCE. *)
Inductive dump_line : Type :=
| Star (indent : Z)                            (* "*\n" *)
| Row (indent : Z) (pos : Z) (line : string)   (* "[%04zx] %s\n" *)
| WarnOnOnce.

Section WithHexDump.

(** hex_dump_to_buffer of lib/hexdump.c on the bytes it is given, for the
    row size and group size hexdump passes: the line and the number of
    characters it returns. *)
Variable hex_dump_to_buffer : list Z -> string * Z.

(** [buf] gives the byte at each offset from the pointer of the same
    name. *)
Definition bytes_at (buf : Z -> Z) (pos : Z) (n : Z) : list Z :=
  List.map (fun t => buf (pos + t)) (instances (Z.to_nat n)).

(** [!memcmp(a, b, n)] *)
Definition memcmp_eq (buf : Z -> Z) (a b n : Z) : bool :=
  forallb (fun t => buf (a + t) =? buf (b + t)) (instances (Z.to_nat n)).

Definition rowsize : Z := 8 * 4.

(** The locals of hexdump, the lines printed so far, and the flag of
    WARN_ON_ONCE, which outlives the call. *)
Record dump_state : Type := {
  prev : option Z;
  skip : bool;
  warned : bool;
  printed : list dump_line
}.

(** The body of the loop for the row at [pos]. *)
Definition hexdump_row (indent : Z) (buf : Z -> Z) (len : Z)
    (s : dump_state) (pos : Z) : dump_state :=
  if match prev s with
     | Some p => memcmp_eq buf p pos rowsize
     | None => false
     end
  then
    if negb (skip s)
    then {| prev := prev s; skip := true; warned := warned s;
            printed := printed s ++ [Star indent] |}
    else s
  else
    let '(line, ret) :=
      hex_dump_to_buffer (bytes_at buf pos (Z.min (len - pos) rowsize)) in
    let fires := 128 <=? u64 ret in
    {| prev := Some pos; skip := false; warned := warned s || fires;
       printed := printed s
                    ++ (if fires && negb (warned s) then [WarnOnOnce] else [])
                    ++ [Row indent pos line] |}.

(** The loop from [pos] on; [pos] is a [size_t].  [None] when the fuel
    runs out before the loop ends. *)
Fixpoint hexdump_from (fuel : nat) (indent : Z) (buf : Z -> Z) (len : Z)
    (s : dump_state) (pos : Z) : option dump_state :=
  if pos <? len then
    match fuel with
    | O => None
    | S fuel' =>
        hexdump_from fuel' indent buf len (hexdump_row indent buf len s pos)
          (u64 (pos + rowsize))
    end
  else Some s.

(** hexdump; [warned0] is the flag of WARN_ON_ONCE on entry. *)
Definition hexdump (indent : Z) (buf : Z -> Z) (len : Z) (warned0 : bool)
  : option dump_state :=
  hexdump_from (Z.to_nat (DIV_ROUND_UP len rowsize)) indent buf len
    {| prev := None; skip := false; warned := warned0; printed := [] |} 0.

(** The last row printed at or before the offset [k]. *)
Definition last_row_upto (k : Z) (out : list dump_line)
  : option (Z * string) :=
  fold_left (fun acc l =>
               match l with
               | Row _ pos line => if pos <=? k then Some (pos, line) else acc
               | _ => acc
               end) out None.

(** No line of [*] follows another. *)
Fixpoint no_double_star (out : list dump_line) : bool :=
  match out with
  | Star _ :: (Star _ :: _) => false
  | _ :: rest => no_double_star rest
  | [] => true
  end.

Definition is_star (l : dump_line) : bool :=
  match l with Star _ => true | _ => false end.

Lemma nth_error_instances (n i : nat) :
  (i < n)%nat -> nth_error (instances n) i = Some (Z.of_nat i).
Proof.
  intros Hi. unfold instances.
  rewrite nth_error_map, nth_error_seq.
  destruct (Nat.ltb_spec i n); [reflexivity | lia].
Qed.

Lemma nth_error_bytes_at (buf : Z -> Z) (pos n t : Z) :
  0 <= t < n ->
  nth_error (bytes_at buf pos n) (Z.to_nat t) = Some (buf (pos + t)).
Proof.
  intros Ht. unfold bytes_at.
  rewrite nth_error_map, nth_error_instances by lia.
  cbn. rewrite Z2Nat.id by lia. reflexivity.
Qed.

Lemma memcmp_eq_spec (buf : Z -> Z) (a b n t : Z) :
  memcmp_eq buf a b n = true -> 0 <= t < n -> buf (a + t) = buf (b + t).
Proof.
  unfold memcmp_eq. intros H Ht.
  rewrite forallb_forall in H. apply Z.eqb_eq, H, in_instances. lia.
Qed.

Lemma last_row_upto_app (k : Z) (out l : list dump_line) :
  last_row_upto k (out ++ l)
  = fold_left (fun acc l =>
                 match l with
                 | Row _ pos line => if pos <=? k then Some (pos, line) else acc
                 | _ => acc
                 end) l (last_row_upto k out).
Proof. unfold last_row_upto. apply fold_left_app. Qed.

Lemma last_row_upto_star (k : Z) (out : list dump_line) (indent : Z) :
  last_row_upto k (out ++ [Star indent]) = last_row_upto k out.
Proof. rewrite last_row_upto_app. reflexivity. Qed.

Lemma last_row_upto_row (k : Z) (out : list dump_line) (c : bool)
    (indent pos : Z) (line : string) :
  last_row_upto k
    (out ++ (if c then [WarnOnOnce] else []) ++ [Row indent pos line])
  = if pos <=? k then Some (pos, line) else last_row_upto k out.
Proof. rewrite last_row_upto_app. destruct c; reflexivity. Qed.

Lemma no_double_star_snoc (out : list dump_line) (x : dump_line) :
  no_double_star out = true ->
  (is_star x = true -> is_star (List.last out WarnOnOnce) = false) ->
  no_double_star (out ++ [x]) = true.
Proof.
  induction out as [| a out IH]; intros N L.
  - destruct x; reflexivity.
  - destruct out as [| b out].
    + cbn [app]. destruct a, x; try reflexivity.
      cbn in L. discriminate (L eq_refl).
    + change ((a :: b :: out) ++ [x]) with (a :: b :: (out ++ [x])).
      change (b :: (out ++ [x])) with ((b :: out) ++ [x]) in *.
      assert (N' : no_double_star (b :: out) = true)
        by (destruct a, b; try exact N; discriminate N).
      specialize (IH N' L).
      change ((b :: out) ++ [x]) with (b :: (out ++ [x])) in *.
      destruct a, b; try exact IH; discriminate N.
Qed.

Lemma last_snoc (out : list dump_line) (x d : dump_line) :
  List.last (out ++ [x]) d = x.
Proof. apply List.last_last. Qed.

Section HexdumpLoop.

Variable indent : Z.
Variable buf : Z -> Z.
Variable len : Z.

(** The byte at offset [k] is on the last row printed at or before [k],
    at its place in the row. *)
Definition shown (k : Z) (out : list dump_line) : Prop :=
  exists pos bytes,
    last_row_upto k out = Some (pos, fst (hex_dump_to_buffer bytes))
    /\ pos <= k
    /\ nth_error bytes (Z.to_nat (k mod rowsize)) = Some (buf k).

Record dump_inv (j : Z) (s : dump_state) : Prop := {
  di_shown : forall k, 0 <= k < rowsize * j -> k < len -> shown k (printed s);
  di_prev :
    match prev s with
    | None => j = 0
    | Some p =>
        exists q, p = rowsize * q /\ 0 <= q < j
          /\ (forall r t, q <= r < j -> 0 <= t < rowsize ->
                buf (rowsize * r + t) = buf (p + t))
          /\ (forall k, p <= k ->
                last_row_upto k (printed s)
                = Some (p, fst (hex_dump_to_buffer
                                  (bytes_at buf p (Z.min (len - p) rowsize)))))
    end;
  di_stars : no_double_star (printed s) = true;
  di_skip : skip s = false -> is_star (List.last (printed s) WarnOnOnce) = false
}.

Lemma row_offset (j k : Z) :
  rowsize * j <= k < rowsize * (j + 1) ->
  k mod rowsize = k - rowsize * j.
Proof.
  unfold rowsize. intros Hk. cbn in *.
  symmetry. apply (Z.mod_unique_pos k 32 j); lia.
Qed.

Lemma dump_inv_step (j : Z) (s : dump_state) :
  0 <= j -> rowsize * j < len -> dump_inv j s ->
  dump_inv (j + 1) (hexdump_row indent buf len s (rowsize * j)).
Proof.
  intros Hj Hlen [Ishown Iprev Istars Iskip].
  assert (R : rowsize = 32) by reflexivity.
  unfold hexdump_row.
  destruct (match prev s with
            | Some p => memcmp_eq buf p (rowsize * j) rowsize
            | None => false
            end) eqn:Same.
  - (* the row repeats the last one printed *)
    destruct (prev s) as [p |] eqn:Ep; [| discriminate Same].
    destruct Iprev as (q & Hp & Hq & Hrows & Hlast).
    assert (Shown : forall out,
              (forall k, last_row_upto k out = last_row_upto k (printed s)) ->
              forall k, 0 <= k < rowsize * (j + 1) -> k < len -> shown k out).
    { intros out Hout k Hk Hkl.
      destruct (Z.lt_ge_cases k (rowsize * j)) as [Old | New].
      - destruct (Ishown k ltac:(lia) Hkl) as (pos & bytes & L & Le & N).
        exists pos, bytes. rewrite Hout. auto.
      - exists p, (bytes_at buf p (Z.min (len - p) rowsize)).
        rewrite Hout, Hlast by nia. split; [reflexivity |].
        split; [nia |].
        rewrite (row_offset j k) by lia.
        rewrite nth_error_bytes_at by nia.
        f_equal. rewrite (memcmp_eq_spec _ _ _ _ _ Same) by lia.
        f_equal. lia. }
    assert (Prev : exists q', p = rowsize * q' /\ 0 <= q' < j + 1
              /\ (forall r t, q' <= r < j + 1 -> 0 <= t < rowsize ->
                    buf (rowsize * r + t) = buf (p + t))).
    { exists q. split; [exact Hp |]. split; [lia |].
      intros r t Hr Ht. destruct (Z.eq_dec r j) as [-> | Nr].
      - symmetry. apply (memcmp_eq_spec _ _ _ _ _ Same Ht).
      - apply Hrows; lia. }
    destruct Prev as (q' & Hp' & Hq' & Hrows').
    destruct (skip s) eqn:Sk; cbn [negb].
    + split; [apply Shown; reflexivity | | exact Istars | ].
      * rewrite Ep. exists q'. auto.
      * rewrite Sk. discriminate.
    + split; cbn [prev skip printed].
      * apply Shown. intros k. apply last_row_upto_star.
      * exists q'. repeat split; try assumption; try lia.
        intros k Hk. rewrite last_row_upto_star. apply Hlast, Hk.
      * apply no_double_star_snoc; [exact Istars |].
        intros _. apply Iskip. reflexivity.
      * discriminate.
  - (* the row is printed *)
    destruct (hex_dump_to_buffer
                (bytes_at buf (rowsize * j) (Z.min (len - rowsize * j) rowsize)))
      as [line ret] eqn:Hex.
    cbv zeta. split; cbn [prev skip printed].
    + intros k Hk Hkl. unfold shown. rewrite last_row_upto_row.
      destruct (Z.leb_spec (rowsize * j) k) as [New | Old].
      * exists (rowsize * j),
          (bytes_at buf (rowsize * j) (Z.min (len - rowsize * j) rowsize)).
        rewrite Hex. split; [reflexivity |]. split; [exact New |].
        rewrite (row_offset j k) by lia.
        rewrite nth_error_bytes_at by lia. f_equal. f_equal. lia.
      * apply Ishown; lia.
    + exists j. split; [reflexivity |]. split; [lia |]. split.
      * intros r t Hr Ht. replace r with j by lia. reflexivity.
      * intros k Hk. rewrite last_row_upto_row, Hex.
        destruct (Z.leb_spec (rowsize * j) k); [reflexivity | lia].
    + rewrite app_assoc. apply no_double_star_snoc; [| discriminate].
      destruct ((128 <=? u64 ret) && negb (warned s)).
      * apply no_double_star_snoc; [exact Istars | discriminate].
      * rewrite app_nil_r. exact Istars.
    + intros _. rewrite app_assoc, last_snoc. reflexivity.
Qed.

Lemma hexdump_from_ends (fuel : nat) :
  forall (j : Z) (s : dump_state),
    0 <= j -> len <= 2 ^ 64 - rowsize ->
    len <= rowsize * (j + Z.of_nat fuel) ->
    dump_inv j s ->
    exists s' j',
      hexdump_from fuel indent buf len s (rowsize * j) = Some s'
      /\ len <= rowsize * j' /\ dump_inv j' s'.
Proof.
  assert (R : rowsize = 32) by reflexivity.
  induction fuel as [| fuel IH]; intros j s Hj Hmax Hfuel I.
  - cbn [hexdump_from].
    destruct (Z.ltb_spec (rowsize * j) len); [lia |].
    exists s, j. auto.
  - cbn [hexdump_from].
    destruct (Z.ltb_spec (rowsize * j) len) as [Lt | Ge].
    + assert (U : u64 (rowsize * j + rowsize) = rowsize * (j + 1)).
      { unfold u64, wrap. rewrite Z.mod_small; lia. }
      rewrite U. apply IH; [lia | exact Hmax | lia |].
      apply dump_inv_step; assumption.
    + exists s, j. auto.
Qed.

End HexdumpLoop.

(** X25: the hex dump shows every byte of the buffer.  For a buffer whose
    rows can be counted in a [size_t], the loop of hexdump ends, and every
    byte of the buffer is on the last row printed at or before its offset,
    at its place within the row: the rows left out behind a line of [*]
    repeat the row printed before them.  No line of [*] follows another,
    and nothing is printed for an empty buffer. *)
Theorem X25_hexdump_shows_every_byte (indent : Z) (buf : Z -> Z) (len : Z)
    (warned0 : bool) :
  0 <= len <= 2 ^ 64 - rowsize ->
  exists s,
    hexdump indent buf len warned0 = Some s
    /\ (forall k, 0 <= k < len ->
          exists pos bytes,
            last_row_upto k (printed s)
            = Some (pos, fst (hex_dump_to_buffer bytes))
            /\ pos <= k
            /\ nth_error bytes (Z.to_nat (k mod rowsize)) = Some (buf k))
    /\ no_double_star (printed s) = true
    /\ (len = 0 -> printed s = []).
Proof.
  intros Hlen. unfold hexdump.
  set (s0 := {| prev := None; skip := false; warned := warned0;
                printed := [] |}).
  assert (I0 : dump_inv buf len 0 s0).
  { split; cbn [s0 prev skip printed]; try reflexivity.
    intros k Hk. unfold rowsize in Hk. lia. }
  assert (F : len <= rowsize * (0 + Z.of_nat (Z.to_nat (DIV_ROUND_UP len rowsize)))).
  { unfold DIV_ROUND_UP. change rowsize with 32.
    assert (0 <= (len + 32 - 1) / 32) by (apply Z.div_pos; lia).
    rewrite Z2Nat.id by assumption.
    pose proof (Z.div_mod (len + 32 - 1) 32 ltac:(lia)).
    pose proof (Z.mod_pos_bound (len + 32 - 1) 32 ltac:(lia)). lia. }
  destruct (hexdump_from_ends indent buf len _ 0 s0 ltac:(lia) (proj2 Hlen)
              F I0) as (s' & j' & E & Hj' & [Ishown _ Istars _]).
  change (rowsize * 0) with 0 in E.
  exists s'. split; [exact E |]. split.
  { intros k Hk. apply Ishown; lia. }
  split; [exact Istars |].
  intros ->. cbn in E. injection E as <-. reflexivity.
Qed.
End WithHexDump.

(** A formatter to run hexdump with: each byte as two hex digits, as
    hex_dump_to_buffer prints them for a group size of one. *)
Definition hex_digit (d : Z) : string :=
  String.substring (Z.to_nat (d mod 16)) 1 "0123456789abcdef".

Definition hex_byte (b : Z) : string :=
  (hex_digit (b / 16) ++ hex_digit b)%string.

Definition sample_hex_line (bytes : list Z) : string * Z :=
  let line := String.concat " " (List.map hex_byte bytes) in
  (line, Z.of_nat (String.length line)).

(** Seventy bytes: two rows of zeros and a last, short row of 255: the
    second row is left out behind a line of [*]. *)
Definition sample_dump_buf (k : Z) : Z := if k <? 64 then 0 else 255.

Example sample_hexdump :
  option_map printed
    (hexdump sample_hex_line 2 sample_dump_buf 70 false)
  = Some [Row 2 0 (String.concat " " (List.map hex_byte (repeat 0 32)));
          Star 2;
          Row 2 64 "ff ff ff ff ff ff"].
Proof. vm_compute. reflexivity. Qed.

Lemma X25_hexdump_shows_every_byte_witness :
  exists s,
    hexdump sample_hex_line 2 sample_dump_buf 70 false = Some s
    /\ (forall k, 0 <= k < 70 ->
          exists pos bytes,
            last_row_upto k (printed s)
            = Some (pos, fst (sample_hex_line bytes))
            /\ pos <= k
            /\ nth_error bytes (Z.to_nat (k mod rowsize))
               = Some (sample_dump_buf k))
    /\ no_double_star (printed s) = true
    /\ (70 = 0 -> printed s = []).
Proof.
  apply (X25_hexdump_shows_every_byte sample_hex_line 2 sample_dump_buf 70
           false).
  unfold rowsize. lia.
Defined.

(** ** The register base of an engine *)

(** One entry of [mmio_bases[]]: bit fields of 8 and 24 bits.  An entry
    the table of [intel_engines[]] does not spell out is all zero. *)
Record engine_mmio_base : Type := {
  graphics_ver : Z;
  base : Z
}.

Definition MAX_MMIO_BASES : nat := 3.

(** The loop of __engine_mmio_base from the index [i] on, with [n]
    entries left: the index it stops at. *)
Fixpoint mmio_base_index (GRAPHICS_VER : Z) (bases : nat -> engine_mmio_base)
    (i n : nat) : nat :=
  match n with
  | O => i
  | S n' =>
      if graphics_ver (bases i) <=? GRAPHICS_VER then i
      else mmio_base_index GRAPHICS_VER bases (S i) n'
  end.

(** __engine_mmio_base; [None] when one of its GEM_BUG_ONs fires. *)
Definition __engine_mmio_base (GRAPHICS_VER : Z)
    (bases : nat -> engine_mmio_base) : option Z :=
  let i := mmio_base_index GRAPHICS_VER bases 0 MAX_MMIO_BASES in
  if (i =? MAX_MMIO_BASES)%nat then None
  else if base (bases i) =? 0 then None
  else Some (base (bases i)).

(** The table is sorted in reverse graphics_ver order. *)
Definition reverse_sorted (bases : nat -> engine_mmio_base) : Prop :=
  forall i j, (i <= j < MAX_MMIO_BASES)%nat ->
    graphics_ver (bases j) <= graphics_ver (bases i).

Lemma mmio_base_index_spec (GRAPHICS_VER : Z)
    (bases : nat -> engine_mmio_base) (n i : nat) :
  let k := mmio_base_index GRAPHICS_VER bases i n in
  (i <= k <= i + n)%nat
  /\ (forall j, (i <= j < k)%nat -> GRAPHICS_VER < graphics_ver (bases j))
  /\ ((k < i + n)%nat -> graphics_ver (bases k) <= GRAPHICS_VER).
Proof.
  revert i. induction n as [| n IH]; intros i; cbn [mmio_base_index].
  - cbv zeta. repeat split; lia.
  - destruct (Z.leb_spec (graphics_ver (bases i)) GRAPHICS_VER) as [Le | Gt].
    + cbv zeta. split; [lia |]. split; [intros j Hj; lia | intros _; exact Le].
    + specialize (IH (S i)). cbv zeta in *.
      destruct IH as (R & Before & At). split; [lia |]. split.
      * intros j Hj. destruct (Nat.eq_dec j i) as [-> | N]; [exact Gt |].
        apply Before. lia.
      * intros Hk. apply At. lia.
Qed.

(** X26: __engine_mmio_base picks the newest entry that is not newer
    than the device.  On a table sorted in reverse graphics_ver order, an
    answer is the nonzero base of an entry whose version is at most the
    device's and at least that of every other such entry; and there is no
    answer exactly when every entry is newer than the device or the first
    that is not has no base, as the entries left blank have none. *)
Theorem X26_mmio_base_newest_not_newer (GRAPHICS_VER : Z)
    (bases : nat -> engine_mmio_base) :
  reverse_sorted bases ->
  (forall b, __engine_mmio_base GRAPHICS_VER bases = Some b ->
     b <> 0
     /\ exists i, (i < MAX_MMIO_BASES)%nat
          /\ b = base (bases i)
          /\ graphics_ver (bases i) <= GRAPHICS_VER
          /\ forall j, (j < MAX_MMIO_BASES)%nat ->
               graphics_ver (bases j) <= GRAPHICS_VER ->
               graphics_ver (bases j) <= graphics_ver (bases i))
  /\ (__engine_mmio_base GRAPHICS_VER bases = None <->
      (forall j, (j < MAX_MMIO_BASES)%nat ->
         GRAPHICS_VER < graphics_ver (bases j))
      \/ exists i, (i < MAX_MMIO_BASES)%nat
           /\ graphics_ver (bases i) <= GRAPHICS_VER
           /\ (forall j, (j < i)%nat -> GRAPHICS_VER < graphics_ver (bases j))
           /\ base (bases i) = 0).
Proof.
  intros Sorted. unfold __engine_mmio_base. cbv zeta.
  destruct (mmio_base_index_spec GRAPHICS_VER bases MAX_MMIO_BASES 0)
    as (R & Before & At).
  set (k := mmio_base_index GRAPHICS_VER bases 0 MAX_MMIO_BASES) in *.
  cbv zeta in R, Before, At. fold k in R, Before, At.
  destruct (Nat.eqb_spec k MAX_MMIO_BASES) as [E | N].
  - split; [intros b [=] |]. split; [| reflexivity].
    intros _. left. intros j Hj. apply Before. lia.
  - assert (Lt : (k < MAX_MMIO_BASES)%nat) by lia.
    assert (Hk : graphics_ver (bases k) <= GRAPHICS_VER) by (apply At; lia).
    destruct (Z.eqb_spec (base (bases k)) 0) as [Z0 | NZ].
    + split; [intros b [=] |]. split; [| reflexivity].
      intros _. right. exists k. repeat split; try assumption.
      intros j Hj. apply Before. lia.
    + split.
      * intros b [= <-]. split; [exact NZ |]. exists k.
        repeat split; try assumption.
        intros j Hj Hle. destruct (Nat.le_gt_cases k j) as [Kj | Jk].
        -- apply Sorted. lia.
        -- pose proof (Before j ltac:(lia)). lia.
      * split; [intros [=] |]. intros [All | (i & Hi & Le & Bef & Z0)].
        -- pose proof (All k Lt). lia.
        -- exfalso. destruct (Nat.lt_trichotomy i k) as [L | [-> | G]].
           ++ pose proof (Before i ltac:(lia)). lia.
           ++ contradiction.
           ++ pose proof (Bef k G). lia.
Qed.

(** The table of a video decode engine with its bases of graphics
    versions 11 and 4 (the third entry is blank), on a device of version
    12. *)
Definition sample_bases (i : nat) : engine_mmio_base :=
  match i with
  | O => {| graphics_ver := 11; base := 1835008 |}
  | S O => {| graphics_ver := 4; base := 73728 |}
  | _ => {| graphics_ver := 0; base := 0 |}
  end.

Lemma sample_bases_sorted : reverse_sorted sample_bases.
Proof.
  intros i j Hij. unfold MAX_MMIO_BASES in Hij.
  destruct i as [| [| [| i]]]; destruct j as [| [| [| j]]];
    cbn; lia.
Qed.

Lemma X26_mmio_base_newest_not_newer_witness :
  __engine_mmio_base 12 sample_bases = Some 1835008
  /\ 1835008 <> 0
  /\ exists i, (i < MAX_MMIO_BASES)%nat
       /\ 1835008 = base (sample_bases i)
       /\ graphics_ver (sample_bases i) <= 12
       /\ forall j, (j < MAX_MMIO_BASES)%nat ->
            graphics_ver (sample_bases j) <= 12 ->
            graphics_ver (sample_bases j) <= graphics_ver (sample_bases i).
Proof.
  split; [reflexivity |].
  exact (proj1 (X26_mmio_base_newest_not_newer 12 sample_bases
                  sample_bases_sorted) 1835008 eq_refl).
Defined.

(** ** The request an engine is working on *)

(** What intel_engine_find_active_request looks at in a request. *)
Record i915_request : Type := {
  rq_id : Z;
  execution_mask : Z;
  is_complete : bool;     (* __i915_request_is_complete(rq) *)
  has_started : bool      (* __i915_request_has_started(rq) *)
}.

(** [list_for_each_entry_from_reverse] over the timeline of the request
    that execlists_active returned: [back] holds that request and then
    the older ones of its timeline, each followed by the one before
    it. *)
Fixpoint find_on_timeline (engine_mask : Z) (back : list i915_request)
    (active : option i915_request) : option i915_request :=
  match back with
  | [] => active
  | request :: older =>
      if is_complete request then active
      else find_on_timeline engine_mask older
             (if negb (Z.land (execution_mask request) engine_mask =? 0)
              then Some request else active)
  end.

(** [list_for_each_entry] over the requests of the scheduler. *)
Fixpoint find_on_scheduler (engine_mask : Z) (requests : list i915_request)
  : option i915_request :=
  match requests with
  | [] => None
  | request :: rest =>
      if Z.land (execution_mask request) engine_mask =? 0
      then find_on_scheduler engine_mask rest
      else if is_complete request
      then find_on_scheduler engine_mask rest
      else if has_started request then Some request
      else find_on_scheduler engine_mask rest
  end.

(** intel_engine_find_active_request.  [inflight] is [None] when
    execlists_active returns no request, and [sched_requests] is [None]
    when the engine has no [sched_engine]. *)
Definition intel_engine_find_active_request (engine_mask : Z)
    (inflight : option (list i915_request))
    (sched_requests : option (list i915_request)) : option i915_request :=
  let active :=
    match inflight with
    | Some back => find_on_timeline engine_mask back None
    | None => None
    end in
  match active with
  | Some request => Some request
  | None =>
      match sched_requests with
      | None => None
      | Some requests => find_on_scheduler engine_mask requests
      end
  end.

Definition runs_on (engine_mask : Z) (rq : i915_request) : bool :=
  negb (Z.land (execution_mask rq) engine_mask =? 0).

Lemma find_snoc (f : i915_request -> bool) (l : list i915_request)
    (x : i915_request) :
  List.find f (l ++ [x])
  = match List.find f l with
    | Some y => Some y
    | None => if f x then Some x else None
    end.
Proof.
  induction l as [| a l IH]; cbn [app List.find]; [reflexivity |].
  destruct (f a); [reflexivity | exact IH].
Qed.

Lemma find_on_timeline_live (engine_mask : Z) (live rest : list i915_request)
    (active : option i915_request) :
  Forall (fun rq => is_complete rq = false) live ->
  (rest = [] \/ exists rq older, rest = rq :: older /\ is_complete rq = true) ->
  find_on_timeline engine_mask (live ++ rest) active
  = match List.find (runs_on engine_mask) (rev live) with
    | Some rq => Some rq
    | None => active
    end.
Proof.
  intros Live Rest. revert active.
  induction Live as [| rq live Hrq _ IH]; intros active.
  - cbn [app rev List.find].
    destruct Rest as [-> | (rq & older & -> & C)]; cbn [find_on_timeline].
    + reflexivity.
    + rewrite C. reflexivity.
  - cbn [app find_on_timeline rev]. rewrite Hrq, IH.
    rewrite find_snoc. fold (runs_on engine_mask rq).
    destruct (List.find (runs_on engine_mask) (rev live)); [reflexivity |].
    destruct (runs_on engine_mask rq); reflexivity.
Qed.

Lemma find_on_scheduler_find (engine_mask : Z) (requests : list i915_request) :
  find_on_scheduler engine_mask requests
  = List.find (fun rq => runs_on engine_mask rq && negb (is_complete rq)
                         && has_started rq) requests.
Proof.
  induction requests as [| rq rest IH]; [reflexivity |].
  cbn [find_on_scheduler List.find]. unfold runs_on at 1.
  destruct (Z.land (execution_mask rq) engine_mask =? 0); cbn [negb andb];
    [exact IH |].
  destruct (is_complete rq); cbn [negb andb]; [exact IH |].
  destruct (has_started rq); [reflexivity | exact IH].
Qed.

(** X27: the request intel_engine_find_active_request returns.  Of the
    requests on the timeline of the one in flight, from that one back to
    the last completed one, it returns the oldest that may run on the
    engine; the requests of the scheduler are looked at only when there
    is none, and of them it returns the first that may run on the
    engine, has started and is not complete.  So it never returns a
    completed request, nor one that cannot run on the engine. *)
Theorem X27_engine_active_request (engine_mask : Z)
    (live rest : list i915_request)
    (sched_requests : option (list i915_request)) :
  Forall (fun rq => is_complete rq = false) live ->
  (rest = [] \/ exists rq older, rest = rq :: older /\ is_complete rq = true) ->
  let r := intel_engine_find_active_request engine_mask
             (Some (live ++ rest)) sched_requests in
  let fallback :=
    intel_engine_find_active_request engine_mask None sched_requests in
  r = match List.find (runs_on engine_mask) (rev live) with
      | Some rq => Some rq
      | None => fallback
      end
  /\ fallback
     = match sched_requests with
       | Some requests =>
           List.find (fun rq => runs_on engine_mask rq
                                && negb (is_complete rq) && has_started rq)
             requests
       | None => None
       end
  /\ (forall rq, r = Some rq \/ fallback = Some rq ->
        is_complete rq = false /\ runs_on engine_mask rq = true).
Proof.
  intros Live Rest r fallback.
  assert (F : fallback
              = match sched_requests with
                | Some requests =>
                    List.find (fun rq => runs_on engine_mask rq
                                         && negb (is_complete rq)
                                         && has_started rq) requests
                | None => None
                end).
  { unfold fallback, intel_engine_find_active_request. cbv zeta.
    destruct sched_requests; [apply find_on_scheduler_find | reflexivity]. }
  assert (R : r = match List.find (runs_on engine_mask) (rev live) with
                  | Some rq => Some rq
                  | None => fallback
                  end).
  { unfold r, fallback, intel_engine_find_active_request. cbv zeta.
    rewrite (find_on_timeline_live engine_mask live rest None Live Rest).
    destruct (List.find (runs_on engine_mask) (rev live)); reflexivity. }
  assert (Fb : forall rq, fallback = Some rq ->
                 is_complete rq = false /\ runs_on engine_mask rq = true).
  { intros rq E. rewrite F in E. destruct sched_requests; [| discriminate E].
    apply List.find_some in E. destruct E as [_ E].
    destruct (runs_on engine_mask rq); [| discriminate E].
    destruct (is_complete rq); [discriminate E | auto]. }
  split; [exact R |]. split; [exact F |].
  intros rq [E | E]; [| exact (Fb rq E)].
  rewrite R in E.
  destruct (List.find (runs_on engine_mask) (rev live)) as [rq' |] eqn:Fd;
    [| exact (Fb rq E)].
  injection E as <-. apply List.find_some in Fd. destruct Fd as [In' Run].
  split; [| exact Run].
  rewrite List.Forall_forall in Live. apply Live, in_rev, In'.
Qed.

(** Three requests of a timeline, the oldest complete; the one in flight
    is the newest, and the one before it is what the engine works on. *)
Definition sample_rq (id : Z) (complete : bool) : i915_request :=
  {| rq_id := id; execution_mask := 1; is_complete := complete;
     has_started := true |}.

Lemma X27_engine_active_request_witness :
  intel_engine_find_active_request 1
    (Some ([sample_rq 3 false; sample_rq 2 false] ++ [sample_rq 1 true])) None
  = Some (sample_rq 2 false).
Proof.
  assert (Live : Forall (fun rq => is_complete rq = false)
                   [sample_rq 3 false; sample_rq 2 false])
    by (repeat constructor).
  assert (Rest : [sample_rq 1 true] = []
                 \/ exists rq older, [sample_rq 1 true] = rq :: older
                                     /\ is_complete rq = true)
    by (right; exists (sample_rq 1 true), []; split; reflexivity).
  exact (proj1 (X27_engine_active_request 1 _ _ None Live Rest)).
Defined.

(** ** Compute engines fused off *)

Section WithComputeEngines.

(** The engine id CCS0, I915_MAX_CCS and IS_PONTEVECCHIO. *)
Variable CCS0 : Z.
Variable I915_MAX_CCS : nat.
Variable IS_PONTEVECCHIO : bool.

Definition _CCS (n : Z) : Z := CCS0 + n.

Definition CCS_MASK (info : intel_gt_info) : Z :=
  ENGINE_INSTANCES_MASK info CCS0 I915_MAX_CCS.

(** The slices that stay enabled: [ccs_slices] is what
    intel_slicemask_from_xehp_dssmask makes of the compute subslices, and
    [meml3_mask] the field GEN12_MEML3_EN_MASK of GEN10_MIRROR_FUSE3. *)
Definition compute_slices (ccs_slices meml3_mask : Z) : Z :=
  let ccs_mask := u64 ccs_slices in
  (* As per HSD:22012626112 on PVC when using only quad0, we are allowed
     to use only CCS0 engine and all other engines should be masked out,
     as it GAM daisy chain is broken. *)
  if IS_PONTEVECCHIO && (meml3_mask =? 1)
  then u64 (Z.land ccs_mask (Z.lnot (GENMASK (Z.of_nat I915_MAX_CCS) 1)))
  else ccs_mask.

(** engine_mask_apply_compute_fuses *)
Definition engine_mask_apply_compute_fuses (ccs_slices meml3_mask : Z)
    (info : intel_gt_info) : intel_gt_info :=
  if hweight 32 (CCS_MASK info) <=? 1 then info
  else
    (* If all DSS in a quadrant are fused off, the corresponding CCS
       engine is not available for use. *)
    fold_left (fun info i => clear_engine (_CCS i) info)
      (clear_bits (compute_slices ccs_slices meml3_mask) I915_MAX_CCS) info.

Lemma clear_engines_spec (l : list Z) :
  forall info,
    0 <= CCS0 -> Forall (fun i => 0 <= i) l ->
    0 <= engine_mask info < 2 ^ 32 ->
    let r := fold_left (fun info i => clear_engine (_CCS i) info) l info in
    0 <= engine_mask r < 2 ^ 32
    /\ sfc_mask r = sfc_mask info
    /\ vdbox_sfc_access r = vdbox_sfc_access info
    /\ forall b, 0 <= b ->
         Z.testbit (engine_mask r) b
         = Z.testbit (engine_mask info) b
           && negb (existsb (fun i => b =? _CCS i) l).
Proof.
  induction l as [| i l IH]; intros info H0 Hl Hem; cbn [fold_left existsb].
  - cbv zeta. repeat split; try apply Hem.
    intros b Hb. rewrite andb_true_r. reflexivity.
  - pose proof (Forall_inv Hl) as Hi. cbv beta in Hi.
    pose proof (Forall_inv_tail Hl) as Hrest.
    assert (B1 : forall b, 0 <= b ->
              Z.testbit (engine_mask (clear_engine (_CCS i) info)) b
              = Z.testbit (engine_mask info) b && negb (b =? _CCS i)).
    { intros b Hb. cbn [clear_engine engine_mask].
      rewrite u32_testbit, Z.land_spec, Z.lnot_spec, BIT_testbit
        by (unfold _CCS; lia).
      destruct (Z.ltb_spec b 32); cbn [andb]; [reflexivity |].
      rewrite (small_testbit (engine_mask info) 32) by (assumption || lia).
      reflexivity. }
    assert (R1 : 0 <= engine_mask (clear_engine (_CCS i) info) < 2 ^ 32).
    { cbn [clear_engine engine_mask]. unfold u32, wrap.
      apply Z.mod_pos_bound. lia. }
    destruct (IH (clear_engine (_CCS i) info) H0 Hrest R1)
      as (R & S & A & B).
    cbv zeta. split; [exact R |]. split; [exact S |]. split; [exact A |].
    intros b Hb. rewrite (B b Hb), (B1 b Hb), negb_orb, andb_assoc.
    reflexivity.
Qed.

Lemma clear_bits_in (word : Z) (size : nat) (i : Z) :
  In i (clear_bits word size)
  <-> 0 <= i < Z.of_nat size /\ Z.testbit word i = false.
Proof.
  unfold clear_bits. rewrite List.filter_In, List.in_map_iff. split.
  - intros [(n & <- & Hn) Hb]. apply List.in_seq in Hn.
    apply negb_true_iff in Hb. split; [lia | exact Hb].
  - intros [Hi Hb]. split.
    + exists (Z.to_nat i). split; [lia |]. apply List.in_seq. lia.
    + rewrite Hb. reflexivity.
Qed.

Lemma compute_slices_testbit (ccs_slices meml3_mask i : Z) :
  (1 <= I915_MAX_CCS < 64)%nat -> 0 <= i < Z.of_nat I915_MAX_CCS ->
  Z.testbit (compute_slices ccs_slices meml3_mask) i
  = Z.testbit ccs_slices i
    && negb (IS_PONTEVECCHIO && (meml3_mask =? 1) && (1 <=? i)).
Proof.
  intros Hn Hi. unfold compute_slices. cbv zeta.
  assert (U : forall x, Z.testbit (u64 x) i = Z.testbit x i).
  { intros x. unfold u64, wrap. apply Z.mod_pow2_bits_low. lia. }
  destruct (IS_PONTEVECCHIO && (meml3_mask =? 1)); cbn [andb negb].
  - rewrite U, Z.land_spec, U, Z.lnot_spec, GENMASK_testbit by lia.
    destruct (Z.leb_spec 1 i); destruct (Z.leb_spec i (Z.of_nat I915_MAX_CCS));
      cbn [andb negb]; try reflexivity; lia.
  - rewrite U, andb_true_r. reflexivity.
Qed.

(** X28: the compute fuses take away the compute engines whose slice is
    fused off.  With at most one compute engine nothing changes.
    Otherwise a compute engine stays exactly if it was there and its
    slice has compute subslices left, and on Ponte Vecchio with only the
    first quad enabled only if it is CCS0 as well.  No other engine and
    no other field is touched. *)
Theorem X28_compute_fuses_keep_live_slices (ccs_slices meml3_mask : Z)
    (info : intel_gt_info) :
  0 <= CCS0 -> (1 <= I915_MAX_CCS < 64)%nat ->
  0 <= engine_mask info < 2 ^ 32 ->
  let r := engine_mask_apply_compute_fuses ccs_slices meml3_mask info in
  (hweight 32 (CCS_MASK info) <= 1 -> r = info)
  /\ (1 < hweight 32 (CCS_MASK info) ->
      forall i, 0 <= i < Z.of_nat I915_MAX_CCS ->
        Z.testbit (engine_mask r) (_CCS i)
        = Z.testbit (engine_mask info) (_CCS i)
          && Z.testbit ccs_slices i
          && negb (IS_PONTEVECCHIO && (meml3_mask =? 1) && (1 <=? i)))
  /\ (forall b, 0 <= b -> ~ CCS0 <= b < CCS0 + Z.of_nat I915_MAX_CCS ->
        Z.testbit (engine_mask r) b = Z.testbit (engine_mask info) b)
  /\ sfc_mask r = sfc_mask info
  /\ vdbox_sfc_access r = vdbox_sfc_access info
  /\ 0 <= engine_mask r < 2 ^ 32.
Proof.
  intros H0 Hn Hem r. unfold r, engine_mask_apply_compute_fuses. clear r.
  destruct (Z.leb_spec (hweight 32 (CCS_MASK info)) 1) as [Le | Gt].
  { split; [reflexivity |]. split; [lia |]. repeat split; apply Hem. }
  set (slices := compute_slices ccs_slices meml3_mask).
  assert (Hl : Forall (fun i => 0 <= i) (clear_bits slices I915_MAX_CCS)).
  { apply List.Forall_forall. intros i Hi. apply clear_bits_in in Hi. lia. }
  destruct (clear_engines_spec _ info H0 Hl Hem) as (R & S & A & B).
  cbv zeta in R, S, A, B.
  split; [lia |]. split.
  { intros _ i Hi. rewrite B by (unfold _CCS; lia).
    rewrite <- andb_assoc. f_equal.
    rewrite <- (compute_slices_testbit ccs_slices meml3_mask i Hn Hi).
    fold slices.
    destruct (Z.testbit slices i) eqn:T; cbn [negb].
    - apply negb_true_iff.
      destruct (existsb _ _) eqn:E; [| reflexivity].
      apply List.existsb_exists in E. destruct E as (k & Hk & Ek).
      apply clear_bits_in in Hk. apply Z.eqb_eq in Ek. unfold _CCS in Ek.
      assert (k = i) by lia. subst k. destruct Hk as [_ Hk].
      rewrite T in Hk. discriminate Hk.
    - apply negb_false_iff, List.existsb_exists. exists i. split.
      + apply clear_bits_in. split; assumption.
      + apply Z.eqb_refl. }
  split.
  { intros b Hb Out. rewrite B by exact Hb.
    destruct (existsb _ _) eqn:E; [| apply andb_true_r].
    apply List.existsb_exists in E. destruct E as (k & Hk & Ek).
    apply clear_bits_in in Hk. apply Z.eqb_eq in Ek. unfold _CCS in Ek.
    exfalso. apply Out. lia. }
  repeat split; try assumption; apply R.
Qed.

(** The engine mask the compute fuses leave. *)
Lemma compute_fuses_engine_mask (ccs_slices meml3_mask : Z)
    (info : intel_gt_info) :
  0 <= CCS0 -> 0 <= engine_mask info < 2 ^ 32 ->
  let r := engine_mask_apply_compute_fuses ccs_slices meml3_mask info in
  0 <= engine_mask r < 2 ^ 32
  /\ (forall b, 0 <= b ->
        Z.testbit (engine_mask r) b = true ->
        Z.testbit (engine_mask info) b = true)
  /\ (forall b, 0 <= b -> ~ CCS0 <= b < CCS0 + Z.of_nat I915_MAX_CCS ->
        Z.testbit (engine_mask r) b = Z.testbit (engine_mask info) b).
Proof.
  intros H0 Hem r. unfold r, engine_mask_apply_compute_fuses. clear r.
  destruct (hweight 32 (CCS_MASK info) <=? 1).
  { split; [exact Hem |]. split; intros; [assumption | reflexivity]. }
  set (slices := compute_slices ccs_slices meml3_mask).
  assert (Hl : Forall (fun i => 0 <= i) (clear_bits slices I915_MAX_CCS)).
  { apply List.Forall_forall. intros i Hi. apply clear_bits_in in Hi. lia. }
  destruct (clear_engines_spec _ info H0 Hl Hem) as (R & _ & _ & B).
  cbv zeta in R, B. split; [exact R |]. split.
  - intros b Hb T. rewrite B in T by exact Hb.
    apply andb_true_iff in T. apply T.
  - intros b Hb Out. rewrite B by exact Hb.
    destruct (existsb _ _) eqn:E; [| apply andb_true_r].
    apply List.existsb_exists in E. destruct E as (k & Hk & Ek).
    apply clear_bits_in in Hk. apply Z.eqb_eq in Ek. unfold _CCS in Ek.
    exfalso. apply Out. lia.
Qed.

End WithComputeEngines.

(** A Ponte Vecchio tile with the four compute engines at ids 22 to 25,
    all slices alive but only the first quad enabled: CCS0 alone stays. *)
Definition sample_compute_info : intel_gt_info :=
  {| engine_mask := 1 + 4194304 + 8388608 + 16777216 + 33554432;
     sfc_mask := 0;
     vdbox_sfc_access := 0 |}.

Example sample_compute_fuses :
  engine_mask (engine_mask_apply_compute_fuses 22 4 true 15 1
                 sample_compute_info)
  = 1 + 4194304.
Proof. vm_compute. reflexivity. Qed.

Lemma X28_compute_fuses_keep_live_slices_witness :
  Z.testbit (engine_mask (engine_mask_apply_compute_fuses 22 4 true 15 1
                            sample_compute_info)) 0
  = Z.testbit (engine_mask sample_compute_info) 0.
Proof.
  refine (proj1 (proj2 (proj2
            (X28_compute_fuses_keep_live_slices 22 4 true 15 1
               sample_compute_info _ _ _))) 0 _ _);
    first [lia | cbn; lia | vm_compute; intuition discriminate].
Defined.

(** ** The engines of a GT *)

Section WithFuses.

(** The engine ids and register fields of the headers, and the
    platform. *)
Variable VCS0 VECS0 BCS0 CCS0 GSC0 : Z.
Variable I915_MAX_VCS I915_MAX_VECS I915_MAX_CCS GEN12_MAX_MSLICES : nat.
Variable GEN11_GT_VDBOX_DISABLE_MASK : Z.
Variable GEN11_GT_VEBOX_DISABLE_MASK : Z.
Variable GEN11_GT_VEBOX_DISABLE_SHIFT : Z.
Variable XEHP_SFC_ENABLE_MASK : Z.
Variable slim_vdbox IS_PONTEVECCHIO : bool.
Variable media_ver media_rel graphics_ver_full : Z.
Variable platform_engine_mask : Z.

(** What the fuse registers hold, and what
    intel_slicemask_from_xehp_dssmask makes of the compute subslices. *)
Record fuse_values : Type := {
  vebox_vdbox_disable : Z;    (* GEN11_GT_VEBOX_VDBOX_DISABLE *)
  pavp_fuse1 : Z;             (* HSW_PAVP_FUSE1 *)
  meml3_compute : Z;          (* GEN12_MEML3_EN_MASK, read for the compute fuses *)
  meml3_copy : Z;             (* GEN12_MEML3_EN_MASK, read for the copy fuses *)
  ccs_slices : Z
}.

Definition set_engine_mask (v : Z) (info : intel_gt_info) : intel_gt_info :=
  {| engine_mask := v;
     sfc_mask := sfc_mask info;
     vdbox_sfc_access := vdbox_sfc_access info |}.

(** init_engine_mask; [None] when its GEM_BUG_ON fires.  The mask it
    returns is that of the [info] it leaves. *)
Definition init_engine_mask (ring_mask gt_id : Z) (wants_gsc_uc : bool)
    (fuses : fuse_values) (info : intel_gt_info)
  : option (intel_gt_info * list fuse_msg) :=
  if engine_mask info =? 0 then None
  else
    let info1 :=
      set_engine_mask (u32 (Z.land (engine_mask info) ring_mask)) info in
    (* only print the message once for GT0 *)
    let log0 :=
      if (gt_id =? 0) && negb (engine_mask info1 =? platform_engine_mask)
      then [DrmInfo "loading with reduced engine mask 0x%x\n"
              [engine_mask info1]]
      else [] in
    let '(info2, log1) :=
      engine_mask_apply_media_fuses VCS0 VECS0 I915_MAX_VCS I915_MAX_VECS
        GEN11_GT_VDBOX_DISABLE_MASK GEN11_GT_VEBOX_DISABLE_MASK
        GEN11_GT_VEBOX_DISABLE_SHIFT XEHP_SFC_ENABLE_MASK slim_vdbox
        media_ver media_rel (vebox_vdbox_disable fuses) (pavp_fuse1 fuses)
        info1 in
    let info3 :=
      engine_mask_apply_compute_fuses CCS0 I915_MAX_CCS IS_PONTEVECCHIO
        (ccs_slices fuses) (meml3_compute fuses) info2 in
    let info4 :=
      set_engine_mask
        (engine_mask_apply_copy_fuses BCS0 GEN12_MAX_MSLICES
           graphics_ver_full (meml3_copy fuses) (engine_mask info3))
        info3 in
    let info5 :=
      if negb wants_gsc_uc then clear_engine GSC0 info4 else info4 in
    Some (info5, log0 ++ log1).

(** X29: init_engine_mask only takes engines away.  It fails only on an
    empty mask.  Every engine of the mask it leaves was in the mask of
    the platform and is in the [ring_mask] parameter; GSC0 is not in it
    unless the GSC firmware is wanted; and an engine that is no video
    decode, video enhancement, compute or link copy engine, such as the
    render engine or BCS0, is in it exactly if it was there and is in
    [ring_mask]. *)
Theorem X29_init_engine_mask_only_removes (ring_mask gt_id : Z)
    (wants_gsc_uc : bool) (fuses : fuse_values) (info : intel_gt_info) :
  0 <= VCS0 -> 0 <= VECS0 -> 0 <= BCS0 -> 0 <= CCS0 -> 0 <= GSC0 ->
  (I915_MAX_VCS <= 8)%nat ->
  BCS0 + 2 * Z.of_nat GEN12_MAX_MSLICES < 32 ->
  0 <= engine_mask info < 2 ^ 32 ->
  let r := init_engine_mask ring_mask gt_id wants_gsc_uc fuses info in
  (engine_mask info = 0 -> r = None)
  /\ (engine_mask info <> 0 ->
      exists info' log,
        r = Some (info', log)
        /\ (forall b, 0 <= b ->
              Z.testbit (engine_mask info') b = true ->
              Z.testbit (engine_mask info) b = true
              /\ Z.testbit ring_mask b = true)
        /\ (wants_gsc_uc = false ->
            Z.testbit (engine_mask info') GSC0 = false)
        /\ (forall b, 0 <= b ->
              ~ VCS0 <= b < VCS0 + Z.of_nat I915_MAX_VCS ->
              ~ VECS0 <= b < VECS0 + Z.of_nat I915_MAX_VECS ->
              ~ CCS0 <= b < CCS0 + Z.of_nat I915_MAX_CCS ->
              ~ BCS0 < b <= BCS0 + 2 * Z.of_nat GEN12_MAX_MSLICES ->
              b <> GSC0 \/ wants_gsc_uc = true ->
              Z.testbit (engine_mask info') b
              = Z.testbit (engine_mask info) b && Z.testbit ring_mask b)).
Proof.
  intros Hv0 He0 Hb0 Hc0 Hg0 Hvcs Hb32 Hem r.
  unfold r, init_engine_mask. clear r.
  split.
  { intros ->. reflexivity. }
  intros Hne. destruct (Z.eqb_spec (engine_mask info) 0) as [? | _];
    [contradiction |].
  cbv zeta.
  set (info1 := set_engine_mask (u32 (Z.land (engine_mask info) ring_mask))
                  info).
  assert (R1 : 0 <= engine_mask info1 < 2 ^ 32).
  { cbn [info1 set_engine_mask engine_mask]. unfold u32, wrap.
    apply Z.mod_pos_bound. lia. }
  assert (B1 : forall b, 0 <= b ->
             Z.testbit (engine_mask info1) b
             = Z.testbit (engine_mask info) b && Z.testbit ring_mask b).
  { intros b Hb. cbn [info1 set_engine_mask engine_mask].
    rewrite u32_testbit, Z.land_spec by exact Hb.
    destruct (Z.ltb_spec b 32); cbn [andb]; [reflexivity |].
    rewrite (small_testbit (engine_mask info) 32) by (assumption || lia).
    reflexivity. }
  pose proof (media_fuses_engine_mask VCS0 VECS0 I915_MAX_VCS I915_MAX_VECS
                GEN11_GT_VDBOX_DISABLE_MASK GEN11_GT_VEBOX_DISABLE_MASK
                GEN11_GT_VEBOX_DISABLE_SHIFT XEHP_SFC_ENABLE_MASK slim_vdbox
                media_ver media_rel (vebox_vdbox_disable fuses)
                (pavp_fuse1 fuses) info1 Hvcs Hv0 He0 R1) as M.
  cbv zeta in M.
  destruct (engine_mask_apply_media_fuses _ _ _ _ _ _ _ _ _ _ _ _ _ info1)
    as [info2 log1].
  cbn [fst] in M. destruct M as [R2 B2].
  pose proof (compute_fuses_engine_mask CCS0 I915_MAX_CCS IS_PONTEVECCHIO
                (ccs_slices fuses) (meml3_compute fuses) info2 Hc0 R2) as C.
  cbv zeta in C.
  set (info3 := engine_mask_apply_compute_fuses _ _ _ _ _ info2) in *.
  destruct C as (R3 & S3 & O3).
  pose proof (copy_fuses_engine_mask BCS0 GEN12_MAX_MSLICES graphics_ver_full
                (meml3_copy fuses) (engine_mask info3) Hb0 Hb32 R3) as Y.
  cbv zeta in Y.
  set (em4 := engine_mask_apply_copy_fuses _ _ _ _ (engine_mask info3)) in *.
  destruct Y as (R4 & S4 & O4).
  set (info4 := set_engine_mask em4 info3).
  set (info5 := if negb wants_gsc_uc then clear_engine GSC0 info4 else info4).
  assert (B5 : forall b, 0 <= b ->
             Z.testbit (engine_mask info5) b
             = Z.testbit em4 b && (wants_gsc_uc || negb (b =? GSC0))).
  { intros b Hb. unfold info5. destruct wants_gsc_uc; cbn [negb orb].
    - cbn [info4 set_engine_mask engine_mask]. rewrite andb_true_r.
      reflexivity.
    - cbn [clear_engine info4 set_engine_mask engine_mask].
      rewrite u32_testbit, Z.land_spec, Z.lnot_spec, BIT_testbit by lia.
      destruct (Z.ltb_spec b 32); cbn [andb]; [reflexivity |].
      rewrite (small_testbit em4 32) by (assumption || lia). reflexivity. }
  exists info5, ((if (gt_id =? 0)
                     && negb (engine_mask info1 =? platform_engine_mask)
                  then [DrmInfo "loading with reduced engine mask 0x%x\n"
                          [engine_mask info1]]
                  else []) ++ log1).
  split; [reflexivity |]. split.
  { intros b Hb T. rewrite B5 in T by exact Hb.
    apply andb_true_iff in T. destruct T as [T _].
    apply (S4 b Hb), (S3 b Hb) in T. rewrite B2 in T by exact Hb.
    apply andb_true_iff in T. destruct T as [T _].
    rewrite B1 in T by exact Hb. apply andb_true_iff in T. exact T. }
  split.
  { intros ->. rewrite B5 by exact Hg0. rewrite Z.eqb_refl.
    apply andb_false_r. }
  intros b Hb Nv Ne Nc Nb Ng.
  rewrite B5, O4, O3, B2, B1 by assumption.
  assert (G : wants_gsc_uc || negb (b =? GSC0) = true).
  { destruct Ng as [Ng | ->]; [| reflexivity].
    destruct (Z.eqb_spec b GSC0); [contradiction |]. apply orb_true_r. }
  rewrite G, andb_true_r.
  destruct (Z.leb_spec VCS0 b);
    destruct (Z.ltb_spec b (VCS0 + Z.of_nat I915_MAX_VCS));
    destruct (Z.leb_spec VECS0 b);
    destruct (Z.ltb_spec b (VECS0 + Z.of_nat I915_MAX_VECS));
    cbn [andb orb negb]; try lia; rewrite ?andb_false_r; cbn [negb];
    rewrite ?andb_true_r; reflexivity.
Qed.

End WithFuses.

(** A Ponte Vecchio tile: render engine 0, copy engines 1 to 9, video
    decode engines 10 to 17, video enhancement engines 18 to 21, compute
    engines 22 to 25 and the GSC engine 26. *)
Definition sample_fuses : fuse_values :=
  {| vebox_vdbox_disable := 5 + 65536;
     pavp_fuse1 := 0;
     meml3_compute := 1;
     meml3_copy := 1;
     ccs_slices := 15 |}.

Definition sample_pvc_info : intel_gt_info :=
  {| engine_mask := 1 + 1022 + 1024 + 4096 + 262144 + 62914560 + 67108864;
     sfc_mask := 0;
     vdbox_sfc_access := 0 |}.

Definition sample_init_engine_mask
  : option (intel_gt_info * list fuse_msg) :=
  init_engine_mask 10 18 1 22 26 8 4 4 4 255 983040 16 251658240
    true true 12 60 (IP_VER 12 60) 134217727
    4294967295 0 false sample_fuses sample_pvc_info.

(** The link copy engines of the quads 1 to 3, the compute engines but
    CCS0 and the GSC engine go. *)
Example sample_init_engine_mask_result :
  option_map (fun r => engine_mask (fst r)) sample_init_engine_mask
  = Some (1 + 2 + 4 + 8 + 1024 + 4096 + 262144 + 4194304).
Proof. vm_compute. reflexivity. Qed.

Lemma X29_init_engine_mask_only_removes_witness :
  exists info' log,
    sample_init_engine_mask = Some (info', log)
    /\ Z.testbit (engine_mask info') 26 = false.
Proof.
  assert (Hne : engine_mask sample_pvc_info <> 0) by (cbn; lia).
  destruct (proj2 (X29_init_engine_mask_only_removes 10 18 1 22 26 8 4 4 4
                     255 983040 16 251658240 true true 12 60 (IP_VER 12 60)
                     134217727 4294967295 0 false sample_fuses
                     sample_pvc_info
                     ltac:(lia) ltac:(lia) ltac:(lia) ltac:(lia) ltac:(lia)
                     ltac:(lia) ltac:(cbn; lia) ltac:(cbn; lia)) Hne)
    as (info' & log & E & _ & G & _).
  exists info', log. split; [exact E | exact (G eq_refl)].
Defined.
End Engine.

(** * Context pinning: gt/intel_context.c and i915_gem_ww.c *)

Module Context.

(** The backing objects a context locks, and any other object a nested
    lock may contend on. *)
Inductive gem_object : Type :=
| HWSP_OBJ                 (* ce->timeline->hwsp_ggtt->obj *)
| RING_OBJ                 (* ce->ring->vma->obj *)
| STATE_OBJ                (* ce->state->obj *)
| OTHER_OBJ (n : Z).

(** What happens to the locks of one transaction. *)
Inductive lock_event : Type :=
| Locked (o : gem_object)
| SlowLocked (o : gem_object)
| Unlocked (o : gem_object).

(** [struct i915_gem_ww_ctx]; [ww_log] records the lock traffic. *)
Record i915_gem_ww_ctx : Type := {
  obj_list : list gem_object;
  contended : option gem_object;
  contended_evict : bool;
  intr : bool;
  ww_log : list lock_event
}.

(** The counters a pin touches. *)
Inductive resource : Type :=
| Kref                (* ce->ref *)
| CeActive            (* ce->active.count *)
| Barriers            (* barrier nodes handed to the engine *)
| RingPin             (* ce->ring->pin_count *)
| RingActive          (* ce->ring->vma->active.count *)
| TimelinePin         (* ce->timeline->pin_count *)
| StatePin            (* pin count of ce->state *)
| StateActive         (* ce->state->active.count *)
| VmActiveContexts    (* ce->vm->active_contexts[gt] *)
| OpsPrePin           (* ops->pre_pin not yet undone by ops->post_unpin *)
| OpsPin.             (* ops->pin not yet undone by ops->unpin *)

Definition resource_eqb (a b : resource) : bool :=
  match a, b with
  | Kref, Kref | CeActive, CeActive | Barriers, Barriers
  | RingPin, RingPin | RingActive, RingActive | TimelinePin, TimelinePin
  | StatePin, StatePin | StateActive, StateActive
  | VmActiveContexts, VmActiveContexts | OpsPrePin, OpsPrePin
  | OpsPin, OpsPin => true
  | _, _ => false
  end.

(** Calls made through [ce->ops] and on the reference count, in order. *)
Inductive event : Type :=
| EvOpsAlloc | EvOpsPrePin | EvOpsPin | EvOpsUnpin | EvOpsPostUnpin
| EvGet | EvPut | EvFree
| EvActiveRelease | EvRetire | EvTraceUnpin.

Definition event_eqb (a b : event) : bool :=
  match a, b with
  | EvOpsAlloc, EvOpsAlloc | EvOpsPrePin, EvOpsPrePin | EvOpsPin, EvOpsPin
  | EvOpsUnpin, EvOpsUnpin | EvOpsPostUnpin, EvOpsPostUnpin
  | EvGet, EvGet | EvPut, EvPut | EvFree, EvFree
  | EvActiveRelease, EvActiveRelease | EvRetire, EvRetire
  | EvTraceUnpin, EvTraceUnpin => true
  | _, _ => false
  end.

(** [struct intel_context], as far as pinning is concerned. *)
(*  pin_count      atomic_t pin_count
    alloc_bit      CONTEXT_ALLOC_BIT
    valid_bit      CONTEXT_VALID_BIT
    banned, closed intel_context_is_banned(), intel_context_is_closed()
    is_barrier, is_parallel, uses_guc
                   intel_context_is_barrier(), intel_context_is_parallel(),
                   intel_engine_uses_guc(ce->engine)
    has_state      ce->state != NULL
    ring_has_obj   ce->ring->vma->obj != NULL
    freed          the last reference was dropped
    use_after_free ce was dereferenced after that
    bug            a GEM_BUG_ON fired *)
Record intel_context : Type := {
  pin_count : Z;
  alloc_bit : bool;
  valid_bit : bool;
  banned : bool;
  closed : bool;
  is_barrier : bool;
  is_parallel : bool;
  uses_guc : bool;
  has_state : bool;
  ring_has_obj : bool;
  cnt : resource -> Z;
  freed : bool;
  use_after_free : bool;
  bug : bool;
  trace : list event
}.

Definition with_pin_count (n : Z) (ce : intel_context) : intel_context :=
  {| pin_count := n;
     alloc_bit := alloc_bit ce;
     valid_bit := valid_bit ce;
     banned := banned ce;
     closed := closed ce;
     is_barrier := is_barrier ce;
     is_parallel := is_parallel ce;
     uses_guc := uses_guc ce;
     has_state := has_state ce;
     ring_has_obj := ring_has_obj ce;
     cnt := cnt ce;
     freed := freed ce;
     use_after_free := use_after_free ce;
     bug := bug ce;
     trace := trace ce |}.

(** [set_bit(CONTEXT_ALLOC_BIT)], after [ops->alloc] decided whether the
    context has a state image. *)
Definition with_alloc (st : bool) (ce : intel_context) : intel_context :=
  {| pin_count := pin_count ce;
     alloc_bit := true;
     valid_bit := valid_bit ce;
     banned := banned ce;
     closed := closed ce;
     is_barrier := is_barrier ce;
     is_parallel := is_parallel ce;
     uses_guc := uses_guc ce;
     has_state := st;
     ring_has_obj := ring_has_obj ce;
     cnt := cnt ce;
     freed := freed ce;
     use_after_free := use_after_free ce;
     bug := bug ce;
     trace := trace ce |}.

Definition with_valid_bit (ce : intel_context) : intel_context :=
  {| pin_count := pin_count ce;
     alloc_bit := alloc_bit ce;
     valid_bit := true;
     banned := banned ce;
     closed := closed ce;
     is_barrier := is_barrier ce;
     is_parallel := is_parallel ce;
     uses_guc := uses_guc ce;
     has_state := has_state ce;
     ring_has_obj := ring_has_obj ce;
     cnt := cnt ce;
     freed := freed ce;
     use_after_free := use_after_free ce;
     bug := bug ce;
     trace := trace ce |}.

Definition with_freed (ce : intel_context) : intel_context :=
  {| pin_count := pin_count ce;
     alloc_bit := alloc_bit ce;
     valid_bit := valid_bit ce;
     banned := banned ce;
     closed := closed ce;
     is_barrier := is_barrier ce;
     is_parallel := is_parallel ce;
     uses_guc := uses_guc ce;
     has_state := has_state ce;
     ring_has_obj := ring_has_obj ce;
     cnt := cnt ce;
     freed := true;
     use_after_free := use_after_free ce;
     bug := bug ce;
     trace := trace ce |}.

Definition with_bug (ce : intel_context) : intel_context :=
  {| pin_count := pin_count ce;
     alloc_bit := alloc_bit ce;
     valid_bit := valid_bit ce;
     banned := banned ce;
     closed := closed ce;
     is_barrier := is_barrier ce;
     is_parallel := is_parallel ce;
     uses_guc := uses_guc ce;
     has_state := has_state ce;
     ring_has_obj := ring_has_obj ce;
     cnt := cnt ce;
     freed := freed ce;
     use_after_free := use_after_free ce;
     bug := true;
     trace := trace ce |}.

(** Every access through the pointer [ce]: after the free it is a
    use-after-free. *)
Definition deref (ce : intel_context) : intel_context :=
  {| pin_count := pin_count ce;
     alloc_bit := alloc_bit ce;
     valid_bit := valid_bit ce;
     banned := banned ce;
     closed := closed ce;
     is_barrier := is_barrier ce;
     is_parallel := is_parallel ce;
     uses_guc := uses_guc ce;
     has_state := has_state ce;
     ring_has_obj := ring_has_obj ce;
     cnt := cnt ce;
     freed := freed ce;
     use_after_free := use_after_free ce || freed ce;
     bug := bug ce;
     trace := trace ce |}.

Definition emit (ev : event) (ce : intel_context) : intel_context :=
  {| pin_count := pin_count ce;
     alloc_bit := alloc_bit ce;
     valid_bit := valid_bit ce;
     banned := banned ce;
     closed := closed ce;
     is_barrier := is_barrier ce;
     is_parallel := is_parallel ce;
     uses_guc := uses_guc ce;
     has_state := has_state ce;
     ring_has_obj := ring_has_obj ce;
     cnt := cnt ce;
     freed := freed ce;
     use_after_free := use_after_free ce;
     bug := bug ce;
     trace := trace ce ++ [ev] |}.

(** A counter file holds one number per resource; [tabulate] stores the
    eleven values of a function. *)
Definition tabulate (f : resource -> Z) : resource -> Z :=
  let v1 := f Kref in let v2 := f CeActive in let v3 := f Barriers in
  let v4 := f RingPin in let v5 := f RingActive in let v6 := f TimelinePin in
  let v7 := f StatePin in let v8 := f StateActive in
  let v9 := f VmActiveContexts in let v10 := f OpsPrePin in
  let v11 := f OpsPin in
  fun r =>
    match r with
    | Kref => v1 | CeActive => v2 | Barriers => v3 | RingPin => v4
    | RingActive => v5 | TimelinePin => v6 | StatePin => v7
    | StateActive => v8 | VmActiveContexts => v9 | OpsPrePin => v10
    | OpsPin => v11
    end.

(** [bump r d]: add [d] to the counter [r], through the pointer. *)
Definition bump (r : resource) (d : Z) (ce0 : intel_context) : intel_context :=
  let ce := deref ce0 in
  {| pin_count := pin_count ce;
     alloc_bit := alloc_bit ce;
     valid_bit := valid_bit ce;
     banned := banned ce;
     closed := closed ce;
     is_barrier := is_barrier ce;
     is_parallel := is_parallel ce;
     uses_guc := uses_guc ce;
     has_state := has_state ce;
     ring_has_obj := ring_has_obj ce;
     cnt := tabulate (fun r' => if resource_eqb r r' then cnt ce r' + d
                              else cnt ce r');
     freed := freed ce;
     use_after_free := use_after_free ce;
     bug := bug ce;
     trace := trace ce |}.

Definition GEM_BUG_ON (c : bool) (ce : intel_context) : intel_context :=
  if c then with_bug ce else ce.

(** *** Wound-wait transactions: i915_gem_ww.c *)

Definition with_obj_list (l : list gem_object) (log : list lock_event)
    (ww : i915_gem_ww_ctx) : i915_gem_ww_ctx :=
  {| obj_list := l; contended := contended ww;
     contended_evict := contended_evict ww; intr := intr ww;
     ww_log := ww_log ww ++ log |}.

Definition with_contended (c : option gem_object) (ev : bool)
    (ww : i915_gem_ww_ctx) : i915_gem_ww_ctx :=
  {| obj_list := obj_list ww; contended := c; contended_evict := ev;
     intr := intr ww; ww_log := ww_log ww |}.

(** i915_gem_ww_ctx_init *)
Definition i915_gem_ww_ctx_init (intr : bool) : i915_gem_ww_ctx :=
  {| obj_list := []; contended := None; contended_evict := false;
     intr := intr; ww_log := [] |}.

(** i915_gem_ww_ctx_unlock_all *)
Definition i915_gem_ww_ctx_unlock_all (ww : i915_gem_ww_ctx)
  : i915_gem_ww_ctx :=
  with_obj_list [] (map Unlocked (obj_list ww)) ww.

Fixpoint list_del (o : gem_object) (l : list gem_object) : list gem_object :=
  match l with
  | [] => []
  | x :: r =>
      match o, x with
      | HWSP_OBJ, HWSP_OBJ | RING_OBJ, RING_OBJ | STATE_OBJ, STATE_OBJ => r
      | OTHER_OBJ a, OTHER_OBJ b => if a =? b then r else x :: list_del o r
      | _, _ => x :: list_del o r
      end
  end.

(** i915_gem_ww_unlock_single *)
Definition i915_gem_ww_unlock_single (o : gem_object) (ww : i915_gem_ww_ctx)
  : i915_gem_ww_ctx :=
  with_obj_list (list_del o (obj_list ww)) [Unlocked o] ww.

(** i915_gem_ww_ctx_fini; the flag tells whether its GEM_BUG_ON on a
    pending contended object fired. *)
Definition i915_gem_ww_ctx_fini (ww : i915_gem_ww_ctx)
  : i915_gem_ww_ctx * bool :=
  (i915_gem_ww_ctx_unlock_all ww,
   match contended ww with Some _ => true | None => false end).

(** i915_gem_ww_ctx_backoff; [slow] is what
    dma_resv_lock_slow_interruptible returns. *)
Definition i915_gem_ww_ctx_backoff (slow : Z) (ww : i915_gem_ww_ctx)
  : Z * i915_gem_ww_ctx :=
  match contended ww with
  | None => (- EINVAL, ww)                           (* GEM_WARN_ON(!obj) *)
  | Some obj =>
      let ww1 := i915_gem_ww_ctx_unlock_all ww in
      let ret := if intr ww1 then slow else 0 in
      if negb (ret =? 0) then (ret, with_contended None (contended_evict ww1) ww1)
      else
        (* Unlocking the contended lock again, if it was locked for
           eviction. *)
        let ww2 :=
          if contended_evict ww1
          then with_obj_list (obj_list ww1) [SlowLocked obj; Unlocked obj] ww1
          else with_obj_list (obj_list ww1 ++ [obj]) [SlowLocked obj] ww1 in
        (ret, with_contended None (contended_evict ww2) ww2)
  end.

(** Modelled from the spec: i915_gem_object_lock (gem/i915_gem_object.h)
    is not among these sources.  It takes the object's reservation lock
    inside the transaction; on success the object joins the batch, an
    object the transaction already holds counts as success, and on the
    wound-wait abort the object is remembered as the contended one, as
    __i915_gem_object_lock_to_evict does here for eviction.  [res] is what
    dma_resv_lock_interruptible returns. *)
Definition i915_gem_object_lock (res : Z) (o : gem_object)
    (ww : i915_gem_ww_ctx) : Z * i915_gem_ww_ctx :=
  let ww1 := if res =? 0 then with_obj_list (obj_list ww ++ [o]) [Locked o] ww
             else ww in
  let ret := if res =? - EALREADY then 0 else res in
  let ww2 := if ret =? - EDEADLK then with_contended (Some o) false ww1
             else ww1 in
  (ret, ww2).

(** *** The environment of one pin attempt *)

(** Results of the calls that leave intel_context.c, for one pass through
    __intel_context_do_pin_ww and the backoff that may follow it. *)
Record pin_env : Type := {
  alloc_mutex_err : Z;     (* mutex_lock_interruptible() in alloc_state *)
  ops_alloc_err : Z;       (* ce->ops->alloc() *)
  ops_alloc_state : bool;  (* whether ops->alloc set ce->state *)
  lock_hwsp_res : Z;       (* dma_resv_lock of the three backing objects *)
  lock_ring_res : Z;
  lock_state_res : Z;
  ring_pin_err : Z;        (* intel_ring_pin() *)
  ring_active_err : Z;     (* i915_active_acquire(&ring->vma->active) *)
  timeline_pin_err : Z;    (* intel_timeline_pin() *)
  state_pin_err : Z;       (* i915_ggtt_pin_for_gt() *)
  state_active_err : Z;    (* i915_active_acquire(&vma->active) *)
  ops_pre_pin_err : Z;     (* ce->ops->pre_pin() *)
  nested_contended : option gem_object;
                           (* object a lock taken inside those calls
                              contended on *)
  nested_evict : bool;
  active_acquire_err : Z;  (* i915_active_acquire(&ce->active) *)
  pin_mutex_err : Z;       (* mutex_lock_interruptible(&ce->pin_mutex) *)
  barrier_err : Z;         (* i915_active_acquire_preallocate_barrier() *)
  barrier_nodes : Z;       (* nodes it preallocates *)
  ops_pin_err : Z;         (* ce->ops->pin() *)
  slow_lock_err : Z        (* dma_resv_lock_slow_interruptible() *)
}.

(** A call that takes the transaction and fails with -EDEADLK has left
    the contended object in it. *)
Definition nested (env : pin_env) (err : Z) (ww : i915_gem_ww_ctx)
  : i915_gem_ww_ctx :=
  match nested_contended env with
  | Some o => if err =? - EDEADLK
              then with_contended (Some o) (nested_evict env) ww else ww
  | None => ww
  end.

(** *** Reference counting and the active tracker *)

(** intel_context_get, intel_context_put (intel_context.h): kref_get and
    kref_put, the release freeing the context. *)
Definition intel_context_get (ce : intel_context) : intel_context :=
  emit EvGet (bump Kref 1 ce).

Definition intel_context_put (ce : intel_context) : intel_context :=
  let ce1 := emit EvPut (bump Kref (-1) ce) in
  if cnt ce1 Kref =? 0 then emit EvFree (with_freed ce1) else ce1.

(** __ring_retire *)
Definition __ring_retire (ce : intel_context) : intel_context :=
  bump RingPin (-1) (bump RingActive (-1) ce).

(** __context_unpin_state *)
Definition __context_unpin_state (ce : intel_context) : intel_context :=
  bump StatePin (-1) (bump StateActive (-1) ce).

(** intel_context_post_unpin *)
Definition intel_context_post_unpin (ce : intel_context) : intel_context :=
  let ce1 := if has_state ce then __context_unpin_state ce else ce in
  __ring_retire (bump TimelinePin (-1) ce1).

(** __intel_context_active *)
Definition __intel_context_active (ce : intel_context) : intel_context :=
  let ce1 := intel_context_get ce in
  (* everything should already be activated by intel_context_pre_pin() *)
  let ce2 := bump RingPin 1 (bump RingActive 1 ce1) in
  let ce3 := bump TimelinePin 1 ce2 in
  let ce4 := if has_state ce3
             then bump StatePin 1 (bump StateActive 1 ce3) else ce3 in
  bump VmActiveContexts 1 ce4.

(** __intel_context_retire *)
Definition __intel_context_retire (ce : intel_context) : intel_context :=
  let ce1 := with_valid_bit (deref (emit EvRetire ce)) in
  let ce2 := bump VmActiveContexts (-1) ce1 in
  intel_context_put (intel_context_post_unpin ce2).

(** Modelled from the spec: the active tracker (i915_active.c) is not
    among these sources.  It is a count of users of [ce->active]: taking
    the first one runs the [active] callback, dropping the last one runs
    the [retire] callback ("final release happens after the last
    active-tracking reference drops"); barrier nodes preallocated for the
    engine each hold one until the engine retires them. *)
Definition __i915_active_acquire (ce : intel_context) : intel_context :=
  bump CeActive 1 ce.

Definition i915_active_acquire (err : Z) (ce : intel_context)
  : Z * intel_context :=
  if negb (err =? 0) then (err, ce)
  else
    let ce1 := if cnt ce CeActive =? 0 then __intel_context_active ce else ce in
    (0, bump CeActive 1 ce1).

Definition i915_active_release (ce : intel_context) : intel_context :=
  let ce1 := emit EvActiveRelease (bump CeActive (-1) ce) in
  if cnt ce1 CeActive =? 0 then __intel_context_retire ce1 else ce1.

Definition i915_active_acquire_preallocate_barrier (err nodes : Z)
    (ce : intel_context) : Z * intel_context :=
  if negb (err =? 0) then (err, ce)
  else (0, bump Barriers nodes (bump CeActive nodes ce)).

Definition i915_active_acquire_barrier (ce : intel_context) : intel_context :=
  ce.

(** The engine retiring one barrier node, some time after the unpin. *)
Definition barrier_retire (ce : intel_context) : intel_context :=
  if 0 <? cnt ce Barriers
  then i915_active_release (bump Barriers (-1) ce)
  else ce.

(** *** Pinning *)

(** intel_context_alloc_state *)
Definition intel_context_alloc_state (env : pin_env) (ce : intel_context)
  : Z * intel_context :=
  if negb (alloc_mutex_err env =? 0) then (- ERESTARTSYS, ce)
  else if negb (alloc_bit ce) then
    if banned ce then (- EIO, ce)
    else if negb (ops_alloc_err env =? 0) then (ops_alloc_err env, ce)
    else (0, emit EvOpsAlloc (with_alloc (ops_alloc_state env) ce))
  else (0, ce).

(** intel_context_active_acquire *)
Definition intel_context_active_acquire (env : pin_env) (ce : intel_context)
  : Z * intel_context :=
  let ce1 := __i915_active_acquire ce in
  if is_barrier ce1 || uses_guc ce1 || is_parallel ce1 then (0, ce1)
  else
    (* Preallocate tracking nodes *)
    let '(err, ce2) :=
      i915_active_acquire_preallocate_barrier (barrier_err env)
        (barrier_nodes env) ce1 in
    if negb (err =? 0) then (err, i915_active_release ce2) else (err, ce2).

(** intel_context_active_release *)
Definition intel_context_active_release (ce : intel_context)
  : intel_context :=
  (* Nodes preallocated in intel_context_active() *)
  i915_active_release (i915_active_acquire_barrier ce).

(** __ring_active *)
Definition __ring_active (env : pin_env) (ce : intel_context)
    (ww : i915_gem_ww_ctx) : Z * intel_context * i915_gem_ww_ctx :=
  let err := ring_pin_err env in
  if negb (err =? 0) then (err, ce, nested env err ww)
  else
    let ce1 := bump RingPin 1 ce in
    let err := ring_active_err env in
    if negb (err =? 0) then (err, bump RingPin (-1) ce1, ww)
    else (0, bump RingActive 1 ce1, ww).

(** __context_pin_state *)
Definition __context_pin_state (env : pin_env) (ce : intel_context)
    (ww : i915_gem_ww_ctx) : Z * intel_context * i915_gem_ww_ctx :=
  let err := state_pin_err env in
  if negb (err =? 0) then (err, ce, nested env err ww)
  else
    let ce1 := bump StatePin 1 ce in
    let err := state_active_err env in
    if negb (err =? 0) then (err, bump StatePin (-1) ce1, ww)
    else (0, bump StateActive 1 ce1, ww).

(** intel_context_pre_pin *)
Definition intel_context_pre_pin (env : pin_env) (ce : intel_context)
    (ww : i915_gem_ww_ctx) : Z * intel_context * i915_gem_ww_ctx :=
  let '(err, ce1, ww1) := __ring_active env ce ww in
  if negb (err =? 0) then (err, ce1, ww1)
  else
    let err := timeline_pin_err env in
    if negb (err =? 0) then (err, __ring_retire ce1, nested env err ww1)
    else
      let ce2 := bump TimelinePin 1 ce1 in
      if negb (has_state ce2) then (0, ce2, ww1)
      else
        let '(err, ce3, ww3) := __context_pin_state env ce2 ww1 in
        if negb (err =? 0)
        then (err, __ring_retire (bump TimelinePin (-1) ce3), ww3)
        else (0, ce3, ww3).

Definition ops_post_unpin (ce : intel_context) : intel_context :=
  emit EvOpsPostUnpin (bump OpsPrePin (-1) ce).

(** The exit labels of __intel_context_do_pin_ww, innermost last. *)
Definition err_ctx_unpin (err : Z) (ce : intel_context)
    (ww : i915_gem_ww_ctx) : Z * intel_context * i915_gem_ww_ctx :=
  (* Unlock the hwsp_ggtt object since it's shared. *)
  (err, intel_context_post_unpin ce, i915_gem_ww_unlock_single HWSP_OBJ ww).

Definition err_post_unpin (handoff : bool) (err : Z) (ce : intel_context)
    (ww : i915_gem_ww_ctx) : Z * intel_context * i915_gem_ww_ctx :=
  err_ctx_unpin err (if handoff then ce else ops_post_unpin ce) ww.

Definition err_release (handoff : bool) (err : Z) (ce : intel_context)
    (ww : i915_gem_ww_ctx) : Z * intel_context * i915_gem_ww_ctx :=
  err_post_unpin handoff err (i915_active_release ce) ww.

Definition err_unlock (handoff : bool) (err : Z) (ce : intel_context)
    (ww : i915_gem_ww_ctx) : Z * intel_context * i915_gem_ww_ctx :=
  err_release handoff err ce ww.

(** __intel_context_do_pin_ww *)
Definition __intel_context_do_pin_ww (env : pin_env) (ce0 : intel_context)
    (ww0 : i915_gem_ww_ctx) : Z * intel_context * i915_gem_ww_ctx :=
  let '(err, ce) :=
    if negb (alloc_bit ce0) then intel_context_alloc_state env ce0
    else (0, ce0) in
  if negb (err =? 0) then (err, ce, ww0)
  else
  let '(err, ww) := i915_gem_object_lock (lock_hwsp_res env) HWSP_OBJ ww0 in
  let '(err, ww) :=
    if (err =? 0) && ring_has_obj ce
    then i915_gem_object_lock (lock_ring_res env) RING_OBJ ww else (err, ww) in
  let '(err, ww) :=
    if (err =? 0) && has_state ce
    then i915_gem_object_lock (lock_state_res env) STATE_OBJ ww
    else (err, ww) in
  let '(err, ce, ww) :=
    if err =? 0 then intel_context_pre_pin env ce ww else (err, ce, ww) in
  if negb (err =? 0) then (err, ce, ww)
  else
  let err := ops_pre_pin_err env in
  if negb (err =? 0) then err_ctx_unpin err ce (nested env err ww)
  else
  let ce := emit EvOpsPrePin (bump OpsPrePin 1 ce) in
  let '(err, ce) := i915_active_acquire (active_acquire_err env) ce in
  if negb (err =? 0) then err_post_unpin false err ce ww
  else
  let err := pin_mutex_err env in
  if negb (err =? 0) then err_release false err ce ww
  else
  if closed ce then err_unlock false (- ENOENT) ce ww
  else
  if pin_count ce =? 0 then          (* !atomic_add_unless(&pin_count, 1, 0) *)
    let '(err, ce) := intel_context_active_acquire env ce in
    if negb (err =? 0) then err_unlock false err ce ww
    else
    let err := ops_pin_err env in
    if negb (err =? 0)
    then err_unlock false err (intel_context_active_release ce) ww
    else
    let ce := emit EvOpsPin (bump OpsPin 1 ce) in
    (* flush pin before it is visible *)
    let ce := with_pin_count (s32 (pin_count ce + 1)) ce in
    let ce := GEM_BUG_ON (pin_count ce =? 0) ce in     (* no overflow! *)
    err_unlock true 0 ce ww
  else
    let ce := with_pin_count (s32 (pin_count ce + 1)) ce in
    let ce := GEM_BUG_ON (pin_count ce =? 0) ce in
    err_unlock false 0 ce ww.

(** The retry loop of __intel_context_do_pin: one environment per pass;
    [None] when the passes given all ended in a successful backoff. *)
Fixpoint do_pin_retry (envs : list pin_env) (ce : intel_context)
    (ww : i915_gem_ww_ctx) : option (Z * intel_context * i915_gem_ww_ctx) :=
  match envs with
  | [] => None
  | env :: rest =>
      let '(err, ce1, ww1) := __intel_context_do_pin_ww env ce ww in
      if err =? - EDEADLK then
        let '(err2, ww2) := i915_gem_ww_ctx_backoff (slow_lock_err env) ww1 in
        if err2 =? 0 then do_pin_retry rest ce1 ww2
        else Some (err2, ce1, ww2)
      else Some (err, ce1, ww1)
  end.

(** __intel_context_do_pin *)
Definition __intel_context_do_pin (envs : list pin_env) (ce : intel_context)
  : option (Z * intel_context * i915_gem_ww_ctx) :=
  match do_pin_retry envs ce (i915_gem_ww_ctx_init true) with
  | None => None
  | Some (err, ce1, ww1) =>
      let '(ww2, bug_on) := i915_gem_ww_ctx_fini ww1 in
      Some (err, GEM_BUG_ON bug_on ce1, ww2)
  end.

(** __intel_context_do_unpin *)
Definition __intel_context_do_unpin (sub : Z) (ce0 : intel_context)
  : intel_context :=
  let ce := GEM_BUG_ON (pin_count ce0 <? sub) ce0 in
  let ce := with_pin_count (s32 (pin_count ce - sub)) (deref ce) in
  if negb (pin_count ce =? 0) then ce      (* !atomic_sub_and_test() *)
  else
    let ce := emit EvOpsUnpin (bump OpsPin (-1) ce) in
    let ce := ops_post_unpin ce in
    (* Once released, we may asynchronously drop the active reference.
       As that may be the only reference keeping the context alive,
       take an extra now so that it is not freed before we finish
       dereferencing it. *)
    let ce := intel_context_get ce in
    let ce := intel_context_active_release ce in
    let ce := emit EvTraceUnpin (deref ce) in
    intel_context_put ce.

(** *** Sequences of calls on one context *)

Fixpoint count_ev (ev : event) (tr : list event) : Z :=
  match tr with
  | [] => 0
  | e :: r => (if event_eqb ev e then 1 else 0) + count_ev ev r
  end.

(** How often the allocation path ([ops->pin]) and the release path
    ([ops->unpin]) have run. *)
Definition allocations (ce : intel_context) : Z := count_ev EvOpsPin (trace ce).
Definition releases (ce : intel_context) : Z := count_ev EvOpsUnpin (trace ce).

(** The callers: a pin with the environments of its passes, an unpin of
    [sub] pins, and the engine retiring a barrier in between. *)
Inductive call : Type :=
| Pin (envs : list pin_env)
| Unpin (sub : Z)
| BarrierRetire.

(** One call; [None] when a pin is still retrying after its last
    environment or when a GEM_BUG_ON fired. *)
Definition run_call (c : call) (ce : intel_context) : option intel_context :=
  let r :=
    match c with
    | Pin envs =>
        match __intel_context_do_pin envs ce with
        | Some (_, ce', _) => Some ce'
        | None => None
        end
    | Unpin sub => Some (__intel_context_do_unpin sub ce)
    | BarrierRetire => Some (barrier_retire ce)
    end in
  match r with
  | Some ce' => if bug ce' then None else Some ce'
  | None => None
  end.

(** The states after each call of a sequence. *)
Fixpoint run (cs : list call) (ce : intel_context)
  : option (list intel_context) :=
  match cs with
  | [] => Some []
  | c :: rest =>
      match run_call c ce with
      | None => None
      | Some ce' =>
          match run rest ce' with
          | None => None
          | Some sts => Some (ce' :: sts)
          end
      end
  end.

(** Calls after which the pin count has left zero, and calls after which
    it is back at zero, along a history of pin counts starting at [prev]. *)
Fixpoint rises (prev : Z) (h : list Z) : Z :=
  match h with
  | [] => 0
  | c :: r => (if (prev =? 0) && negb (c =? 0) then 1 else 0) + rises c r
  end.

Fixpoint falls (prev : Z) (h : list Z) : Z :=
  match h with
  | [] => 0
  | c :: r => (if negb (prev =? 0) && (c =? 0) then 1 else 0) + falls c r
  end.

(** The claim as worded: whenever the calls of a sequence pin the context
    and bring the pin count back to zero, the allocation path has run once
    and the release path has run once. *)
Definition pinned_once_per_sequence : Prop :=
  forall cs ce sts,
    pin_count ce = 0 -> bug ce = false -> trace ce = [] ->
    run cs ce = Some sts ->
    (exists st, In st sts /\ pin_count st <> 0) ->
    pin_count (List.last sts ce) = 0 ->
    allocations (List.last sts ce) = 1 /\ releases (List.last sts ce) = 1.

(** *** Steps that neither pin nor unpin *)

Lemma count_ev_app ev tr1 tr2 :
  count_ev ev (tr1 ++ tr2) = count_ev ev tr1 + count_ev ev tr2.
Proof. induction tr1 as [|e r IH]; simpl; [reflexivity|]. rewrite IH. lia. Qed.

Lemma count_ev_nonneg ev tr : 0 <= count_ev ev tr.
Proof. induction tr as [|e r IH]; simpl; [lia|]. destruct (event_eqb ev e); lia. Qed.

(** [quiet ce ce']: going from [ce] to [ce'] left the pin count alone, ran
    neither the allocation nor the release path, and fired no assertion. *)
Record quiet (ce ce' : intel_context) : Prop := {
  q_pin : pin_count ce' = pin_count ce;
  q_alloc : allocations ce' = allocations ce;
  q_rel : releases ce' = releases ce;
  q_bug : bug ce' = bug ce;
  q_closed : closed ce' = closed ce;
  q_banned : banned ce' = banned ce
}.

Lemma quiet_refl ce : quiet ce ce.
Proof. now split. Qed.

Lemma quiet_trans a b c : quiet a b -> quiet b c -> quiet a c.
Proof. intros [] []. split; congruence. Qed.

Lemma quiet_deref a b : quiet a b -> quiet a (deref b).
Proof. intros []. split; assumption. Qed.

Lemma quiet_bump r d a b : quiet a b -> quiet a (bump r d b).
Proof. intros []. split; assumption. Qed.

Lemma quiet_with_valid_bit a b : quiet a b -> quiet a (with_valid_bit b).
Proof. intros []. split; assumption. Qed.

Lemma quiet_with_freed a b : quiet a b -> quiet a (with_freed b).
Proof. intros []. split; assumption. Qed.

Lemma quiet_with_alloc st a b : quiet a b -> quiet a (with_alloc st b).
Proof. intros []. split; assumption. Qed.

Lemma quiet_emit ev a b :
  event_eqb EvOpsPin ev = false -> event_eqb EvOpsUnpin ev = false ->
  quiet a b -> quiet a (emit ev b).
Proof.
  intros H1 H2 []. split; try assumption.
  - unfold allocations in *. cbn [trace emit]. rewrite count_ev_app.
    cbn [count_ev]. rewrite H1. lia.
  - unfold releases in *. cbn [trace emit]. rewrite count_ev_app.
    cbn [count_ev]. rewrite H2. lia.
Qed.

(** Closing [quiet] goals by following the shape of the term. *)
Ltac quiet_prim :=
  lazymatch goal with
  | |- quiet _ (deref _) => apply quiet_deref
  | |- quiet _ (bump _ _ _) => apply quiet_bump
  | |- quiet _ (with_valid_bit _) => apply quiet_with_valid_bit
  | |- quiet _ (with_freed _) => apply quiet_with_freed
  | |- quiet _ (with_alloc _ _) => apply quiet_with_alloc
  | |- quiet _ (emit _ _) => apply quiet_emit; [reflexivity | reflexivity |]
  | |- quiet _ (if ?c then _ else _) => destruct c
  end.

Ltac quiet_lemma := fail.

Ltac quiet_tac :=
  intros; cbv zeta;
  repeat first [ assumption | apply quiet_refl | quiet_prim | quiet_lemma ].

Lemma quiet_intel_context_get a b : quiet a b -> quiet a (intel_context_get b).
Proof. unfold intel_context_get. quiet_tac. Qed.

Lemma quiet_intel_context_put a b : quiet a b -> quiet a (intel_context_put b).
Proof. unfold intel_context_put. intros. quiet_tac. Qed.

Ltac quiet_lemma ::=
  lazymatch goal with
  | |- quiet _ (intel_context_get _) => apply quiet_intel_context_get
  | |- quiet _ (intel_context_put _) => apply quiet_intel_context_put
  end.

Lemma quiet_ring_retire a b : quiet a b -> quiet a (__ring_retire b).
Proof. unfold __ring_retire. quiet_tac. Qed.

Lemma quiet_post_unpin a b : quiet a b -> quiet a (intel_context_post_unpin b).
Proof.
  unfold intel_context_post_unpin, __ring_retire, __context_unpin_state.
  intros. quiet_tac.
Qed.

Ltac quiet_lemma ::=
  lazymatch goal with
  | |- quiet _ (intel_context_get _) => apply quiet_intel_context_get
  | |- quiet _ (intel_context_put _) => apply quiet_intel_context_put
  | |- quiet _ (__ring_retire _) => apply quiet_ring_retire
  | |- quiet _ (intel_context_post_unpin _) => apply quiet_post_unpin
  end.

Lemma quiet_active a b : quiet a b -> quiet a (__intel_context_active b).
Proof. unfold __intel_context_active. intros. quiet_tac. Qed.

Lemma quiet_retire a b : quiet a b -> quiet a (__intel_context_retire b).
Proof. unfold __intel_context_retire. intros. quiet_tac. Qed.

Ltac quiet_lemma ::=
  lazymatch goal with
  | |- quiet _ (intel_context_get _) => apply quiet_intel_context_get
  | |- quiet _ (intel_context_put _) => apply quiet_intel_context_put
  | |- quiet _ (__ring_retire _) => apply quiet_ring_retire
  | |- quiet _ (intel_context_post_unpin _) => apply quiet_post_unpin
  | |- quiet _ (__intel_context_active _) => apply quiet_active
  | |- quiet _ (__intel_context_retire _) => apply quiet_retire
  end.

Lemma quiet_active_release a b : quiet a b -> quiet a (i915_active_release b).
Proof. unfold i915_active_release. intros. quiet_tac. Qed.

Ltac quiet_lemma ::=
  lazymatch goal with
  | |- quiet _ (intel_context_get _) => apply quiet_intel_context_get
  | |- quiet _ (intel_context_put _) => apply quiet_intel_context_put
  | |- quiet _ (__ring_retire _) => apply quiet_ring_retire
  | |- quiet _ (intel_context_post_unpin _) => apply quiet_post_unpin
  | |- quiet _ (__intel_context_active _) => apply quiet_active
  | |- quiet _ (__intel_context_retire _) => apply quiet_retire
  | |- quiet _ (i915_active_release _) => apply quiet_active_release
  end.

Lemma quiet_active_acquire err a b :
  quiet a b -> quiet a (snd (i915_active_acquire err b)).
Proof.
  unfold i915_active_acquire. intros.
  destruct (negb (err =? 0)); cbn [snd]; quiet_tac.
Qed.

Lemma quiet_barrier_retire a b : quiet a b -> quiet a (barrier_retire b).
Proof. unfold barrier_retire. intros. quiet_tac. Qed.

Lemma quiet_ops_post_unpin a b : quiet a b -> quiet a (ops_post_unpin b).
Proof. unfold ops_post_unpin. intros. quiet_tac. Qed.

Ltac quiet_lemma ::=
  lazymatch goal with
  | |- quiet _ (intel_context_get _) => apply quiet_intel_context_get
  | |- quiet _ (intel_context_put _) => apply quiet_intel_context_put
  | |- quiet _ (__ring_retire _) => apply quiet_ring_retire
  | |- quiet _ (intel_context_post_unpin _) => apply quiet_post_unpin
  | |- quiet _ (__intel_context_active _) => apply quiet_active
  | |- quiet _ (__intel_context_retire _) => apply quiet_retire
  | |- quiet _ (i915_active_release _) => apply quiet_active_release
  | |- quiet _ (barrier_retire _) => apply quiet_barrier_retire
  | |- quiet _ (ops_post_unpin _) => apply quiet_ops_post_unpin
  end.

Lemma quiet_active_release_ctx a b :
  quiet a b -> quiet a (intel_context_active_release b).
Proof.
  unfold intel_context_active_release, i915_active_acquire_barrier. quiet_tac.
Qed.

Ltac quiet_lemma ::=
  lazymatch goal with
  | |- quiet _ (intel_context_get _) => apply quiet_intel_context_get
  | |- quiet _ (intel_context_put _) => apply quiet_intel_context_put
  | |- quiet _ (__ring_retire _) => apply quiet_ring_retire
  | |- quiet _ (intel_context_post_unpin _) => apply quiet_post_unpin
  | |- quiet _ (__intel_context_active _) => apply quiet_active
  | |- quiet _ (__intel_context_retire _) => apply quiet_retire
  | |- quiet _ (i915_active_release _) => apply quiet_active_release
  | |- quiet _ (barrier_retire _) => apply quiet_barrier_retire
  | |- quiet _ (ops_post_unpin _) => apply quiet_ops_post_unpin
  | |- quiet _ (intel_context_active_release _) => apply quiet_active_release_ctx
  end.

Lemma quiet_alloc_state env a b :
  quiet a b -> quiet a (snd (intel_context_alloc_state env b)).
Proof.
  unfold intel_context_alloc_state. intros.
  repeat match goal with
         | |- context [if ?c then _ else _] => destruct c
         end; cbn [snd]; quiet_tac.
Qed.

Lemma quiet_active_acquire_ctx env a b :
  quiet a b -> quiet a (snd (intel_context_active_acquire env b)).
Proof.
  unfold intel_context_active_acquire, __i915_active_acquire,
    i915_active_acquire_preallocate_barrier. intros.
  repeat match goal with
         | |- context [if ?c then _ else _] => destruct c
         end; cbn [snd]; quiet_tac.
Qed.

Lemma quiet_pre_pin env a b ww :
  quiet a b -> quiet a (snd (fst (intel_context_pre_pin env b ww))).
Proof.
  unfold intel_context_pre_pin, __ring_active, __context_pin_state. intros.
  repeat match goal with
         | |- context [if ?c then _ else _] => destruct c
         end; cbn [fst snd]; quiet_tac.
Qed.

Lemma quiet_err_ctx_unpin err a b ww :
  quiet a b -> quiet a (snd (fst (err_ctx_unpin err b ww))).
Proof. unfold err_ctx_unpin. cbn [fst snd]. quiet_tac. Qed.

Lemma quiet_err_post_unpin h err a b ww :
  quiet a b -> quiet a (snd (fst (err_post_unpin h err b ww))).
Proof.
  unfold err_post_unpin. intros. apply quiet_err_ctx_unpin. quiet_tac.
Qed.

Lemma quiet_err_release h err a b ww :
  quiet a b -> quiet a (snd (fst (err_release h err b ww))).
Proof.
  unfold err_release. intros. apply quiet_err_post_unpin. quiet_tac.
Qed.

(** *** One pass of the pin *)

Lemma s32_small x : - 2 ^ 31 <= x < 2 ^ 31 -> s32 x = x.
Proof.
  intros H. unfold s32, to_signed, wrap.
  change (2 ^ (32 - 1)) with (2 ^ 31).
  destruct (Z_lt_le_dec x 0).
  - replace (x mod 2 ^ 32) with (x + 2 ^ 32).
    + destruct (Z.ltb_spec (x + 2 ^ 32) (2 ^ 31)); lia.
    + symmetry. rewrite <- (Z.mod_add x 1 (2 ^ 32)) by lia.
      rewrite Z.mod_small; lia.
  - rewrite Z.mod_small by lia.
    destruct (Z.ltb_spec x (2 ^ 31)); lia.
Qed.

(** What a pass does to the pin count and to the two paths. *)
Definition pinned_by (ce ce' : intel_context) : Prop :=
  pin_count ce' = pin_count ce + 1 /\
  allocations ce' = allocations ce + (if pin_count ce =? 0 then 1 else 0) /\
  releases ce' = releases ce /\
  bug ce' = bug ce /\ closed ce' = closed ce /\ banned ce' = banned ce.

Definition pass_outcome (ce : intel_context) (err : Z) (ce' : intel_context)
  : Prop :=
  (err = 0 /\ closed ce = false /\ pinned_by ce ce')
  \/ (err <> 0 /\ quiet ce ce').

Lemma quiet_err_unlock_false err a b ww :
  quiet a b -> quiet a (snd (fst (err_unlock false err b ww))).
Proof. apply quiet_err_release. Qed.

Lemma do_pin_ww_outcome env ce ww :
  0 <= pin_count ce < 2 ^ 31 - 1 ->
  pass_outcome ce (fst (fst (__intel_context_do_pin_ww env ce ww)))
    (snd (fst (__intel_context_do_pin_ww env ce ww))).
Proof.
  intros Hp. unfold __intel_context_do_pin_ww.
  assert (exists e1 c1,
            (if negb (alloc_bit ce) then intel_context_alloc_state env ce
             else (0, ce)) = (e1, c1) /\ quiet ce c1) as (e1 & c1 & -> & Q1).
  { destruct (negb (alloc_bit ce)).
    - pose proof (quiet_alloc_state env ce ce (quiet_refl ce)) as Q.
      destruct (intel_context_alloc_state env ce) as [e c]. eauto.
    - eauto using quiet_refl. }
  destruct (Z.eqb_spec e1 0) as [->|N1]; cbn [negb];
    [|right; split; [exact N1|exact Q1]].
  destruct (i915_gem_object_lock (lock_hwsp_res env) HWSP_OBJ ww) as [e2 w2].
  destruct (if (e2 =? 0) && ring_has_obj c1
            then i915_gem_object_lock (lock_ring_res env) RING_OBJ w2
            else (e2, w2)) as [e3 w3].
  destruct (if (e3 =? 0) && has_state c1
            then i915_gem_object_lock (lock_state_res env) STATE_OBJ w3
            else (e3, w3)) as [e4 w4].
  assert (exists e5 c5 w5,
            (if e4 =? 0 then intel_context_pre_pin env c1 w4
             else (e4, c1, w4)) = (e5, c5, w5) /\ quiet ce c5)
    as (e5 & c5 & w5 & -> & Q5).
  { destruct (e4 =? 0).
    - pose proof (quiet_pre_pin env ce c1 w4 Q1) as Q.
      destruct (intel_context_pre_pin env c1 w4) as [[e c] w]. eauto.
    - eauto. }
  destruct (Z.eqb_spec e5 0) as [->|N5]; cbn [negb];
    [|right; split; [exact N5|exact Q5]].
  destruct (Z.eqb_spec (ops_pre_pin_err env) 0) as [E6|N6]; cbn [negb].
  2:{ right. split; [exact N6|]. apply quiet_err_ctx_unpin, Q5. }
  set (c6 := emit EvOpsPrePin (bump OpsPrePin 1 c5)).
  assert (quiet ce c6) as Q6 by (subst c6; quiet_tac).
  pose proof (quiet_active_acquire (active_acquire_err env) ce c6 Q6) as Q7.
  destruct (i915_active_acquire (active_acquire_err env) c6) as [e7 c7].
  cbn [snd] in Q7.
  destruct (Z.eqb_spec e7 0) as [->|N7]; cbn [negb].
  2:{ right. split; [exact N7|]. apply quiet_err_post_unpin, Q7. }
  destruct (Z.eqb_spec (pin_mutex_err env) 0) as [E8|N8]; cbn [negb].
  2:{ right. split; [exact N8|]. apply quiet_err_release, Q7. }
  destruct (closed c7) eqn:Ecl.
  { right. split; [change (- ENOENT <> 0); unfold ENOENT; lia|].
    apply quiet_err_unlock_false, Q7. }
  assert (pin_count c7 = pin_count ce) as Ep by apply Q7.
  rewrite Ep.
  destruct (Z.eqb_spec (pin_count ce) 0) as [E0|N0].
  - pose proof (quiet_active_acquire_ctx env ce c7 Q7) as Q9.
    destruct (intel_context_active_acquire env c7) as [e9 c9]. cbn [snd] in Q9.
    destruct (Z.eqb_spec e9 0) as [->|N9]; cbn [negb].
    2:{ right. split; [exact N9|]. apply quiet_err_unlock_false, Q9. }
    destruct (Z.eqb_spec (ops_pin_err env) 0) as [E10|N10]; cbn [negb].
    2:{ right. split; [exact N10|]. apply quiet_err_unlock_false. quiet_tac. }
    left. split; [reflexivity|].
    split; [rewrite <- Ecl; symmetry; apply Q7|].
    match goal with
    | |- pinned_by _ (snd (fst (err_unlock true 0 ?c w5))) =>
        pose proof (quiet_err_release true 0 c c w5 (quiet_refl c)) as QF;
        set (cF := c) in *
    end.
    unfold err_unlock.
    set (cR := snd (fst (err_release true 0 cF w5))) in *.
    destruct QF as [F1 F2 F3 F4 F5 F6]. destruct Q9 as [G1 G2 G3 G4 G5 G6].
    assert (pin_count cF = pin_count ce + 1) as EF.
    { subst cF. unfold GEM_BUG_ON. cbn [pin_count with_pin_count emit bump deref].
      rewrite G1, s32_small by lia.
      destruct (Z.eqb_spec (pin_count ce + 1) 0); [lia|reflexivity]. }
    assert (bug cF = bug ce /\ allocations cF = allocations ce + 1
            /\ releases cF = releases ce /\ closed cF = closed ce
            /\ banned cF = banned ce) as (B1 & B2 & B3 & B4 & B5).
    { subst cF. unfold GEM_BUG_ON.
      cbn [pin_count with_pin_count emit bump deref]. rewrite G1.
      rewrite s32_small by lia.
      destruct (Z.eqb_spec (pin_count ce + 1) 0); [lia|].
      unfold allocations, releases in *.
      cbn [trace bug closed banned with_pin_count emit bump deref].
      rewrite !count_ev_app. cbn [count_ev event_eqb].
      repeat split; try congruence; lia. }
    unfold pinned_by. rewrite E0. simpl Z.eqb. cbv iota.
    repeat split; congruence.
  - left. split; [reflexivity|].
    split; [rewrite <- Ecl; symmetry; apply Q7|].
    match goal with
    | |- pinned_by _ (snd (fst (err_unlock false 0 ?c w5))) =>
        pose proof (quiet_err_release false 0 c c w5 (quiet_refl c)) as QF;
        set (cF := c) in *
    end.
    unfold err_unlock.
    set (cR := snd (fst (err_release false 0 cF w5))) in *.
    destruct QF as [F1 F2 F3 F4 F5 F6]. destruct Q7 as [G1 G2 G3 G4 G5 G6].
    assert (pin_count cF = pin_count ce + 1 /\
            bug cF = bug ce /\ allocations cF = allocations ce
            /\ releases cF = releases ce /\ closed cF = closed ce
            /\ banned cF = banned ce) as (B0 & B1 & B2 & B3 & B4 & B5).
    { subst cF. unfold GEM_BUG_ON. cbn [pin_count with_pin_count].
      rewrite s32_small by lia.
      destruct (Z.eqb_spec (pin_count ce + 1) 0); [lia|].
      unfold allocations, releases in *.
      cbn [trace bug closed banned with_pin_count].
      repeat split; congruence. }
    unfold pinned_by.
    destruct (Z.eqb_spec (pin_count ce) 0); [contradiction|].
    repeat split; try congruence; lia.
Qed.

(** *** The transaction across a pass *)

(** A pass reports the wound-wait abort or leaves the contended slot as
    it found it. *)
Definition ww_kept (ww : i915_gem_ww_ctx) (err : Z) (ww' : i915_gem_ww_ctx)
  : Prop :=
  err = - EDEADLK \/ contended ww' = contended ww.

Lemma lock_ww_kept res o ww :
  ww_kept ww (fst (i915_gem_object_lock res o ww))
    (snd (i915_gem_object_lock res o ww)).
Proof.
  unfold i915_gem_object_lock, ww_kept. cbv zeta. cbn [fst snd].
  destruct (Z.eqb_spec (if res =? - EALREADY then 0 else res) (- EDEADLK));
    [now left|right].
  destruct (res =? 0); reflexivity.
Qed.

Lemma nested_ww_kept env err ww : ww_kept ww err (nested env err ww).
Proof.
  unfold nested, ww_kept. destruct (nested_contended env); [|now right].
  destruct (Z.eqb_spec err (- EDEADLK)); [now left|now right].
Qed.

Lemma pre_pin_ww_kept env ce ww :
  ww_kept ww (fst (fst (intel_context_pre_pin env ce ww)))
    (snd (intel_context_pre_pin env ce ww)).
Proof.
  unfold intel_context_pre_pin, __ring_active, __context_pin_state.
  repeat (cbv beta iota zeta;
          match goal with
          | |- context [if ?c then _ else _] => destruct c eqn:?
          end);
    cbv beta iota zeta; cbn [fst snd]; try congruence;
    first [apply nested_ww_kept | now right].
Qed.

Lemma do_pin_ww_kept env ce ww :
  ww_kept ww (fst (fst (__intel_context_do_pin_ww env ce ww)))
    (snd (__intel_context_do_pin_ww env ce ww)).
Proof.
  unfold __intel_context_do_pin_ww.
  destruct (if negb (alloc_bit ce) then intel_context_alloc_state env ce
            else (0, ce)) as [e1 c1].
  destruct (negb (e1 =? 0)); [now right|].
  pose proof (lock_ww_kept (lock_hwsp_res env) HWSP_OBJ ww) as K2.
  destruct (i915_gem_object_lock (lock_hwsp_res env) HWSP_OBJ ww) as [e2 w2].
  cbn [fst snd] in K2.
  assert (exists e3 w3,
            (if (e2 =? 0) && ring_has_obj c1
             then i915_gem_object_lock (lock_ring_res env) RING_OBJ w2
             else (e2, w2)) = (e3, w3) /\ ww_kept ww e3 w3
            /\ (e2 <> 0 -> e3 = e2)) as (e3 & w3 & -> & K3 & P3).
  { destruct (Z.eqb_spec e2 0) as [->|N]; cbn [andb].
    - destruct (ring_has_obj c1).
      + pose proof (lock_ww_kept (lock_ring_res env) RING_OBJ w2) as K.
        destruct (i915_gem_object_lock _ RING_OBJ w2) as [e w].
        cbn [fst snd] in K. exists e, w. repeat split; [|lia].
        destruct K as [K|K]; [now left|right].
        destruct K2 as [K2|K2]; [discriminate K2|congruence].
      + eauto.
    - eauto. }
  assert (exists e4 w4,
            (if (e3 =? 0) && has_state c1
             then i915_gem_object_lock (lock_state_res env) STATE_OBJ w3
             else (e3, w3)) = (e4, w4) /\ ww_kept ww e4 w4)
    as (e4 & w4 & -> & K4).
  { destruct (Z.eqb_spec e3 0) as [->|N]; cbn [andb].
    - destruct (has_state c1).
      + pose proof (lock_ww_kept (lock_state_res env) STATE_OBJ w3) as K.
        destruct (i915_gem_object_lock _ STATE_OBJ w3) as [e w].
        cbn [fst snd] in K. exists e, w. split; [reflexivity|].
        destruct K as [K|K]; [now left|right].
        destruct K3 as [K3|K3]; [discriminate K3|congruence].
      + eauto.
    - eauto. }
  assert (exists e5 c5 w5,
            (if e4 =? 0 then intel_context_pre_pin env c1 w4
             else (e4, c1, w4)) = (e5, c5, w5) /\ ww_kept ww e5 w5)
    as (e5 & c5 & w5 & -> & K5).
  { destruct (Z.eqb_spec e4 0) as [->|N].
    - pose proof (pre_pin_ww_kept env c1 w4) as K.
      destruct (intel_context_pre_pin env c1 w4) as [[e c] w].
      cbn [fst snd] in K. exists e, c, w. split; [reflexivity|].
      destruct K as [K|K]; [now left|right].
      destruct K4 as [K4|K4]; [discriminate K4|congruence].
    - eauto. }
  destruct (Z.eqb_spec e5 0) as [->|N5]; cbn [negb]; [|exact K5].
  assert (contended w5 = contended ww) as E5
    by (destruct K5 as [K5|K5]; [discriminate K5|exact K5]).
  destruct (negb (ops_pre_pin_err env =? 0)).
  { unfold err_ctx_unpin. cbn [fst snd].
    destruct (nested_ww_kept env (ops_pre_pin_err env) w5) as [K|K];
      [now left|right].
    cbn [contended i915_gem_ww_unlock_single with_obj_list]. congruence. }
  destruct (i915_active_acquire (active_acquire_err env) _) as [e7 c7].
  destruct (negb (e7 =? 0)); [right; exact E5|].
  destruct (negb (pin_mutex_err env =? 0)); [right; exact E5|].
  destruct (closed c7); [right; exact E5|].
  destruct (pin_count c7 =? 0); [|right; exact E5].
  destruct (intel_context_active_acquire env c7) as [e9 c9].
  destruct (negb (e9 =? 0)); [right; exact E5|].
  destruct (negb (ops_pin_err env =? 0)); right; exact E5.
Qed.

Lemma backoff_contended slow ww :
  contended (snd (i915_gem_ww_ctx_backoff slow ww)) = None.
Proof.
  unfold i915_gem_ww_ctx_backoff.
  destruct (contended ww) eqn:E; [|exact E].
  cbv zeta.
  repeat match goal with
         | |- context [if ?c then _ else _] => destruct c
         end; reflexivity.
Qed.

(** *** The retry loop *)

Lemma pass_outcome_after_quiet a b err c :
  quiet a b -> pass_outcome b err c -> pass_outcome a err c.
Proof.
  intros [Q1 Q2 Q3 Q4 Q5 Q6] [(E & Hc & P1 & P2 & P3 & P4 & P5 & P6)|[E Q]].
  - left. split; [exact E|]. split; [congruence|].
    unfold pinned_by. rewrite <- Q1, <- Q2, <- Q3, <- Q4, <- Q5, <- Q6.
    auto 10.
  - right. split; [exact E|]. eapply quiet_trans; [|exact Q]. now split.
Qed.

Lemma do_pin_retry_outcome envs : forall ce ww err ce' ww',
  0 <= pin_count ce < 2 ^ 31 - 1 ->
  contended ww = None ->
  do_pin_retry envs ce ww = Some (err, ce', ww') ->
  pass_outcome ce err ce' /\ contended ww' = None.
Proof.
  induction envs as [|env rest IH]; intros ce ww err ce' ww' Hp Hc;
    cbn [do_pin_retry]; [discriminate|].
  pose proof (do_pin_ww_outcome env ce ww Hp) as O.
  pose proof (do_pin_ww_kept env ce ww) as K.
  destruct (__intel_context_do_pin_ww env ce ww) as [[e1 c1] w1].
  cbn [fst snd] in O, K.
  destruct (Z.eqb_spec e1 (- EDEADLK)) as [->|N].
  - destruct O as [[E _]|[_ Q]]; [discriminate E|].
    pose proof (backoff_contended (slow_lock_err env) w1) as B.
    destruct (i915_gem_ww_ctx_backoff (slow_lock_err env) w1) as [e2 w2].
    cbn [snd] in B.
    destruct (Z.eqb_spec e2 0) as [->|N2].
    + intros H. apply IH in H; [|rewrite (q_pin _ _ Q); exact Hp|exact B].
      destruct H as [H1 H2]. split; [|exact H2].
      eapply pass_outcome_after_quiet; eassumption.
    + intros [= <- <- <-]. split; [|exact B]. right. now split.
  - intros [= <- <- <-]. split; [exact O|].
    destruct K as [K|K]; [contradiction|congruence].
Qed.

Lemma do_pin_outcome envs ce err ce' ww' :
  0 <= pin_count ce < 2 ^ 31 - 1 ->
  __intel_context_do_pin envs ce = Some (err, ce', ww') ->
  pass_outcome ce err ce' /\ obj_list ww' = [].
Proof.
  intros Hp. unfold __intel_context_do_pin.
  destruct (do_pin_retry envs ce (i915_gem_ww_ctx_init true))
    as [[[e c] w]|] eqn:E; [|discriminate].
  apply do_pin_retry_outcome in E; [|exact Hp|reflexivity].
  destruct E as [O C]. unfold i915_gem_ww_ctx_fini. rewrite C.
  intros [= <- <- <-]. split; [exact O|reflexivity].
Qed.

(** *** The unpin *)

Lemma do_unpin_quiet_tail c :
  quiet c
    (intel_context_put
       (emit EvTraceUnpin
          (deref
             (intel_context_active_release
                (intel_context_get (ops_post_unpin c)))))).
Proof. quiet_tac. Qed.

Lemma do_unpin_bug sub ce :
  bug (__intel_context_do_unpin sub ce) = false ->
  bug ce = false /\ sub <= pin_count ce.
Proof.
  unfold __intel_context_do_unpin. cbv zeta.
  match goal with
  | |- bug (if ?c then ?a else ?b) = false -> _ =>
      assert (bug (if c then a else b) = bug (GEM_BUG_ON (pin_count ce <? sub) ce))
        as ->
  end.
  { destruct (negb _); [reflexivity|].
    etransitivity; [apply do_unpin_quiet_tail|]. reflexivity. }
  unfold GEM_BUG_ON.
  destruct (Z.ltb_spec (pin_count ce) sub) as [Hlt|Hge]; cbn;
    [discriminate|].
  intros Hb. split; [exact Hb|lia].
Qed.

Lemma do_unpin_outcome sub ce :
  1 <= sub <= pin_count ce -> pin_count ce < 2 ^ 31 ->
  let ce' := __intel_context_do_unpin sub ce in
  pin_count ce' = pin_count ce - sub /\
  allocations ce' = allocations ce /\
  releases ce' = releases ce + (if pin_count ce - sub =? 0 then 1 else 0) /\
  bug ce' = bug ce.
Proof.
  intros Hs Hp. unfold __intel_context_do_unpin. cbv zeta.
  unfold GEM_BUG_ON. destruct (Z.ltb_spec (pin_count ce) sub); [lia|].
  cbn [pin_count with_pin_count deref]. rewrite s32_small by lia.
  destruct (Z.eqb_spec (pin_count ce - sub) 0) as [E|N]; cbn [negb].
  - match goal with
    | |- context [intel_context_put (emit EvTraceUnpin (deref
           (intel_context_active_release (intel_context_get
              (ops_post_unpin ?c)))))] =>
        destruct (do_unpin_quiet_tail c) as [Q1 Q2 Q3 Q4 _ _]
    end.
    rewrite Q1, Q2, Q3, Q4. unfold allocations, releases.
    cbn [pin_count trace bug emit bump deref with_pin_count].
    rewrite !count_ev_app. cbn [count_ev event_eqb].
    repeat split; lia.
  - unfold allocations, releases.
    cbn [pin_count trace bug with_pin_count deref].
    repeat split; lia.
Qed.

(** *** Sequences of calls *)

(** Callers unpin at least one pin at a time. *)
Definition call_ok (c : call) : Prop :=
  match c with
  | Unpin sub => 1 <= sub
  | _ => True
  end.

Lemma run_call_step c ce ce' :
  call_ok c -> 0 <= pin_count ce < 2 ^ 31 - 1 ->
  run_call c ce = Some ce' ->
  bug ce' = false /\
  0 <= pin_count ce' <= pin_count ce + 1 /\
  allocations ce' = allocations ce
    + (if (pin_count ce =? 0) && negb (pin_count ce' =? 0) then 1 else 0) /\
  releases ce' = releases ce
    + (if negb (pin_count ce =? 0) && (pin_count ce' =? 0) then 1 else 0).
Proof.
  intros Hok Hp. unfold run_call.
  destruct c as [envs|sub|].
  - destruct (__intel_context_do_pin envs ce) as [[[e c] w]|] eqn:E;
      [|discriminate].
    destruct (bug c) eqn:Hb; [discriminate|]. intros [= <-].
    apply do_pin_outcome in E; [|exact Hp]. destruct E as [O _].
    split; [exact Hb|].
    destruct O as [(_ & _ & P1 & P2 & P3 & _)|[_ [Q1 Q2 Q3 _ _ _]]].
    + rewrite P1, P2, P3.
      destruct (Z.eqb_spec (pin_count ce) 0);
        destruct (Z.eqb_spec (pin_count ce + 1) 0); cbn; lia.
    + rewrite Q1, Q2, Q3.
      destruct (Z.eqb_spec (pin_count ce) 0); cbn; lia.
  - destruct (bug (__intel_context_do_unpin sub ce)) eqn:Hb; [discriminate|].
    intros [= <-]. split; [exact Hb|].
    apply do_unpin_bug in Hb. destruct Hb as [_ Hs]. cbn in Hok.
    destruct (do_unpin_outcome sub ce) as (U1 & U2 & U3 & _); [lia|lia|].
    rewrite U1, U2, U3.
    destruct (Z.eqb_spec (pin_count ce) 0);
      destruct (Z.eqb_spec (pin_count ce - sub) 0); cbn; lia.
  - destruct (bug (barrier_retire ce)) eqn:Hb; [discriminate|].
    intros [= <-]. split; [exact Hb|].
    destruct (quiet_barrier_retire ce ce (quiet_refl ce)) as [Q1 Q2 Q3 _ _ _].
    rewrite Q1, Q2, Q3.
    destruct (Z.eqb_spec (pin_count ce) 0); cbn; lia.
Qed.

Lemma run_counts cs : forall ce sts n,
  Forall call_ok cs ->
  0 <= pin_count ce <= n -> n + Z.of_nat (length cs) < 2 ^ 31 ->
  run cs ce = Some sts ->
  let final := List.last sts ce in
  allocations final
    = allocations ce + rises (pin_count ce) (map pin_count sts) /\
  releases final
    = releases ce + falls (pin_count ce) (map pin_count sts) /\
  0 <= pin_count final.
Proof.
  induction cs as [|c rest IH]; intros ce sts n Hok Hp Hn; cbn [run].
  - intros [= <-]. cbn. lia.
  - inversion Hok as [|? ? Hc Hrest]; subst.
    destruct (run_call c ce) as [ce1|] eqn:E1; [|discriminate].
    destruct (run rest ce1) as [sts1|] eqn:E2; [|discriminate].
    intros [= <-].
    cbn [length] in Hn.
    apply run_call_step in E1; [|exact Hc|lia].
    destruct E1 as (_ & Hp1 & A1 & R1).
    specialize (IH ce1 sts1 (n + 1) Hrest ltac:(lia) ltac:(lia) E2).
    cbv zeta in IH. destruct IH as (A2 & R2 & P2).
    assert (List.last (ce1 :: sts1) ce = List.last sts1 ce1) as ->.
    { clear. revert ce1. induction sts1 as [|s r IHs]; intros; [reflexivity|].
      cbn [List.last] in *. destruct r; [reflexivity|]. apply IHs. }
    cbn [map rises falls]. rewrite A2, R2, A1, R1. lia.
Qed.

Lemma rises_falls h : forall prev,
  rises prev h - falls prev h
  = (if List.last h prev =? 0 then 0 else 1) - (if prev =? 0 then 0 else 1).
Proof.
  induction h as [|c r IH]; intros prev; cbn [rises falls].
  - cbn. lia.
  - assert (List.last (c :: r) prev = List.last r c) as ->.
    { clear. revert c. induction r as [|s r IHr]; intros; [reflexivity|].
      cbn [List.last] in *. destruct r; [reflexivity|]. apply IHr. }
    specialize (IH c).
    destruct (Z.eqb_spec prev 0); destruct (Z.eqb_spec c 0); cbn [andb negb];
      lia.
Qed.

Lemma last_map_pin_count sts ce :
  List.last (map pin_count sts) (pin_count ce) = pin_count (List.last sts ce).
Proof.
  induction sts as [|s r IH]; [reflexivity|].
  cbn [map]. destruct r; [reflexivity|]. exact IH.
Qed.

(** *** The releasing unpin and the lifetime of the context *)

(** The context is allocated, was never used after a free, and holds [k]
    references. *)
Definition live (k : Z) (ce : intel_context) : Prop :=
  freed ce = false /\ use_after_free ce = false /\ cnt ce Kref = k.

Lemma live_deref k ce : live k ce -> live k (deref ce).
Proof.
  intros (F & U & K). repeat split; cbn; [exact F| |exact K].
  now rewrite F, U.
Qed.

Lemma cnt_bump r d ce r' :
  cnt (bump r d ce) r'
  = if resource_eqb r r' then cnt ce r' + d else cnt ce r'.
Proof. destruct r'; reflexivity. Qed.

Lemma live_bump r d k ce :
  resource_eqb r Kref = false -> live k ce -> live k (bump r d ce).
Proof.
  intros Hr (F & U & K). repeat split.
  - exact F.
  - cbn [use_after_free bump deref]. now rewrite F, U.
  - rewrite cnt_bump, Hr. exact K.
Qed.

Lemma live_bump_kref d k ce : live k ce -> live (k + d) (bump Kref d ce).
Proof.
  intros (F & U & K). repeat split.
  - exact F.
  - cbn [use_after_free bump deref]. now rewrite F, U.
  - rewrite cnt_bump. cbn [resource_eqb]. now rewrite K.
Qed.

Lemma live_emit ev k ce : live k ce -> live k (emit ev ce).
Proof. intros (F & U & K). repeat split; assumption. Qed.

Lemma live_with_valid_bit k ce : live k ce -> live k (with_valid_bit ce).
Proof. intros (F & U & K). repeat split; assumption. Qed.

Lemma live_with_pin_count n k ce : live k ce -> live k (with_pin_count n ce).
Proof. intros (F & U & K). repeat split; assumption. Qed.

Lemma live_post_unpin k ce :
  live k ce ->
  live k (intel_context_post_unpin ce)
  /\ trace (intel_context_post_unpin ce) = trace ce.
Proof.
  intros L. unfold intel_context_post_unpin, __context_unpin_state,
    __ring_retire. cbv zeta.
  destruct (has_state ce); (split; [|reflexivity]);
    repeat (apply live_bump; [reflexivity|]); exact L.
Qed.

Lemma live_get k ce :
  live k ce ->
  live (k + 1) (intel_context_get ce)
  /\ trace (intel_context_get ce) = trace ce ++ [EvGet].
Proof.
  intros L. unfold intel_context_get. split; [|reflexivity].
  apply live_emit, live_bump_kref, L.
Qed.

(** Dropping a reference that is not the last keeps the context; dropping
    the last one frees it, after the access. *)
Lemma live_put k ce :
  1 <= k -> live k ce ->
  use_after_free (intel_context_put ce) = false /\
  exists fin,
    trace (intel_context_put ce) = trace ce ++ EvPut :: fin /\
    (2 <= k -> fin = [] /\ live (k - 1) (intel_context_put ce)).
Proof.
  intros Hk L. unfold intel_context_put. cbv zeta.
  pose proof (live_emit EvPut _ _ (live_bump_kref (-1) _ _ L)) as L1.
  set (c1 := emit EvPut (bump Kref (-1) ce)) in *.
  assert (trace c1 = trace ce ++ [EvPut]) as T1 by reflexivity.
  destruct L1 as (F1 & U1 & K1). rewrite K1.
  destruct (Z.eqb_spec (k + -1) 0) as [E|N].
  - split; [exact U1|]. exists [EvFree]. split.
    + cbn [trace emit with_freed]. rewrite T1, <- app_assoc. reflexivity.
    + lia.
  - split; [exact U1|]. exists []. split; [exact T1|].
    intros _. split; [reflexivity|].
    repeat split; [exact F1|exact U1|]. rewrite K1. lia.
Qed.

Lemma live_retire k ce :
  2 <= k -> live k ce ->
  live (k - 1) (__intel_context_retire ce)
  /\ trace (__intel_context_retire ce) = trace ce ++ [EvRetire; EvPut].
Proof.
  intros Hk L. unfold __intel_context_retire. cbv zeta.
  assert (live k (bump VmActiveContexts (-1)
                    (with_valid_bit (deref (emit EvRetire ce))))) as L1.
  { apply live_bump; [reflexivity|].
    apply live_with_valid_bit, live_deref, live_emit, L. }
  destruct (live_post_unpin _ _ L1) as [L2 T2].
  destruct (live_put k _ ltac:(lia) L2) as (_ & fin & T3 & H3).
  destruct (H3 Hk) as [-> L3]. split; [exact L3|].
  rewrite T3, T2. cbn [trace bump deref with_valid_bit emit].
  rewrite <- app_assoc. reflexivity.
Qed.

Lemma live_active_release k ce :
  2 <= k -> live k ce ->
  exists mid k',
    trace (i915_active_release ce) = trace ce ++ EvActiveRelease :: mid /\
    ~ In EvFree mid /\ 1 <= k' /\ live k' (i915_active_release ce).
Proof.
  intros Hk L. unfold i915_active_release. cbv zeta.
  assert (live k (emit EvActiveRelease (bump CeActive (-1) ce))) as L1
    by (apply live_emit, live_bump; [reflexivity|exact L]).
  destruct (cnt _ CeActive =? 0).
  - destruct (live_retire k _ Hk L1) as [L2 T2].
    exists [EvRetire; EvPut], (k - 1). split.
    + rewrite T2. cbn [trace emit bump deref]. rewrite <- app_assoc.
      reflexivity.
    + split; [intros [H|[H|[]]]; discriminate H|]. split; [lia|exact L2].
  - exists [], k. split; [reflexivity|]. split; [intros []|].
    split; [lia|exact L1].
Qed.

(** The releasing unpin: with a reference held on entry (that of the
    active tracker may be the only one), the context is never touched
    after it is freed; the extra reference is taken before the tracker is
    released and dropped after the last access. *)
Lemma do_unpin_release sub ce k :
  pin_count ce = sub -> 1 <= sub < 2 ^ 31 -> 1 <= k -> live k ce ->
  let ce' := __intel_context_do_unpin sub ce in
  use_after_free ce' = false /\
  exists mid fin,
    trace ce' = trace ce
                ++ [EvOpsUnpin; EvOpsPostUnpin; EvGet; EvActiveRelease]
                ++ mid ++ [EvTraceUnpin; EvPut] ++ fin /\
    ~ In EvFree mid.
Proof.
  intros Hp Hs Hk L. cbv zeta. unfold __intel_context_do_unpin. cbv zeta.
  unfold GEM_BUG_ON. rewrite Hp, Z.ltb_irrefl.
  cbn [pin_count with_pin_count deref]. rewrite Hp, Z.sub_diag.
  change (s32 0 =? 0) with true. cbn [negb].
  set (c1 := with_pin_count (s32 0) (deref ce)).
  assert (live k c1) as L1 by (apply live_with_pin_count, live_deref, L).
  assert (trace c1 = trace ce) as T1 by reflexivity.
  set (c2 := ops_post_unpin (emit EvOpsUnpin (bump OpsPin (-1) c1))).
  assert (live k c2) as L2.
  { subst c2. unfold ops_post_unpin. apply live_emit, live_bump;
      [reflexivity|]. apply live_emit, live_bump; [reflexivity|exact L1]. }
  assert (trace c2 = trace ce ++ [EvOpsUnpin; EvOpsPostUnpin]) as T2.
  { subst c2. unfold ops_post_unpin. cbn [trace emit bump deref].
    rewrite T1, <- app_assoc. reflexivity. }
  destruct (live_get _ _ L2) as [L3 T3].
  unfold intel_context_active_release, i915_active_acquire_barrier.
  destruct (live_active_release (k + 1) _ ltac:(lia) L3)
    as (mid & k' & T4 & Hmid & Hk' & L4).
  set (c4 := i915_active_release (intel_context_get c2)) in *.
  assert (live k' (emit EvTraceUnpin (deref c4))) as L5
    by (apply live_emit, live_deref, L4).
  destruct (live_put k' _ Hk' L5) as (U6 & fin & T6 & _).
  split; [exact U6|]. exists mid, fin. split; [|exact Hmid].
  rewrite T6. cbn [trace emit deref]. rewrite T4, T3, T2.
  rewrite <- !app_assoc. reflexivity.
Qed.

(** *** C1: pins and unpins in balance *)

(** C1 (amended).  Along any sequence of pin and unpin calls on a context
    that starts unpinned, the allocation path runs exactly in the pin
    calls that raise the pin count from zero and the release path exactly
    in the unpin calls that bring it back to zero, so that allocations
    exceed releases by one while the context is pinned and equal them when
    it is not; a sequence that returns to zero having left zero once has
    allocated once and released once.  A successful pin of an already
    pinned context only increments the count.  The releasing unpin takes
    its extra reference before it releases the active tracker and drops it
    after its last access, so the context is not used after being freed. *)
Theorem C1_pin_unpin_balance cs ce sts :
  pin_count ce = 0 -> trace ce = [] ->
  Forall call_ok cs -> Z.of_nat (length cs) < 2 ^ 31 ->
  run cs ce = Some sts ->
  let final := List.last sts ce in
  let h := map pin_count sts in
  allocations final = rises 0 h /\
  releases final = falls 0 h /\
  allocations final - releases final
    = (if pin_count final =? 0 then 0 else 1) /\
  (pin_count final = 0 -> rises 0 h = 1 ->
     allocations final = 1 /\ releases final = 1) /\
  (forall envs c err c' ww,
     0 <= pin_count c < 2 ^ 31 - 1 ->
     __intel_context_do_pin envs c = Some (err, c', ww) -> err = 0 ->
     pin_count c' = pin_count c + 1 /\
     allocations c' = allocations c + (if pin_count c =? 0 then 1 else 0)) /\
  (forall sub c k,
     pin_count c = sub -> 1 <= sub < 2 ^ 31 -> 1 <= k -> live k c ->
     use_after_free (__intel_context_do_unpin sub c) = false /\
     exists mid fin,
       trace (__intel_context_do_unpin sub c)
       = trace c ++ [EvOpsUnpin; EvOpsPostUnpin; EvGet; EvActiveRelease]
           ++ mid ++ [EvTraceUnpin; EvPut] ++ fin /\
       ~ In EvFree mid).
Proof.
  intros Hp Ht Hok Hlen Hrun final h.
  destruct (run_counts cs ce sts 0 Hok ltac:(lia) ltac:(lia) Hrun)
    as (A & R & P).
  fold final in A, R, P. rewrite Hp in A, R. fold h in A, R.
  assert (allocations ce = 0 /\ releases ce = 0) as [A0 R0]
    by (unfold allocations, releases; rewrite Ht; split; reflexivity).
  rewrite A0 in A. rewrite R0 in R. cbn [Z.add] in A, R.
  pose proof (rises_falls h 0) as RF. subst h.
  rewrite <- Hp, last_map_pin_count in RF. fold final in RF.
  rewrite Hp in RF. cbn [Z.eqb] in RF.
  repeat split.
  - exact A.
  - exact R.
  - lia.
  - rewrite A. assumption.
  - rewrite R. match goal with H : pin_count final = 0 |- _ => rewrite H in RF end.
    cbn [Z.eqb] in RF. lia.
  - destruct (do_pin_outcome envs c err c' ww H H0)
      as [[(_ & _ & P1 & _)|[N _]] _]; [exact P1|contradiction].
  - destruct (do_pin_outcome envs c err c' ww H H0)
      as [[(_ & _ & _ & P2 & _)|[N _]] _]; [exact P2|contradiction].
  - apply (do_unpin_release sub c k); assumption.
  - apply (do_unpin_release sub c k); assumption.
Qed.

(** *** Worked instances *)

(** A context just created, holding its creator's reference. *)
Definition fresh_context : intel_context :=
  {| pin_count := 0; alloc_bit := false; valid_bit := false;
     banned := false; closed := false; is_barrier := false;
     is_parallel := false; uses_guc := false; has_state := false;
     ring_has_obj := true;
     cnt := fun r => match r with Kref => 1 | _ => 0 end;
     freed := false; use_after_free := false; bug := false; trace := [] |}.

(** An environment in which every call succeeds. *)
Definition ok_env : pin_env :=
  {| alloc_mutex_err := 0; ops_alloc_err := 0; ops_alloc_state := true;
     lock_hwsp_res := 0; lock_ring_res := 0; lock_state_res := 0;
     ring_pin_err := 0; ring_active_err := 0; timeline_pin_err := 0;
     state_pin_err := 0; state_active_err := 0; ops_pre_pin_err := 0;
     nested_contended := None; nested_evict := false;
     active_acquire_err := 0; pin_mutex_err := 0;
     barrier_err := 0; barrier_nodes := 1; ops_pin_err := 0;
     slow_lock_err := 0 |}.

(** Two pins, then two unpins. *)
Definition pin_pin_unpin_unpin : list call :=
  [Pin [ok_env]; Pin [ok_env]; Unpin 1; Unpin 1].

(** Pin and unpin, twice over. *)
Definition pin_unpin_twice : list call :=
  [Pin [ok_env]; Unpin 1; Pin [ok_env]; Unpin 1].

Definition states_of (cs : list call) : list intel_context :=
  match run cs fresh_context with
  | Some sts => sts
  | None => []
  end.

Example pin_pin_unpin_unpin_history :
  map pin_count (states_of pin_pin_unpin_unpin) = [1; 2; 1; 0].
Proof. vm_compute. reflexivity. Qed.

Example pin_unpin_twice_history :
  map pin_count (states_of pin_unpin_twice) = [1; 0; 1; 0].
Proof. vm_compute. reflexivity. Qed.

Lemma run_states_of cs :
  run cs fresh_context <> None ->
  run cs fresh_context = Some (states_of cs).
Proof. unfold states_of. destruct (run cs fresh_context); congruence. Qed.

Lemma C1_counterexample : ~ pinned_once_per_sequence.
Proof.
  intros H.
  assert (run pin_unpin_twice fresh_context = Some (states_of pin_unpin_twice))
    as Hrun by (apply run_states_of; vm_compute; discriminate).
  specialize (H pin_unpin_twice fresh_context (states_of pin_unpin_twice)
                eq_refl eq_refl eq_refl Hrun).
  assert (allocations (List.last (states_of pin_unpin_twice) fresh_context) = 2)
    as HA by (vm_compute; reflexivity).
  destruct H as [H _].
  - exists (hd fresh_context (states_of pin_unpin_twice)). split.
    + vm_compute. left. reflexivity.
    + vm_compute. discriminate.
  - vm_compute. reflexivity.
  - rewrite HA in H. discriminate H.
Qed.

Lemma C1_pin_unpin_balance_witness :
  pin_count fresh_context = 0 /\ trace fresh_context = [] /\
  Forall call_ok pin_pin_unpin_unpin /\
  Z.of_nat (length pin_pin_unpin_unpin) < 2 ^ 31 /\
  run pin_pin_unpin_unpin fresh_context
    = Some (states_of pin_pin_unpin_unpin) /\
  allocations (List.last (states_of pin_pin_unpin_unpin) fresh_context) = 1 /\
  releases (List.last (states_of pin_pin_unpin_unpin) fresh_context) = 1.
Proof.
  assert (pin_count fresh_context = 0) as H1 by reflexivity.
  assert (trace fresh_context = []) as H2 by reflexivity.
  assert (Forall call_ok pin_pin_unpin_unpin) as H3
    by (repeat constructor; simpl; lia).
  assert (Z.of_nat (length pin_pin_unpin_unpin) < 2 ^ 31) as H4
    by (simpl; lia).
  assert (run pin_pin_unpin_unpin fresh_context
          = Some (states_of pin_pin_unpin_unpin)) as H5
    by (apply run_states_of; vm_compute; discriminate).
  pose proof (C1_pin_unpin_balance pin_pin_unpin_unpin fresh_context
                (states_of pin_pin_unpin_unpin) H1 H2 H3 H4 H5) as T.
  cbv zeta in T. destruct T as (_ & _ & _ & T & _).
  exact (conj H1 (conj H2 (conj H3 (conj H4 (conj H5
           (T ltac:(vm_compute; reflexivity) ltac:(vm_compute; reflexivity))))))).
Defined.

(** *** C2: banned and closed contexts *)

Lemma cnt_emit ev ce r : cnt (emit ev ce) r = cnt ce r.
Proof. reflexivity. Qed.

Lemma cnt_deref ce r : cnt (deref ce) r = cnt ce r.
Proof. reflexivity. Qed.

Lemma cnt_with_valid_bit ce r : cnt (with_valid_bit ce) r = cnt ce r.
Proof. reflexivity. Qed.

Lemma cnt_with_freed ce r : cnt (with_freed ce) r = cnt ce r.
Proof. reflexivity. Qed.

Lemma cnt_with_alloc st ce r : cnt (with_alloc st ce) r = cnt ce r.
Proof. reflexivity. Qed.

Lemma has_state_bump r d ce : has_state (bump r d ce) = has_state ce.
Proof. reflexivity. Qed.

Lemma has_state_emit ev ce : has_state (emit ev ce) = has_state ce.
Proof. reflexivity. Qed.

Lemma has_state_deref ce : has_state (deref ce) = has_state ce.
Proof. reflexivity. Qed.

Lemma has_state_with_valid_bit ce :
  has_state (with_valid_bit ce) = has_state ce.
Proof. reflexivity. Qed.

Lemma has_state_with_freed ce : has_state (with_freed ce) = has_state ce.
Proof. reflexivity. Qed.

Ltac ctx_simpl :=
  repeat first
    [ rewrite cnt_bump | rewrite cnt_emit | rewrite cnt_deref
    | rewrite cnt_with_valid_bit | rewrite cnt_with_freed
    | rewrite cnt_with_alloc
    | rewrite has_state_bump | rewrite has_state_emit
    | rewrite has_state_deref | rewrite has_state_with_valid_bit
    | rewrite has_state_with_freed ].

(** The counters after everything a pass took before the closed check has
    been given back. *)
Lemma post_unpin_cnt ce r :
  cnt (intel_context_post_unpin ce) r
  = cnt ce r
    - (match r with
       | RingPin | RingActive | TimelinePin => 1
       | StatePin | StateActive => if has_state ce then 1 else 0
       | _ => 0
       end).
Proof.
  unfold intel_context_post_unpin, __context_unpin_state, __ring_retire.
  cbv zeta. destruct (has_state ce); ctx_simpl; destruct r;
    cbn [resource_eqb]; lia.
Qed.

Lemma has_state_post_unpin ce :
  has_state (intel_context_post_unpin ce) = has_state ce.
Proof.
  unfold intel_context_post_unpin, __context_unpin_state, __ring_retire.
  cbv zeta. destruct (has_state ce) eqn:E; ctx_simpl; exact E.
Qed.

Lemma put_cnt ce r :
  cnt (intel_context_put ce) r
  = cnt ce r - (match r with Kref => 1 | _ => 0 end).
Proof.
  unfold intel_context_put. cbv zeta.
  destruct (_ =? 0); ctx_simpl; destruct r; cbn [resource_eqb]; lia.
Qed.

Lemma active_cnt ce r :
  cnt (__intel_context_active ce) r
  = cnt ce r
    + (match r with
       | Kref | VmActiveContexts | RingPin | RingActive | TimelinePin => 1
       | StatePin | StateActive => if has_state ce then 1 else 0
       | _ => 0
       end).
Proof.
  unfold __intel_context_active, intel_context_get. cbv zeta. ctx_simpl.
  destruct (has_state ce); ctx_simpl; destruct r; cbn [resource_eqb]; lia.
Qed.

Lemma has_state_active ce :
  has_state (__intel_context_active ce) = has_state ce.
Proof.
  unfold __intel_context_active, intel_context_get. cbv zeta. ctx_simpl.
  destruct (has_state ce) eqn:E; ctx_simpl; exact E.
Qed.

Lemma retire_cnt ce r :
  cnt (__intel_context_retire ce) r
  = cnt ce r
    - (match r with
       | Kref | VmActiveContexts | RingPin | RingActive | TimelinePin => 1
       | StatePin | StateActive => if has_state ce then 1 else 0
       | _ => 0
       end).
Proof.
  unfold __intel_context_retire. cbv zeta.
  rewrite put_cnt, post_unpin_cnt. ctx_simpl.
  destruct (has_state ce); destruct r; cbn [resource_eqb]; lia.
Qed.

Lemma has_state_put ce : has_state (intel_context_put ce) = has_state ce.
Proof.
  unfold intel_context_put. cbv zeta. destruct (_ =? 0); reflexivity.
Qed.

Lemma has_state_retire ce :
  has_state (__intel_context_retire ce) = has_state ce.
Proof.
  unfold __intel_context_retire. cbv zeta.
  rewrite has_state_put, has_state_post_unpin. reflexivity.
Qed.








(** A banned context whose state was allocated before the ban. *)
Definition banned_allocated_context : intel_context :=
  {| pin_count := 0; alloc_bit := true; valid_bit := false;
     banned := true; closed := false; is_barrier := false;
     is_parallel := false; uses_guc := false; has_state := true;
     ring_has_obj := true;
     cnt := fun r => match r with Kref => 1 | _ => 0 end;
     freed := false; use_after_free := false; bug := false; trace := [] |}.

Example banned_allocated_context_pins :
  let r := __intel_context_do_pin_ww ok_env banned_allocated_context
             (i915_gem_ww_ctx_init true) in
  fst (fst r) = 0 /\ pin_count (snd (fst r)) = 1.
Proof. vm_compute. split; reflexivity. Qed.




(** *** C3: the wound-wait abort stays inside the pin *)

(** Where the error of a pass can come from. *)
Definition err_source (env : pin_env) (e : Z) : Prop :=
  e = 0 \/ e = - ERESTARTSYS \/ e = - EIO \/ e = - ENOENT \/
  e = ops_alloc_err env \/ e = lock_hwsp_res env \/ e = lock_ring_res env \/
  e = lock_state_res env \/ e = ring_pin_err env \/ e = ring_active_err env \/
  e = timeline_pin_err env \/ e = state_pin_err env \/
  e = state_active_err env \/ e = ops_pre_pin_err env \/
  e = active_acquire_err env \/ e = pin_mutex_err env \/
  e = barrier_err env \/ e = ops_pin_err env.

Ltac src :=
  unfold err_source; repeat first [left; reflexivity | right]; reflexivity.

Lemma lock_err_source res o ww :
  fst (i915_gem_object_lock res o ww) = 0
  \/ fst (i915_gem_object_lock res o ww) = res.
Proof.
  unfold i915_gem_object_lock. cbv zeta. cbn [fst].
  destruct (res =? - EALREADY); auto.
Qed.

Lemma pre_pin_err_source env ce ww :
  err_source env (fst (fst (intel_context_pre_pin env ce ww))).
Proof.
  unfold intel_context_pre_pin, __ring_active, __context_pin_state.
  repeat (cbv beta iota zeta;
          match goal with
          | |- context [if ?c then _ else _] => destruct c eqn:?
          end);
    cbv beta iota zeta; cbn [fst snd]; try congruence;
    src.
Qed.

Lemma do_pin_ww_err_source env ce ww :
  err_source env (fst (fst (__intel_context_do_pin_ww env ce ww))).
Proof.
  unfold __intel_context_do_pin_ww.
  assert (exists e1 c1,
            (if negb (alloc_bit ce) then intel_context_alloc_state env ce
             else (0, ce)) = (e1, c1) /\ err_source env e1)
    as (e1 & c1 & -> & S1).
  { destruct (negb (alloc_bit ce)); [|eexists _, _; split; [reflexivity|src]].
    unfold intel_context_alloc_state.
    repeat match goal with
           | |- context [if ?c then _ else _] => destruct c
           end; eexists _, _; (split; [reflexivity|]);
      src. }
  destruct (negb (e1 =? 0)); [exact S1|].
  pose proof (lock_err_source (lock_hwsp_res env) HWSP_OBJ ww) as L2.
  destruct (i915_gem_object_lock (lock_hwsp_res env) HWSP_OBJ ww) as [e2 w2].
  cbn [fst] in L2.
  assert (err_source env e2) as S2
    by (destruct L2 as [->| ->]; [src|src]).
  assert (exists e3 w3,
            (if (e2 =? 0) && ring_has_obj c1
             then i915_gem_object_lock (lock_ring_res env) RING_OBJ w2
             else (e2, w2)) = (e3, w3) /\ err_source env e3)
    as (e3 & w3 & -> & S3).
  { destruct ((e2 =? 0) && ring_has_obj c1); [|eauto].
    pose proof (lock_err_source (lock_ring_res env) RING_OBJ w2) as L.
    destruct (i915_gem_object_lock _ RING_OBJ w2) as [e w]. cbn [fst] in L.
    exists e, w. split; [reflexivity|].
    destruct L as [->| ->]; [src|src]. }
  assert (exists e4 w4,
            (if (e3 =? 0) && has_state c1
             then i915_gem_object_lock (lock_state_res env) STATE_OBJ w3
             else (e3, w3)) = (e4, w4) /\ err_source env e4)
    as (e4 & w4 & -> & S4).
  { destruct ((e3 =? 0) && has_state c1); [|eauto].
    pose proof (lock_err_source (lock_state_res env) STATE_OBJ w3) as L.
    destruct (i915_gem_object_lock _ STATE_OBJ w3) as [e w]. cbn [fst] in L.
    exists e, w. split; [reflexivity|].
    destruct L as [->| ->]; [src|src]. }
  assert (exists e5 c5 w5,
            (if e4 =? 0 then intel_context_pre_pin env c1 w4
             else (e4, c1, w4)) = (e5, c5, w5) /\ err_source env e5)
    as (e5 & c5 & w5 & -> & S5).
  { destruct (e4 =? 0); [|eauto].
    pose proof (pre_pin_err_source env c1 w4) as L.
    destruct (intel_context_pre_pin env c1 w4) as [[e c] w]. eauto. }
  destruct (negb (e5 =? 0)); [exact S5|].
  destruct (negb (ops_pre_pin_err env =? 0)); [src|].
  destruct (i915_active_acquire (active_acquire_err env) _) as [e7 c7] eqn:E7.
  assert (e7 = 0 \/ e7 = active_acquire_err env) as S7.
  { unfold i915_active_acquire in E7.
    destruct (negb (active_acquire_err env =? 0)); injection E7; auto. }
  destruct (negb (e7 =? 0));
    [destruct S7 as [->| ->]; [src|src]|].
  destruct (negb (pin_mutex_err env =? 0)); [src|].
  destruct (closed c7); [src|].
  destruct (pin_count c7 =? 0); [|src].
  destruct (intel_context_active_acquire env c7) as [e9 c9] eqn:E9.
  assert (e9 = 0 \/ e9 = barrier_err env) as S9.
  { unfold intel_context_active_acquire,
      i915_active_acquire_preallocate_barrier in E9. cbv zeta in E9.
    repeat match type of E9 with
           | context [if ?c then _ else _] => destruct c
           end; injection E9; auto. }
  destruct (negb (e9 =? 0));
    [destruct S9 as [->| ->]; [src|src]|].
  destruct (negb (ops_pin_err env =? 0)); [src|src].
Qed.

(** A pass keeps the transaction interruptible or not, as it was set up. *)
Lemma lock_intr res o ww : intr (snd (i915_gem_object_lock res o ww)) = intr ww.
Proof.
  unfold i915_gem_object_lock. cbv zeta. cbn [snd].
  destruct (_ =? - EDEADLK); destruct (res =? 0); reflexivity.
Qed.

Lemma nested_intr env err ww : intr (nested env err ww) = intr ww.
Proof.
  unfold nested. destruct (nested_contended env); [|reflexivity].
  destruct (err =? - EDEADLK); reflexivity.
Qed.

Lemma pre_pin_intr env ce ww :
  intr (snd (intel_context_pre_pin env ce ww)) = intr ww.
Proof.
  unfold intel_context_pre_pin, __ring_active, __context_pin_state.
  repeat (cbv beta iota zeta;
          match goal with
          | |- context [if ?c then _ else _] => destruct c eqn:?
          end);
    cbv beta iota zeta; cbn [fst snd]; try congruence;
    rewrite ?nested_intr; reflexivity.
Qed.

Lemma do_pin_ww_intr env ce ww :
  intr (snd (__intel_context_do_pin_ww env ce ww)) = intr ww.
Proof.
  unfold __intel_context_do_pin_ww.
  destruct (if negb (alloc_bit ce) then intel_context_alloc_state env ce
            else (0, ce)) as [e1 c1].
  destruct (negb (e1 =? 0)); [reflexivity|].
  pose proof (lock_intr (lock_hwsp_res env) HWSP_OBJ ww) as I2.
  destruct (i915_gem_object_lock (lock_hwsp_res env) HWSP_OBJ ww) as [e2 w2].
  cbn [snd] in I2.
  assert (exists e3 w3,
            (if (e2 =? 0) && ring_has_obj c1
             then i915_gem_object_lock (lock_ring_res env) RING_OBJ w2
             else (e2, w2)) = (e3, w3) /\ intr w3 = intr ww)
    as (e3 & w3 & -> & I3).
  { destruct ((e2 =? 0) && ring_has_obj c1); [|eauto].
    pose proof (lock_intr (lock_ring_res env) RING_OBJ w2) as L.
    destruct (i915_gem_object_lock _ RING_OBJ w2) as [e w]. cbn [snd] in L.
    exists e, w. split; [reflexivity|congruence]. }
  assert (exists e4 w4,
            (if (e3 =? 0) && has_state c1
             then i915_gem_object_lock (lock_state_res env) STATE_OBJ w3
             else (e3, w3)) = (e4, w4) /\ intr w4 = intr ww)
    as (e4 & w4 & -> & I4).
  { destruct ((e3 =? 0) && has_state c1); [|eauto].
    pose proof (lock_intr (lock_state_res env) STATE_OBJ w3) as L.
    destruct (i915_gem_object_lock _ STATE_OBJ w3) as [e w]. cbn [snd] in L.
    exists e, w. split; [reflexivity|congruence]. }
  assert (exists e5 c5 w5,
            (if e4 =? 0 then intel_context_pre_pin env c1 w4
             else (e4, c1, w4)) = (e5, c5, w5) /\ intr w5 = intr ww)
    as (e5 & c5 & w5 & -> & I5).
  { destruct (e4 =? 0); [|eauto].
    pose proof (pre_pin_intr env c1 w4) as L.
    destruct (intel_context_pre_pin env c1 w4) as [[e c] w]. cbn [snd] in L.
    exists e, c, w. split; [reflexivity|congruence]. }
  destruct (negb (e5 =? 0)); [exact I5|].
  destruct (negb (ops_pre_pin_err env =? 0)).
  { unfold err_ctx_unpin. cbn [snd intr i915_gem_ww_unlock_single with_obj_list].
    rewrite nested_intr. exact I5. }
  destruct (i915_active_acquire (active_acquire_err env) _) as [e7 c7].
  destruct (negb (e7 =? 0)); [exact I5|].
  destruct (negb (pin_mutex_err env =? 0)); [exact I5|].
  destruct (closed c7); [exact I5|].
  destruct (pin_count c7 =? 0); [|exact I5].
  destruct (intel_context_active_acquire env c7) as [e9 c9].
  destruct (negb (e9 =? 0)); [exact I5|].
  destruct (negb (ops_pin_err env =? 0)); exact I5.
Qed.

(** No call of the pass meets contention. *)
Definition never_deadlocks (env : pin_env) : Prop :=
  ops_alloc_err env <> - EDEADLK /\ lock_hwsp_res env <> - EDEADLK /\
  lock_ring_res env <> - EDEADLK /\ lock_state_res env <> - EDEADLK /\
  ring_pin_err env <> - EDEADLK /\ ring_active_err env <> - EDEADLK /\
  timeline_pin_err env <> - EDEADLK /\ state_pin_err env <> - EDEADLK /\
  state_active_err env <> - EDEADLK /\ ops_pre_pin_err env <> - EDEADLK /\
  active_acquire_err env <> - EDEADLK /\ pin_mutex_err env <> - EDEADLK /\
  barrier_err env <> - EDEADLK /\ ops_pin_err env <> - EDEADLK.

Lemma never_deadlocks_pass env ce ww :
  never_deadlocks env ->
  fst (fst (__intel_context_do_pin_ww env ce ww)) <> - EDEADLK.
Proof.
  intros (N1 & N2 & N3 & N4 & N5 & N6 & N7 & N8 & N9 & N10 & N11 & N12
          & N13 & N14).
  pose proof (do_pin_ww_err_source env ce ww) as S.
  set (e := fst (fst (__intel_context_do_pin_ww env ce ww))) in *.
  clearbody e.
  unfold err_source in S. unfold EDEADLK, ERESTARTSYS, EIO, ENOENT in *.
  decompose [or] S; subst e; (assumption || lia).
Qed.

Lemma do_pin_retry_terminates envs : forall ce ww,
  Exists never_deadlocks envs -> do_pin_retry envs ce ww <> None.
Proof.
  induction envs as [|env rest IH]; intros ce ww Hex;
    [inversion Hex|]. cbn [do_pin_retry].
  pose proof (never_deadlocks_pass env ce ww) as N.
  destruct (__intel_context_do_pin_ww env ce ww) as [[e1 c1] w1].
  cbn [fst] in N.
  destruct (Z.eqb_spec e1 (- EDEADLK)) as [E|_]; [|discriminate].
  inversion Hex as [? ? Hn|? ? Hr]; subst; [contradiction (N Hn eq_refl)|].
  destruct (i915_gem_ww_ctx_backoff (slow_lock_err env) w1) as [e2 w2].
  destruct (e2 =? 0); [apply IH, Hr|discriminate].
Qed.

Lemma do_pin_retry_not_deadlock envs : forall ce ww err ce' ww',
  Forall (fun env => slow_lock_err env <> - EDEADLK) envs ->
  do_pin_retry envs ce ww = Some (err, ce', ww') ->
  err <> - EDEADLK.
Proof.
  induction envs as [|env rest IH]; intros ce ww err ce' ww' Hs;
    cbn [do_pin_retry]; [discriminate|].
  inversion Hs as [|? ? Hslow Hrest]; subst.
  destruct (__intel_context_do_pin_ww env ce ww) as [[e1 c1] w1].
  destruct (Z.eqb_spec e1 (- EDEADLK)) as [E|N].
  - destruct (i915_gem_ww_ctx_backoff (slow_lock_err env) w1) as [e2 w2] eqn:B.
    destruct (Z.eqb_spec e2 0) as [E2|N2]; [apply IH, Hrest|].
    intros [= <- <- <-].
    unfold i915_gem_ww_ctx_backoff in B. cbv zeta in B.
    destruct (contended w1); [|injection B as <- _; unfold EINVAL, EDEADLK; lia].
    cbn [intr i915_gem_ww_ctx_unlock_all with_obj_list] in B.
    destruct (intr w1).
    + destruct (Z.eqb_spec (slow_lock_err env) 0) as [E0|N0];
        cbn [negb] in B; injection B as <- _; [lia|exact Hslow].
    + cbn [Z.eqb negb] in B. injection B as <- _. lia.
  - intros [= <- <- <-]. exact N.
Qed.

(** C3.  __intel_context_do_pin returns -EDEADLK for no context and no
    behaviour of the calls it makes (the slow lock, taken with nothing
    held, cannot itself be wounded).  A pass that ends in -EDEADLK with a
    contended object recorded has every lock of the batch released and
    the contended object slow-locked, and the pin starts over with the
    next pass; any other error of a pass is returned as it is; and once
    a pass meets no contention the loop ends. *)
Theorem C3_deadlock_never_surfaces envs ce err ce' ww' :
  Forall (fun env => slow_lock_err env <> - EDEADLK) envs ->
  __intel_context_do_pin envs ce = Some (err, ce', ww') ->
  err <> - EDEADLK /\
  obj_list ww' = [] /\
  (forall env rest c ww o,
     fst (fst (__intel_context_do_pin_ww env c ww)) = - EDEADLK ->
     contended (snd (__intel_context_do_pin_ww env c ww)) = Some o ->
     intr ww = true -> slow_lock_err env = 0 ->
     exists ww2,
       do_pin_retry (env :: rest) c ww
       = do_pin_retry rest (snd (fst (__intel_context_do_pin_ww env c ww))) ww2
       /\ contended ww2 = None
       /\ obj_list ww2
          = (if contended_evict (snd (__intel_context_do_pin_ww env c ww))
             then [] else [o])
       /\ ww_log ww2
          = ww_log (snd (__intel_context_do_pin_ww env c ww))
            ++ map Unlocked
                 (obj_list (snd (__intel_context_do_pin_ww env c ww)))
            ++ SlowLocked o
               :: (if contended_evict (snd (__intel_context_do_pin_ww env c ww))
                   then [Unlocked o] else [])) /\
  (forall env rest c ww,
     fst (fst (__intel_context_do_pin_ww env c ww)) <> - EDEADLK ->
     do_pin_retry (env :: rest) c ww
     = Some (__intel_context_do_pin_ww env c ww)) /\
  (forall envs' c, Exists never_deadlocks envs' ->
     __intel_context_do_pin envs' c <> None).
Proof.
  intros Hs Hrun. repeat split.
  - unfold __intel_context_do_pin in Hrun.
    destruct (do_pin_retry envs ce (i915_gem_ww_ctx_init true))
      as [[[e c] w]|] eqn:E; [|discriminate].
    apply do_pin_retry_not_deadlock in E; [|exact Hs].
    destruct (i915_gem_ww_ctx_fini w). injection Hrun as <- _ _. exact E.
  - unfold __intel_context_do_pin in Hrun.
    destruct (do_pin_retry envs ce (i915_gem_ww_ctx_init true))
      as [[[e c] w]|]; [|discriminate].
    unfold i915_gem_ww_ctx_fini in Hrun. injection Hrun as _ _ <-.
    reflexivity.
  - intros env rest c ww o He Hc Hi Hslow. cbn [do_pin_retry].
    assert (intr (snd (__intel_context_do_pin_ww env c ww)) = true) as Hi'
      by (rewrite do_pin_ww_intr; exact Hi).
    destruct (__intel_context_do_pin_ww env c ww) as [[e1 c1] w1].
    cbn [fst snd] in *. subst e1. rewrite Z.eqb_refl.
    unfold i915_gem_ww_ctx_backoff, i915_gem_ww_ctx_unlock_all.
    rewrite Hc, Hslow. cbv zeta.
    cbn [intr contended_evict obj_list ww_log with_obj_list with_contended].
    rewrite Hi'. cbn [Z.eqb negb].
    destruct (contended_evict w1); cbn [Z.eqb]; eexists;
      (split; [reflexivity|]);
      cbn [intr contended contended_evict obj_list ww_log with_obj_list
           with_contended app];
      repeat split; rewrite <- ?app_assoc; reflexivity.
  - intros env rest c ww Hn. cbn [do_pin_retry].
    destruct (__intel_context_do_pin_ww env c ww) as [[e1 c1] w1].
    cbn [fst] in Hn. destruct (Z.eqb_spec e1 (- EDEADLK)); [contradiction|].
    reflexivity.
  - intros envs' c Hex. unfold __intel_context_do_pin.
    pose proof (do_pin_retry_terminates envs' c (i915_gem_ww_ctx_init true) Hex)
      as T.
    destruct (do_pin_retry envs' c (i915_gem_ww_ctx_init true))
      as [[[e c1] w]|]; [|contradiction].
    destruct (i915_gem_ww_ctx_fini w). discriminate.
Qed.

(** A pass that finds the ring object contended, and the pass after the
    backoff, which finds it already locked. *)
Definition contended_env : pin_env :=
  {| alloc_mutex_err := 0; ops_alloc_err := 0; ops_alloc_state := true;
     lock_hwsp_res := 0; lock_ring_res := - EDEADLK; lock_state_res := 0;
     ring_pin_err := 0; ring_active_err := 0; timeline_pin_err := 0;
     state_pin_err := 0; state_active_err := 0; ops_pre_pin_err := 0;
     nested_contended := None; nested_evict := false;
     active_acquire_err := 0; pin_mutex_err := 0;
     barrier_err := 0; barrier_nodes := 1; ops_pin_err := 0;
     slow_lock_err := 0 |}.

Definition retry_env : pin_env :=
  {| alloc_mutex_err := 0; ops_alloc_err := 0; ops_alloc_state := true;
     lock_hwsp_res := 0; lock_ring_res := - EALREADY; lock_state_res := 0;
     ring_pin_err := 0; ring_active_err := 0; timeline_pin_err := 0;
     state_pin_err := 0; state_active_err := 0; ops_pre_pin_err := 0;
     nested_contended := None; nested_evict := false;
     active_acquire_err := 0; pin_mutex_err := 0;
     barrier_err := 0; barrier_nodes := 1; ops_pin_err := 0;
     slow_lock_err := 0 |}.

Definition pin_after_contention
  : option (Z * intel_context * i915_gem_ww_ctx) :=
  __intel_context_do_pin [contended_env; retry_env] fresh_context.

Example pin_after_contention_result :
  match pin_after_contention with
  | Some (err, ce, ww) =>
      err = 0 /\ pin_count ce = 1 /\ obj_list ww = [] /\
      ww_log ww = [Locked HWSP_OBJ; Unlocked HWSP_OBJ; SlowLocked RING_OBJ;
                   Locked HWSP_OBJ; Locked STATE_OBJ; Unlocked HWSP_OBJ;
                   Unlocked RING_OBJ; Unlocked STATE_OBJ]
  | None => False
  end.
Proof. vm_compute. repeat split. Qed.

Lemma C3_deadlock_never_surfaces_witness :
  Forall (fun env => slow_lock_err env <> - EDEADLK)
    [contended_env; retry_env] /\
  (exists ce' ww',
     __intel_context_do_pin [contended_env; retry_env] fresh_context
     = Some (0, ce', ww') /\ obj_list ww' = []) /\
  0 <> - EDEADLK.
Proof.
  assert (Forall (fun env => slow_lock_err env <> - EDEADLK)
            [contended_env; retry_env]) as H1
    by (repeat constructor; simpl; unfold EDEADLK; lia).
  destruct (__intel_context_do_pin [contended_env; retry_env] fresh_context)
    as [[[e c] w]|] eqn:E; [|vm_compute in E; discriminate E].
  assert (e = 0) as -> by (vm_compute in E; congruence).
  pose proof (C3_deadlock_never_surfaces [contended_env; retry_env]
                fresh_context 0 c w H1 E) as T.
  exact (conj H1 (conj (ex_intro _ c (ex_intro _ w
           (conj eq_refl (proj1 (proj2 T))))) (proj1 T))).
Defined.

(** ** Further properties of the transactions of i915_gem_ww.c *)

Definition EBUSY : Z := 16.

(** __i915_gem_object_lock_to_evict; [ww] is [None] for a NULL
    transaction, [res] is what dma_resv_lock_interruptible returns and
    [trylock] what dma_resv_trylock does.  A lock taken here in the
    context of the transaction is recorded in its traffic, but the object
    does not join the list: the lock is the caller's to release.  A lock
    taken by dma_resv_trylock belongs to no transaction. *)
Definition __i915_gem_object_lock_to_evict (res : Z) (trylock : bool)
    (obj : gem_object) (ww : option i915_gem_ww_ctx)
  : Z * option i915_gem_ww_ctx :=
  let err := match ww with
             | Some _ => res
             | None => if trylock then 0 else - EBUSY
             end in
  if err =? - EDEADLK
  then (err, option_map (with_contended (Some obj) true) ww)
  else if err =? 0
  then (err, option_map (fun w => with_obj_list (obj_list w) [Locked obj] w) ww)
  else (err, ww).

Definition obj_eqb (a b : gem_object) : bool :=
  match a, b with
  | HWSP_OBJ, HWSP_OBJ | RING_OBJ, RING_OBJ | STATE_OBJ, STATE_OBJ => true
  | OTHER_OBJ m, OTHER_OBJ n => m =? n
  | _, _ => false
  end.

(** How often [o] is on the list of the transaction. *)
Fixpoint on_list (o : gem_object) (l : list gem_object) : Z :=
  match l with
  | [] => 0
  | x :: r => (if obj_eqb o x then 1 else 0) + on_list o r
  end.

(** The locks on [o] taken and not yet released, going by the traffic. *)
Fixpoint held (o : gem_object) (log : list lock_event) : Z :=
  match log with
  | [] => 0
  | Locked x :: r | SlowLocked x :: r =>
      (if obj_eqb o x then 1 else 0) + held o r
  | Unlocked x :: r => held o r - (if obj_eqb o x then 1 else 0)
  end.

(** The list of the transaction is the locks it holds. *)
Definition ww_consistent (ww : i915_gem_ww_ctx) : Prop :=
  forall o, held o (ww_log ww) = on_list o (obj_list ww).

Lemma obj_eqb_refl o : obj_eqb o o = true.
Proof. destruct o; cbn; try reflexivity. apply Z.eqb_refl. Qed.

Lemma obj_eqb_eq a b : obj_eqb a b = true <-> a = b.
Proof.
  split; [| intros ->; apply obj_eqb_refl].
  destruct a, b; cbn; try discriminate; try reflexivity.
  intros H. apply Z.eqb_eq in H. congruence.
Qed.

Lemma held_app o l1 l2 : held o (l1 ++ l2) = held o l1 + held o l2.
Proof.
  induction l1 as [| [x | x | x] r IH]; cbn [app held]; rewrite ?IH; lia.
Qed.

Lemma on_list_app o l1 l2 : on_list o (l1 ++ l2) = on_list o l1 + on_list o l2.
Proof.
  induction l1 as [| x r IH]; cbn [app on_list]; rewrite ?IH; lia.
Qed.

Lemma held_unlocked o l : held o (map Unlocked l) = - on_list o l.
Proof.
  induction l as [| x r IH]; cbn [map held on_list]; rewrite ?IH; lia.
Qed.

Lemma on_list_del o x l :
  In x l ->
  on_list o (list_del x l) = on_list o l - (if obj_eqb o x then 1 else 0).
Proof.
  induction l as [| y r IH]; intros Hin; [destruct Hin |].
  destruct (obj_eqb x y) eqn:E.
  - apply obj_eqb_eq in E. subst y.
    assert (D : list_del x (x :: r) = r).
    { destruct x; cbn [list_del]; try reflexivity.
      rewrite Z.eqb_refl. reflexivity. }
    rewrite D. cbn [on_list]. lia.
  - assert (D : list_del x (y :: r) = y :: list_del x r).
    { destruct x, y; cbn [list_del]; try reflexivity;
        try (cbn in E; discriminate E).
      cbn in E. rewrite E. reflexivity. }
    rewrite D. cbn [on_list].
    destruct Hin as [-> | Hin]; [rewrite obj_eqb_refl in E; discriminate E |].
    rewrite (IH Hin). lia.
Qed.

Lemma unlock_all_consistent ww :
  ww_consistent ww -> ww_consistent (i915_gem_ww_ctx_unlock_all ww).
Proof.
  intros H o. unfold i915_gem_ww_ctx_unlock_all, with_obj_list.
  cbn [ww_log obj_list on_list]. rewrite held_app, held_unlocked, H. lia.
Qed.

Lemma backoff_consistent slow ww :
  ww_consistent ww -> ww_consistent (snd (i915_gem_ww_ctx_backoff slow ww)).
Proof.
  intros H. unfold i915_gem_ww_ctx_backoff.
  destruct (contended ww) as [obj |]; [| exact H].
  pose proof (unlock_all_consistent ww H) as H1.
  set (ww1 := i915_gem_ww_ctx_unlock_all ww) in *. cbv zeta.
  destruct (negb ((if intr ww1 then slow else 0) =? 0)); cbn [snd].
  - exact H1.
  - intros o. specialize (H1 o).
    destruct (contended_evict ww1);
      unfold with_contended, with_obj_list; cbn [ww_log obj_list];
      rewrite held_app, ?on_list_app; cbn [held on_list]; lia.
Qed.

(** X8: the list of a transaction is the locks it holds, but for those
    taken for eviction.  The list and the locks held agree after
    i915_gem_ww_ctx_init, and they still agree when an object on the list
    is unlocked alone and after a backoff, whatever its outcome.
    __i915_gem_object_lock_to_evict leaves the list as it is: when it
    succeeds the object is held once more than it is listed, and when it
    fails, contended or not, nothing more is held.
    i915_gem_ww_ctx_fini empties the list and leaves no lock of the list
    held; a lock taken for eviction is still held after it. *)
Theorem X8_transaction_list_is_locks_held (ww : i915_gem_ww_ctx) :
  ww_consistent ww ->
  (forall intr, ww_consistent (i915_gem_ww_ctx_init intr))
  /\ (forall o, In o (obj_list ww) ->
                ww_consistent (i915_gem_ww_unlock_single o ww))
  /\ (forall slow, ww_consistent (snd (i915_gem_ww_ctx_backoff slow ww)))
  /\ (forall res trylock o ww1,
        snd (__i915_gem_object_lock_to_evict res trylock o (Some ww))
        = Some ww1 ->
        obj_list ww1 = obj_list ww
        /\ (forall x, held x (ww_log ww1)
                      = on_list x (obj_list ww1)
                        + (if (res =? 0) && obj_eqb x o then 1 else 0))
        /\ (forall x, held x (ww_log (fst (i915_gem_ww_ctx_fini ww1)))
                      = if (res =? 0) && obj_eqb x o then 1 else 0))
  /\ (forall o, held o (ww_log (fst (i915_gem_ww_ctx_fini ww))) = 0)
  /\ obj_list (fst (i915_gem_ww_ctx_fini ww)) = [].
Proof.
  intros H. split; [intros i o; reflexivity |].
  split.
  { intros x Hin o. unfold i915_gem_ww_unlock_single, with_obj_list.
    cbn [ww_log obj_list]. rewrite held_app, (on_list_del o x _ Hin), H.
    cbn [held]. lia. }
  split; [intros slow; apply backoff_consistent, H |].
  split.
  { intros res trylock o ww1. unfold __i915_gem_object_lock_to_evict.
    destruct (Z.eqb_spec res (- EDEADLK)) as [E | N].
    - cbn [snd option_map]. intros [= <-].
      assert (Z0 : (res =? 0) = false) by (rewrite E; reflexivity).
      rewrite Z0. cbn [andb].
      unfold with_contended, i915_gem_ww_ctx_fini,
        i915_gem_ww_ctx_unlock_all, with_obj_list.
      cbn [obj_list ww_log fst].
      split; [reflexivity |]. split.
      + intros x. rewrite H. lia.
      + intros x. rewrite held_app, held_unlocked, H. lia.
    - destruct (res =? 0); cbn [snd option_map andb]; intros [= <-];
        unfold i915_gem_ww_ctx_fini, i915_gem_ww_ctx_unlock_all,
          with_obj_list; cbn [obj_list ww_log fst].
      + split; [reflexivity |]. split.
        * intros x. rewrite held_app, H. cbn [held]. lia.
        * intros x. rewrite !held_app, held_unlocked, H. cbn [held]. lia.
      + split; [reflexivity |]. split.
        * intros x. rewrite H. lia.
        * intros x. rewrite held_app, held_unlocked, H. lia. }
  split; [| reflexivity].
  intros o. pose proof (unlock_all_consistent ww H o) as H1.
  cbn [i915_gem_ww_ctx_fini fst]. rewrite H1. reflexivity.
Qed.

(** X9: an object that contended while it was being locked for eviction
    is not kept by the backoff: the batch is released, the object is
    locked the slow way and released at once, so the retried transaction
    starts with nothing held and nothing contended; only an interruptible
    transaction can fail here, with the error of the slow lock. *)
Theorem X9_evicted_object_not_kept (ww : i915_gem_ww_ctx)
    (obj : gem_object) (trylock : bool) (slow : Z) :
  ww_consistent ww ->
  exists ww1,
    __i915_gem_object_lock_to_evict (- EDEADLK) trylock obj (Some ww)
    = (- EDEADLK, Some ww1)
    /\ contended ww1 = Some obj
    /\ let r := i915_gem_ww_ctx_backoff slow ww1 in
       contended (snd r) = None
       /\ obj_list (snd r) = []
       /\ (forall o, held o (ww_log (snd r)) = 0)
       /\ (fst r = 0 \/ (intr ww = true /\ fst r = slow))
       /\ (fst r = 0 ->
           ww_log (snd r)
           = ww_log ww ++ map Unlocked (obj_list ww)
               ++ [SlowLocked obj; Unlocked obj])
       /\ snd (i915_gem_ww_ctx_fini (snd r)) = false.
Proof.
  intros H. eexists. split; [reflexivity |]. split; [reflexivity |].
  cbv zeta. unfold i915_gem_ww_ctx_backoff.
  cbn [contended with_contended contended_evict obj_list intr ww_log
       i915_gem_ww_ctx_unlock_all with_obj_list].
  destruct (intr ww) eqn:Ei.
  - destruct (Z.eqb_spec slow 0) as [E | N]; cbn [negb fst snd contended
      with_contended obj_list ww_log with_obj_list contended_evict
      i915_gem_ww_ctx_fini i915_gem_ww_ctx_unlock_all].
    + repeat split; auto.
      * intros o. rewrite !held_app, held_unlocked, H. cbn [held]. lia.
      * intros _. rewrite <- app_assoc. reflexivity.
    + repeat split; auto.
      * intros o. rewrite !held_app, held_unlocked, H. lia.
      * intros E. contradiction.
  - cbn [Z.eqb negb fst snd contended with_contended obj_list ww_log
         with_obj_list contended_evict i915_gem_ww_ctx_fini
         i915_gem_ww_ctx_unlock_all].
    repeat split; auto.
    + intros o. rewrite !held_app, held_unlocked, H. cbn [held]. lia.
    + intros _. rewrite <- app_assoc. reflexivity.
Qed.

(** A transaction holding the ring and the state of a context. *)
Definition two_locks : i915_gem_ww_ctx :=
  snd (i915_gem_object_lock 0 STATE_OBJ
         (snd (i915_gem_object_lock 0 RING_OBJ (i915_gem_ww_ctx_init true)))).

Lemma two_locks_consistent : ww_consistent two_locks.
Proof. intros [| | | n]; reflexivity. Qed.

Example evict_contention_backoff :
  i915_gem_ww_ctx_backoff 0
    (with_contended (Some (OTHER_OBJ 3)) true two_locks)
  = (0, {| obj_list := []; contended := None; contended_evict := true;
           intr := true;
           ww_log := [Locked RING_OBJ; Locked STATE_OBJ; Unlocked RING_OBJ;
                      Unlocked STATE_OBJ; SlowLocked (OTHER_OBJ 3);
                      Unlocked (OTHER_OBJ 3)] |}).
Proof. reflexivity. Qed.

(** The ring and the state are held and listed; an object locked for
    eviction is held beside them, and still held when the transaction is
    finished. *)
Example evict_lock_outlives_fini :
  option_map (fun w => ww_log (fst (i915_gem_ww_ctx_fini w)))
    (snd (__i915_gem_object_lock_to_evict 0 false (OTHER_OBJ 3)
            (Some two_locks)))
  = Some [Locked RING_OBJ; Locked STATE_OBJ; Locked (OTHER_OBJ 3);
          Unlocked RING_OBJ; Unlocked STATE_OBJ].
Proof. reflexivity. Qed.

Lemma X8_transaction_list_is_locks_held_witness :
  ww_consistent (i915_gem_ww_unlock_single RING_OBJ two_locks)
  /\ obj_list (i915_gem_ww_unlock_single RING_OBJ two_locks) = [STATE_OBJ]
  /\ exists ww1,
       snd (__i915_gem_object_lock_to_evict 0 false (OTHER_OBJ 3)
              (Some two_locks)) = Some ww1
       /\ obj_list ww1 = [RING_OBJ; STATE_OBJ]
       /\ held (OTHER_OBJ 3) (ww_log ww1) = 1
       /\ held (OTHER_OBJ 3) (ww_log (fst (i915_gem_ww_ctx_fini ww1))) = 1.
Proof.
  pose proof (X8_transaction_list_is_locks_held two_locks
                two_locks_consistent) as (_ & Single & _ & Evict & _).
  split; [exact (Single RING_OBJ (or_introl eq_refl)) |].
  split; [reflexivity |].
  eexists. split; [reflexivity |].
  destruct (Evict 0 false (OTHER_OBJ 3) _ eq_refl) as (L & Hd & Fin).
  split; [exact L |].
  split; [exact (Hd (OTHER_OBJ 3)) | exact (Fin (OTHER_OBJ 3))].
Defined.

Lemma X9_evicted_object_not_kept_witness :
  exists ww1,
    __i915_gem_object_lock_to_evict (- EDEADLK) false (OTHER_OBJ 3)
      (Some two_locks) = (- EDEADLK, Some ww1)
    /\ contended ww1 = Some (OTHER_OBJ 3)
    /\ obj_list (snd (i915_gem_ww_ctx_backoff 0 ww1)) = [].
Proof.
  destruct (X9_evicted_object_not_kept two_locks (OTHER_OBJ 3) false 0
              two_locks_consistent) as [ww1 [E [C R]]].
  exists ww1. split; [exact E |]. split; [exact C |].
  exact (proj1 (proj2 R)).
Defined.

(** ** Scheduling policy: the preemption timeout of a context *)

(** [engine->props], as far as the policy reads it. *)
Record engine_props : Type := {
  engine_preempt_timeout_ms : Z;
  engine_timeslice_duration_ms : Z
}.

(** [ce->schedule_policy]; [guc_timeouts] lists the timeouts the context
    had at each call of intel_guc_context_set_preemption_timeout, and
    [policy_warned] tells whether a GEM_WARN_ON fired. *)
Record schedule_policy : Type := {
  preempt_disable_count : Z;
  preempt_timeout_ms : Z;
  timeslice_duration_ms : Z;
  guc_timeouts : list Z;
  policy_warned : bool
}.

Section WithEngine.

(** The properties of the engine of the context, and
    intel_uc_wants_guc_submission for its GT. *)
Variable props : engine_props.
Variable wants_guc_submission : bool.

(** intel_context_update_schedule_policy *)
Definition intel_context_update_schedule_policy (p : schedule_policy)
  : schedule_policy :=
  if negb (preempt_disable_count p =? 0) then p
  else
    {| preempt_disable_count := preempt_disable_count p;
       preempt_timeout_ms := u32 (engine_preempt_timeout_ms props);
       timeslice_duration_ms := u32 (engine_timeslice_duration_ms props);
       guc_timeouts := guc_timeouts p;
       policy_warned := policy_warned p |}.

(** intel_context_init_schedule_policy *)
Definition intel_context_init_schedule_policy (p : schedule_policy)
  : schedule_policy :=
  intel_context_update_schedule_policy
    {| preempt_disable_count := 0;
       preempt_timeout_ms := preempt_timeout_ms p;
       timeslice_duration_ms := timeslice_duration_ms p;
       guc_timeouts := guc_timeouts p;
       policy_warned := policy_warned p |}.

(** __intel_context_set_preemption_timeout *)
Definition __intel_context_set_preemption_timeout (count : Z) (warned : bool)
    (preemption_timeout_ms : Z) (p : schedule_policy) : schedule_policy :=
  (* FIXME: This needs execlist support as well *)
  if negb wants_guc_submission
  then {| preempt_disable_count := count;
          preempt_timeout_ms := preempt_timeout_ms p;
          timeslice_duration_ms := timeslice_duration_ms p;
          guc_timeouts := guc_timeouts p;
          policy_warned := warned |}
  else {| preempt_disable_count := count;
          preempt_timeout_ms := u32 preemption_timeout_ms;
          timeslice_duration_ms := timeslice_duration_ms p;
          guc_timeouts := guc_timeouts p ++ [u32 preemption_timeout_ms];
          policy_warned := warned |}.

Definition with_count (count : Z) (warned : bool) (p : schedule_policy)
  : schedule_policy :=
  {| preempt_disable_count := count;
     preempt_timeout_ms := preempt_timeout_ms p;
     timeslice_duration_ms := timeslice_duration_ms p;
     guc_timeouts := guc_timeouts p;
     policy_warned := warned |}.

(** intel_context_reset_preemption_timeout *)
Definition intel_context_reset_preemption_timeout (p : schedule_policy)
  : schedule_policy :=
  let warned := policy_warned p || (preempt_disable_count p <=? 0) in
  let count := s32 (preempt_disable_count p - 1) in
  if count =? 0                                  (* atomic_dec_and_test *)
  then __intel_context_set_preemption_timeout count warned
         (engine_preempt_timeout_ms props) p
  else with_count count warned p.

(** intel_context_disable_preemption_timeout *)
Definition intel_context_disable_preemption_timeout (p : schedule_policy)
  : schedule_policy :=
  let count := s32 (preempt_disable_count p + 1) in
  if count =? 1                                  (* atomic_inc_return *)
  then __intel_context_set_preemption_timeout count (policy_warned p) 0 p
  else with_count count (policy_warned p) p.

(** Calls on the policy of one context. *)
Inductive policy_call : Type :=
| DisablePreemptionTimeout
| ResetPreemptionTimeout
| UpdateSchedulePolicy.

Definition policy_step (p : schedule_policy) (c : policy_call)
  : schedule_policy :=
  match c with
  | DisablePreemptionTimeout => intel_context_disable_preemption_timeout p
  | ResetPreemptionTimeout => intel_context_reset_preemption_timeout p
  | UpdateSchedulePolicy => intel_context_update_schedule_policy p
  end.

(** The depth of the disables still open after [calls], from depth [d];
    [None] when a reset comes with no disable open. *)
Fixpoint open_disables (d : Z) (calls : list policy_call) : option Z :=
  match calls with
  | [] => Some d
  | DisablePreemptionTimeout :: r => open_disables (d + 1) r
  | ResetPreemptionTimeout :: r =>
      if 0 <? d then open_disables (d - 1) r else None
  | UpdateSchedulePolicy :: r => open_disables d r
  end.

(** What holds of the policy at depth [d]. *)
Definition policy_at (d : Z) (p0 p : schedule_policy) : Prop :=
  preempt_disable_count p = d
  /\ preempt_timeout_ms p
     = (if wants_guc_submission && (0 <? d) then 0
        else u32 (engine_preempt_timeout_ms props))
  /\ timeslice_duration_ms p = u32 (engine_timeslice_duration_ms props)
  /\ policy_warned p = policy_warned p0
  /\ (exists sent,
        guc_timeouts p = guc_timeouts p0 ++ sent
        /\ List.last sent (u32 (engine_preempt_timeout_ms props))
           = preempt_timeout_ms p
        /\ (wants_guc_submission = false -> sent = [])).

Lemma policy_step_at (d : Z) (p0 p : schedule_policy) (c : policy_call) :
  0 <= d < 2 ^ 31 - 1 ->
  policy_at d p0 p ->
  forall d', open_disables d [c] = Some d' ->
             policy_at d' p0 (policy_step p c).
Proof.
  intros Hd (Hc & Ht & Hs & Hw & sent & Hg & Hl & Hn) d'.
  destruct c; cbn [open_disables policy_step].
  - intros [= <-]. unfold intel_context_disable_preemption_timeout.
    rewrite Hc, s32_small by lia.
    destruct (Z.eqb_spec (d + 1) 1) as [E | N].
    + unfold __intel_context_set_preemption_timeout, policy_at.
      destruct wants_guc_submission eqn:G; cbn [negb andb
        preempt_disable_count preempt_timeout_ms timeslice_duration_ms
        guc_timeouts policy_warned].
      * destruct (Z.ltb_spec 0 (d + 1)); [| lia].
        repeat split; try assumption; try reflexivity.
        exists (sent ++ [u32 0]). rewrite Hg, <- app_assoc.
        split; [reflexivity |]. split; [| discriminate].
        rewrite last_last. reflexivity.
      * cbn [andb] in Ht. repeat split; try assumption.
        exists sent. repeat split; assumption.
    + unfold with_count, policy_at. cbn [preempt_disable_count
        preempt_timeout_ms timeslice_duration_ms guc_timeouts policy_warned].
      destruct (Z.ltb_spec 0 (d + 1)); [| lia].
      destruct (Z.ltb_spec 0 d); [| lia].
      repeat split; try assumption.
      exists sent. repeat split; assumption.
  - destruct (Z.ltb_spec 0 d) as [Hp | Hp]; [| discriminate].
    intros [= <-]. unfold intel_context_reset_preemption_timeout.
    rewrite Hc, s32_small by lia.
    destruct (Z.leb_spec d 0); [lia |]. rewrite orb_false_r.
    destruct (Z.eqb_spec (d - 1) 0) as [E | N].
    + unfold __intel_context_set_preemption_timeout, policy_at.
      rewrite E. change (0 <? 0) with false. rewrite andb_false_r.
      destruct wants_guc_submission eqn:G; cbn [negb andb
        preempt_disable_count preempt_timeout_ms timeslice_duration_ms
        guc_timeouts policy_warned].
      * repeat split; try assumption; try reflexivity.
        exists (sent ++ [u32 (engine_preempt_timeout_ms props)]).
        rewrite Hg, <- app_assoc.
        split; [reflexivity |]. split; [| discriminate].
        rewrite last_last. reflexivity.
      * cbn [andb] in Ht. repeat split; try assumption.
        exists sent. repeat split; assumption.
    + unfold with_count, policy_at. cbn [preempt_disable_count
        preempt_timeout_ms timeslice_duration_ms guc_timeouts policy_warned].
      destruct (Z.ltb_spec 0 (d - 1)); [| lia].
      destruct (Z.ltb_spec 0 d); [| lia].
      repeat split; try assumption.
      exists sent. repeat split; assumption.
  - intros [= <-]. unfold intel_context_update_schedule_policy.
    rewrite Hc. destruct (Z.eqb_spec d 0) as [E | N]; cbn [negb].
    + unfold policy_at. cbn [preempt_disable_count preempt_timeout_ms
        timeslice_duration_ms guc_timeouts policy_warned].
      rewrite E in *. change (0 <? 0) with false in *.
      rewrite andb_false_r in *.
      repeat split; try assumption; try reflexivity.
      exists sent. rewrite Hl, Ht. repeat split; assumption.
    + repeat split; try assumption.
      exists sent. repeat split; assumption.
Qed.

Lemma policy_run_at (calls : list policy_call) :
  forall d p0 p d',
    0 <= d -> d + Z.of_nat (length calls) < 2 ^ 31 ->
    policy_at d p0 p ->
    open_disables d calls = Some d' ->
    policy_at d' p0 (fold_left policy_step calls p).
Proof.
  induction calls as [| c r IH]; intros d p0 p d' Hd Hlen Hp;
    cbn [open_disables fold_left length] in *.
  - intros [= <-]. exact Hp.
  - intros H.
    assert (exists d1, open_disables d [c] = Some d1
                       /\ open_disables d1 r = Some d'
                       /\ 0 <= d1 <= d + 1) as (d1 & H1 & H2 & Hb).
    { destruct c; cbn [open_disables].
      - exists (d + 1). repeat split; [exact H | lia | lia].
      - destruct (Z.ltb_spec 0 d) as [Hp0 | Hp0]; [| discriminate H].
        exists (d - 1). repeat split; [exact H | lia | lia].
      - exists d. repeat split; [exact H | lia | lia]. }
    apply (IH d1); [lia | lia | | exact H2].
    apply (policy_step_at d); [lia | exact Hp | exact H1].
Qed.

(** X10: disabling the preemption timeout nests.  From an initialised
    policy, along calls in which no reset comes without an open disable,
    the count is the number of disables still open; under GuC submission
    the timeout is zero exactly while a disable is open and the engine's
    value otherwise, and the value last given to the GuC is the one the
    context has; without GuC submission the timeout never leaves the
    engine's value and the GuC is told nothing.  The timeslice stays the
    engine's and no warning fires. *)
Theorem X10_preemption_disable_nests (calls : list policy_call)
    (p0 : schedule_policy) (d : Z) :
  Z.of_nat (length calls) < 2 ^ 31 ->
  open_disables 0 calls = Some d ->
  let p := fold_left policy_step calls
             (intel_context_init_schedule_policy p0) in
  preempt_disable_count p = d
  /\ preempt_timeout_ms p
     = (if wants_guc_submission && (0 <? d) then 0
        else u32 (engine_preempt_timeout_ms props))
  /\ timeslice_duration_ms p = u32 (engine_timeslice_duration_ms props)
  /\ policy_warned p = policy_warned p0
  /\ exists sent,
       guc_timeouts p = guc_timeouts p0 ++ sent
       /\ List.last sent (u32 (engine_preempt_timeout_ms props))
          = preempt_timeout_ms p
       /\ (wants_guc_submission = false -> sent = []).
Proof.
  intros Hlen Hd p.
  assert (I : policy_at 0 p0 (intel_context_init_schedule_policy p0)).
  { unfold policy_at, intel_context_init_schedule_policy,
      intel_context_update_schedule_policy.
    cbn [preempt_disable_count Z.eqb negb preempt_timeout_ms
         timeslice_duration_ms guc_timeouts policy_warned].
    change (0 <? 0) with false. rewrite andb_false_r.
    repeat split. exists []. rewrite app_nil_r. repeat split. }
  exact (policy_run_at calls 0 p0 _ d ltac:(lia) ltac:(lia) I Hd).
Qed.

End WithEngine.

(** Two nested disables under GuC submission, with a policy update while
    they are open. *)
Definition sample_props : engine_props :=
  {| engine_preempt_timeout_ms := 640; engine_timeslice_duration_ms := 5 |}.

Definition blank_policy : schedule_policy :=
  {| preempt_disable_count := 0; preempt_timeout_ms := 0;
     timeslice_duration_ms := 0; guc_timeouts := []; policy_warned := false |}.

Definition nested_disables : list policy_call :=
  [DisablePreemptionTimeout; DisablePreemptionTimeout; UpdateSchedulePolicy;
   ResetPreemptionTimeout; ResetPreemptionTimeout].

Example nested_disables_run :
  fold_left (policy_step sample_props true) nested_disables
    (intel_context_init_schedule_policy sample_props blank_policy)
  = {| preempt_disable_count := 0; preempt_timeout_ms := 640;
       timeslice_duration_ms := 5; guc_timeouts := [0; 640];
       policy_warned := false |}.
Proof. reflexivity. Qed.

Lemma X10_preemption_disable_nests_witness :
  preempt_timeout_ms
    (fold_left (policy_step sample_props true)
       [DisablePreemptionTimeout; DisablePreemptionTimeout;
        UpdateSchedulePolicy; ResetPreemptionTimeout]
       (intel_context_init_schedule_policy sample_props blank_policy)) = 0.
Proof.
  assert (H1 : Z.of_nat (length [DisablePreemptionTimeout;
                DisablePreemptionTimeout; UpdateSchedulePolicy;
                ResetPreemptionTimeout]) < 2 ^ 31) by (cbn; lia).
  exact (proj1 (proj2 (X10_preemption_disable_nests sample_props true
                         [DisablePreemptionTimeout; DisablePreemptionTimeout;
                          UpdateSchedulePolicy; ResetPreemptionTimeout]
                         blank_policy 1 H1 eq_refl))).
Defined.

(** ** The active request of a context *)

(** A request on the timeline of the context, as the search reads it. *)
Record i915_request : Type := {
  rq_seqno : Z;
  rq_complete : bool;        (* __i915_request_is_complete(rq) *)
  execution_mask : Z;
  rq_is_active : bool        (* i915_request_is_active(rq) *)
}.

(** The body of list_for_each_entry_reverse in
    __intel_context_find_active_request, over the requests from the
    newest to the oldest. *)
Fixpoint find_active_from (engine_mask : Z) (newest_first : list i915_request)
    (active : option i915_request) : option i915_request :=
  match newest_first with
  | [] => active
  | rq :: older =>
      if rq_complete rq then active
      else if Z.land (execution_mask rq) engine_mask =? 0
      then find_active_from engine_mask older active
      else find_active_from engine_mask older
             (if rq_is_active rq then Some rq else active)
  end.

(** __intel_context_find_active_request; [requests] is
    [ce->timeline->requests], oldest first.  The second component is the
    request on which i915_request_get took a reference, if any. *)
Definition __intel_context_find_active_request (engine_mask : Z)
    (requests : list i915_request) (rq_get_ref : bool)
  : option i915_request * option i915_request :=
  let active := find_active_from engine_mask (rev requests) None in
  (active, if rq_get_ref then active else None).

(** A request the search may return. *)
Definition active_on (engine_mask : Z) (rq : i915_request) : bool :=
  negb (Z.land (execution_mask rq) engine_mask =? 0) && rq_is_active rq.

Lemma find_active_from_pending (engine_mask : Z) (pending : list i915_request) :
  Forall (fun rq => rq_complete rq = false) pending ->
  forall rest active,
    (match rest with
     | [] => True
     | rq :: _ => rq_complete rq = true
     end) ->
    find_active_from engine_mask (rev pending ++ rest) active
    = match List.find (active_on engine_mask) pending with
      | Some rq => Some rq
      | None => active
      end.
Proof.
  induction pending as [| rq r IH] using rev_ind; intros Hall rest active Hr.
  - cbn [rev app List.find]. destruct rest as [| rq0 r0]; [reflexivity |].
    cbn [find_active_from]. rewrite Hr. reflexivity.
  - apply Forall_app in Hall. destruct Hall as [Hr1 Hrq].
    apply Forall_inv in Hrq.
    rewrite rev_app_distr. cbn [rev app find_active_from]. rewrite Hrq.
    assert (F : forall l x,
               List.find (active_on engine_mask) (l ++ [x])
               = match List.find (active_on engine_mask) l with
                 | Some y => Some y
                 | None => if active_on engine_mask x then Some x else None
                 end).
    { clear. induction l as [| y l IH]; intros x; cbn [app List.find].
      - reflexivity.
      - destruct (active_on engine_mask y); [reflexivity | apply IH]. }
    rewrite F. unfold active_on at 2.
    destruct (Z.land (execution_mask rq) engine_mask =? 0); cbn [negb andb].
    + rewrite (IH Hr1 rest active Hr).
      destruct (List.find (active_on engine_mask) r); reflexivity.
    + rewrite (IH Hr1 rest _ Hr).
      destruct (List.find (active_on engine_mask) r); [reflexivity |].
      destruct (rq_is_active rq); reflexivity.
Qed.

(** X11: __intel_context_find_active_request returns the oldest request
    that is active and may run on the engine of the context among those
    submitted after the last completed one, and none when there is no
    such request; a reference is taken on it only when asked for. *)
Theorem X11_oldest_active_request (engine_mask : Z)
    (done pending : list i915_request) (rq_get_ref : bool) :
  Forall (fun rq => rq_complete rq = false) pending ->
  (done = [] \/ exists older rq, done = older ++ [rq]
                                 /\ rq_complete rq = true) ->
  let r := __intel_context_find_active_request engine_mask
             (done ++ pending) rq_get_ref in
  fst r = List.find (active_on engine_mask) pending
  /\ snd r = (if rq_get_ref then fst r else None)
  /\ (forall rq, fst r = Some rq ->
        In rq pending /\ rq_complete rq = false /\ rq_is_active rq = true
        /\ Z.land (execution_mask rq) engine_mask <> 0).
Proof.
  intros Hall Hdone r.
  assert (E : fst r = List.find (active_on engine_mask) pending).
  { unfold r, __intel_context_find_active_request. cbn [fst].
    rewrite rev_app_distr.
    rewrite (find_active_from_pending engine_mask pending Hall (rev done) None).
    - destruct (List.find (active_on engine_mask) pending); reflexivity.
    - destruct Hdone as [-> | (older & rq & -> & Hc)]; [exact I |].
      rewrite rev_app_distr. cbn [rev app]. exact Hc. }
  split; [exact E |]. split; [reflexivity |].
  intros rq Hrq. rewrite E in Hrq.
  pose proof (find_some _ _ Hrq) as [Hin Ha].
  split; [exact Hin |].
  rewrite List.Forall_forall in Hall. split; [exact (Hall rq Hin) |].
  unfold active_on in Ha. apply andb_true_iff in Ha. destruct Ha as [Hm Hact].
  split; [exact Hact |].
  intros Hz. rewrite Hz in Hm. discriminate Hm.
Qed.

(** A timeline with one completed request and three behind it: one for
    another engine, two active on this one. *)
Definition done_requests : list i915_request :=
  [{| rq_seqno := 1; rq_complete := true; execution_mask := 1;
      rq_is_active := false |}].

Definition pending_requests : list i915_request :=
  [{| rq_seqno := 2; rq_complete := false; execution_mask := 2;
      rq_is_active := true |};
   {| rq_seqno := 3; rq_complete := false; execution_mask := 1;
      rq_is_active := true |};
   {| rq_seqno := 4; rq_complete := false; execution_mask := 1;
      rq_is_active := true |}].

Example oldest_active_found :
  option_map rq_seqno
    (fst (__intel_context_find_active_request 1
            (done_requests ++ pending_requests) false)) = Some 3.
Proof. reflexivity. Qed.

Lemma X11_oldest_active_request_witness :
  fst (__intel_context_find_active_request 1
         (done_requests ++ pending_requests) true)
  = List.find (active_on 1) pending_requests.
Proof.
  assert (H1 : Forall (fun rq => rq_complete rq = false) pending_requests)
    by (repeat constructor).
  assert (H2 : done_requests = [] \/
               exists older rq, done_requests = older ++ [rq]
                                /\ rq_complete rq = true).
  { right. exists [], {| rq_seqno := 1; rq_complete := true;
                         execution_mask := 1; rq_is_active := false |}.
    split; reflexivity. }
  exact (proj1 (X11_oldest_active_request 1 done_requests pending_requests
                  true H1 H2)).
Defined.

(** ** What a pin pass gives back *)

(** What the first user of [ce->active] takes and the last one returns. *)
Definition active_share (st : bool) (r : resource) : Z :=
  match r with
  | Kref | VmActiveContexts | RingPin | RingActive | TimelinePin => 1
  | StatePin | StateActive => if st then 1 else 0
  | _ => 0
  end.

Definition is_ce_active (r : resource) : Z :=
  match r with CeActive => 1 | _ => 0 end.

Lemma acquire_cnt ce r :
  cnt (snd (i915_active_acquire 0 ce)) r
  = cnt ce r + is_ce_active r
    + (if cnt ce CeActive =? 0 then active_share (has_state ce) r else 0).
Proof.
  unfold i915_active_acquire. cbn [Z.eqb negb snd]. cbv zeta.
  destruct (cnt ce CeActive =? 0); ctx_simpl; rewrite ?active_cnt;
    unfold active_share, is_ce_active;
    destruct (has_state ce); destruct r; cbn [resource_eqb]; lia.
Qed.

Lemma has_state_acquire ce :
  has_state (snd (i915_active_acquire 0 ce)) = has_state ce.
Proof.
  unfold i915_active_acquire. cbn [Z.eqb negb snd]. cbv zeta.
  destruct (cnt ce CeActive =? 0); ctx_simpl; rewrite ?has_state_active;
    reflexivity.
Qed.

Lemma release_cnt ce r :
  cnt (i915_active_release ce) r
  = cnt ce r - is_ce_active r
    - (if cnt ce CeActive - 1 =? 0 then active_share (has_state ce) r else 0).
Proof.
  unfold i915_active_release. cbv zeta. ctx_simpl. cbn [resource_eqb].
  replace (cnt ce CeActive + -1) with (cnt ce CeActive - 1) by lia.
  destruct (cnt ce CeActive - 1 =? 0); rewrite ?retire_cnt; ctx_simpl;
    unfold active_share, is_ce_active;
    destruct (has_state ce); destruct r; cbn [resource_eqb]; lia.
Qed.

Lemma has_state_release ce :
  has_state (i915_active_release ce) = has_state ce.
Proof.
  unfold i915_active_release. cbv zeta.
  destruct (_ =? 0); rewrite ?has_state_retire; ctx_simpl; reflexivity.
Qed.

(** What intel_context_pre_pin holds when it succeeds. *)
Definition pre_pin_share (st : bool) (r : resource) : Z :=
  match r with
  | RingPin | RingActive | TimelinePin => 1
  | StatePin | StateActive => if st then 1 else 0
  | _ => 0
  end.

Record same_context (ce ce' : intel_context) : Prop := {
  same_state : has_state ce' = has_state ce;
  same_pin : pin_count ce' = pin_count ce;
  same_closed : closed ce' = closed ce
}.

Ltac same_ctx :=
  split; ctx_simpl;
  first [assumption | reflexivity | congruence
        | unfold bump; cbn [pin_count closed has_state]; congruence].

Ltac by_resource :=
  let x := fresh "x" in
  intros x; ctx_simpl;
  unfold active_share, is_ce_active, pre_pin_share;
  destruct x; cbn [resource_eqb]; lia.

Lemma ring_active_cnt env ce ww :
  let r := __ring_active env ce ww in
  same_context ce (snd (fst r))
  /\ forall x,
       cnt (snd (fst r)) x
       = cnt ce x
         + (if fst (fst r) =? 0
            then match x with RingPin | RingActive => 1 | _ => 0 end
            else 0).
Proof.
  unfold __ring_active. cbv zeta.
  destruct (Z.eqb_spec (ring_pin_err env) 0) as [E1 | N1]; cbn [negb fst snd].
  - destruct (Z.eqb_spec (ring_active_err env) 0) as [E2 | N2];
      cbn [negb fst snd].
    + split; [split; reflexivity |]. cbn [Z.eqb]. by_resource.
    + destruct (Z.eqb_spec (ring_active_err env) 0); [lia |].
      split; [split; reflexivity |]. by_resource.
  - destruct (Z.eqb_spec (ring_pin_err env) 0); [lia |].
    split; [split; reflexivity |]. by_resource.
Qed.

Lemma context_pin_state_cnt env ce ww :
  let r := __context_pin_state env ce ww in
  same_context ce (snd (fst r))
  /\ forall x,
       cnt (snd (fst r)) x
       = cnt ce x
         + (if fst (fst r) =? 0
            then match x with StatePin | StateActive => 1 | _ => 0 end
            else 0).
Proof.
  unfold __context_pin_state. cbv zeta.
  destruct (Z.eqb_spec (state_pin_err env) 0) as [E1 | N1]; cbn [negb fst snd].
  - destruct (Z.eqb_spec (state_active_err env) 0) as [E2 | N2];
      cbn [negb fst snd].
    + split; [split; reflexivity |]. cbn [Z.eqb]. by_resource.
    + destruct (Z.eqb_spec (state_active_err env) 0); [lia |].
      split; [split; reflexivity |]. by_resource.
  - destruct (Z.eqb_spec (state_pin_err env) 0); [lia |].
    split; [split; reflexivity |]. by_resource.
Qed.

Lemma pre_pin_cnt env ce ww :
  let r := intel_context_pre_pin env ce ww in
  same_context ce (snd (fst r))
  /\ forall x,
       cnt (snd (fst r)) x
       = cnt ce x
         + (if fst (fst r) =? 0 then pre_pin_share (has_state ce) x else 0).
Proof.
  unfold intel_context_pre_pin.
  pose proof (ring_active_cnt env ce ww) as R. cbv zeta in R.
  destruct (__ring_active env ce ww) as [[e1 c1] w1]. cbn [fst snd] in R.
  destruct R as [[S1 P1 C1] R].
  destruct (Z.eqb_spec e1 0) as [E1 | N1]; cbn [negb].
  2:{ cbn [fst snd]. split; [split; assumption |].
      intros x. rewrite R. destruct (Z.eqb_spec e1 0); [lia | reflexivity]. }
  cbv zeta.
  destruct (Z.eqb_spec (timeline_pin_err env) 0) as [E3 | N3]; cbn [negb].
  2:{ cbn [fst snd]. destruct (Z.eqb_spec (timeline_pin_err env) 0); [lia |].
      unfold __ring_retire. split; [split; assumption |].
      intros x. ctx_simpl. rewrite R. destruct x; cbn [resource_eqb]; lia. }
  ctx_simpl. rewrite S1. destruct (has_state ce) eqn:Hs; cbn [negb].
  2:{ cbn [fst snd Z.eqb]. split; [same_ctx |].
      intros x. ctx_simpl. rewrite R. unfold pre_pin_share.
      destruct x; cbn [resource_eqb]; lia. }
  pose proof (context_pin_state_cnt env (bump TimelinePin 1 c1) w1) as Q.
  cbv zeta in Q.
  destruct (__context_pin_state env (bump TimelinePin 1 c1) w1)
    as [[e4 c4] w4].
  cbn [fst snd] in Q. destruct Q as [[S4 P4 C4] Q].
  destruct (Z.eqb_spec e4 0) as [E4 | N4]; cbn [negb fst snd].
  - cbn [Z.eqb]. split.
    + split; [rewrite S4; ctx_simpl; congruence
             | rewrite P4; exact P1 | rewrite C4; exact C1].
    + intros x. rewrite Q. ctx_simpl. rewrite R. unfold pre_pin_share.
      destruct x; cbn [resource_eqb]; lia.
  - destruct (Z.eqb_spec e4 0); [lia |]. unfold __ring_retire. split.
    + split; [ctx_simpl; rewrite S4; ctx_simpl; congruence
             | cbn; rewrite P4; exact P1 | cbn; rewrite C4; exact C1].
    + intros x. ctx_simpl. rewrite Q. ctx_simpl. rewrite R.
      destruct x; cbn [resource_eqb]; lia.
Qed.

Lemma cnt_with_pin_count n ce r : cnt (with_pin_count n ce) r = cnt ce r.
Proof. reflexivity. Qed.

Lemma cnt_GEM_BUG_ON c ce r : cnt (GEM_BUG_ON c ce) r = cnt ce r.
Proof. destruct c; reflexivity. Qed.

Lemma has_state_with_pin_count n ce :
  has_state (with_pin_count n ce) = has_state ce.
Proof. reflexivity. Qed.

Lemma has_state_GEM_BUG_ON c ce : has_state (GEM_BUG_ON c ce) = has_state ce.
Proof. destruct c; reflexivity. Qed.

Lemma alloc_state_cnt env ce :
  pin_count (snd (intel_context_alloc_state env ce)) = pin_count ce
  /\ closed (snd (intel_context_alloc_state env ce)) = closed ce
  /\ forall x, cnt (snd (intel_context_alloc_state env ce)) x = cnt ce x.
Proof.
  unfold intel_context_alloc_state.
  repeat match goal with
         | |- context [if ?c then _ else _] => destruct c
         end; repeat split.
Qed.

(** The exit through [err_release]: the reference on the tracker, the
    pre-pin of the backend and what intel_context_pre_pin took are given
    back. *)
Lemma err_release_cnt err ce ww x :
  cnt (snd (fst (err_release false err ce ww))) x
  = cnt ce x - is_ce_active x
    - (if cnt ce CeActive - 1 =? 0 then active_share (has_state ce) x else 0)
    - match x with OpsPrePin => 1 | _ => 0 end
    - pre_pin_share (has_state ce) x.
Proof.
  unfold err_release, err_post_unpin, err_ctx_unpin, ops_post_unpin.
  cbn [fst snd]. rewrite post_unpin_cnt. ctx_simpl.
  rewrite release_cnt, has_state_release. unfold pre_pin_share.
  destruct x; cbn [resource_eqb]; lia.
Qed.

Lemma err_release_err h err ce ww :
  fst (fst (err_release h err ce ww)) = err.
Proof. reflexivity. Qed.

(** X12: a pin pass gives back what it took.  When the pass fails, at
    any step but the pin of the backend, or when it pins a context that is
    pinned already, every resource counter of the context is at its value
    on entry once the pass returns. *)
Theorem X12_failed_pin_gives_back env ce ww :
  0 <= cnt ce CeActive ->
  ops_pin_err env = 0 ->
  let r := __intel_context_do_pin_ww env ce ww in
  fst (fst r) <> 0 \/ pin_count ce <> 0 ->
  forall x, cnt (snd (fst r)) x = cnt ce x.
Proof.
  intros Ha Hops. unfold __intel_context_do_pin_ww.
  assert (exists e1 c1,
            (if negb (alloc_bit ce) then intel_context_alloc_state env ce
             else (0, ce)) = (e1, c1)
            /\ pin_count c1 = pin_count ce /\ closed c1 = closed ce
            /\ forall x, cnt c1 x = cnt ce x) as (e1 & c1 & -> & P1 & C1 & K1).
  { destruct (negb (alloc_bit ce)).
    - destruct (alloc_state_cnt env ce) as (A & B & C).
      destruct (intel_context_alloc_state env ce) as [e c].
      exists e, c. repeat split; assumption.
    - exists 0, ce. repeat split. }
  destruct (Z.eqb_spec e1 0) as [E1 | N1]; cbn [negb].
  2:{ cbn [fst snd]. intros _ x. apply K1. }
  destruct (i915_gem_object_lock (lock_hwsp_res env) HWSP_OBJ ww) as [e2 w2].
  destruct (if (e2 =? 0) && ring_has_obj c1
            then i915_gem_object_lock (lock_ring_res env) RING_OBJ w2
            else (e2, w2)) as [e3 w3].
  destruct (if (e3 =? 0) && has_state c1
            then i915_gem_object_lock (lock_state_res env) STATE_OBJ w3
            else (e3, w3)) as [e4 w4].
  assert (exists e5 c5 w5,
            (if e4 =? 0 then intel_context_pre_pin env c1 w4
             else (e4, c1, w4)) = (e5, c5, w5)
            /\ same_context c1 c5
            /\ forall x, cnt c5 x
                         = cnt c1 x + (if e5 =? 0
                                       then pre_pin_share (has_state c1) x
                                       else 0))
    as (e5 & c5 & w5 & -> & [S5 P5 C5] & K5).
  { destruct (Z.eqb_spec e4 0) as [E4 | N4].
    - pose proof (pre_pin_cnt env c1 w4) as Q. cbv zeta in Q.
      destruct (intel_context_pre_pin env c1 w4) as [[e c] w].
      exists e, c, w. cbn [fst snd] in Q. destruct Q as [Q1 Q2].
      repeat split; try apply Q1. exact Q2.
    - exists e4, c1, w4. split; [reflexivity |]. split; [split; reflexivity |].
      intros x. destruct (Z.eqb_spec e4 0); [lia | lia]. }
  destruct (Z.eqb_spec e5 0) as [E5 | N5]; cbn [negb].
  2:{ cbn [fst snd]. intros _ x. rewrite K5, K1. lia. }
  cbv zeta.
  destruct (Z.eqb_spec (ops_pre_pin_err env) 0) as [E6 | N6]; cbn [negb].
  2:{ unfold err_ctx_unpin. cbn [fst snd]. intros _ x.
      rewrite post_unpin_cnt, K5, K1, S5. unfold pre_pin_share.
      destruct x; lia. }
  set (c6 := emit EvOpsPrePin (bump OpsPrePin 1 c5)).
  assert (K6 : forall x, cnt c6 x
                         = cnt ce x + pre_pin_share (has_state c1) x
                           + match x with OpsPrePin => 1 | _ => 0 end).
  { intros x. unfold c6. ctx_simpl. rewrite K5, K1.
    destruct x; cbn [resource_eqb]; lia. }
  assert (S6 : has_state c6 = has_state c1) by (unfold c6; ctx_simpl; exact S5).
  assert (P6 : pin_count c6 = pin_count ce)
    by (unfold c6; cbn; congruence).
  assert (C6 : closed c6 = closed ce) by (unfold c6; cbn; congruence).
  clearbody c6.
  destruct (Z.eqb_spec (active_acquire_err env) 0) as [E7 | N7].
  2:{ unfold i915_active_acquire.
      destruct (Z.eqb_spec (active_acquire_err env) 0); [lia |].
      cbn [negb].
      destruct (Z.eqb_spec (active_acquire_err env) 0); [lia |].
      cbn [negb]. unfold err_post_unpin, err_ctx_unpin, ops_post_unpin.
      cbn [fst snd]. intros _ x. rewrite post_unpin_cnt. ctx_simpl.
      rewrite K6, S6. unfold pre_pin_share.
      destruct x; cbn [resource_eqb]; lia. }
  rewrite E7.
  change (i915_active_acquire 0 c6) with (0, snd (i915_active_acquire 0 c6)).
  cbv iota beta. cbn [Z.eqb negb].
  pose proof (acquire_cnt c6) as K7.
  pose proof (has_state_acquire c6) as S7.
  pose proof (quiet_active_acquire 0 c6 c6 (quiet_refl c6)) as Q7.
  set (c7 := snd (i915_active_acquire 0 c6)) in *. clearbody c7.
  destruct Q7 as [P7 _ _ _ C7 _].
  assert (A7 : cnt c7 CeActive = cnt ce CeActive + 1).
  { rewrite K7, K6. unfold pre_pin_share, is_ce_active, active_share.
    destruct (has_state c1), (has_state c6), (cnt ce CeActive + 0 + 0 =? 0);
      lia. }
  assert (R7 : forall c, (forall x, cnt c x = cnt c7 x) ->
                         has_state c = has_state c7 ->
                         forall err x,
                           cnt (snd (fst (err_release false err c w5))) x
                           = cnt ce x).
  { intros c Kc Sc err x.
    rewrite err_release_cnt, !Kc, A7, Sc, S7, S6, K7, !K6, S6.
    replace (cnt ce CeActive + 1 - 1) with (cnt ce CeActive) by lia.
    unfold pre_pin_share, is_ce_active, active_share.
    replace (cnt ce CeActive + 0 + 0) with (cnt ce CeActive) by lia.
    destruct (has_state c1), (cnt ce CeActive =? 0), x; lia. }
  destruct (Z.eqb_spec (pin_mutex_err env) 0) as [E8 | N8]; cbn [negb].
  2:{ intros _ x. apply R7; reflexivity. }
  destruct (closed c7) eqn:Hc7.
  { intros _ x. apply R7; reflexivity. }
  destruct (Z.eqb_spec (pin_count c7) 0) as [E9 | N9].
  2:{ intros _ x. unfold err_unlock. apply R7.
      - intros y. rewrite cnt_GEM_BUG_ON, cnt_with_pin_count. reflexivity.
      - rewrite has_state_GEM_BUG_ON, has_state_with_pin_count. reflexivity. }
  unfold intel_context_active_acquire, __i915_active_acquire,
    i915_active_acquire_preallocate_barrier.
  cbv zeta.
  destruct (is_barrier (bump CeActive 1 c7) || uses_guc (bump CeActive 1 c7)
            || is_parallel (bump CeActive 1 c7)).
  { cbn [Z.eqb negb]. rewrite Hops. cbn [Z.eqb negb].
    unfold err_unlock. rewrite err_release_err.
    intros [H | H]; [contradiction H; reflexivity | congruence]. }
  destruct (Z.eqb_spec (barrier_err env) 0) as [E10 | N10]; cbn [negb].
  { cbn [Z.eqb negb]. rewrite Hops. cbn [Z.eqb negb].
    unfold err_unlock. rewrite err_release_err.
    intros [H | H]; [contradiction H; reflexivity | congruence]. }
  rewrite ?(proj2 (Z.eqb_neq _ _) N10). cbn [negb]. cbv beta iota zeta.
  rewrite ?(proj2 (Z.eqb_neq _ _) N10). cbn [negb]. cbv beta iota zeta.
  rewrite ?(proj2 (Z.eqb_neq _ _) N10). cbn [negb].
  intros _ x. unfold err_unlock. apply R7.
  - intros y. rewrite release_cnt. ctx_simpl. cbn [resource_eqb].
    rewrite A7. destruct (Z.eqb_spec (cnt ce CeActive + 1 + 1 - 1) 0); [lia |].
    unfold is_ce_active. destruct y; cbn [resource_eqb]; lia.
  - rewrite has_state_release. ctx_simpl. reflexivity.
Qed.

(** A pass that runs out of memory for the barrier nodes, after
    everything before them was taken. *)
Definition no_barrier_env : pin_env :=
  {| alloc_mutex_err := 0; ops_alloc_err := 0; ops_alloc_state := true;
     lock_hwsp_res := 0; lock_ring_res := 0; lock_state_res := 0;
     ring_pin_err := 0; ring_active_err := 0; timeline_pin_err := 0;
     state_pin_err := 0; state_active_err := 0; ops_pre_pin_err := 0;
     nested_contended := None; nested_evict := false;
     active_acquire_err := 0; pin_mutex_err := 0;
     barrier_err := - ENOMEM; barrier_nodes := 1; ops_pin_err := 0;
     slow_lock_err := 0 |}.

Example no_barrier_pass_fails :
  fst (fst (__intel_context_do_pin_ww no_barrier_env fresh_context
              (i915_gem_ww_ctx_init true))) = - ENOMEM.
Proof. reflexivity. Qed.

(** When the pin of the backend fails, the barrier nodes preallocated
    for the engine stay on the tracker until the engine retires them. *)
Definition ops_pin_fails_env : pin_env :=
  {| alloc_mutex_err := 0; ops_alloc_err := 0; ops_alloc_state := true;
     lock_hwsp_res := 0; lock_ring_res := 0; lock_state_res := 0;
     ring_pin_err := 0; ring_active_err := 0; timeline_pin_err := 0;
     state_pin_err := 0; state_active_err := 0; ops_pre_pin_err := 0;
     nested_contended := None; nested_evict := false;
     active_acquire_err := 0; pin_mutex_err := 0;
     barrier_err := 0; barrier_nodes := 1; ops_pin_err := - EIO;
     slow_lock_err := 0 |}.

Example barrier_nodes_outlive_failed_pin :
  let r := __intel_context_do_pin_ww ops_pin_fails_env fresh_context
             (i915_gem_ww_ctx_init true) in
  fst (fst r) = - EIO
  /\ cnt (snd (fst r)) CeActive = 1 /\ cnt (snd (fst r)) Barriers = 1
  /\ cnt (barrier_retire (snd (fst r))) CeActive = 0.
Proof. repeat split. Qed.

Lemma X12_failed_pin_gives_back_witness :
  cnt (snd (fst (__intel_context_do_pin_ww no_barrier_env fresh_context
                   (i915_gem_ww_ctx_init true)))) Kref
  = cnt fresh_context Kref
  /\ cnt (snd (fst (__intel_context_do_pin_ww no_barrier_env fresh_context
                      (i915_gem_ww_ctx_init true)))) CeActive
     = cnt fresh_context CeActive.
Proof.
  assert (H1 : 0 <= cnt fresh_context CeActive) by (cbn; lia).
  assert (H2 : fst (fst (__intel_context_do_pin_ww no_barrier_env
                           fresh_context (i915_gem_ww_ctx_init true))) <> 0
               \/ pin_count fresh_context <> 0)
    by (left; vm_compute; discriminate).
  exact (conj (X12_failed_pin_gives_back no_barrier_env fresh_context
                 (i915_gem_ww_ctx_init true) H1 eq_refl H2 Kref)
              (X12_failed_pin_gives_back no_barrier_env fresh_context
                 (i915_gem_ww_ctx_init true) H1 eq_refl H2 CeActive)).
Defined.

(** ** Allocation of the state *)

(** X13: the backend allocates the state of a context at most once.
    Along any number of calls of intel_context_alloc_state, whatever the
    calls outside return, [ops->alloc] succeeds at most once, and exactly
    when the context goes from not allocated to allocated; an allocated
    context is returned untouched, and a banned context that has no state
    yet never gets one. *)
Theorem X13_state_allocated_once (envs : list pin_env) (ce : intel_context) :
  let ce' := fold_left (fun c env => snd (intel_context_alloc_state env c))
               envs ce in
  count_ev EvOpsAlloc (trace ce') - count_ev EvOpsAlloc (trace ce)
  = (if negb (alloc_bit ce) && alloc_bit ce' then 1 else 0)
  /\ (alloc_bit ce = true -> ce' = ce)
  /\ (banned ce = true -> alloc_bit ce = false -> ce' = ce).
Proof.
  cbv zeta. revert ce.
  induction envs as [| env rest IH]; intros ce; cbn [fold_left].
  - rewrite andb_comm, andb_negb_r. repeat split. lia.
  - assert (S : snd (intel_context_alloc_state env ce) = ce
                \/ (alloc_bit ce = false /\ banned ce = false
                    /\ snd (intel_context_alloc_state env ce)
                       = emit EvOpsAlloc
                           (with_alloc (ops_alloc_state env) ce))).
    { unfold intel_context_alloc_state.
      destruct (negb (alloc_mutex_err env =? 0)); [left; reflexivity |].
      destruct (alloc_bit ce); cbn [negb]; [left; reflexivity |].
      destruct (banned ce); [left; reflexivity |].
      destruct (negb (ops_alloc_err env =? 0)); [left; reflexivity |].
      right. repeat split. }
    destruct S as [-> | (Ea & Eb & ->)]; [apply IH |].
    set (c1 := emit EvOpsAlloc (with_alloc (ops_alloc_state env) ce)).
    destruct (IH c1) as (I1 & I2 & _).
    assert (A1 : alloc_bit c1 = true) by reflexivity.
    rewrite (I2 A1), A1, Ea, Eb. cbn [negb andb].
    split; [| split; [discriminate | discriminate]].
    unfold c1, emit, with_alloc. cbn [trace].
    rewrite count_ev_app. cbn [count_ev event_eqb]. lia.
Qed.

End Context.

(** * Interrupt dispatch and hardware errors: i915_irq.c *)

Module Irq.

(** [enum hardware_error] *)
Inductive hardware_error : Type :=
| HARDWARE_ERROR_CORRECTABLE
| HARDWARE_ERROR_NONFATAL
| HARDWARE_ERROR_FATAL.

#[global] Instance hardware_error_eq_dec : EqDecision hardware_error.
Proof. solve_decision. Defined.

Definition hardware_errors : list hardware_error :=
  [HARDWARE_ERROR_CORRECTABLE; HARDWARE_ERROR_NONFATAL; HARDWARE_ERROR_FATAL].

(** hardware_error_type_to_str *)
Definition hardware_error_type_to_str (hw_err : hardware_error) : string :=
  match hw_err with
  | HARDWARE_ERROR_CORRECTABLE => "CORRECTABLE"
  | HARDWARE_ERROR_NONFATAL => "NONFATAL"
  | HARDWARE_ERROR_FATAL => "FATAL"
  end.

(** [enum intel_gt_hw_errors]: the indices of [gt->errors.hw]. *)
Inductive intel_gt_hw_errors : Type :=
| INTEL_GT_HW_ERROR_COR_L3_SNG
| INTEL_GT_HW_ERROR_COR_GUC
| INTEL_GT_HW_ERROR_COR_SAMPLER
| INTEL_GT_HW_ERROR_COR_SLM
| INTEL_GT_HW_ERROR_COR_EU_IC
| INTEL_GT_HW_ERROR_COR_EU_GRF
| INTEL_GT_HW_ERROR_COR_SUBSLICE
| INTEL_GT_HW_ERROR_COR_L3BANK
| INTEL_GT_HW_ERROR_FAT_ARR_BIST
| INTEL_GT_HW_ERROR_FAT_FPU
| INTEL_GT_HW_ERROR_FAT_L3_DOUB
| INTEL_GT_HW_ERROR_FAT_L3_ECC_CHK
| INTEL_GT_HW_ERROR_FAT_GUC
| INTEL_GT_HW_ERROR_FAT_IDI_PAR
| INTEL_GT_HW_ERROR_FAT_SQIDI
| INTEL_GT_HW_ERROR_FAT_SAMPLER
| INTEL_GT_HW_ERROR_FAT_SLM
| INTEL_GT_HW_ERROR_FAT_EU_IC
| INTEL_GT_HW_ERROR_FAT_EU_GRF
| INTEL_GT_HW_ERROR_FAT_SUBSLICE
| INTEL_GT_HW_ERROR_FAT_L3BANK
| INTEL_GT_HW_ERROR_FAT_TLB
| INTEL_GT_HW_ERROR_FAT_L3_FABRIC.

#[global] Instance intel_gt_hw_errors_eq_dec : EqDecision intel_gt_hw_errors.
Proof. solve_decision. Defined.

(** [enum intel_gsc_hw_errors]: the indices of [gt->errors.gsc_hw]. *)
Inductive intel_gsc_hw_errors : Type :=
| INTEL_GSC_HW_ERROR_COR_SRAM_ECC
| INTEL_GSC_HW_ERROR_UNCOR_MIA_SHUTDOWN
| INTEL_GSC_HW_ERROR_UNCOR_MIA_INT
| INTEL_GSC_HW_ERROR_UNCOR_SRAM_ECC
| INTEL_GSC_HW_ERROR_UNCOR_WDG_TIMEOUT
| INTEL_GSC_HW_ERROR_UNCOR_ROM_PARITY
| INTEL_GSC_HW_ERROR_UNCOR_UCODE_PARITY
| INTEL_GSC_HW_ERROR_UNCOR_GLITCH_DET
| INTEL_GSC_HW_ERROR_UNCOR_FUSE_PULL
| INTEL_GSC_HW_ERROR_UNCOR_FUSE_CRC_CHECK
| INTEL_GSC_HW_ERROR_UNCOR_SELFMBIST
| INTEL_GSC_HW_ERROR_UNCOR_AON_PARITY.

#[global] Instance intel_gsc_hw_errors_eq_dec : EqDecision intel_gsc_hw_errors.
Proof. solve_decision. Defined.

(** The registers the handlers touch, by name; each tile has its own. *)
Inductive reg : Type :=
| GEN11_GFX_MSTR_IRQ
| DG1_MSTR_TILE_INTR
| GEN11_DISPLAY_INT_CTL
| GEN11_GU_MISC_IIR
| DEV_ERR_STAT_REG (hw_err : hardware_error)
| ERR_STAT_GT_REG (hw_err : hardware_error)
| ERR_STAT_GT_COR_VCTR_REG (i : Z)
| ERR_STAT_GT_FATAL_VCTR_REG (i : Z)
| SLM_ECC_ERROR_CNTR (hw_err : hardware_error)
| GSC_HEC_CORR_UNCORR_ERR_STATUS (hw_err : hardware_error)
| GSC_HEC_CORR_FW_ERR_DW0
| SWF_0
| SWF_1
| SOC_GSYSEVTCTL_REG (i : Z)
| SOC_GLOBAL_ERR_STAT_MASTER_REG (hw_err : hardware_error)
| SOC_LOCAL_ERR_STAT_MASTER_REG (hw_err : hardware_error)
| SOC_GLOBAL_ERR_STAT_SLAVE_REG (hw_err : hardware_error)
| SOC_LOCAL_ERR_STAT_SLAVE_REG (hw_err : hardware_error)
| LOCAL_FIRST_IEH_HEADER_LOG_REG.

#[global] Instance reg_eq_dec : EqDecision reg.
Proof. solve_decision. Defined.

(** The named cases of the switches over bit numbers and codes. *)
Inductive dev_err_source : Type :=
| DEV_ERR_STAT_GT_ERROR | DEV_ERR_STAT_SGGI_ERROR | DEV_ERR_STAT_GSC_ERROR
| DEV_ERR_STAT_SGUNIT_ERROR | DEV_ERR_STAT_SGCI_ERROR
| DEV_ERR_STAT_SOC_ERROR | DEV_ERR_STAT_MERT_ERROR.

Inductive gt_cor_err : Type :=
| L3_SNG_COR_ERR | GUC_COR_ERR | SAMPLER_COR_ERR | SLM_COR_ERR
| EU_IC_COR_ERR | EU_GRF_COR_ERR.

Inductive gt_fat_err : Type :=
| ARRAY_BIST_FAT_ERR | FPU_UNCORR_FAT_ERR | L3_DOUBLE_FAT_ERR
| L3_ECC_CHK_FAT_ERR | GUC_FAT_ERR | IDI_PAR_FAT_ERR | SQIDI_FAT_ERR
| SAMPLER_FAT_ERR | SLM_FAT_ERR | EU_IC_FAT_ERR | EU_GRF_FAT_ERR.

Inductive gt_vctr : Type :=
| ERR_STAT_GT_VCTR0 | ERR_STAT_GT_VCTR1 | ERR_STAT_GT_VCTR2
| ERR_STAT_GT_VCTR3 | ERR_STAT_GT_VCTR6 | ERR_STAT_GT_VCTR7.

Inductive gsc_cor_err : Type :=
| GSC_COR_SRAM_ECC_SINGLE_BIT_ERR | GSC_COR_FW_REPORTED_ERR.

Inductive gsc_uncor_err : Type :=
| GSC_UNCOR_MIA_SHUTDOWN_ERR | GSC_UNCOR_MIA_INT_ERR | GSC_UNCOR_SRAM_ECC_ERR
| GSC_UNCOR_WDG_TIMEOUT_ERR | GSC_UNCOR_ROM_PARITY_ERR
| GSC_UNCOR_UCODE_PARITY_ERR | GSC_UNCOR_FW_REPORTED_ERR
| GSC_UNCOR_GLITCH_DET_ERR | GSC_UNCOR_FUSE_PULL_ERR
| GSC_UNCOR_FUSE_CRC_CHECK_ERR | GSC_UNCOR_SELFMBIST_ERR
| GSC_UNCOR_AON_PARITY_ERR.

Inductive bank_cause : Type :=
| BANK_SPARNG_ERR_MITIGATION_DOWNGRADED | BANK_SPARNG_DIS_PCLS_EXCEEDED
| BANK_SPARNG_ENA_PCLS_UNCORRECTABLE | BANK_CORRECTABLE_ERROR.

Inductive hbm_event : Type :=
| UC_DEMAND_ACCESS | PATROL_SCRUB_ERROR | PCLS_EXCEEDED | PCLS_SAME_CACHELINE.

Inductive mem_health : Type :=
| MEM_HEALTH_OKAY | MEM_HEALTH_ALARM | MEM_HEALTH_EC_PENDING
| MEM_HEALTH_DEGRADED | MEM_HEALTH_UNKNOWN.

Inductive work : Type := mem_health_work | gsc_hw_error_work.

(** Handlers that live outside i915_irq.c or in its display part. *)
Inductive ext_handler : Type :=
| gen11_gt_irq_handler | generic_handle_irq | gen8_de_irq_handler
| intel_opregion_asle_intr.

(** What a handler does, in order.  Messages are recorded by their format
    string; the arguments are not rendered. *)
Inductive event : Type :=
| MmioRead (tile : Z) (r : reg) (v : Z)      (* raw_reg_read *)
| MmioWrite (tile : Z) (r : reg) (v : Z)     (* raw_reg_write *)
| LogHwErr (fmt : string)                    (* log_gt_hw_err *)
| LogDriverError (fmt : string)              (* intel_gt_log_driver_error *)
| DrmErr (fmt : string)                      (* drm_err_ratelimited *)
| DevCrit (fmt : string)
| DevNotice (fmt : string)
| DevDbg (fmt : string)
| ScheduleWork (w : work)
| Uevent (envp : list string)                (* kobject_uevent_env *)
| AddTaint                                   (* add_taint(TAINT_MACHINE_CHECK) *)
| Call (h : ext_handler) (tile : Z) (arg : Z)
| DrmWarnOnce (cond : string)                (* drm_WARN_ON_ONCE *)
| PmuIrqStats.                               (* pmu_irq_stats(IRQ_HANDLED) *)

(** The constants of the register headers (i915_reg.h, intel_gt_regs.h,
    i915_drm_prelim.h), which are not among these sources: bit numbers
    and codes as decoders into the named cases, masks and lengths as
    numbers.  [soc_err_index_to_str] is the table of names of i915_irq.c,
    a switch over indices made of such constants; its result only chooses
    between two kinds of message. *)
Record regdefs : Type := {
  dev_err_bit : Z -> option dev_err_source;
  DEV_ERR_STAT_MAX_BITS : nat;
  gt_cor_bit : Z -> option gt_cor_err;
  gt_fat_bit : Z -> option gt_fat_err;
  GT_HW_ERROR_MAX_ERR_BITS : nat;
  PVC_COR_ERR_MASK : Z;
  PVC_FAT_ERR_MASK : Z;
  gt_vctr_index : Z -> option gt_vctr;
  ERR_STAT_GT_COR_VCTR_LEN : nat;
  ERR_STAT_GT_FATAL_VCTR_LEN : nat;
  gsc_cor_bit : Z -> option gsc_cor_err;
  gsc_uncor_bit : Z -> option gsc_uncor_err;
  GSC_HW_ERROR_MAX_ERR_BITS : nat;
  bank_cause_code : Z -> option bank_cause;
  hbm_event_code : Z -> option hbm_event;
  EVENT_MASK : Z; TILE_MASK : Z; CHANNEL_MASK : Z; PSEUDOCHANNEL_MASK : Z;
  ROW_MASK : Z; COLUMN_MASK : Z; BANK_MASK : Z; OLDSTATE_MASK : Z;
  NEWSTATE_MASK : Z;
  SOC_SLAVE_IEH : Z;
  SOC_IEH0_LOCAL_ERR_STATUS : Z;
  SOC_IEH1_LOCAL_ERR_STATUS : Z;
  PVC_SOC_MDFI_EAST : Z;
  PVC_SOC_MDFI_SOUTH : Z;
  SOC_HW_ERR_MAX_BITS : nat;
  INTEL_GT_SOC_NUM_IEH : nat;
  INTEL_GT_SOC_IEH0 : Z; INTEL_GT_SOC_IEH1 : Z;
  INTEL_SOC_REG_LOCAL : Z; INTEL_SOC_REG_GLOBAL : Z;
  SOC_ERR_INDEX : Z -> Z -> hardware_error -> Z -> Z;
  MDFI_SEVERITY : hardware_error -> Z;
  soc_err_index_to_str : Z -> string;
  GEN12_ERROR_IRQ : hardware_error -> Z;
  GEN12_IAF_IRQ : Z;
  GEN11_DISPLAY_IRQ : Z;
  GEN11_GU_MISC_IRQ : Z;
  GEN11_GU_MISC_GSE : Z;
  GEN11_MASTER_IRQ : Z;
  GEN11_DISPLAY_IRQ_ENABLE : Z;
  DG1_MSTR_IRQ : Z;
  DG1_MSTR_TILE : Z -> Z;
  PRELIM_I915_MEMORY_HEALTH_UEVENT : string
}.

(** The platform and the build configuration. *)
Record platform : Type := {
  IS_PONTEVECCHIO : bool;
  HAS_GT_ERROR_VECTORS : bool;
  HAS_MEM_SPARING_SUPPORT : bool;
  CPTCFG_DRM_I915_DISPLAY : bool
}.

(** [struct intel_gt]: its error counters and memory-sparing state. *)
Record intel_gt : Type := {
  info_id : Z;                                    (* gt->info.id *)
  is_media : bool;                                (* gt->type == GT_MEDIA *)
  errors_hw : intel_gt_hw_errors -> Z;            (* unsigned long hw[] *)
  errors_gsc_hw : intel_gsc_hw_errors -> Z;       (* unsigned long gsc_hw[] *)
  errors_sgunit : hardware_error -> Z;            (* unsigned long sgunit[] *)
  errors_soc : gmap Z Z;                          (* struct xarray soc *)
  mem_sparing_cause : Z;                          (* u32 *)
  mem_sparing_health_status : mem_health
}.

Definition with_errors_hw (f : intel_gt_hw_errors -> Z) (g : intel_gt)
  : intel_gt :=
  {| info_id := info_id g; is_media := is_media g; errors_hw := f;
     errors_gsc_hw := errors_gsc_hw g; errors_sgunit := errors_sgunit g;
     errors_soc := errors_soc g; mem_sparing_cause := mem_sparing_cause g;
     mem_sparing_health_status := mem_sparing_health_status g |}.

Definition with_errors_gsc_hw (f : intel_gsc_hw_errors -> Z) (g : intel_gt)
  : intel_gt :=
  {| info_id := info_id g; is_media := is_media g; errors_hw := errors_hw g;
     errors_gsc_hw := f; errors_sgunit := errors_sgunit g;
     errors_soc := errors_soc g; mem_sparing_cause := mem_sparing_cause g;
     mem_sparing_health_status := mem_sparing_health_status g |}.

Definition with_errors_sgunit (f : hardware_error -> Z) (g : intel_gt)
  : intel_gt :=
  {| info_id := info_id g; is_media := is_media g; errors_hw := errors_hw g;
     errors_gsc_hw := errors_gsc_hw g; errors_sgunit := f;
     errors_soc := errors_soc g; mem_sparing_cause := mem_sparing_cause g;
     mem_sparing_health_status := mem_sparing_health_status g |}.

Definition with_errors_soc (m : gmap Z Z) (g : intel_gt) : intel_gt :=
  {| info_id := info_id g; is_media := is_media g; errors_hw := errors_hw g;
     errors_gsc_hw := errors_gsc_hw g; errors_sgunit := errors_sgunit g;
     errors_soc := m; mem_sparing_cause := mem_sparing_cause g;
     mem_sparing_health_status := mem_sparing_health_status g |}.

Definition with_cause (c : Z) (g : intel_gt) : intel_gt :=
  {| info_id := info_id g; is_media := is_media g; errors_hw := errors_hw g;
     errors_gsc_hw := errors_gsc_hw g; errors_sgunit := errors_sgunit g;
     errors_soc := errors_soc g; mem_sparing_cause := c;
     mem_sparing_health_status := mem_sparing_health_status g |}.

Definition with_health (h : mem_health) (g : intel_gt) : intel_gt :=
  {| info_id := info_id g; is_media := is_media g; errors_hw := errors_hw g;
     errors_gsc_hw := errors_gsc_hw g; errors_sgunit := errors_sgunit g;
     errors_soc := errors_soc g; mem_sparing_cause := mem_sparing_cause g;
     mem_sparing_health_status := h |}.

(** Array assignment [a[k] = v]. *)
Definition upd {K : Type} `{EqDecision K} (f : K -> Z) (k : K) (v : Z)
  : K -> Z :=
  fun k' => if decide (k = k') then v else f k'.

Section WithHardware.

(** The device: a state the driver cannot see, what a register read
    returns and does to it, what a register write does to it, and what
    the handlers outside this file do to it. *)
Variable HW : Type.
Variable mmio_read : HW -> Z -> reg -> Z * HW.
Variable mmio_write : HW -> Z -> reg -> Z -> HW.
Variable external : ext_handler -> Z -> Z -> HW -> HW.
(** Whether [__xa_store] fails to allocate for a new index. *)
Variable xa_store_fails : gmap Z Z -> Z -> bool.

Variable K : regdefs.
Variable plat : platform.

(** The state a handler of one GT runs in. *)
Record st : Type := { hw : HW; gt : intel_gt; log : list event }.

(** Handlers are state transformers that return a value. *)
Definition M (A : Type) : Type := st -> A * st.

Definition ret {A : Type} (a : A) : M A := fun s => (a, s).

Definition bind {A B : Type} (m : M A) (k : A -> M B) : M B :=
  fun s => let '(a, s1) := m s in k a s1.

Notation "'let*' x := m 'in' k" := (bind m (fun x => k))
  (at level 10, x name, m at level 100, k at level 200, only parsing).
Notation "m ;; k" := (bind m (fun _ => k))
  (at level 100, k at level 200, right associativity, only parsing).

Definition emit (ev : event) : M unit :=
  fun s => (tt, {| hw := hw s; gt := gt s; log := log s ++ [ev] |}).

Definition get_gt : M intel_gt := fun s => (gt s, s).

Definition modify_gt (f : intel_gt -> intel_gt) : M unit :=
  fun s => (tt, {| hw := hw s; gt := f (gt s); log := log s |}).

(** raw_reg_read(regs, reg) and raw_reg_write(regs, reg, val): a register
    block [regs] is named by the number of its tile; the registers are
    32 bits wide. *)
Definition raw_reg_read_at (regs : Z) (r : reg) : M Z :=
  fun s =>
    let '(v, h) := mmio_read (hw s) regs r in
    (u32 v, {| hw := h; gt := gt s;
               log := log s ++ [MmioRead regs r (u32 v)] |}).

Definition raw_reg_write_at (regs : Z) (r : reg) (v : Z) : M unit :=
  fun s =>
    (tt, {| hw := mmio_write (hw s) regs r (u32 v); gt := gt s;
            log := log s ++ [MmioWrite regs r (u32 v)] |}).

(** [gt->uncore->regs] *)
Definition uncore_regs (g : intel_gt) : Z := info_id g.

(** [i915->uncore.regs], the registers of the root tile. *)
Definition i915_uncore_regs : Z := 0.

(** The two with [regs = gt->uncore->regs], as the error handlers use
    them. *)
Definition raw_reg_read (r : reg) : M Z :=
  fun s => raw_reg_read_at (uncore_regs (gt s)) r s.

Definition raw_reg_write (r : reg) (v : Z) : M unit :=
  fun s => raw_reg_write_at (uncore_regs (gt s)) r v s.

(** A call of a handler that is not in this file, for the tile [tile]. *)
Definition call_external (h : ext_handler) (tile : Z) (arg : Z) : M unit :=
  fun s =>
    (tt, {| hw := external h tile arg (hw s); gt := gt s;
            log := log s ++ [Call h tile arg] |}).

Definition when (c : bool) (m : M unit) : M unit := if c then m else ret tt.

(** A loop body run for each element in turn. *)
Fixpoint for_each {A : Type} (l : list A) (body : A -> M unit) : M unit :=
  match l with
  | [] => ret tt
  | x :: r => body x ;; for_each r body
  end.

(** A loop whose body may leave it: the body returns whether to go on. *)
Fixpoint for_each_until {A : Type} (l : list A) (body : A -> M bool)
  : M bool :=
  match l with
  | [] => ret true
  | x :: r =>
      let* go := body x in
      if go then for_each_until r body else ret false
  end.

Definition log_gt_hw_err (fmt : string) : M unit := emit (LogHwErr fmt).

(** intel_gt_log_driver_error(gt, INTEL_GT_DRIVER_ERROR_INTERRUPT, ...),
    of intel_gt.c: recorded as the message it logs. *)
Definition intel_gt_log_driver_error (fmt : string) : M unit :=
  emit (LogDriverError fmt).

Definition drm_err_ratelimited (fmt : string) : M unit := emit (DrmErr fmt).

Definition REG_BIT (n : Z) : Z := Z.shiftl 1 n.

(** [x++] on an unsigned long. *)
Definition incr (x : Z) : Z := u64 (x + 1).

Definition hw_inc (e : intel_gt_hw_errors) : M unit :=
  modify_gt (fun g => with_errors_hw (upd (errors_hw g) e (incr (errors_hw g e))) g).

Definition hw_add (e : intel_gt_hw_errors) (n : Z) : M unit :=
  modify_gt (fun g => with_errors_hw (upd (errors_hw g) e (u64 (errors_hw g e + n))) g).

Definition hw_set (e : intel_gt_hw_errors) (v : Z) : M unit :=
  modify_gt (fun g => with_errors_hw (upd (errors_hw g) e v) g).


Definition gsc_inc (e : intel_gsc_hw_errors) : M unit :=
  modify_gt (fun g =>
    with_errors_gsc_hw (upd (errors_gsc_hw g) e (incr (errors_gsc_hw g e))) g).

Definition hw_err_num (hw_err : hardware_error) : Z :=
  match hw_err with
  | HARDWARE_ERROR_CORRECTABLE => 0
  | HARDWARE_ERROR_NONFATAL => 1
  | HARDWARE_ERROR_FATAL => 2
  end.

Definition HARDWARE_ERROR_MAX : Z := 3.

Definition REG_GENMASK_31_0 : Z := 4294967295.

(** A loop that carries a local variable along. *)
Fixpoint fold_m {A S : Type} (l : list A) (acc : S) (body : A -> S -> M S)
  : M S :=
  match l with
  | [] => ret acc
  | x :: r => let* acc1 := body x acc in fold_m r acc1 body
  end.

Definition indices (n : nat) : list Z := map Z.of_nat (seq 0 n).

Definition HW_ERR : string := "[Hardware Error]: ".

(** [strstr(s, "Invalid") != NULL] *)
Definition mentions_invalid (s : string) : bool :=
  match String.index 0 "Invalid" s with
  | Some _ => true
  | None => false
  end.

(** log_soc_hw_error *)
Definition log_soc_hw_error (index : Z) (hw_err : hardware_error) : M unit :=
  if negb (IS_PONTEVECCHIO plat) then ret tt
  else
    let error_name := soc_err_index_to_str K index in
    if String.eqb error_name "Undefined" || mentions_invalid error_name
    then intel_gt_log_driver_error "%s SOC %s error\n"
    else log_gt_hw_err "%s SOC %s error\n".

Definition soc_error_lost : string :=
  (HW_ERR ++ "SOC error reported by IEH%lu on GT %d lost\n")%string.

(** update_soc_hw_error_cnt: the counter of [index] lives in an xarray as
    a 63-bit value entry; a missing entry reads as zero. *)
Definition update_soc_hw_error_cnt (index : Z) : M unit :=
  let* g := get_gt in
  let entry := wrap 63 (default 0 (errors_soc g !! index) + 1) in
  if xa_store_fails (errors_soc g) index
  then drm_err_ratelimited soc_error_lost
  else modify_gt (with_errors_soc (<[index := entry]> (errors_soc g))).

Definition soc_mask_gsysevtctl (v : Z) : M unit :=
  for_each (indices (INTEL_GT_SOC_NUM_IEH K))
    (fun i => raw_reg_write (SOC_GSYSEVTCTL_REG i) v).

(** gen12_soc_hw_error_handler *)
Definition gen12_soc_hw_error_handler (hw_err : hardware_error) : M unit :=
  if negb (IS_PONTEVECCHIO plat) then ret tt
  else
    let unmask_gsysevtctl :=
      soc_mask_gsysevtctl (Z.shiftl HARDWARE_ERROR_MAX 1 + 1) in
    log_gt_hw_err "SOC %s error\n" ;;
    if bool_decide (hw_err = HARDWARE_ERROR_CORRECTABLE)
       || (bool_decide (hw_err = HARDWARE_ERROR_NONFATAL)
           && negb (IS_PONTEVECCHIO plat))
    then
      soc_mask_gsysevtctl (Z.lnot (REG_BIT (hw_err_num hw_err))) ;;
      raw_reg_write (SOC_GLOBAL_ERR_STAT_MASTER_REG hw_err) REG_GENMASK_31_0 ;;
      raw_reg_write (SOC_LOCAL_ERR_STAT_MASTER_REG hw_err) REG_GENMASK_31_0 ;;
      raw_reg_write (SOC_GLOBAL_ERR_STAT_SLAVE_REG hw_err) REG_GENMASK_31_0 ;;
      raw_reg_write (SOC_LOCAL_ERR_STAT_SLAVE_REG hw_err) REG_GENMASK_31_0 ;;
      intel_gt_log_driver_error "Invalid SOC %s error\n" ;;
      unmask_gsysevtctl
    else
      (* Mask error type in GSYSEVTCTL so that no new errors of the type
         will be reported. *)
      soc_mask_gsysevtctl (Z.lnot (REG_BIT (hw_err_num hw_err))) ;;
      let* mst_glb_errstat :=
        raw_reg_read (SOC_GLOBAL_ERR_STAT_MASTER_REG hw_err) in
      log_gt_hw_err "SOC_GLOBAL_ERR_STAT_MASTER_REG_%s:0x%08lx\n" ;;
      when (negb (Z.land mst_glb_errstat (REG_BIT (SOC_SLAVE_IEH K)) =? 0))
        (let* slv_glb_errstat :=
           raw_reg_read (SOC_GLOBAL_ERR_STAT_SLAVE_REG hw_err) in
         log_gt_hw_err "SOC_GLOBAL_ERR_STAT_SLAVE_REG_%s:0x%08lx\n" ;;
         when (negb (Z.land slv_glb_errstat
                       (REG_BIT (SOC_IEH1_LOCAL_ERR_STATUS K)) =? 0))
           (let* lcl_errstat :=
              raw_reg_read (SOC_LOCAL_ERR_STAT_SLAVE_REG hw_err) in
            log_gt_hw_err "SOC_LOCAL_ERR_STAT_SLAVE_REG_%s:0x%08lx\n" ;;
            for_each (set_bits lcl_errstat (SOC_HW_ERR_MAX_BITS K))
              (fun errbit =>
                 let index := SOC_ERR_INDEX K (INTEL_GT_SOC_IEH1 K)
                                (INTEL_SOC_REG_LOCAL K) hw_err errbit in
                 update_soc_hw_error_cnt index ;;
                 when (IS_PONTEVECCHIO plat)
                   (intel_gt_log_driver_error "Invalid SOC %s error\n")) ;;
            raw_reg_write (SOC_LOCAL_ERR_STAT_SLAVE_REG hw_err) lcl_errstat) ;;
         for_each (set_bits slv_glb_errstat (SOC_HW_ERR_MAX_BITS K))
           (fun errbit =>
              (* Skip reprocessing of SOC_IEH1_LOCAL_ERR_STATUS bit *)
              if errbit =? SOC_IEH1_LOCAL_ERR_STATUS K then ret tt
              else
                let index := SOC_ERR_INDEX K (INTEL_GT_SOC_IEH1 K)
                               (INTEL_SOC_REG_GLOBAL K) hw_err errbit in
                update_soc_hw_error_cnt index ;;
                log_soc_hw_error index hw_err) ;;
         raw_reg_write (SOC_GLOBAL_ERR_STAT_SLAVE_REG hw_err) slv_glb_errstat) ;;
      when (negb (Z.land mst_glb_errstat
                    (REG_BIT (SOC_IEH0_LOCAL_ERR_STATUS K)) =? 0))
        (let* lcl0 := raw_reg_read (SOC_LOCAL_ERR_STAT_MASTER_REG hw_err) in
         log_gt_hw_err "SOC_LOCAL_ERR_STAT_MASTER_REG_%s:0x%08lx\n" ;;
         let* lcl_errstat :=
           fold_m (set_bits lcl0 (SOC_HW_ERR_MAX_BITS K)) lcl0
             (fun errbit lcl =>
                let counted :=
                  let index := SOC_ERR_INDEX K (INTEL_GT_SOC_IEH0 K)
                                 (INTEL_SOC_REG_LOCAL K) hw_err errbit in
                  update_soc_hw_error_cnt index ;;
                  log_soc_hw_error index hw_err ;;
                  ret lcl in
                if (errbit =? PVC_SOC_MDFI_EAST K)
                   || (errbit =? PVC_SOC_MDFI_SOUTH K)
                then
                  let* ieh_header := raw_reg_read LOCAL_FIRST_IEH_HEADER_LOG_REG in
                  log_gt_hw_err "LOCAL_FIRST_IEH_HEADER_LOG_REG:0x%08x\n" ;;
                  if negb (ieh_header =? MDFI_SEVERITY K hw_err)
                  then ret (Z.land lcl (Z.lnot (REG_BIT errbit)))
                  else counted
                else counted) in
         raw_reg_write (SOC_LOCAL_ERR_STAT_MASTER_REG hw_err) lcl_errstat) ;;
      for_each (set_bits mst_glb_errstat (SOC_HW_ERR_MAX_BITS K))
        (fun errbit =>
           (* Skip reprocessing of SOC_SLAVE_IEH and
              SOC_IEH0_LOCAL_ERR_STATUS *)
           if (errbit =? SOC_SLAVE_IEH K)
              || (errbit =? SOC_IEH0_LOCAL_ERR_STATUS K)
           then ret tt
           else
             let index := SOC_ERR_INDEX K (INTEL_GT_SOC_IEH0 K)
                            (INTEL_SOC_REG_GLOBAL K) hw_err errbit in
             update_soc_hw_error_cnt index ;;
             log_soc_hw_error index hw_err) ;;
      raw_reg_write (SOC_GLOBAL_ERR_STAT_MASTER_REG hw_err) mst_glb_errstat ;;
      unmask_gsysevtctl.

(** The body of the loop of gen12_gt_fatal_hw_error_stats_update over the
    set bits of the status word. *)
Definition fatal_stats_body (errbit : Z) : M unit :=
  if IS_PONTEVECCHIO plat
     && (Z.land (REG_BIT errbit) (PVC_FAT_ERR_MASK K) =? 0)
  then intel_gt_log_driver_error "Undefined FATAL error\n"
  else
    match gt_fat_bit K errbit with
    | Some ARRAY_BIST_FAT_ERR =>
        hw_inc INTEL_GT_HW_ERROR_FAT_ARR_BIST ;;
        log_gt_hw_err "Array BIST FATAL error\n"
    | Some FPU_UNCORR_FAT_ERR =>
        hw_inc INTEL_GT_HW_ERROR_FAT_FPU ;;
        log_gt_hw_err "FPU FATAL error\n"
    | Some L3_DOUBLE_FAT_ERR =>
        hw_inc INTEL_GT_HW_ERROR_FAT_L3_DOUB ;;
        log_gt_hw_err "L3 Double FATAL error\n"
    | Some L3_ECC_CHK_FAT_ERR =>
        hw_inc INTEL_GT_HW_ERROR_FAT_L3_ECC_CHK ;;
        log_gt_hw_err "L3 ECC Checker FATAL error\n"
    | Some GUC_FAT_ERR =>
        hw_inc INTEL_GT_HW_ERROR_FAT_GUC ;;
        log_gt_hw_err "GUC SRAM FATAL error\n"
    | Some IDI_PAR_FAT_ERR =>
        hw_inc INTEL_GT_HW_ERROR_FAT_IDI_PAR ;;
        log_gt_hw_err "IDI PARITY FATAL error\n"
    | Some SQIDI_FAT_ERR =>
        hw_inc INTEL_GT_HW_ERROR_FAT_SQIDI ;;
        log_gt_hw_err "SQIDI FATAL error\n"
    | Some SAMPLER_FAT_ERR =>
        hw_inc INTEL_GT_HW_ERROR_FAT_SAMPLER ;;
        log_gt_hw_err "SAMPLER FATAL error\n"
    | Some SLM_FAT_ERR =>
        (if negb (IS_PONTEVECCHIO plat) then
           let* cnt :=
             raw_reg_read (SLM_ECC_ERROR_CNTR HARDWARE_ERROR_FATAL) in
           hw_set INTEL_GT_HW_ERROR_FAT_SLM cnt
         else hw_inc INTEL_GT_HW_ERROR_FAT_SLM) ;;
        log_gt_hw_err "LSC Uncorrectable Fatal error\n"
    | Some EU_IC_FAT_ERR =>
        hw_inc INTEL_GT_HW_ERROR_FAT_EU_IC ;;
        log_gt_hw_err "EU IC FATAL error\n"
    | Some EU_GRF_FAT_ERR =>
        hw_inc INTEL_GT_HW_ERROR_FAT_EU_GRF ;;
        log_gt_hw_err "EU GRF FATAL error\n"
    | None => intel_gt_log_driver_error "Undefined FATAL error\n"
    end.

(** gen12_gt_fatal_hw_error_stats_update *)
Definition gen12_gt_fatal_hw_error_stats_update (errstat : Z)
  : M unit :=
  if (errstat =? 0) && HAS_GT_ERROR_VECTORS plat then ret tt
  else
    for_each (set_bits errstat (GT_HW_ERROR_MAX_ERR_BITS K)) fatal_stats_body.

(** The body of the loop of gen12_gt_correctable_hw_error_stats_update
    over the set bits of the status word. *)
Definition cor_stats_body (errbit : Z) : M unit :=
  if IS_PONTEVECCHIO plat
     && (Z.land (REG_BIT errbit) (PVC_COR_ERR_MASK K) =? 0)
  then intel_gt_log_driver_error "Undefined CORRECTABLE error\n"
  else
    match gt_cor_bit K errbit with
    | Some L3_SNG_COR_ERR =>
        hw_inc INTEL_GT_HW_ERROR_COR_L3_SNG ;;
        log_gt_hw_err "l3 single correctable error\n"
    | Some GUC_COR_ERR =>
        hw_inc INTEL_GT_HW_ERROR_COR_GUC ;;
        log_gt_hw_err "SINGLE BIT GUC SRAM CORRECTABLE error\n"
    | Some SAMPLER_COR_ERR =>
        hw_inc INTEL_GT_HW_ERROR_COR_SAMPLER ;;
        log_gt_hw_err "SINGLE BIT SAMPLER CORRECTABLE error\n"
    | Some SLM_COR_ERR =>
        (if negb (IS_PONTEVECCHIO plat) then
           let* cnt :=
             raw_reg_read
               (SLM_ECC_ERROR_CNTR HARDWARE_ERROR_CORRECTABLE) in
           hw_set INTEL_GT_HW_ERROR_COR_SLM cnt
         else hw_inc INTEL_GT_HW_ERROR_COR_SLM) ;;
        log_gt_hw_err "SINGLE BIT SLM CORRECTABLE error\n"
    | Some EU_IC_COR_ERR =>
        hw_inc INTEL_GT_HW_ERROR_COR_EU_IC ;;
        log_gt_hw_err "SINGLE BIT EU IC CORRECTABLE error\n"
    | Some EU_GRF_COR_ERR =>
        hw_inc INTEL_GT_HW_ERROR_COR_EU_GRF ;;
        log_gt_hw_err "SINGLE BIT EU GRF CORRECTABLE error\n"
    | None => intel_gt_log_driver_error "Undefined CORRECTABLE error\n"
    end.

(** gen12_gt_correctable_hw_error_stats_update *)
Definition gen12_gt_correctable_hw_error_stats_update (errstat : Z)
  : M unit :=
  if (errstat =? 0) && HAS_GT_ERROR_VECTORS plat then ret tt
  else
    for_each (set_bits errstat (GT_HW_ERROR_MAX_ERR_BITS K)) cor_stats_body.

Definition kobject_uevent_env (envp : list string) : M unit :=
  emit (Uevent envp).

(** The two strings of a memory-health event. *)
Definition health_event (second : string) : list string :=
  [(PRELIM_I915_MEMORY_HEALTH_UEVENT K ++ "=1")%string; second].

(** gen12_gsc_hw_error_work *)
Definition gen12_gsc_hw_error_work : M unit :=
  modify_gt (with_health MEM_HEALTH_UNKNOWN) ;;
  emit (DevNotice "Unknown memory health status, Reset Required\n") ;;
  kobject_uevent_env
    (health_event "SPARING_STATUS_UNKNOWN=1 RESET_REQUIRED=1").

(** gen12_mem_health_work; [fetch_and_zero] runs with the interrupt lock
    held, so no handler runs between its read and its write. *)
Definition gen12_mem_health_work : M unit :=
  let* g := get_gt in
  let cause := mem_sparing_cause g in
  modify_gt (with_cause 0) ;;
  if cause =? 0 then ret tt
  else
    match bank_cause_code K cause with
    | Some BANK_SPARNG_ERR_MITIGATION_DOWNGRADED =>
        modify_gt (with_health MEM_HEALTH_ALARM) ;;
        kobject_uevent_env (health_event "MEM_HEALTH_ALARM=1")
    | Some BANK_SPARNG_DIS_PCLS_EXCEEDED =>
        (* We get this correctable error notification only after a
           threshold in the firmware for correctable errors has been
           reached. *)
        modify_gt (with_health MEM_HEALTH_EC_PENDING) ;;
        kobject_uevent_env (health_event "RESET_REQUIRED=1 EC_PENDING=1")
    | Some BANK_SPARNG_ENA_PCLS_UNCORRECTABLE =>
        modify_gt (with_health MEM_HEALTH_DEGRADED) ;;
        emit AddTaint ;;
        kobject_uevent_env (health_event "DEGRADED=1 EC_FAILED=1")
    | Some BANK_CORRECTABLE_ERROR => ret tt
    | None =>
        modify_gt (with_health MEM_HEALTH_UNKNOWN) ;;
        kobject_uevent_env (health_event "SPARING_STATUS_UNKNOWN=1")
    end.

(** [__bf_shf(mask)]: the number of the lowest set bit. *)
Definition bf_shf (mask : Z) : Z := Z.log2 (Z.land mask (- mask)).

Definition REG_FIELD_GET (mask val : Z) : Z :=
  Z.shiftr (Z.land val mask) (bf_shf mask).

(** The advice three of the cases print; the source breaks the literal
    over two lines, the run of blanks this leaves in it is not kept. *)
Definition hbm_repair_advice : string :=
  "[Hardware Info:] Its advisable to run HBM test/repair Cycle to repair any potential permanent fault in HBM.".

Definition unrepairable_fault : string :=
  (HW_ERR ++ "[HBM ERROR]: Unrepairable fault has been detected, replace the PVC Card\n")%string.

(** log_hbm_err_info.  Of the bit fields only those that decide a branch
    are kept; the others are arguments of the messages. *)
Definition log_hbm_err_info (cause reg_swf0 reg_swf1 : Z) : M unit :=
  let event_num := wrap 5 (REG_FIELD_GET (EVENT_MASK K) reg_swf0) in
  let old_state := wrap 4 (REG_FIELD_GET (OLDSTATE_MASK K) reg_swf1) in
  let new_state := wrap 4 (REG_FIELD_GET (NEWSTATE_MASK K) reg_swf1) in
  let* report_state_change :=
    match bank_cause_code K cause with
    | Some BANK_CORRECTABLE_ERROR =>
        drm_err_ratelimited (HW_ERR ++ "[HBM ERROR]: %s HBM Tile%u, Channel%u, Pseudo Channel %u, Bank%u, Row%u, Column%u\n") ;;
        ret (negb (old_state =? new_state))
    | Some BANK_SPARNG_ERR_MITIGATION_DOWNGRADED =>
        drm_err_ratelimited (HW_ERR ++ "[HBM ERROR]: %s on HBM Tile%u, Channel%u, Pseudo Channel%u, Bank%u, Row%u, Column%u\n") ;;
        ret false
    | Some BANK_SPARNG_DIS_PCLS_EXCEEDED =>
        match hbm_event_code K event_num with
        | Some UC_DEMAND_ACCESS =>
            drm_err_ratelimited (HW_ERR ++ "[HBM ERROR]: %s of HBM Tile%u, Channel%u, Pseudo Channel%u, Bank%u, Row%u\n") ;;
            ret false
        | Some PATROL_SCRUB_ERROR =>
            drm_err_ratelimited (HW_ERR ++ "[HBM ERROR]: %s of HBM Tile%u, Channel%u, Pseudo Channel%u, Bank%u, Row%u\n") ;;
            emit (DevCrit hbm_repair_advice) ;;
            ret false
        | Some PCLS_EXCEEDED =>
            drm_err_ratelimited (HW_ERR ++ "[HBM ERROR]: %s on HBM Tile%u, Channel%u, Pseudo Channel%u\n") ;;
            emit (DevCrit hbm_repair_advice) ;;
            ret (negb (old_state =? new_state))
        | Some PCLS_SAME_CACHELINE =>
            drm_err_ratelimited (HW_ERR ++ "[HBM ERROR]: %s on HBM Tile%u, Channel%u, Pseudo Channel%u\n") ;;
            emit (DevCrit hbm_repair_advice) ;;
            ret false
        | None =>
            drm_err_ratelimited (HW_ERR ++ "%s 0x%x\n") ;;
            ret false
        end
    | Some BANK_SPARNG_ENA_PCLS_UNCORRECTABLE =>
        emit (DevCrit unrepairable_fault) ;;
        ret false
    | None =>
        drm_err_ratelimited (HW_ERR ++ "%s: 0x%x\n") ;;
        ret false
    end in
  when report_state_change
    (drm_err_ratelimited (HW_ERR ++ "[HBM ERROR]: Old_State%u to New_State%u for HBM TILE%u\n")).

Definition gsc_fw_error : string :=
  (HW_ERR ++ "GSC %s FW Error, GSC_HEC_CORR_FW_ERR_DW0::0x%08x\n")%string.

(** What the switch over a correctable GSC bit leaves behind: the counter
    to step, if any, or the jump to [re_enable_interrupt]. *)
Inductive gsc_switch : Type :=
| Counted (err_type : option intel_gsc_hw_errors)
| ReEnableInterrupt.

(** gen12_gsc_hw_error_handler *)
Definition gen12_gsc_hw_error_handler (hw_err : hardware_error) : M unit :=
  if negb (HAS_MEM_SPARING_SUPPORT plat) then ret tt
  else
    let* err_status :=
      raw_reg_read (GSC_HEC_CORR_UNCORR_ERR_STATUS hw_err) in
    if err_status =? 0 then ret tt
    else
      match hw_err with
      | HARDWARE_ERROR_CORRECTABLE =>
          let* _ :=
            for_each_until (set_bits err_status (GSC_HW_ERROR_MAX_ERR_BITS K))
              (fun errbit =>
                 let* sw :=
                   match gsc_cor_bit K errbit with
                   | Some GSC_COR_SRAM_ECC_SINGLE_BIT_ERR =>
                       ret (Counted (Some INTEL_GSC_HW_ERROR_COR_SRAM_ECC))
                   | Some GSC_COR_FW_REPORTED_ERR =>
                       let* dw0 := raw_reg_read GSC_HEC_CORR_FW_ERR_DW0 in
                       modify_gt (fun g =>
                         with_cause (Z.lor (mem_sparing_cause g) dw0) g) ;;
                       drm_err_ratelimited gsc_fw_error ;;
                       let* g := get_gt in
                       if mem_sparing_cause g =? 0 then ret ReEnableInterrupt
                       else
                         when (IS_PONTEVECCHIO plat)
                           (let* sw0_reg := raw_reg_read SWF_0 in
                            let* sw1_reg := raw_reg_read SWF_1 in
                            log_hbm_err_info (mem_sparing_cause g)
                              sw0_reg sw1_reg ;;
                            (* These registers are written by FSP, so
                               write 0 to clear *)
                            raw_reg_write SWF_0 0 ;;
                            raw_reg_write SWF_1 0) ;;
                         emit (ScheduleWork mem_health_work) ;;
                         ret (Counted None)
                   | None => ret (Counted None)
                   end in
                 match sw with
                 | ReEnableInterrupt => ret false
                 | Counted err_type =>
                     match err_type with
                     | Some e => gsc_inc e
                     | None => ret tt
                     end ;;
                     match gsc_cor_bit K errbit with
                     | Some GSC_COR_FW_REPORTED_ERR => ret tt
                     | _ =>
                         drm_err_ratelimited (HW_ERR ++ "%s GSC Correctable Error, GSC_HEC_CORR_ERR_STATUS:0x%08lx\n")
                     end ;;
                     ret true
                 end) in
          ret tt
      | HARDWARE_ERROR_NONFATAL =>
          for_each (set_bits err_status (GSC_HW_ERROR_MAX_ERR_BITS K))
            (fun errbit =>
               let err_type :=
                 match gsc_uncor_bit K errbit with
                 | Some GSC_UNCOR_MIA_SHUTDOWN_ERR =>
                     Some INTEL_GSC_HW_ERROR_UNCOR_MIA_SHUTDOWN
                 | Some GSC_UNCOR_MIA_INT_ERR =>
                     Some INTEL_GSC_HW_ERROR_UNCOR_MIA_INT
                 | Some GSC_UNCOR_SRAM_ECC_ERR =>
                     Some INTEL_GSC_HW_ERROR_UNCOR_SRAM_ECC
                 | Some GSC_UNCOR_WDG_TIMEOUT_ERR =>
                     Some INTEL_GSC_HW_ERROR_UNCOR_WDG_TIMEOUT
                 | Some GSC_UNCOR_ROM_PARITY_ERR =>
                     Some INTEL_GSC_HW_ERROR_UNCOR_ROM_PARITY
                 | Some GSC_UNCOR_UCODE_PARITY_ERR =>
                     Some INTEL_GSC_HW_ERROR_UNCOR_UCODE_PARITY
                 | Some GSC_UNCOR_FW_REPORTED_ERR => None
                 | Some GSC_UNCOR_GLITCH_DET_ERR =>
                     Some INTEL_GSC_HW_ERROR_UNCOR_GLITCH_DET
                 | Some GSC_UNCOR_FUSE_PULL_ERR =>
                     Some INTEL_GSC_HW_ERROR_UNCOR_FUSE_PULL
                 | Some GSC_UNCOR_FUSE_CRC_CHECK_ERR =>
                     Some INTEL_GSC_HW_ERROR_UNCOR_FUSE_CRC_CHECK
                 | Some GSC_UNCOR_SELFMBIST_ERR =>
                     Some INTEL_GSC_HW_ERROR_UNCOR_SELFMBIST
                 | Some GSC_UNCOR_AON_PARITY_ERR =>
                     Some INTEL_GSC_HW_ERROR_UNCOR_AON_PARITY
                 | None => None
                 end in
               match err_type with
               | Some e => gsc_inc e
               | None => ret tt
               end ;;
               emit (ScheduleWork gsc_hw_error_work) ;;
               drm_err_ratelimited (HW_ERR ++ "%s GSC NON_FATAL Error, GSC_HEC_UNCORR_ERR_STATUS:0x%08lx\n") ;;
               drm_err_ratelimited "[Hardware Info:] CSC services may have stopped running. Recommend resetting PVC card to recover CSC services.")
      | HARDWARE_ERROR_FATAL =>
          (* GSC error not handled for Fatal Error status *)
          drm_err_ratelimited (HW_ERR ++ "Fatal GSC Error Detected\n")
      end ;;
      raw_reg_write (GSC_HEC_CORR_UNCORR_ERR_STATUS hw_err) err_status.

(** log_correctable_err *)
Definition log_correctable_err : M unit :=
  log_gt_hw_err "%s CORRECTABLE error, ERR_VECT_GT_CORRECTABLE_%d:0x%08x\n".

(** gt_l3fabric_error_handler: one message for each set bit among the
    eight L3 node pairs. *)
Definition gt_l3fabric_error_handler (l3fabric_vctr_reg : Z) : M unit :=
  for_each (set_bits l3fabric_vctr_reg 8)
    (fun _ => log_gt_hw_err "L3 Fabric Error seen on L3Nodepair[%d].\n").

Definition hweight32 : Z -> Z := hweight 32.
Definition hweight16 : Z -> Z := hweight 16.
Definition hweight8 : Z -> Z := hweight 8.

(** The body of the loop over the correctable vector registers; the
    locals [errstat] and [error] are carried as a pair. *)
Definition cor_vctr_body (hw_err : hardware_error) (i : Z) (acc : Z * bool)
  : M (Z * bool) :=
  let* vctr := raw_reg_read (ERR_STAT_GT_COR_VCTR_REG i) in
  if vctr =? 0 then ret acc
  else
    let* errstat :=
      match gt_vctr_index K i with
      | Some ERR_STAT_GT_VCTR0 | Some ERR_STAT_GT_VCTR1 =>
          hw_add INTEL_GT_HW_ERROR_COR_SUBSLICE (hweight32 vctr) ;;
          log_correctable_err ;;
          (* Avoid second read/write to error status register *)
          if negb (fst acc =? 0) then ret (fst acc)
          else
            let* errstat := raw_reg_read (ERR_STAT_GT_REG hw_err) in
            log_gt_hw_err "ERR_STAT_GT_CORRECTABLE:0x%08lx\n" ;;
            gen12_gt_correctable_hw_error_stats_update errstat ;;
            when (negb (errstat =? 0))
              (raw_reg_write (ERR_STAT_GT_REG hw_err) errstat) ;;
            ret errstat
      | Some ERR_STAT_GT_VCTR2 | Some ERR_STAT_GT_VCTR3 =>
          hw_add INTEL_GT_HW_ERROR_COR_L3BANK (hweight32 vctr) ;;
          log_correctable_err ;;
          ret (fst acc)
      | _ =>
          intel_gt_log_driver_error "%s CORRECTABLE error, ERR_VECT_GT_CORRECTABLE_%d:0x%08lx\n" ;;
          ret (fst acc)
      end in
    raw_reg_write (ERR_STAT_GT_COR_VCTR_REG i) vctr ;;
    ret (errstat, true).

(** The body of the loop over the fatal vector registers. *)
Definition fatal_vctr_body (hw_err : hardware_error) (i : Z) (acc : Z * bool)
  : M (Z * bool) :=
  let* vctr := raw_reg_read (ERR_STAT_GT_FATAL_VCTR_REG i) in
  if vctr =? 0 then ret acc
  else
    let* r :=
      match gt_vctr_index K i with
      | Some ERR_STAT_GT_VCTR0 | Some ERR_STAT_GT_VCTR1 =>
          hw_add INTEL_GT_HW_ERROR_FAT_SUBSLICE (hweight32 vctr) ;;
          log_gt_hw_err "%s FATAL error, ERR_VECT_GT_FATAL_%d:0x%08lx\n" ;;
          (* Avoid second read/write to error status register. *)
          if negb (fst acc =? 0) then ret (fst acc, "SUBSLICE"%string)
          else
            let* errstat := raw_reg_read (ERR_STAT_GT_REG hw_err) in
            log_gt_hw_err "ERR_STAT_GT_FATAL:0x%08lx\n" ;;
            gen12_gt_fatal_hw_error_stats_update errstat ;;
            when (negb (errstat =? 0))
              (raw_reg_write (ERR_STAT_GT_REG hw_err) errstat) ;;
            ret (errstat, "SUBSLICE"%string)
      | Some ERR_STAT_GT_VCTR2 | Some ERR_STAT_GT_VCTR3 =>
          hw_add INTEL_GT_HW_ERROR_FAT_L3BANK (hweight32 vctr) ;;
          ret (fst acc, "L3 BANK"%string)
      | Some ERR_STAT_GT_VCTR6 =>
          hw_add INTEL_GT_HW_ERROR_FAT_TLB (hweight16 vctr) ;;
          ret (fst acc, "TLB"%string)
      | Some ERR_STAT_GT_VCTR7 =>
          hw_add INTEL_GT_HW_ERROR_FAT_L3_FABRIC (hweight8 vctr) ;;
          log_gt_hw_err "%s FATAL error, ERR_VECT_GT_FATAL_%d:0x%08lx.\n" ;;
          gt_l3fabric_error_handler vctr ;;
          ret (fst acc, "L3 FABRIC"%string)
      | None => ret (fst acc, "Undefined"%string)
      end in
    let name : string := snd r in
    raw_reg_write (ERR_STAT_GT_FATAL_VCTR_REG i) vctr ;;
    (if String.eqb name "Undefined"
     then intel_gt_log_driver_error "%s FATAL error, ERR_VECT_GT_FATAL_%d:0x%08lx\n"
     else if negb (String.eqb name "SUBSLICE")
             && negb (String.eqb name "L3 FABRIC")
     then log_gt_hw_err "%s FATAL error, ERR_VECT_GT_FATAL_%d:0x%08lx\n"
     else ret tt) ;;
    ret (fst r, true).

Definition blank_err_stat_gt : string := "ERR_STAT_GT_REG_%s blank!\n".

(** gen12_gt_hw_error_handler.  On a platform with error vectors the local
    [errstat] is not initialised on entry; it is never read before it is
    set, zero stands for it. *)
Definition gen12_gt_hw_error_handler (hw_err : hardware_error) : M unit :=
  let* entry :=
    if negb (HAS_GT_ERROR_VECTORS plat) then
      let* errstat := raw_reg_read (ERR_STAT_GT_REG hw_err) in
      if errstat =? 0 then
        intel_gt_log_driver_error blank_err_stat_gt ;;
        ret None
      else ret (Some errstat)
    else ret (Some 0) in
  match entry with
  | None => ret tt
  | Some errstat0 =>
      let* errstat :=
        match hw_err with
        | HARDWARE_ERROR_CORRECTABLE =>
            log_gt_hw_err "GT CORRECTABLE error\n" ;;
            if HAS_GT_ERROR_VECTORS plat then
              let* acc :=
                fold_m (indices (ERR_STAT_GT_COR_VCTR_LEN K)) (0, false)
                  (cor_vctr_body hw_err) in
              when (negb (snd acc))
                (intel_gt_log_driver_error "Undefined CORRECTABLE error, no vectr reg is set\n") ;;
              ret (fst acc)
            else
              gen12_gt_correctable_hw_error_stats_update errstat0 ;;
              log_gt_hw_err "ERR_STAT_GT_CORRECTABLE:0x%08lx\n" ;;
              ret errstat0
        | HARDWARE_ERROR_NONFATAL =>
            (* The GT Non Fatal Error Status Register only has reserved
               bitfields defined. *)
            intel_gt_log_driver_error "Undefined GT NonFatal error\n" ;;
            ret errstat0
        | HARDWARE_ERROR_FATAL =>
            log_gt_hw_err "GT FATAL error\n" ;;
            if HAS_GT_ERROR_VECTORS plat then
              let* acc :=
                fold_m (indices (ERR_STAT_GT_FATAL_VCTR_LEN K)) (0, false)
                  (fatal_vctr_body hw_err) in
              when (negb (snd acc))
                (intel_gt_log_driver_error "Undefined FATAL error, no vectr reg is set\n") ;;
              ret (fst acc)
            else
              gen12_gt_fatal_hw_error_stats_update errstat0 ;;
              log_gt_hw_err "ERR_STAT_GT_FATAL:0x%08lx\n" ;;
              ret errstat0
        end in
      when (negb (HAS_GT_ERROR_VECTORS plat))
        (raw_reg_write (ERR_STAT_GT_REG hw_err) errstat)
  end.

(** log_errors *)
Definition log_errors (hw_err : hardware_error) (is_error_valid : bool)
  : M unit :=
  if negb (IS_PONTEVECCHIO plat) then ret tt
  else if is_error_valid then log_gt_hw_err "%s %s error\n"
  else intel_gt_log_driver_error "%s %s error\n".

(** The validity the switches over [hw_err] give the SGGI, SGCI and MERT
    sources. *)
Definition parity_is_valid (hw_err : hardware_error) : bool :=
  match hw_err with
  | HARDWARE_ERROR_FATAL => true
  | HARDWARE_ERROR_NONFATAL => true
  | HARDWARE_ERROR_CORRECTABLE => false
  end.

Definition sgunit_inc (hw_err : hardware_error) : M unit :=
  modify_gt (fun g =>
    with_errors_sgunit
      (upd (errors_sgunit g) hw_err (incr (errors_sgunit g hw_err))) g).

Definition blank_dev_err_stat : string := "DEV_ERR_STAT_REG_%s blank!\n".

(** gen12_hw_error_source_handler; it runs with the interrupt lock held. *)
Definition gen12_hw_error_source_handler (hw_err : hardware_error)
  : M unit :=
  let* errsrc := raw_reg_read (DEV_ERR_STAT_REG hw_err) in
  if errsrc =? 0 then intel_gt_log_driver_error blank_dev_err_stat
  else
    when (IS_PONTEVECCHIO plat)
      (log_gt_hw_err "DEV_ERR_STAT_REG_%s:0x%08lx\n") ;;
    for_each (set_bits errsrc (DEV_ERR_STAT_MAX_BITS K))
      (fun errbit =>
         match dev_err_bit K errbit with
         | Some DEV_ERR_STAT_GT_ERROR => gen12_gt_hw_error_handler hw_err
         | Some DEV_ERR_STAT_SGGI_ERROR =>
             log_errors hw_err (parity_is_valid hw_err)
         | Some DEV_ERR_STAT_GSC_ERROR =>
             let* g := get_gt in
             if info_id g =? 0 then
               (* Memory health status is being tracked on root tile
                  only *)
               gen12_gsc_hw_error_handler hw_err
             else log_errors hw_err false
         | Some DEV_ERR_STAT_SGUNIT_ERROR =>
             log_errors hw_err false ;;
             sgunit_inc hw_err
         | Some DEV_ERR_STAT_SGCI_ERROR =>
             log_errors hw_err (parity_is_valid hw_err)
         | Some DEV_ERR_STAT_SOC_ERROR => gen12_soc_hw_error_handler hw_err
         | Some DEV_ERR_STAT_MERT_ERROR =>
             log_errors hw_err (parity_is_valid hw_err)
         | None => log_errors hw_err false
         end) ;;
    raw_reg_write (DEV_ERR_STAT_REG hw_err) errsrc.

(** gen12_iaf_irq_handler *)
Definition gen12_iaf_irq_handler (master_ctl : Z) : M unit :=
  let* g := get_gt in
  when (negb (Z.land master_ctl (GEN12_IAF_IRQ K) =? 0))
    (call_external generic_handle_irq (info_id g) master_ctl).

(** gen12_hw_error_irq_handler *)
Definition gen12_hw_error_irq_handler (master_ctl : Z) : M unit :=
  for_each hardware_errors
    (fun hw_err =>
       when (negb (Z.land master_ctl (GEN12_ERROR_IRQ K hw_err) =? 0))
         (when (IS_PONTEVECCHIO plat)
            (log_gt_hw_err "%s error GFX_MSTR_INTR:0x%08x\n") ;;
          gen12_hw_error_source_handler hw_err)).

(** gen11_gu_misc_irq_ack; without display support it returns 0. *)
Definition gen11_gu_misc_irq_ack (master_ctl : Z) : M Z :=
  if negb (CPTCFG_DRM_I915_DISPLAY plat) then ret 0
  else if Z.land master_ctl (GEN11_GU_MISC_IRQ K) =? 0 then ret 0
  else
    let* iir := raw_reg_read_at i915_uncore_regs GEN11_GU_MISC_IIR in
    when (negb (iir =? 0))
      (raw_reg_write_at i915_uncore_regs GEN11_GU_MISC_IIR iir) ;;
    ret iir.

(** gen11_gu_misc_irq_handler; without display support it is empty. *)
Definition gen11_gu_misc_irq_handler (iir : Z) : M unit :=
  when (CPTCFG_DRM_I915_DISPLAY plat
        && negb (Z.land iir (GEN11_GU_MISC_GSE K) =? 0))
    (call_external intel_opregion_asle_intr i915_uncore_regs 0).

(** gen11_master_intr_disable *)
Definition gen11_master_intr_disable (regs : Z) : M Z :=
  raw_reg_write_at regs GEN11_GFX_MSTR_IRQ 0 ;;
  (* Now with master disabled, get a sample of level indications for this
     interrupt. *)
  raw_reg_read_at regs GEN11_GFX_MSTR_IRQ.

(** gen11_master_intr_enable *)
Definition gen11_master_intr_enable (regs : Z) : M unit :=
  raw_reg_write_at regs GEN11_GFX_MSTR_IRQ (GEN11_MASTER_IRQ K).

(** gen11_display_irq_handler; without display support it is empty. *)
Definition gen11_display_irq_handler : M unit :=
  when (CPTCFG_DRM_I915_DISPLAY plat)
    (let* disp_ctl := raw_reg_read_at i915_uncore_regs GEN11_DISPLAY_INT_CTL in
     raw_reg_write_at i915_uncore_regs GEN11_DISPLAY_INT_CTL 0 ;;
     call_external gen8_de_irq_handler i915_uncore_regs disp_ctl ;;
     raw_reg_write_at i915_uncore_regs GEN11_DISPLAY_INT_CTL
       (GEN11_DISPLAY_IRQ_ENABLE K)).

Inductive irqreturn_t : Type := IRQ_NONE | IRQ_HANDLED.

(** gen11_irq_handler once interrupts are known to be enabled, run on
    [to_gt(i915)]. *)
Definition gen11_irq_handler_enabled : M irqreturn_t :=
  let regs := i915_uncore_regs in
  let* master_ctl := gen11_master_intr_disable regs in
  if master_ctl =? 0 then
    gen11_master_intr_enable regs ;;
    ret IRQ_NONE
  else
    (* Find, queue (onto bottom-halves), then clear each source *)
    let* g := get_gt in
    call_external gen11_gt_irq_handler (info_id g) master_ctl ;;
    when (negb (Z.land master_ctl (GEN11_DISPLAY_IRQ K) =? 0))
      gen11_display_irq_handler ;;
    let* gu_misc_iir := gen11_gu_misc_irq_ack master_ctl in
    gen11_master_intr_enable regs ;;
    gen11_gu_misc_irq_handler gu_misc_iir ;;
    emit PmuIrqStats ;;
    ret IRQ_HANDLED.

(** dg1_master_intr_disable *)
Definition dg1_master_intr_disable (regs : Z) : M Z :=
  (* First disable interrupts *)
  raw_reg_write_at regs DG1_MSTR_TILE_INTR 0 ;;
  (* Get the indication levels and ack the master unit *)
  let* val := raw_reg_read_at regs DG1_MSTR_TILE_INTR in
  if val =? 0 then ret 0
  else
    raw_reg_write_at regs DG1_MSTR_TILE_INTR val ;;
    ret val.

(** dg1_master_intr_enable *)
Definition dg1_master_intr_enable (regs : Z) : M unit :=
  raw_reg_write_at regs DG1_MSTR_TILE_INTR (DG1_MSTR_IRQ K).

Definition dpc_containment : string :=
  "Ignore this IRQ as device might be in DPC containment.\n".

(** The body of the [for_each_gt] loop of dg1_irq_handler, run on the GT
    numbered [i]: it gives the new [gu_misc_iir], or nothing when the
    handler returns from within the loop. *)
Definition dg1_irq_tile (master_tile_ctl : Z) (i : Z) (gu_misc_iir : Z)
  : M (option Z) :=
  let* g := get_gt in
  let regs := uncore_regs g in
  if Z.land master_tile_ctl (DG1_MSTR_TILE K i) =? 0 then
    ret (Some gu_misc_iir)
  else if is_media g then
    (* All interrupts for standalone media come in through the primary
       GT. *)
    emit (DrmWarnOnce "gt->type == GT_MEDIA") ;;
    ret (Some gu_misc_iir)
  else
    let* master_ctl := raw_reg_read_at regs GEN11_GFX_MSTR_IRQ in
    (* We might be in irq handler just when PCIe DPC is initiated and all
       MMIO reads will be returned with all 1's. Ignore this irq as device
       is inaccessible. *)
    if master_ctl =? REG_GENMASK_31_0 then
      emit (DevDbg dpc_containment) ;;
      ret None
    else
      raw_reg_write_at regs GEN11_GFX_MSTR_IRQ master_ctl ;;
      call_external gen11_gt_irq_handler (info_id g) master_ctl ;;
      gen12_iaf_irq_handler master_ctl ;;
      gen12_hw_error_irq_handler master_ctl ;;
      when (negb (Z.land master_ctl (GEN11_DISPLAY_IRQ K) =? 0))
        gen11_display_irq_handler ;;
      let* iir := gen11_gu_misc_irq_ack master_ctl in
      ret (Some (Z.lor gu_misc_iir iir)).

(** [struct drm_i915_private] as the top-level handlers see it: the
    device, the primary GT [to_gt(i915)], which is [gt[0]], the further
    entries of [gt[]], some of them empty, and the kernel log. *)
Record drm_i915_private : Type := {
  uncore : HW;
  to_gt : intel_gt;
  gt_others : list (option intel_gt);
  intel_irqs_enabled : bool;
  dmesg : list event
}.

Definition enter (i915 : drm_i915_private) : st :=
  {| hw := uncore i915; gt := to_gt i915; log := dmesg i915 |}.

Definition leave (i915 : drm_i915_private) (s : st)
  (others : list (option intel_gt)) : drm_i915_private :=
  {| uncore := hw s; to_gt := gt s; gt_others := others;
     intel_irqs_enabled := intel_irqs_enabled i915; dmesg := log s |}.

(** gen11_irq_handler *)
Definition gen11_irq_handler (i915 : drm_i915_private)
  : irqreturn_t * drm_i915_private :=
  if negb (intel_irqs_enabled i915) then (IRQ_NONE, i915)
  else
    let '(r, s) := gen11_irq_handler_enabled (enter i915) in
    (r, leave i915 s (gt_others i915)).

(** The [for_each_gt] loop of dg1_irq_handler over the entries from
    [gt[i]] on; empty entries are skipped. *)
Fixpoint dg1_for_each_gt (master_tile_ctl : Z) (i : Z)
  (gts : list (option intel_gt)) (gu_misc_iir : Z) (h : HW)
  (l : list event) : option Z * list (option intel_gt) * HW * list event :=
  match gts with
  | [] => (Some gu_misc_iir, [], h, l)
  | None :: rest =>
      let '(r, rest1, h1, l1) :=
        dg1_for_each_gt master_tile_ctl (i + 1) rest gu_misc_iir h l in
      (r, None :: rest1, h1, l1)
  | Some g :: rest =>
      let '(r, s) :=
        dg1_irq_tile master_tile_ctl i gu_misc_iir
          {| hw := h; gt := g; log := l |} in
      match r with
      | None => (None, Some (gt s) :: rest, hw s, log s)
      | Some iir =>
          let '(r1, rest1, h1, l1) :=
            dg1_for_each_gt master_tile_ctl (i + 1) rest iir (hw s) (log s) in
          (r1, Some (gt s) :: rest1, h1, l1)
      end
  end.

(** dg1_irq_handler; the loop starts with the primary GT. *)
Definition dg1_irq_handler (i915 : drm_i915_private)
  : irqreturn_t * drm_i915_private :=
  let t0_regs := uncore_regs (to_gt i915) in
  if negb (intel_irqs_enabled i915) then (IRQ_NONE, i915)
  else
    let '(master_tile_ctl, s) :=
      dg1_master_intr_disable t0_regs (enter i915) in
    if master_tile_ctl =? 0 then
      let '(_, s1) := dg1_master_intr_enable t0_regs s in
      (IRQ_NONE, leave i915 s1 (gt_others i915))
    else
      let '(r0, s0) := dg1_irq_tile master_tile_ctl 0 0 s in
      match r0 with
      | None => (IRQ_HANDLED, leave i915 s0 (gt_others i915))
      | Some iir0 =>
          let '(r, others, h, l) :=
            dg1_for_each_gt master_tile_ctl 1 (gt_others i915) iir0
              (hw s0) (log s0) in
          let s1 := {| hw := h; gt := gt s0; log := l |} in
          match r with
          | None => (IRQ_HANDLED, leave i915 s1 others)
          | Some gu_misc_iir =>
              let '(_, s2) :=
                (dg1_master_intr_enable t0_regs ;;
                 gen11_gu_misc_irq_handler gu_misc_iir ;;
                 emit PmuIrqStats) s1 in
              (IRQ_HANDLED, leave i915 s2 others)
          end
      end.

(** The value a register was last written with, going by the log. *)
Definition is_write_to (regs : Z) (r : reg) (ev : event) : option Z :=
  match ev with
  | MmioWrite regs1 r1 v =>
      if bool_decide (regs1 = regs /\ r1 = r) then Some v else None
  | _ => None
  end.

Fixpoint last_write (regs : Z) (r : reg) (l : list event) : option Z :=
  match l with
  | [] => None
  | ev :: rest =>
      match last_write regs r rest with
      | Some v => Some v
      | None => is_write_to regs r ev
      end
  end.

(** *** What an error interrupt is seen to report

    The counter that stands for a bit of the GT error-status word of a
    class, if the bit is a defined one: on Ponte Vecchio the bits outside
    the platform's mask are not. *)
Definition cor_counter (c : gt_cor_err) : intel_gt_hw_errors :=
  match c with
  | L3_SNG_COR_ERR => INTEL_GT_HW_ERROR_COR_L3_SNG
  | GUC_COR_ERR => INTEL_GT_HW_ERROR_COR_GUC
  | SAMPLER_COR_ERR => INTEL_GT_HW_ERROR_COR_SAMPLER
  | SLM_COR_ERR => INTEL_GT_HW_ERROR_COR_SLM
  | EU_IC_COR_ERR => INTEL_GT_HW_ERROR_COR_EU_IC
  | EU_GRF_COR_ERR => INTEL_GT_HW_ERROR_COR_EU_GRF
  end.

Definition fat_counter (c : gt_fat_err) : intel_gt_hw_errors :=
  match c with
  | ARRAY_BIST_FAT_ERR => INTEL_GT_HW_ERROR_FAT_ARR_BIST
  | FPU_UNCORR_FAT_ERR => INTEL_GT_HW_ERROR_FAT_FPU
  | L3_DOUBLE_FAT_ERR => INTEL_GT_HW_ERROR_FAT_L3_DOUB
  | L3_ECC_CHK_FAT_ERR => INTEL_GT_HW_ERROR_FAT_L3_ECC_CHK
  | GUC_FAT_ERR => INTEL_GT_HW_ERROR_FAT_GUC
  | IDI_PAR_FAT_ERR => INTEL_GT_HW_ERROR_FAT_IDI_PAR
  | SQIDI_FAT_ERR => INTEL_GT_HW_ERROR_FAT_SQIDI
  | SAMPLER_FAT_ERR => INTEL_GT_HW_ERROR_FAT_SAMPLER
  | SLM_FAT_ERR => INTEL_GT_HW_ERROR_FAT_SLM
  | EU_IC_FAT_ERR => INTEL_GT_HW_ERROR_FAT_EU_IC
  | EU_GRF_FAT_ERR => INTEL_GT_HW_ERROR_FAT_EU_GRF
  end.

Definition bit_counter (hw_err : hardware_error) (errbit : Z)
  : option intel_gt_hw_errors :=
  match hw_err with
  | HARDWARE_ERROR_CORRECTABLE =>
      if IS_PONTEVECCHIO plat
         && (Z.land (REG_BIT errbit) (PVC_COR_ERR_MASK K) =? 0)
      then None
      else option_map cor_counter (gt_cor_bit K errbit)
  | HARDWARE_ERROR_FATAL =>
      if IS_PONTEVECCHIO plat
         && (Z.land (REG_BIT errbit) (PVC_FAT_ERR_MASK K) =? 0)
      then None
      else option_map fat_counter (gt_fat_bit K errbit)
  | HARDWARE_ERROR_NONFATAL => None
  end.

(** How many of the bits [bits] stand for the counter [e]. *)
Fixpoint hits (hw_err : hardware_error) (e : intel_gt_hw_errors)
  (bits : list Z) : Z :=
  match bits with
  | [] => 0
  | b :: rest =>
      (if bool_decide (bit_counter hw_err b = Some e) then 1 else 0)
      + hits hw_err e rest
  end.

(** How often a status word of the class shows the error of [e]. *)
Definition observed (hw_err : hardware_error) (e : intel_gt_hw_errors)
  (errstat : Z) : Z :=
  hits hw_err e (set_bits errstat (GT_HW_ERROR_MAX_ERR_BITS K)).

(** The same over a sequence of interrupts, each given by its class and
    the status word read for it. *)
Fixpoint observations (e : intel_gt_hw_errors)
  (l : list (hardware_error * Z)) : Z :=
  match l with
  | [] => 0
  | (hw_err, errstat) :: rest =>
      observed hw_err e errstat + observations e rest
  end.

(** The update of the counters for one such interrupt, as
    gen12_gt_hw_error_handler chooses it by the class. *)
Definition gt_stats_update (irq : hardware_error * Z) : M unit :=
  match fst irq with
  | HARDWARE_ERROR_CORRECTABLE =>
      gen12_gt_correctable_hw_error_stats_update (snd irq)
  | HARDWARE_ERROR_NONFATAL => ret tt
  | HARDWARE_ERROR_FATAL => gen12_gt_fatal_hw_error_stats_update (snd irq)
  end.

(** The two counters that are loaded from the hardware's own count on the
    platforms other than Ponte Vecchio. *)
Definition slm_counter (e : intel_gt_hw_errors) : bool :=
  match e with
  | INTEL_GT_HW_ERROR_COR_SLM | INTEL_GT_HW_ERROR_FAT_SLM => true
  | _ => false
  end.

(** ** Running a handler step by step *)

Lemma bind_assoc_run {A B C : Type} (m : M A) (k1 : A -> M B)
  (k2 : B -> M C) (s : st) :
  bind (bind m k1) k2 s = bind m (fun x => bind (k1 x) k2) s.
Proof.
  unfold bind. destruct (m s) as [a s1]. destruct (k1 a s1). reflexivity.
Qed.

Lemma bind_ret_run {A B : Type} (a : A) (k : A -> M B) (s : st) :
  bind (ret a) k s = k a s.
Proof. reflexivity. Qed.

Lemma bind_emit_run {B : Type} (ev : event) (k : unit -> M B) (s : st) :
  bind (emit ev) k s
  = k tt {| hw := hw s; gt := gt s; log := log s ++ [ev] |}.
Proof. reflexivity. Qed.

Lemma bind_get_gt_run {B : Type} (k : intel_gt -> M B) (s : st) :
  bind get_gt k s = k (gt s) s.
Proof. reflexivity. Qed.

Lemma bind_modify_gt_run {B : Type} (f : intel_gt -> intel_gt)
  (k : unit -> M B) (s : st) :
  bind (modify_gt f) k s
  = k tt {| hw := hw s; gt := f (gt s); log := log s |}.
Proof. reflexivity. Qed.

Lemma bind_read_at_run {B : Type} (regs : Z) (r : reg) (k : Z -> M B)
  (s : st) (v : Z) (h : HW) :
  mmio_read (hw s) regs r = (v, h) ->
  bind (raw_reg_read_at regs r) k s
  = k (u32 v) {| hw := h; gt := gt s;
                 log := log s ++ [MmioRead regs r (u32 v)] |}.
Proof. intros E. unfold bind, raw_reg_read_at. rewrite E. reflexivity. Qed.

Lemma bind_read_run {B : Type} (r : reg) (k : Z -> M B) (s : st) :
  bind (raw_reg_read r) k s
  = bind (raw_reg_read_at (uncore_regs (gt s)) r) k s.
Proof. reflexivity. Qed.

Lemma bind_write_at_run {B : Type} (regs : Z) (r : reg) (v : Z)
  (k : unit -> M B) (s : st) :
  bind (raw_reg_write_at regs r v) k s
  = k tt {| hw := mmio_write (hw s) regs r (u32 v); gt := gt s;
            log := log s ++ [MmioWrite regs r (u32 v)] |}.
Proof. reflexivity. Qed.

Lemma bind_write_run {B : Type} (r : reg) (v : Z) (k : unit -> M B)
  (s : st) :
  bind (raw_reg_write r v) k s
  = bind (raw_reg_write_at (uncore_regs (gt s)) r v) k s.
Proof. reflexivity. Qed.

Lemma bind_call_run {B : Type} (f : ext_handler) (tile arg : Z)
  (k : unit -> M B) (s : st) :
  bind (call_external f tile arg) k s
  = k tt {| hw := external f tile arg (hw s); gt := gt s;
            log := log s ++ [Call f tile arg] |}.
Proof. reflexivity. Qed.

Lemma u32_idem (x : Z) : u32 (u32 x) = u32 x.
Proof. unfold u32, wrap. apply Z.mod_mod. lia. Qed.

Lemma set_bits_zero (n : nat) : set_bits 0 n = [].
Proof.
  unfold set_bits. induction (map Z.of_nat (seq 0 n)) as [| b l IH].
  - reflexivity.
  - rewrite filter_cons, Z.testbit_0_l.
    destruct (decide (false = true)); [discriminate | exact IH].
Qed.

#[local] Arguments u32 : simpl never.
#[local] Arguments wrap : simpl never.
#[local] Arguments set_bits : simpl never.
#[local] Arguments Z.lor : simpl never.
#[local] Arguments Z.land : simpl never.
#[local] Arguments Z.eqb : simpl never.
#[local] Arguments REG_FIELD_GET : simpl never.

(** One step of a run: the binds are nested to the right, then the first
    action is run. *)
Ltac run_step :=
  first
    [ rewrite bind_assoc_run
    | rewrite bind_ret_run
    | rewrite bind_emit_run
    | rewrite bind_get_gt_run
    | rewrite bind_modify_gt_run
    | rewrite bind_read_run
    | rewrite bind_write_run
    | rewrite bind_write_at_run
    | rewrite bind_call_run
    | erewrite bind_read_at_run by eassumption
    | progress cbn [hw gt log fst snd when negb andb orb with_cause
                    with_health mem_sparing_cause uncore_regs info_id] ].

Ltac run_open :=
  unfold log_gt_hw_err, intel_gt_log_driver_error, drm_err_ratelimited,
    kobject_uevent_env, log_correctable_err.

Ltac run_steps := run_open; repeat run_step.

(** The last action of a run. *)
Ltac run_last :=
  unfold raw_reg_write, raw_reg_write_at, emit, ret, modify_gt, get_gt,
    call_external;
  cbn [hw gt log fst snd uncore_regs info_id with_cause with_health];
  repeat rewrite <- app_assoc; cbn [app].

(** ** A blank error-status register *)

Lemma gt_handler_blank_message (hw_err : hardware_error) (s : st) :
  HAS_GT_ERROR_VECTORS plat = false ->
  u32 (fst (mmio_read (hw s) (uncore_regs (gt s)) (ERR_STAT_GT_REG hw_err)))
    = 0 ->
  snd (gen12_gt_hw_error_handler hw_err s)
  = {| hw := snd (mmio_read (hw s) (uncore_regs (gt s))
                    (ERR_STAT_GT_REG hw_err));
       gt := gt s;
       log := log s ++ [MmioRead (uncore_regs (gt s))
                          (ERR_STAT_GT_REG hw_err) 0;
                        LogDriverError blank_err_stat_gt] |}.
Proof.
  intros Hv Hz.
  destruct (mmio_read (hw s) (uncore_regs (gt s)) (ERR_STAT_GT_REG hw_err))
    as [v h] eqn:E.
  cbn [fst snd] in *.
  unfold gen12_gt_hw_error_handler. rewrite Hv. cbn [negb].
  run_steps. rewrite Hz. change (0 =? 0) with true.
  run_steps. run_last. reflexivity.
Qed.

(** C5: when the device error-status register of a class reads zero
    although the class is pending, gen12_hw_error_source_handler reads
    that one register, logs the driver error that names it blank, calls no
    handler of a source (nothing else is read, written or logged), leaves
    every counter as it was and returns; on a platform without error
    vectors gen12_gt_hw_error_handler does the same when the GT
    error-status register reads zero. *)
Theorem C5_blank_status_logged (hw_err : hardware_error) (s : st) :
  (u32 (fst (mmio_read (hw s) (uncore_regs (gt s))
               (DEV_ERR_STAT_REG hw_err))) = 0 ->
   snd (gen12_hw_error_source_handler hw_err s)
   = {| hw := snd (mmio_read (hw s) (uncore_regs (gt s))
                     (DEV_ERR_STAT_REG hw_err));
        gt := gt s;
        log := log s ++ [MmioRead (uncore_regs (gt s))
                           (DEV_ERR_STAT_REG hw_err) 0;
                         LogDriverError blank_dev_err_stat] |})
  /\ (HAS_GT_ERROR_VECTORS plat = false ->
      u32 (fst (mmio_read (hw s) (uncore_regs (gt s))
                  (ERR_STAT_GT_REG hw_err))) = 0 ->
      snd (gen12_gt_hw_error_handler hw_err s)
      = {| hw := snd (mmio_read (hw s) (uncore_regs (gt s))
                        (ERR_STAT_GT_REG hw_err));
           gt := gt s;
           log := log s ++ [MmioRead (uncore_regs (gt s))
                              (ERR_STAT_GT_REG hw_err) 0;
                            LogDriverError blank_err_stat_gt] |}).
Proof.
  split; [| apply gt_handler_blank_message].
  intros Hz.
  destruct (mmio_read (hw s) (uncore_regs (gt s)) (DEV_ERR_STAT_REG hw_err))
    as [v h] eqn:E.
  cbn [fst snd] in *.
  unfold gen12_hw_error_source_handler.
  run_steps. rewrite Hz. change (0 =? 0) with true.
  run_last. reflexivity.
Qed.

(** ** The uncorrectable memory cause *)

(** The counters of a GT all at once. *)
Definition same_counters (g1 g2 : intel_gt) : Prop :=
  errors_hw g1 = errors_hw g2
  /\ errors_gsc_hw g1 = errors_gsc_hw g2
  /\ errors_sgunit g1 = errors_sgunit g2
  /\ errors_soc g1 = errors_soc g2.

(** The handler on a firmware-reported uncorrectable cause, read by
    read. *)
Lemma gsc_fw_reported_run (s : st) (b v1 v2 v3 v4 : Z) (h1 h2 h3 h4 : HW) :
  let regs := uncore_regs (gt s) in
  let stat := GSC_HEC_CORR_UNCORR_ERR_STATUS HARDWARE_ERROR_CORRECTABLE in
  mmio_read (hw s) regs stat = (v1, h1) ->
  mmio_read h1 regs GSC_HEC_CORR_FW_ERR_DW0 = (v2, h2) ->
  mmio_read h2 regs SWF_0 = (v3, h3) ->
  mmio_read h3 regs SWF_1 = (v4, h4) ->
  HAS_MEM_SPARING_SUPPORT plat = true ->
  IS_PONTEVECCHIO plat = true ->
  mem_sparing_cause (gt s) = 0 ->
  set_bits (u32 v1) (GSC_HW_ERROR_MAX_ERR_BITS K) = [b] ->
  gsc_cor_bit K b = Some GSC_COR_FW_REPORTED_ERR ->
  u32 v2 <> 0 ->
  bank_cause_code K (u32 v2) = Some BANK_SPARNG_ENA_PCLS_UNCORRECTABLE ->
  gen12_gsc_hw_error_handler HARDWARE_ERROR_CORRECTABLE s
  = (tt, {| hw := mmio_write
                    (mmio_write (mmio_write h4 regs SWF_0 0) regs SWF_1 0)
                    regs stat (u32 v1);
            gt := with_cause (u32 v2) (gt s);
            log := log s ++ [MmioRead regs stat (u32 v1);
                             MmioRead regs GSC_HEC_CORR_FW_ERR_DW0 (u32 v2);
                             DrmErr gsc_fw_error;
                             MmioRead regs SWF_0 (u32 v3);
                             MmioRead regs SWF_1 (u32 v4);
                             DevCrit unrepairable_fault;
                             MmioWrite regs SWF_0 0;
                             MmioWrite regs SWF_1 0;
                             ScheduleWork mem_health_work;
                             MmioWrite regs stat (u32 v1)] |}).
Proof.
  intros regs stat E1 E2 E3 E4 Hms Hpvc Hc0 Hbits Hfw Hne Hcode.
  assert (Hz : (u32 v2 =? 0) = false) by (apply Z.eqb_neq; exact Hne).
  assert (Hs : (u32 v1 =? 0) = false).
  { apply Z.eqb_neq. intros E. rewrite E in Hbits.
    unfold set_bits in Hbits.
    assert (H : In b (filter (fun b0 : Z => Z.testbit 0 b0 = true)
                    (map Z.of_nat (seq 0 (GSC_HW_ERROR_MAX_ERR_BITS K))))).
    { rewrite Hbits. left. reflexivity. }
    apply list_elem_of_In, list_elem_of_filter in H.
    destruct H as [H _]. rewrite Z.testbit_0_l in H. discriminate. }
  unfold gen12_gsc_hw_error_handler. rewrite Hms. cbn [negb].
  run_steps. fold regs. fold stat. rewrite Hs, Hbits.
  unfold for_each_until. rewrite Hfw.
  run_steps. rewrite Hc0, Z.lor_0_l, Hz, Hpvc.
  run_steps. unfold log_hbm_err_info. rewrite Hcode.
  run_steps. run_last. change (u32 0) with 0.
  rewrite u32_idem. reflexivity.
Qed.

(** Some counter of the GT is one more in [g1] than in [g]. *)
Definition some_counter_stepped (g g1 : intel_gt) : Prop :=
  (exists e, errors_hw g1 e = errors_hw g e + 1)
  \/ (exists e, errors_gsc_hw g1 e = errors_gsc_hw g e + 1)
  \/ (exists c, errors_sgunit g1 c = errors_sgunit g c + 1)
  \/ (exists i, default 0 (errors_soc g1 !! i)
                = default 0 (errors_soc g !! i) + 1).

(** The last part of the claim as worded: handling the interrupt that
    reports the uncorrectable cause and running the memory-health work
    steps a counter by one. *)
Definition uncorrectable_cause_counted (s : st) : Prop :=
  some_counter_stepped (gt s)
    (gt (snd (gen12_mem_health_work
                (snd (gen12_gsc_hw_error_handler
                        HARDWARE_ERROR_CORRECTABLE s))))).

(** C7, as the code has it: a correctable GSC interrupt whose only
    status bit is the firmware-reported one, with the uncorrectable
    sparing cause in the firmware word and no cause pending, prints the
    unrepairable-fault message once and schedules the memory-health work
    once; the work marks the memory degraded, taints the kernel and sends
    the degraded event once, and zeroes the cause, so that a second run of
    the work changes nothing.  No error counter changes on the way. *)
Theorem C7_uncorrectable_notified_once (s : st) (b : Z) :
  let regs := uncore_regs (gt s) in
  let stat := GSC_HEC_CORR_UNCORR_ERR_STATUS HARDWARE_ERROR_CORRECTABLE in
  let r1 := mmio_read (hw s) regs stat in
  let r2 := mmio_read (snd r1) regs GSC_HEC_CORR_FW_ERR_DW0 in
  let r3 := mmio_read (snd r2) regs SWF_0 in
  let r4 := mmio_read (snd r3) regs SWF_1 in
  let err_status := u32 (fst r1) in
  let cause := u32 (fst r2) in
  HAS_MEM_SPARING_SUPPORT plat = true ->
  IS_PONTEVECCHIO plat = true ->
  mem_sparing_cause (gt s) = 0 ->
  set_bits err_status (GSC_HW_ERROR_MAX_ERR_BITS K) = [b] ->
  gsc_cor_bit K b = Some GSC_COR_FW_REPORTED_ERR ->
  cause <> 0 ->
  bank_cause_code K cause = Some BANK_SPARNG_ENA_PCLS_UNCORRECTABLE ->
  let s1 := snd (gen12_gsc_hw_error_handler HARDWARE_ERROR_CORRECTABLE s) in
  let s2 := snd (gen12_mem_health_work s1) in
  log s1 = log s ++ [MmioRead regs stat err_status;
                     MmioRead regs GSC_HEC_CORR_FW_ERR_DW0 cause;
                     DrmErr gsc_fw_error;
                     MmioRead regs SWF_0 (u32 (fst r3));
                     MmioRead regs SWF_1 (u32 (fst r4));
                     DevCrit unrepairable_fault;
                     MmioWrite regs SWF_0 0;
                     MmioWrite regs SWF_1 0;
                     ScheduleWork mem_health_work;
                     MmioWrite regs stat err_status]
  /\ mem_sparing_cause (gt s1) = cause
  /\ log s2 = log s1 ++ [AddTaint;
                         Uevent (health_event "DEGRADED=1 EC_FAILED=1")]
  /\ mem_sparing_health_status (gt s2) = MEM_HEALTH_DEGRADED
  /\ mem_sparing_cause (gt s2) = 0
  /\ snd (gen12_mem_health_work s2) = s2
  /\ same_counters (gt s2) (gt s).
Proof.
  intros regs stat r1 r2 r3 r4 err_status cause Hms Hpvc Hc0 Hbits Hfw Hne
    Hcode s1 s2.
  assert (E : gen12_gsc_hw_error_handler HARDWARE_ERROR_CORRECTABLE s
              = (tt, {| hw := mmio_write
                          (mmio_write (mmio_write (snd r4) regs SWF_0 0)
                             regs SWF_1 0) regs stat err_status;
                        gt := with_cause cause (gt s);
                        log := log s ++ [MmioRead regs stat err_status;
                                 MmioRead regs GSC_HEC_CORR_FW_ERR_DW0 cause;
                                 DrmErr gsc_fw_error;
                                 MmioRead regs SWF_0 (u32 (fst r3));
                                 MmioRead regs SWF_1 (u32 (fst r4));
                                 DevCrit unrepairable_fault;
                                 MmioWrite regs SWF_0 0;
                                 MmioWrite regs SWF_1 0;
                                 ScheduleWork mem_health_work;
                                 MmioWrite regs stat err_status] |})).
  { apply (gsc_fw_reported_run s b (fst r1) (fst r2) (fst r3) (fst r4)
             (snd r1) (snd r2) (snd r3) (snd r4));
      try assumption; apply surjective_pairing. }
  assert (Hz : (cause =? 0) = false) by (apply Z.eqb_neq; exact Hne).
  subst s2 s1. rewrite E. cbn [snd log gt].
  unfold gen12_mem_health_work.
  run_steps. rewrite Hz, Hcode.
  run_steps. run_last. cbn [snd log gt hw].
  change (0 =? 0) with true.
  repeat split.
Qed.

(** ** The master interrupt enable *)

Lemma bind_skip {A B : Type} (m : M A) (k : A -> M B) (s : st) :
  bind m k s = k (fst (m s)) (snd (m s)).
Proof. unfold bind. destruct (m s). reflexivity. Qed.

Lemma last_write_app (regs : Z) (r : reg) (l1 l2 : list event) :
  last_write regs r (l1 ++ l2)
  = match last_write regs r l2 with
    | Some v => Some v
    | None => last_write regs r l1
    end.
Proof.
  induction l1 as [| ev l1 IH]; cbn [app last_write].
  - destruct (last_write regs r l2); reflexivity.
  - rewrite IH. destruct (last_write regs r l2); reflexivity.
Qed.

Lemma is_write_to_hit (regs : Z) (r : reg) (v : Z) :
  is_write_to regs r (MmioWrite regs r v) = Some v.
Proof.
  unfold is_write_to. rewrite bool_decide_eq_true_2; [reflexivity |].
  split; reflexivity.
Qed.

Lemma last_write_hit (regs : Z) (r : reg) (v : Z) (l tail : list event) :
  last_write regs r tail = None ->
  last_write regs r (l ++ MmioWrite regs r v :: tail) = Some v.
Proof.
  intros H. rewrite last_write_app. cbn [last_write].
  rewrite H, is_write_to_hit. reflexivity.
Qed.

Ltac last_write_tac :=
  rewrite last_write_app; cbn [last_write];
  rewrite ?is_write_to_hit; cbn [is_write_to]; try reflexivity.

(** What follows the enabling write in both handlers writes no
    register. *)
Lemma after_enable {A : Type} (gu_misc_iir : Z) (k : M A) (s : st) :
  (forall s0, log (snd (k s0)) = log s0 ++ [PmuIrqStats]) ->
  exists tail,
    log (snd (bind (gen11_gu_misc_irq_handler gu_misc_iir) (fun _ => k) s))
    = log s ++ tail
    /\ forall regs r, last_write regs r tail = None.
Proof.
  intros Hk. unfold gen11_gu_misc_irq_handler.
  destruct (CPTCFG_DRM_I915_DISPLAY plat
            && negb (Z.land gu_misc_iir (GEN11_GU_MISC_GSE K) =? 0)).
  - exists [Call intel_opregion_asle_intr i915_uncore_regs 0; PmuIrqStats].
    split; [| reflexivity].
    run_steps. rewrite Hk. cbn [log]. rewrite <- app_assoc. reflexivity.
  - exists [PmuIrqStats]. split; [| reflexivity].
    run_steps. rewrite Hk. reflexivity.
Qed.

Lemma last_write_enable (regs : Z) (r : reg) (v : Z) (l tail : list event) :
  (forall regs1 r1, last_write regs1 r1 tail = None) ->
  last_write regs r ((l ++ [MmioWrite regs r v]) ++ tail) = Some v.
Proof.
  intros H. rewrite <- app_assoc. apply last_write_hit. apply H.
Qed.

Lemma gen11_enabled_reenables (s : st) :
  last_write i915_uncore_regs GEN11_GFX_MSTR_IRQ
    (log (snd (gen11_irq_handler_enabled s)))
  = Some (u32 (GEN11_MASTER_IRQ K)).
Proof.
  unfold gen11_irq_handler_enabled, gen11_master_intr_disable,
    gen11_master_intr_enable.
  destruct (mmio_read (mmio_write (hw s) i915_uncore_regs GEN11_GFX_MSTR_IRQ
                         (u32 0)) i915_uncore_regs GEN11_GFX_MSTR_IRQ)
    as [v h] eqn:E.
  run_steps.
  destruct (u32 v =? 0).
  - run_steps. run_last. cbn [snd log].
    last_write_tac.
  - run_steps.
    rewrite bind_skip.
    set (s1 := snd (when _ _ _)). clearbody s1.
    generalize (fst (when (negb (Z.land (u32 v) (GEN11_DISPLAY_IRQ K) =? 0))
                       gen11_display_irq_handler
                       {| hw := external gen11_gt_irq_handler (info_id (gt s))
                                  (u32 v) h;
                          gt := gt s;
                          log := ((log s ++ [MmioWrite i915_uncore_regs
                                     GEN11_GFX_MSTR_IRQ (u32 0)])
                                  ++ [MmioRead i915_uncore_regs
                                        GEN11_GFX_MSTR_IRQ (u32 v)])
                                 ++ [Call gen11_gt_irq_handler
                                       (info_id (gt s)) (u32 v)] |})).
    intros _.
    rewrite bind_skip.
    set (iir := fst (gen11_gu_misc_irq_ack (u32 v) s1)).
    set (s2 := snd (gen11_gu_misc_irq_ack (u32 v) s1)).
    clearbody iir s2.
    run_steps.
    match goal with
    | |- context [bind (gen11_gu_misc_irq_handler iir) (fun _ => ?k) ?s0] =>
        destruct (after_enable iir k s0) as [tail [-> Htail]];
          [reflexivity |]
    end.
    cbn [log]. apply last_write_enable. exact Htail.
Qed.

Lemma dg1_irq_tile_none (master_tile_ctl i gu_misc_iir : Z) (s s1 : st) :
  dg1_irq_tile master_tile_ctl i gu_misc_iir s = (None, s1) ->
  last (log s1) = Some (DevDbg dpc_containment).
Proof.
  unfold dg1_irq_tile. run_steps.
  destruct (Z.land master_tile_ctl (DG1_MSTR_TILE K i) =? 0);
    [discriminate |].
  destruct (is_media (gt s)).
  { run_steps. discriminate. }
  destruct (mmio_read (hw s) (info_id (gt s)) GEN11_GFX_MSTR_IRQ)
    as [v h] eqn:E.
  run_steps.
  destruct (u32 v =? REG_GENMASK_31_0).
  - run_steps. intros H. injection H as <-. cbn [log]. apply last_snoc.
  - run_steps. repeat (rewrite bind_skip; cbv beta). discriminate.
Qed.

Lemma dg1_for_each_gt_none (master_tile_ctl : Z)
  (gts : list (option intel_gt)) :
  forall (i gu_misc_iir : Z) (h : HW) (l : list event) others h1 l1,
    dg1_for_each_gt master_tile_ctl i gts gu_misc_iir h l
    = (None, others, h1, l1) ->
    last l1 = Some (DevDbg dpc_containment).
Proof.
  induction gts as [| [g |] rest IH]; intros i gu h l others h1 l1;
    cbn [dg1_for_each_gt].
  - discriminate.
  - destruct (dg1_irq_tile master_tile_ctl i gu
                {| hw := h; gt := g; log := l |}) as [[iir |] s] eqn:E.
    + destruct (dg1_for_each_gt master_tile_ctl (i + 1) rest iir (hw s)
                  (log s)) as [[[r1 rest1] h2] l2] eqn:E1.
      intros H. injection H as -> _ _ <-.
      exact (IH _ _ _ _ _ _ _ E1).
    + intros H. injection H as _ _ <-.
      exact (dg1_irq_tile_none _ _ _ _ _ E).
  - destruct (dg1_for_each_gt master_tile_ctl (i + 1) rest gu h l)
      as [[[r1 rest1] h2] l2] eqn:E1.
    intros H. injection H as -> _ _ <-.
    exact (IH _ _ _ _ _ _ _ E1).
Qed.

Lemma dg1_reenables (i915 : drm_i915_private) :
  intel_irqs_enabled i915 = true ->
  last_write (uncore_regs (to_gt i915)) DG1_MSTR_TILE_INTR
    (dmesg (snd (dg1_irq_handler i915))) = Some (u32 (DG1_MSTR_IRQ K))
  \/ (fst (dg1_irq_handler i915) = IRQ_HANDLED
      /\ last (dmesg (snd (dg1_irq_handler i915)))
         = Some (DevDbg dpc_containment)).
Proof.
  intros Hen. unfold dg1_irq_handler. rewrite Hen. cbn [negb].
  destruct (dg1_master_intr_disable (uncore_regs (to_gt i915)) (enter i915))
    as [master_tile_ctl s] eqn:Ed.
  destruct (master_tile_ctl =? 0).
  - left. unfold dg1_master_intr_enable, raw_reg_write_at.
    cbn [snd leave dmesg log].
    apply (last_write_hit _ _ _ _ []). reflexivity.
  - destruct (dg1_irq_tile master_tile_ctl 0 0 s) as [[iir0 |] s0] eqn:E0.
    + destruct (dg1_for_each_gt master_tile_ctl 1 (gt_others i915) iir0
                  (hw s0) (log s0)) as [[[[gu |] others] h] l] eqn:El.
      * left. unfold dg1_master_intr_enable. run_steps.
        match goal with
        | |- context [bind (gen11_gu_misc_irq_handler gu) (fun _ => ?k) ?s1] =>
            destruct (after_enable gu k s1) as [tail [E Htail]];
              [reflexivity |]
        end.
        match goal with
        | |- context [let '(_, s2) := ?m in _] =>
            replace m with (fst m, snd m) by (symmetry; apply surjective_pairing)
        end.
        cbn [snd leave dmesg]. rewrite E. cbn [log].
        apply last_write_enable. exact Htail.
      * right. cbn [fst snd leave dmesg log]. split; [reflexivity |].
        exact (dg1_for_each_gt_none _ _ _ _ _ _ _ _ _ El).
    + right. cbn [fst snd leave dmesg]. split; [reflexivity |].
      exact (dg1_irq_tile_none _ _ _ _ _ E0).
Qed.

(** The claim as worded, for dg1_irq_handler: whenever it has disabled the
    master interrupt, the master enable is the last value written to
    DG1_MSTR_TILE_INTR when it returns. *)
Definition dg1_reenables_on_every_return : Prop :=
  forall i915 : drm_i915_private,
    intel_irqs_enabled i915 = true ->
    last_write (uncore_regs (to_gt i915)) DG1_MSTR_TILE_INTR
      (dmesg (snd (dg1_irq_handler i915))) = Some (u32 (DG1_MSTR_IRQ K)).

(** C4, as the code has it: with interrupts enabled, when
    gen11_irq_handler returns the last value written to GEN11_GFX_MSTR_IRQ
    is the master enable, on both of its paths; when dg1_irq_handler
    returns the last value written to DG1_MSTR_TILE_INTR is the master
    enable, unless it returned IRQ_HANDLED from within the loop over the
    GTs, right after the message about DPC containment. *)
Theorem C4_master_reenabled (i915 : drm_i915_private) :
  intel_irqs_enabled i915 = true ->
  last_write i915_uncore_regs GEN11_GFX_MSTR_IRQ
    (dmesg (snd (gen11_irq_handler i915)))
  = Some (u32 (GEN11_MASTER_IRQ K))
  /\ (last_write (uncore_regs (to_gt i915)) DG1_MSTR_TILE_INTR
        (dmesg (snd (dg1_irq_handler i915))) = Some (u32 (DG1_MSTR_IRQ K))
      \/ (fst (dg1_irq_handler i915) = IRQ_HANDLED
          /\ last (dmesg (snd (dg1_irq_handler i915)))
             = Some (DevDbg dpc_containment))).
Proof.
  intros Hen. split; [| apply dg1_reenables; exact Hen].
  unfold gen11_irq_handler. rewrite Hen. cbn [negb].
  pose proof (gen11_enabled_reenables (enter i915)) as H.
  destruct (gen11_irq_handler_enabled (enter i915)) as [r s].
  exact H.
Qed.

(** ** Counting the observed errors *)

(** The counter [e] counts events: it is not one of the two that are
    loaded from the hardware. *)
Definition counts_events (e : intel_gt_hw_errors) : Prop :=
  slm_counter e = true -> IS_PONTEVECCHIO plat = true.

(** What one passage of a loop body does to the counter [e]. *)
Definition steps_counter (hw_err : hardware_error) (body : Z -> M unit)
  : Prop :=
  forall (b : Z) (s : st) (e : intel_gt_hw_errors),
    counts_events e ->
    errors_hw (gt (snd (body b s))) e
    = if bool_decide (bit_counter hw_err b = Some e)
      then incr (errors_hw (gt s) e)
      else errors_hw (gt s) e.

Lemma bool_decide_some (e0 e : intel_gt_hw_errors) :
  bool_decide (Some e0 = Some e) = bool_decide (e0 = e).
Proof.
  apply bool_decide_ext. split; congruence.
Qed.

Ltac counter_case e :=
  unfold hw_inc, hw_set; run_steps; run_last;
  cbn [snd gt errors_hw with_errors_hw option_map cor_counter fat_counter];
  rewrite bool_decide_some; unfold upd;
  match goal with
  | |- context [decide (?e0 = e)] =>
      destruct (decide (e0 = e)) as [<- | Hne];
        [rewrite bool_decide_eq_true_2 by reflexivity; reflexivity
        | rewrite bool_decide_eq_false_2 by exact Hne; reflexivity]
  end.

Lemma cor_stats_body_steps :
  steps_counter HARDWARE_ERROR_CORRECTABLE cor_stats_body.
Proof.
  intros b s e Hside. unfold cor_stats_body, bit_counter.
  destruct (IS_PONTEVECCHIO plat
            && (Z.land (REG_BIT b) (PVC_COR_ERR_MASK K) =? 0)).
  { reflexivity. }
  destruct (gt_cor_bit K b) as [[] |]; try solve [counter_case e].
  - destruct (IS_PONTEVECCHIO plat) eqn:P; cbn [negb].
    + counter_case e.
    + destruct (mmio_read (hw s) (uncore_regs (gt s))
                  (SLM_ECC_ERROR_CNTR HARDWARE_ERROR_CORRECTABLE))
        as [v h] eqn:E.
      unfold hw_set. run_steps. run_last.
      cbn [snd gt errors_hw with_errors_hw option_map cor_counter].
      rewrite bool_decide_some. unfold upd.
      destruct (decide (INTEL_GT_HW_ERROR_COR_SLM = e)) as [<- | Hne].
      * specialize (Hside eq_refl). congruence.
      * rewrite bool_decide_eq_false_2 by exact Hne. reflexivity.
  - reflexivity.
Qed.

Lemma fatal_stats_body_steps :
  steps_counter HARDWARE_ERROR_FATAL fatal_stats_body.
Proof.
  intros b s e Hside. unfold fatal_stats_body, bit_counter.
  destruct (IS_PONTEVECCHIO plat
            && (Z.land (REG_BIT b) (PVC_FAT_ERR_MASK K) =? 0)).
  { reflexivity. }
  destruct (gt_fat_bit K b) as [[] |]; try solve [counter_case e].
  - destruct (IS_PONTEVECCHIO plat) eqn:P; cbn [negb].
    + counter_case e.
    + destruct (mmio_read (hw s) (uncore_regs (gt s))
                  (SLM_ECC_ERROR_CNTR HARDWARE_ERROR_FATAL))
        as [v h] eqn:E.
      unfold hw_set. run_steps. run_last.
      cbn [snd gt errors_hw with_errors_hw option_map fat_counter].
      rewrite bool_decide_some. unfold upd.
      destruct (decide (INTEL_GT_HW_ERROR_FAT_SLM = e)) as [<- | Hne].
      * specialize (Hside eq_refl). congruence.
      * rewrite bool_decide_eq_false_2 by exact Hne. reflexivity.
  - reflexivity.
Qed.

(** A valid [unsigned long]. *)
Definition is_ulong (x : Z) : Prop := 0 <= x < 2 ^ 64.

Lemma u64_ulong (x : Z) : is_ulong (u64 x).
Proof. unfold is_ulong, u64, wrap. apply Z.mod_pos_bound. lia. Qed.

Lemma u64_of_ulong (x : Z) : is_ulong x -> u64 x = x.
Proof. unfold is_ulong, u64, wrap. intros H. apply Z.mod_small. exact H. Qed.

Lemma u64_add_l (x n m : Z) : u64 (u64 (x + n) + m) = u64 (x + (n + m)).
Proof.
  unfold u64, wrap. rewrite Zplus_mod_idemp_l. f_equal. lia.
Qed.

Lemma hits_nonneg (hw_err : hardware_error) (e : intel_gt_hw_errors)
  (bits : list Z) : 0 <= hits hw_err e bits.
Proof.
  induction bits as [| b rest IH]; cbn [hits]; [lia |].
  destruct (bool_decide (bit_counter hw_err b = Some e)); lia.
Qed.

Lemma observations_nonneg (e : intel_gt_hw_errors)
  (l : list (hardware_error * Z)) : 0 <= observations e l.
Proof.
  induction l as [| [hw_err errstat] rest IH]; cbn [observations]; [lia |].
  pose proof (hits_nonneg hw_err e
                (set_bits errstat (GT_HW_ERROR_MAX_ERR_BITS K))) as H.
  unfold observed. lia.
Qed.

(** A loop over the set bits steps the counter once for each of its
    bits. *)
Lemma for_each_bits_count (hw_err : hardware_error) (body : Z -> M unit)
  (e : intel_gt_hw_errors) :
  steps_counter hw_err body ->
  counts_events e ->
  forall (bits : list Z) (s : st),
    is_ulong (errors_hw (gt s) e) ->
    errors_hw (gt (snd (for_each bits body s))) e
    = u64 (errors_hw (gt s) e + hits hw_err e bits).
Proof.
  intros Hbody Hside.
  induction bits as [| b rest IH]; intros s Hr; cbn [for_each hits].
  - rewrite Z.add_0_r. symmetry. apply u64_of_ulong. exact Hr.
  - rewrite bind_skip. rewrite IH.
    + rewrite (Hbody b s e Hside).
      destruct (bool_decide (bit_counter hw_err b = Some e)).
      * unfold incr. apply u64_add_l.
      * reflexivity.
    + rewrite (Hbody b s e Hside).
      destruct (bool_decide (bit_counter hw_err b = Some e));
        [apply u64_ulong | exact Hr].
Qed.

Lemma gt_stats_update_counts (irq : hardware_error * Z) (s : st)
  (e : intel_gt_hw_errors) :
  counts_events e ->
  is_ulong (errors_hw (gt s) e) ->
  errors_hw (gt (snd (gt_stats_update irq s))) e
  = u64 (errors_hw (gt s) e + observed (fst irq) e (snd irq)).
Proof.
  intros Hside Hr. destruct irq as [hw_err errstat].
  unfold gt_stats_update, observed. cbn [fst snd].
  assert (Hblank : forall c, (errstat =? 0) && HAS_GT_ERROR_VECTORS plat = true ->
            errors_hw (gt s) e
            = u64 (errors_hw (gt s) e
                   + hits c e (set_bits errstat (GT_HW_ERROR_MAX_ERR_BITS K)))).
  { intros c H. apply andb_prop in H. destruct H as [H _].
    apply Z.eqb_eq in H. subst errstat.
    rewrite set_bits_zero. cbn [hits]. rewrite Z.add_0_r.
    symmetry. apply u64_of_ulong. exact Hr. }
  destruct hw_err.
  - unfold gen12_gt_correctable_hw_error_stats_update.
    destruct ((errstat =? 0) && HAS_GT_ERROR_VECTORS plat) eqn:B.
    + apply Hblank. reflexivity.
    + apply for_each_bits_count;
        [apply cor_stats_body_steps | exact Hside | exact Hr].
  - cbn [snd ret hits]. symmetry.
    assert (H0 : forall bits, hits HARDWARE_ERROR_NONFATAL e bits = 0).
    { induction bits as [| b r IH]; cbn [hits bit_counter]; [reflexivity |].
      rewrite IH. reflexivity. }
    rewrite H0, Z.add_0_r. apply u64_of_ulong. exact Hr.
  - unfold gen12_gt_fatal_hw_error_stats_update.
    destruct ((errstat =? 0) && HAS_GT_ERROR_VECTORS plat) eqn:B.
    + apply Hblank. reflexivity.
    + apply for_each_bits_count;
        [apply fatal_stats_body_steps | exact Hside | exact Hr].
Qed.

Lemma gt_stats_sequence_counts (e : intel_gt_hw_errors) :
  counts_events e ->
  forall (l : list (hardware_error * Z)) (s : st),
    is_ulong (errors_hw (gt s) e) ->
    errors_hw (gt (snd (for_each l gt_stats_update s))) e
    = u64 (errors_hw (gt s) e + observations e l).
Proof.
  intros Hside.
  induction l as [| irq rest IH]; intros s Hr; cbn [for_each observations].
  - rewrite Z.add_0_r. symmetry. apply u64_of_ulong. exact Hr.
  - rewrite bind_skip. rewrite IH.
    + rewrite (gt_stats_update_counts irq s e Hside Hr).
      destruct irq as [hw_err errstat]. cbn [fst snd]. apply u64_add_l.
    + rewrite (gt_stats_update_counts irq s e Hside Hr). apply u64_ulong.
Qed.

(** One run of the GT error handler on a platform without error vectors
    counts what the status word it reads shows. *)
Lemma gt_handler_counts (hw_err : hardware_error) (s : st)
  (e : intel_gt_hw_errors) :
  HAS_GT_ERROR_VECTORS plat = false ->
  counts_events e ->
  is_ulong (errors_hw (gt s) e) ->
  errors_hw (gt (snd (gen12_gt_hw_error_handler hw_err s))) e
  = u64 (errors_hw (gt s) e
         + observed hw_err e
             (u32 (fst (mmio_read (hw s) (uncore_regs (gt s))
                          (ERR_STAT_GT_REG hw_err))))).
Proof.
  intros Hv Hside Hr.
  destruct (mmio_read (hw s) (uncore_regs (gt s)) (ERR_STAT_GT_REG hw_err))
    as [v h] eqn:E.
  cbn [fst].
  unfold gen12_gt_hw_error_handler. rewrite Hv. cbn [negb].
  run_steps.
  destruct (u32 v =? 0) eqn:Z0.
  - apply Z.eqb_eq in Z0. rewrite Z0. run_steps. run_last.
    cbn [snd gt]. unfold observed. rewrite set_bits_zero. cbn [hits].
    rewrite Z.add_0_r. symmetry. apply u64_of_ulong. exact Hr.
  - run_steps.
    destruct hw_err; run_steps.
    + rewrite bind_skip. run_steps. run_last. cbn [snd gt].
      match goal with
      | |- context [gen12_gt_correctable_hw_error_stats_update _ ?s1] =>
          exact (gt_stats_update_counts
                   (HARDWARE_ERROR_CORRECTABLE, u32 v) s1 e Hside Hr)
      end.
    + run_last. cbn [snd gt].
      exact (gt_stats_update_counts
               (HARDWARE_ERROR_NONFATAL, u32 v) s e Hside Hr).
    + rewrite bind_skip. run_steps. run_last. cbn [snd gt].
      match goal with
      | |- context [gen12_gt_fatal_hw_error_stats_update _ ?s1] =>
          exact (gt_stats_update_counts
                   (HARDWARE_ERROR_FATAL, u32 v) s1 e Hside Hr)
      end.
Qed.

(** [update_soc_hw_error_cnt] steps the entry of its index, unless the
    store fails. *)
Lemma update_soc_counts (index : Z) (s : st) :
  let s1 := snd (update_soc_hw_error_cnt index s) in
  let old := default 0 (errors_soc (gt s) !! index) in
  default 0 (errors_soc (gt s1) !! index)
  = (if xa_store_fails (errors_soc (gt s)) index then old
     else wrap 63 (old + 1))
  /\ forall j, j <> index ->
       errors_soc (gt s1) !! j = errors_soc (gt s) !! j.
Proof.
  unfold update_soc_hw_error_cnt. run_steps.
  destruct (xa_store_fails (errors_soc (gt s)) index).
  - run_last. cbn [snd gt]. split; [reflexivity | intros; reflexivity].
  - run_last. cbn [snd gt errors_soc with_errors_soc]. split.
    + rewrite lookup_insert_eq. reflexivity.
    + intros j Hj. apply lookup_insert_ne. congruence.
Qed.

(** The claim as worded: no run of an update lowers a counter that is far
    from its wrap-around, and from zero a counter ends at the number of
    observations. *)
Definition counters_count_as_claimed : Prop :=
  forall (e : intel_gt_hw_errors) (l : list (hardware_error * Z)) (s : st),
    (is_ulong (errors_hw (gt s) e) ->
     errors_hw (gt s) e + observations e l < 2 ^ 64 ->
     errors_hw (gt s) e <= errors_hw (gt (snd (for_each l gt_stats_update s))) e)
    /\ (errors_hw (gt s) e = 0 ->
        observations e l < 2 ^ 64 ->
        errors_hw (gt (snd (for_each l gt_stats_update s))) e
        = observations e l).

(** C6, as the code has it: a counter of the GT error-status bits that
    counts events goes, over any sequence of correctable, non-fatal and
    fatal status words, from its value [x] to [x] plus the number of times
    a defined bit that stands for it was set, modulo 2^64; so while that
    sum is below 2^64 it does not decrease and is exactly the sum.  One
    run of gen12_gt_hw_error_handler on a platform without error vectors
    adds what the status word it reads shows.  The two SLM counters
    outside Ponte Vecchio are left out: they do not count.  A SOC counter
    is stepped by one modulo 2^63 when the store succeeds and keeps its
    value when it fails, and no other index changes. *)
Theorem C6_counters_count_observations (e : intel_gt_hw_errors)
  (l : list (hardware_error * Z)) (s : st) (index : Z) :
  counts_events e ->
  is_ulong (errors_hw (gt s) e) ->
  let x := errors_hw (gt s) e in
  let s1 := snd (for_each l gt_stats_update s) in
  let s2 := snd (update_soc_hw_error_cnt index s) in
  let old := default 0 (errors_soc (gt s) !! index) in
  errors_hw (gt s1) e = u64 (x + observations e l)
  /\ (x + observations e l < 2 ^ 64 ->
      x <= errors_hw (gt s1) e
      /\ errors_hw (gt s1) e = x + observations e l)
  /\ (HAS_GT_ERROR_VECTORS plat = false ->
      forall hw_err,
        errors_hw (gt (snd (gen12_gt_hw_error_handler hw_err s))) e
        = u64 (x + observed hw_err e
                     (u32 (fst (mmio_read (hw s) (uncore_regs (gt s))
                                  (ERR_STAT_GT_REG hw_err))))))
  /\ default 0 (errors_soc (gt s2) !! index)
     = (if xa_store_fails (errors_soc (gt s)) index then old
        else wrap 63 (old + 1))
  /\ (forall j, j <> index ->
        errors_soc (gt s2) !! j = errors_soc (gt s) !! j).
Proof.
  intros Hside Hr x s1 s2 old.
  pose proof (gt_stats_sequence_counts e Hside l s Hr) as Hseq.
  pose proof (observations_nonneg e l) as Hn.
  split; [exact Hseq |].
  split.
  { intros Hroom. fold s1 x in Hseq. rewrite Hseq.
    rewrite u64_of_ulong; [unfold x; lia |].
    unfold is_ulong in *. unfold x. lia. }
  split.
  { intros Hv hw_err. apply gt_handler_counts; assumption. }
  apply update_soc_counts.
Qed.

(** *** Error handlers stay on their tile *)

(** [on_tile t ev]: if [ev] touches a register block or calls a handler
    for a tile, the tile is [t]. *)
Definition on_tile (t : Z) (ev : event) : Prop :=
  match ev with
  | MmioRead t' _ _ | MmioWrite t' _ _ | Call _ t' _ => t' = t
  | _ => True
  end.

Definition is_pmu_irq_stats (ev : event) : bool :=
  match ev with
  | PmuIrqStats => true
  | _ => false
  end.

(** What the handlers below gen12_hw_error_source_handler may add to
    the log: [ev] is on the tile, it is no write to a DEV_ERR_STAT
    register, and it is no count of an interrupt for the PMU. *)
Definition error_event (t : Z) (ev : event) : Prop :=
  on_tile t ev
  /\ match ev with
     | MmioWrite _ (DEV_ERR_STAT_REG _) _ => False
     | _ => True
     end
  /\ is_pmu_irq_stats ev = false.

(** [confined P m]: run on a GT, [m] keeps the identity of the GT, and
    every event it adds to the log satisfies [P] for the tile of that
    GT. *)
Definition confined {A : Type} (P : Z -> event -> Prop) (m : M A) : Prop :=
  forall s,
    info_id (gt (snd (m s))) = info_id (gt s)
    /\ is_media (gt (snd (m s))) = is_media (gt s)
    /\ exists l, log (snd (m s)) = log s ++ l
                 /\ Forall (P (info_id (gt s))) l.

Section Confined.

Variable P : Z -> event -> Prop.

Lemma confined_ret {A : Type} (a : A) : confined P (ret a).
Proof.
  intros s. cbn. repeat split. exists []. rewrite app_nil_r.
  split; [reflexivity | constructor].
Qed.

Lemma confined_bind {A B : Type} (m : M A) (k : A -> M B) :
  confined P m -> (forall a, confined P (k a)) -> confined P (bind m k).
Proof.
  intros Hm Hk s. unfold bind. specialize (Hm s).
  destruct (m s) as [a s1]. cbn [snd] in Hm.
  destruct Hm as (I1 & M1 & l1 & L1 & F1).
  destruct (Hk a s1) as (I2 & M2 & l2 & L2 & F2).
  split; [congruence |]. split; [congruence |].
  exists (l1 ++ l2). split.
  - rewrite L2, L1, app_assoc. reflexivity.
  - apply Forall_app. split; [exact F1 |]. rewrite <- I1. exact F2.
Qed.

Lemma confined_emit (ev : event) :
  (forall t, P t ev) -> confined P (emit ev).
Proof.
  intros H s. cbn. repeat split. exists [ev].
  split; [reflexivity |]. constructor; [apply H | constructor].
Qed.

Lemma confined_get_gt : confined P get_gt.
Proof.
  intros s. cbn. repeat split. exists []. rewrite app_nil_r.
  split; [reflexivity | constructor].
Qed.

Lemma confined_modify_gt (f : intel_gt -> intel_gt) :
  (forall g, info_id (f g) = info_id g /\ is_media (f g) = is_media g) ->
  confined P (modify_gt f).
Proof.
  intros H s. cbn. destruct (H (gt s)) as [H1 H2].
  repeat split; try assumption. exists []. rewrite app_nil_r.
  split; [reflexivity | constructor].
Qed.

Lemma confined_read (r : reg) :
  (forall t v, P t (MmioRead t r v)) -> confined P (raw_reg_read r).
Proof.
  intros H s. unfold raw_reg_read, raw_reg_read_at, uncore_regs.
  destruct (mmio_read (hw s) (info_id (gt s)) r) as [v h]. cbn.
  repeat split. eexists. split; [reflexivity |].
  constructor; [apply H | constructor].
Qed.

Lemma confined_write (r : reg) (v : Z) :
  (forall t, P t (MmioWrite t r (u32 v))) -> confined P (raw_reg_write r v).
Proof.
  intros H s. unfold raw_reg_write, raw_reg_write_at, uncore_regs. cbn.
  repeat split. eexists. split; [reflexivity |].
  constructor; [apply H | constructor].
Qed.

Lemma confined_when (c : bool) (m : M unit) :
  confined P m -> confined P (when c m).
Proof. intros H. destruct c; [exact H | apply confined_ret]. Qed.

Lemma confined_for_each {A : Type} (l : list A) (body : A -> M unit) :
  (forall x, confined P (body x)) -> confined P (for_each l body).
Proof.
  intros H. induction l as [| x r IH]; cbn [for_each].
  - apply confined_ret.
  - apply confined_bind; [apply H | intros _; exact IH].
Qed.

Lemma confined_for_each_until {A : Type} (l : list A) (body : A -> M bool) :
  (forall x, confined P (body x)) -> confined P (for_each_until l body).
Proof.
  intros H. induction l as [| x r IH]; cbn [for_each_until].
  - apply confined_ret.
  - apply confined_bind; [apply H |].
    intros [|]; [exact IH | apply confined_ret].
Qed.

Lemma confined_fold_m {A S : Type} (l : list A) (body : A -> S -> M S) :
  (forall x acc, confined P (body x acc)) ->
  forall acc, confined P (fold_m l acc body).
Proof.
  intros H. induction l as [| x r IH]; intros acc; cbn [fold_m].
  - apply confined_ret.
  - apply confined_bind; [apply H | intros a; apply IH].
Qed.

End Confined.

Create HintDb irq_handlers.

#[local] Hint Unfold log_gt_hw_err intel_gt_log_driver_error
  drm_err_ratelimited hw_inc hw_add hw_set gsc_inc sgunit_inc
  log_soc_hw_error update_soc_hw_error_cnt soc_mask_gsysevtctl
  gen12_soc_hw_error_handler fatal_stats_body
  gen12_gt_fatal_hw_error_stats_update cor_stats_body
  gen12_gt_correctable_hw_error_stats_update kobject_uevent_env
  log_hbm_err_info gen12_gsc_hw_error_handler log_correctable_err
  gt_l3fabric_error_handler cor_vctr_body fatal_vctr_body
  gen12_gt_hw_error_handler log_errors : irq_handlers.

Ltac event_ok := intros; cbn; repeat split.

Ltac confined_step :=
  lazymatch goal with
  | |- confined _ (bind _ _) => apply confined_bind; [| intro]
  | |- confined _ (ret _) => apply confined_ret
  | |- confined _ (emit _) => apply confined_emit; event_ok
  | |- confined _ get_gt => apply confined_get_gt
  | |- confined _ (modify_gt _) =>
      apply confined_modify_gt; intro; split; reflexivity
  | |- confined _ (raw_reg_read _) => apply confined_read; event_ok
  | |- confined _ (raw_reg_write _ _) => apply confined_write; event_ok
  | |- confined _ (when _ _) => apply confined_when
  | |- confined _ (for_each _ _) => apply confined_for_each; intro
  | |- confined _ (for_each_until _ _) =>
      apply confined_for_each_until; intro
  | |- confined _ (fold_m _ _ _) => apply confined_fold_m; intros
  | |- confined _ (if ?c then _ else _) => destruct c
  | |- confined _ (match ?x with _ => _ end) => destruct x
  | |- confined _ _ =>
      first [progress cbv zeta | progress autounfold with irq_handlers]
  end.

Ltac confined_tac := repeat confined_step.

(** What gen12_hw_error_source_handler runs for the bits of the status
    writes no DEV_ERR_STAT register and stays on the tile. *)
Lemma source_bits_confined (hw_err : hardware_error) (errbit : Z) :
  confined error_event
    (match dev_err_bit K errbit with
     | Some DEV_ERR_STAT_GT_ERROR => gen12_gt_hw_error_handler hw_err
     | Some DEV_ERR_STAT_SGGI_ERROR =>
         log_errors hw_err (parity_is_valid hw_err)
     | Some DEV_ERR_STAT_GSC_ERROR =>
         let* g := get_gt in
         if info_id g =? 0 then gen12_gsc_hw_error_handler hw_err
         else log_errors hw_err false
     | Some DEV_ERR_STAT_SGUNIT_ERROR =>
         log_errors hw_err false ;;
         sgunit_inc hw_err
     | Some DEV_ERR_STAT_SGCI_ERROR =>
         log_errors hw_err (parity_is_valid hw_err)
     | Some DEV_ERR_STAT_SOC_ERROR => gen12_soc_hw_error_handler hw_err
     | Some DEV_ERR_STAT_MERT_ERROR =>
         log_errors hw_err (parity_is_valid hw_err)
     | None => log_errors hw_err false
     end).
Proof. confined_tac. Qed.

Lemma confined_weaken {A : Type} (P Q : Z -> event -> Prop) (m : M A) :
  (forall t ev, P t ev -> Q t ev) -> confined P m -> confined Q m.
Proof.
  intros H Hm s. destruct (Hm s) as (I1 & M1 & l & L & F).
  repeat split; try assumption. exists l. split; [exact L |].
  eapply List.Forall_impl; [| exact F]. intros ev. apply H.
Qed.

Lemma source_confined (hw_err : hardware_error) :
  confined on_tile (gen12_hw_error_source_handler hw_err).
Proof.
  unfold gen12_hw_error_source_handler.
  apply confined_bind; [confined_tac | intros errsrc].
  destruct (errsrc =? 0); [confined_tac |].
  apply confined_bind; [confined_tac | intros _].
  apply confined_bind; [| intros _; confined_tac].
  apply confined_for_each. intros errbit.
  apply (confined_weaken error_event); [intros t ev [H _]; exact H |].
  apply source_bits_confined.
Qed.

(** X17: the hardware-error handlers of a GT stay on its tile: every
    register that gen12_hw_error_irq_handler and the handlers below it
    read or write belongs to the register block of the GT it runs on,
    whatever the registers hold, and the GT keeps its identity. *)
Theorem X17_error_handlers_stay_on_tile (master_ctl : Z) (s : st) :
  let s' := snd (gen12_hw_error_irq_handler master_ctl s) in
  info_id (gt s') = info_id (gt s)
  /\ is_media (gt s') = is_media (gt s)
  /\ exists l, log s' = log s ++ l
               /\ forall ev, In ev l ->
                    match ev with
                    | MmioRead t _ _ | MmioWrite t _ _ => t = info_id (gt s)
                    | _ => True
                    end.
Proof.
  assert (C : confined on_tile (gen12_hw_error_irq_handler master_ctl)).
  { unfold gen12_hw_error_irq_handler. apply confined_for_each.
    intros hw_err. apply confined_when.
    apply confined_bind; [confined_tac | intros _; apply source_confined]. }
  destruct (C s) as (I1 & M1 & l & L & F). cbv zeta.
  repeat split; try assumption. exists l. split; [exact L |].
  intros ev Hin. rewrite List.Forall_forall in F. specialize (F ev Hin).
  destruct ev; try exact I; exact F.
Qed.

(** X18: gen12_hw_error_source_handler acknowledges what it read.  When
    DEV_ERR_STAT is not blank, the handler's first access reads it, its
    last access writes the value read back to the same register of the
    same tile, and nothing in between writes a DEV_ERR_STAT register: a
    bit that was not set when the status was read is not cleared. *)
Theorem X18_error_status_acked_as_read (hw_err : hardware_error) (s : st)
    (v : Z) (h : HW) :
  mmio_read (hw s) (info_id (gt s)) (DEV_ERR_STAT_REG hw_err) = (v, h) ->
  u32 v <> 0 ->
  exists mid,
    log (snd (gen12_hw_error_source_handler hw_err s))
    = log s
        ++ MmioRead (info_id (gt s)) (DEV_ERR_STAT_REG hw_err) (u32 v)
        :: mid
        ++ [MmioWrite (info_id (gt s)) (DEV_ERR_STAT_REG hw_err) (u32 v)]
    /\ forall ev, In ev mid ->
         on_tile (info_id (gt s)) ev
         /\ match ev with
            | MmioWrite _ (DEV_ERR_STAT_REG _) _ => False
            | _ => True
            end.
Proof.
  intros Hr Hv. unfold gen12_hw_error_source_handler.
  rewrite bind_read_run. unfold uncore_regs.
  rewrite (bind_read_at_run _ _ _ _ _ _ Hr).
  destruct (Z.eqb_spec (u32 v) 0) as [E | _]; [contradiction |].
  set (s1 := {| hw := h; gt := gt s;
                log := log s ++ [MmioRead (info_id (gt s))
                                   (DEV_ERR_STAT_REG hw_err) (u32 v)] |}).
  rewrite <- bind_assoc_run.
  match goal with
  | |- context [bind ?m _ s1] =>
      assert (C : confined error_event m)
  end.
  { apply confined_bind; [confined_tac | intros _].
    apply confined_for_each. intros errbit. apply source_bits_confined. }
  rewrite bind_skip.
  match goal with
  | |- context [snd (?m s1)] =>
      destruct (C s1) as (I1 & _ & mid & L & F); set (s2 := snd (m s1)) in *
  end.
  exists mid. split.
  - unfold raw_reg_write, raw_reg_write_at, uncore_regs. cbn [snd log].
    rewrite L, I1, u32_idem. unfold s1. cbn [log gt].
    rewrite <- !app_assoc. reflexivity.
  - intros ev Hin. rewrite List.Forall_forall in F.
    destruct (F ev Hin) as (F1 & F2 & _). split; assumption.
Qed.

(** *** The SOC handler masks and unmasks its error type *)

(** The writes of soc_mask_gsysevtctl on the tile [t]. *)
Definition gsysevtctl_writes (t v : Z) : list event :=
  List.map (fun i => MmioWrite t (SOC_GSYSEVTCTL_REG i) (u32 v))
    (indices (INTEL_GT_SOC_NUM_IEH K)).

Lemma soc_mask_run (v : Z) (s : st) :
  gt (snd (soc_mask_gsysevtctl v s)) = gt s
  /\ log (snd (soc_mask_gsysevtctl v s))
     = log s ++ gsysevtctl_writes (info_id (gt s)) v.
Proof.
  unfold soc_mask_gsysevtctl, gsysevtctl_writes.
  generalize (indices (INTEL_GT_SOC_NUM_IEH K)) as l. intros l. revert s.
  induction l as [| i r IH]; intros s; cbn [for_each List.map].
  - cbn. rewrite app_nil_r. split; reflexivity.
  - rewrite bind_skip.
    set (s1 := snd (raw_reg_write (SOC_GSYSEVTCTL_REG i) v s)).
    destruct (IH s1) as [G L]. rewrite G, L. unfold s1.
    unfold raw_reg_write, raw_reg_write_at, uncore_regs. cbn [snd gt log].
    rewrite <- app_assoc. split; reflexivity.
Qed.

(** [m] ends by unmasking on the tile it runs on. *)
Definition ends_unmasked {A : Type} (v : Z) (m : M A) : Prop :=
  forall s, exists pre,
    log (snd (m s)) = log s ++ pre ++ gsysevtctl_writes (info_id (gt s)) v.

Lemma ends_unmasked_mask (v : Z) : ends_unmasked v (soc_mask_gsysevtctl v).
Proof.
  intros s. exists []. destruct (soc_mask_run v s) as [_ L]. exact L.
Qed.

Lemma ends_unmasked_bind {A B : Type} (v : Z) (m : M A) (k : A -> M B) :
  confined on_tile m -> (forall a, ends_unmasked v (k a)) ->
  ends_unmasked v (bind m k).
Proof.
  intros Hm Hk s. rewrite bind_skip.
  destruct (Hm s) as (I1 & _ & l & L & _).
  destruct (Hk (fst (m s)) (snd (m s))) as [pre E].
  exists (l ++ pre). rewrite E, L, I1, <- !app_assoc. reflexivity.
Qed.

Lemma last_write_gsysevtctl (t v i : Z) (l : list Z) :
  In i l ->
  last_write t (SOC_GSYSEVTCTL_REG i)
    (List.map (fun j => MmioWrite t (SOC_GSYSEVTCTL_REG j) (u32 v)) l)
  = Some (u32 v).
Proof.
  assert (A : forall l0,
             last_write t (SOC_GSYSEVTCTL_REG i)
               (List.map (fun j => MmioWrite t (SOC_GSYSEVTCTL_REG j) (u32 v))
                  l0) = None
             \/ last_write t (SOC_GSYSEVTCTL_REG i)
                  (List.map (fun j => MmioWrite t (SOC_GSYSEVTCTL_REG j)
                                        (u32 v)) l0) = Some (u32 v)).
  { induction l0 as [| j r IH]; cbn [List.map last_write]; [left; reflexivity |].
    destruct IH as [-> | ->]; [| right; reflexivity].
    unfold is_write_to. destruct (bool_decide _); [right | left]; reflexivity. }
  induction l as [| j r IH]; intros Hin; [destruct Hin |].
  cbn [List.map last_write].
  destruct Hin as [-> | Hin].
  - destruct (A r) as [-> | ->]; [| reflexivity]. apply is_write_to_hit.
  - rewrite (IH Hin). reflexivity.
Qed.

(** X19: on Ponte Vecchio gen12_soc_hw_error_handler brackets its work:
    after its opening message it first masks the error type in the
    GSYSEVTCTL register of every IEH, and on every path its last accesses
    unmask them again, so that when it returns each of these registers on
    its tile was last written with the unmasking value. *)
Theorem X19_soc_errors_unmasked_on_return (hw_err : hardware_error)
    (s : st) :
  IS_PONTEVECCHIO plat = true ->
  let s' := snd (gen12_soc_hw_error_handler hw_err s) in
  let t := info_id (gt s) in
  (exists rest,
     log s' = log s ++ LogHwErr "SOC %s error\n"
                :: gsysevtctl_writes t (Z.lnot (REG_BIT (hw_err_num hw_err)))
                ++ rest)
  /\ (exists pre,
        log s' = log s ++ pre
                   ++ gsysevtctl_writes t (Z.shiftl HARDWARE_ERROR_MAX 1 + 1))
  /\ forall i, In i (indices (INTEL_GT_SOC_NUM_IEH K)) ->
       last_write t (SOC_GSYSEVTCTL_REG i) (log s')
       = Some (u32 (Z.shiftl HARDWARE_ERROR_MAX 1 + 1)).
Proof.
  intros Hpvc. cbv zeta.
  assert (E : exists pre,
            log (snd (gen12_soc_hw_error_handler hw_err s))
            = log s ++ pre
                ++ gsysevtctl_writes (info_id (gt s))
                     (Z.shiftl HARDWARE_ERROR_MAX 1 + 1)).
  { assert (U : ends_unmasked (Z.shiftl HARDWARE_ERROR_MAX 1 + 1)
                  (gen12_soc_hw_error_handler hw_err)).
    { unfold gen12_soc_hw_error_handler. rewrite Hpvc. cbn [negb]. cbv zeta.
      apply ends_unmasked_bind; [confined_tac | intros _].
      destruct (bool_decide (hw_err = HARDWARE_ERROR_CORRECTABLE)
                || bool_decide (hw_err = HARDWARE_ERROR_NONFATAL) && false);
        repeat first
          [ apply ends_unmasked_mask
          | apply ends_unmasked_bind; [confined_tac | intro] ]. }
    apply U. }
  split; [| split; [exact E |]].
  - unfold gen12_soc_hw_error_handler. rewrite Hpvc. cbn [negb]. cbv zeta.
    unfold log_gt_hw_err at 1. rewrite bind_emit_run.
    match goal with
    | |- context [(if ?c then _ else _) ?s1] =>
        set (s1' := s1);
        assert (R : forall (k1 k2 : M unit),
                   confined on_tile k1 -> confined on_tile k2 ->
                   exists rest,
                     log (snd ((if c
                                then bind (soc_mask_gsysevtctl
                                             (Z.lnot (REG_BIT (hw_err_num hw_err))))
                                       (fun _ => k1)
                                else bind (soc_mask_gsysevtctl
                                             (Z.lnot (REG_BIT (hw_err_num hw_err))))
                                       (fun _ => k2)) s1'))
                     = log s1'
                         ++ gsysevtctl_writes (info_id (gt s1'))
                              (Z.lnot (REG_BIT (hw_err_num hw_err)))
                         ++ rest)
    end.
    { intros k1 k2 C1 C2.
      assert (G : forall k : M unit, confined on_tile k ->
                exists rest,
                  log (snd (bind (soc_mask_gsysevtctl
                                    (Z.lnot (REG_BIT (hw_err_num hw_err))))
                              (fun _ => k) s1'))
                  = log s1'
                      ++ gsysevtctl_writes (info_id (gt s1'))
                           (Z.lnot (REG_BIT (hw_err_num hw_err)))
                      ++ rest).
      { intros k Ck. rewrite bind_skip.
        destruct (soc_mask_run (Z.lnot (REG_BIT (hw_err_num hw_err))) s1')
          as [G L].
        destruct (Ck (snd (soc_mask_gsysevtctl
                             (Z.lnot (REG_BIT (hw_err_num hw_err))) s1')))
          as (_ & _ & l & Lk & _).
        exists l. rewrite Lk, L, <- app_assoc. reflexivity. }
      destruct (_ || _); [apply G, C1 | apply G, C2]. }
    match goal with
    | |- context [(if _ then bind _ (fun _ => ?k1) else bind _ (fun _ => ?k2)) _] =>
        destruct (R k1 k2) as [rest Hrest]; [confined_tac | confined_tac |]
    end.
    exists rest. rewrite Hrest. unfold s1'. cbn [log gt].
    rewrite <- app_assoc. reflexivity.
  - intros i Hi. destruct E as [pre ->].
    rewrite app_assoc, last_write_app. unfold gsysevtctl_writes.
    rewrite (last_write_gsysevtctl _ _ i _ Hi). reflexivity.
Qed.

(** *** Interrupts counted for the PMU *)

(** How many times pmu_irq_stats counted an interrupt. *)
Definition pmu_irq_count (l : list event) : Z :=
  Z.of_nat (length (List.filter is_pmu_irq_stats l)).

Definition not_pmu (_ : Z) (ev : event) : Prop := is_pmu_irq_stats ev = false.

Lemma pmu_irq_count_app (l1 l2 : list event) :
  pmu_irq_count (l1 ++ l2) = pmu_irq_count l1 + pmu_irq_count l2.
Proof.
  unfold pmu_irq_count. rewrite List.filter_app, List.length_app. lia.
Qed.

Lemma pmu_irq_count_none (t : Z) (l : list event) :
  Forall (not_pmu t) l -> pmu_irq_count l = 0.
Proof.
  intros H. unfold pmu_irq_count.
  induction H as [| ev r Hev _ IH]; [reflexivity |].
  cbn [List.filter]. unfold not_pmu in Hev. rewrite Hev. exact IH.
Qed.

Lemma confined_count {A : Type} (m : M A) (s : st) :
  confined not_pmu m ->
  pmu_irq_count (log (snd (m s))) = pmu_irq_count (log s).
Proof.
  intros C. destruct (C s) as (_ & _ & l & L & F).
  rewrite L, pmu_irq_count_app, (pmu_irq_count_none _ _ F). lia.
Qed.

Lemma confined_read_at (P : Z -> event -> Prop) (regs : Z) (r : reg) :
  (forall t v, P t (MmioRead regs r v)) -> confined P (raw_reg_read_at regs r).
Proof.
  intros H s. unfold raw_reg_read_at.
  destruct (mmio_read (hw s) regs r) as [v h]. cbn.
  repeat split. eexists. split; [reflexivity |].
  constructor; [apply H | constructor].
Qed.

Lemma confined_write_at (P : Z -> event -> Prop) (regs : Z) (r : reg)
    (v : Z) :
  (forall t, P t (MmioWrite regs r (u32 v))) ->
  confined P (raw_reg_write_at regs r v).
Proof.
  intros H s. unfold raw_reg_write_at. cbn.
  repeat split. eexists. split; [reflexivity |].
  constructor; [apply H | constructor].
Qed.

Lemma confined_call (P : Z -> event -> Prop) (f : ext_handler)
    (tile arg : Z) :
  (forall t, P t (Call f tile arg)) -> confined P (call_external f tile arg).
Proof.
  intros H s. unfold call_external. cbn.
  repeat split. eexists. split; [reflexivity |].
  constructor; [apply H | constructor].
Qed.

Lemma error_irq_not_pmu (master_ctl : Z) :
  confined not_pmu (gen12_hw_error_irq_handler master_ctl).
Proof.
  unfold gen12_hw_error_irq_handler. apply confined_for_each.
  intros hw_err. apply confined_when.
  apply confined_bind; [confined_tac | intros _].
  unfold gen12_hw_error_source_handler.
  apply confined_bind; [confined_tac | intros errsrc].
  destruct (errsrc =? 0); [confined_tac |].
  apply confined_bind; [confined_tac | intros _].
  apply confined_bind; [| intros _; confined_tac].
  apply confined_for_each. intros errbit.
  apply (confined_weaken error_event);
    [intros t ev (_ & _ & H); exact H |].
  apply source_bits_confined.
Qed.

Ltac top_step :=
  lazymatch goal with
  | |- confined _ (raw_reg_read_at _ _) => apply confined_read_at; event_ok
  | |- confined _ (raw_reg_write_at _ _ _) =>
      apply confined_write_at; event_ok
  | |- confined _ (call_external _ _ _) => apply confined_call; event_ok
  | |- confined _ (gen12_hw_error_irq_handler _) => apply error_irq_not_pmu
  | |- confined _ ?m =>
      first [ progress unfold gen11_master_intr_disable,
                gen11_master_intr_enable, gen11_display_irq_handler,
                gen11_gu_misc_irq_ack, gen11_gu_misc_irq_handler,
                gen12_iaf_irq_handler, dg1_master_intr_disable,
                dg1_master_intr_enable
            | confined_step ]
  end.

Ltac top_tac := repeat top_step.

(** The handler counted the interrupt exactly if it reports it handled. *)
Definition accounted (m : M irqreturn_t) : Prop :=
  forall s,
    pmu_irq_count (log (snd (m s)))
    = pmu_irq_count (log s)
      + match fst (m s) with IRQ_HANDLED => 1 | IRQ_NONE => 0 end.

Lemma accounted_bind {A : Type} (m : M A) (k : A -> M irqreturn_t) :
  confined not_pmu m -> (forall a, accounted (k a)) -> accounted (bind m k).
Proof.
  intros Hm Hk s. rewrite bind_skip, Hk, (confined_count m s Hm).
  reflexivity.
Qed.

Lemma gen11_enabled_accounted : accounted gen11_irq_handler_enabled.
Proof.
  unfold gen11_irq_handler_enabled. cbv zeta.
  apply accounted_bind; [top_tac | intros master_ctl].
  destruct (master_ctl =? 0).
  - apply accounted_bind; [top_tac | intros _].
    intros s. cbn. lia.
  - repeat (apply accounted_bind; [solve [top_tac] | intro]).
    intros s. cbn. rewrite pmu_irq_count_app.
    change (pmu_irq_count [PmuIrqStats]) with 1. lia.
Qed.

Lemma dg1_irq_tile_not_pmu (master_tile_ctl i gu_misc_iir : Z) :
  confined not_pmu (dg1_irq_tile master_tile_ctl i gu_misc_iir).
Proof. unfold dg1_irq_tile. top_tac. Qed.

Lemma dg1_for_each_gt_count (master_tile_ctl : Z)
    (gts : list (option intel_gt)) :
  forall (i gu_misc_iir : Z) (h : HW) (l : list event),
    pmu_irq_count
      (snd (dg1_for_each_gt master_tile_ctl i gts gu_misc_iir h l))
    = pmu_irq_count l.
Proof.
  induction gts as [| [g |] rest IH]; intros i gu h l;
    cbn [dg1_for_each_gt].
  - reflexivity.
  - pose proof (confined_count _ {| hw := h; gt := g; log := l |}
                  (dg1_irq_tile_not_pmu master_tile_ctl i gu)) as C.
    destruct (dg1_irq_tile master_tile_ctl i gu
                {| hw := h; gt := g; log := l |}) as [[iir |] s1].
    + specialize (IH (i + 1) iir (hw s1) (log s1)).
      destruct (dg1_for_each_gt master_tile_ctl (i + 1) rest iir (hw s1)
                  (log s1)) as [[[r1 rest1] h1] l1].
      cbn [snd log] in *. congruence.
    + cbn [snd log] in *. exact C.
  - specialize (IH (i + 1) gu h l).
    destruct (dg1_for_each_gt master_tile_ctl (i + 1) rest gu h l)
      as [[[r1 rest1] h1] l1].
    cbn [snd] in *. exact IH.
Qed.

(** X20: the PMU counts the interrupts that were handled.
    gen11_irq_handler counts one interrupt exactly when it returns
    IRQ_HANDLED, and none of the handlers it calls counts any.
    dg1_irq_handler counts none when it returns IRQ_NONE and at most one
    when it returns IRQ_HANDLED; it counts none of those it leaves from
    within the loop over the GTs, behind the message about DPC
    containment. *)
Theorem X20_pmu_counts_handled_interrupts (i915 : drm_i915_private) :
  let handled (r : irqreturn_t) : Z :=
    match r with IRQ_HANDLED => 1 | IRQ_NONE => 0 end in
  pmu_irq_count (dmesg (snd (gen11_irq_handler i915)))
  = pmu_irq_count (dmesg i915) + handled (fst (gen11_irq_handler i915))
  /\ (pmu_irq_count (dmesg (snd (dg1_irq_handler i915)))
      = pmu_irq_count (dmesg i915) + handled (fst (dg1_irq_handler i915))
      \/ (fst (dg1_irq_handler i915) = IRQ_HANDLED
          /\ pmu_irq_count (dmesg (snd (dg1_irq_handler i915)))
             = pmu_irq_count (dmesg i915)
          /\ last (dmesg (snd (dg1_irq_handler i915)))
             = Some (DevDbg dpc_containment))).
Proof.
  cbv zeta. split.
  - unfold gen11_irq_handler.
    destruct (intel_irqs_enabled i915); cbn [negb]; [| cbn; lia].
    pose proof (gen11_enabled_accounted (enter i915)) as H.
    destruct (gen11_irq_handler_enabled (enter i915)) as [r s].
    cbn [fst snd leave dmesg enter log] in *. exact H.
  - unfold dg1_irq_handler.
    destruct (intel_irqs_enabled i915); cbn [negb]; [| left; cbn; lia].
    assert (D : confined not_pmu
                  (dg1_master_intr_disable (uncore_regs (to_gt i915))))
      by top_tac.
    pose proof (confined_count _ (enter i915) D) as C0.
    destruct (dg1_master_intr_disable (uncore_regs (to_gt i915))
                (enter i915)) as [master_tile_ctl s] eqn:Ed.
    cbn [snd enter log] in C0.
    destruct (master_tile_ctl =? 0).
    + left. unfold dg1_master_intr_enable, raw_reg_write_at.
      cbn [fst snd leave dmesg log]. rewrite pmu_irq_count_app, C0.
      change (pmu_irq_count [_]) with 0. lia.
    + pose proof (confined_count _ s
                    (dg1_irq_tile_not_pmu master_tile_ctl 0 0)) as C1.
      destruct (dg1_irq_tile master_tile_ctl 0 0 s) as [[iir0 |] s0] eqn:E0;
        cbn [snd] in C1.
      * pose proof (dg1_for_each_gt_count master_tile_ctl (gt_others i915)
                      1 iir0 (hw s0) (log s0)) as C2.
        destruct (dg1_for_each_gt master_tile_ctl 1 (gt_others i915) iir0
                    (hw s0) (log s0)) as [[[[gu |] others] h] l] eqn:El;
          cbn [snd] in C2.
        -- left.
           match goal with
           | |- context [let '(_, s2) := ?m ?s1 in _] =>
               assert (C3 : pmu_irq_count (log (snd (m s1)))
                            = pmu_irq_count (log s1) + 1);
                 [| destruct (m s1) as [u s2]]
           end.
           { rewrite bind_skip, bind_skip.
             match goal with
             | |- context [emit PmuIrqStats ?s3] =>
                 assert (C4 : pmu_irq_count (log s3) = pmu_irq_count l)
             end.
             { assert (Ce : confined not_pmu
                              (dg1_master_intr_enable
                                 (uncore_regs (to_gt i915)))) by top_tac.
               assert (Cg : confined not_pmu (gen11_gu_misc_irq_handler gu))
                 by top_tac.
               rewrite (confined_count _ _ Cg), (confined_count _ _ Ce).
               reflexivity. }
             cbn [emit snd log]. rewrite pmu_irq_count_app, C4.
             change (pmu_irq_count [PmuIrqStats]) with 1. lia. }
           cbn [fst snd leave dmesg log] in *. lia.
        -- right. cbn [fst snd leave dmesg log]. split; [reflexivity |].
           split; [lia |].
           exact (dg1_for_each_gt_none _ _ _ _ _ _ _ _ _ El).
      * right. cbn [fst snd leave dmesg]. split; [reflexivity |].
        split; [lia |]. exact (dg1_irq_tile_none _ _ _ _ _ E0).
Qed.

End WithHardware.

Arguments hw {HW} _.
Arguments gt {HW} _.
Arguments log {HW} _.
Arguments uncore {HW} _.
Arguments to_gt {HW} _.
Arguments gt_others {HW} _.
Arguments intel_irqs_enabled {HW} _.
Arguments dmesg {HW} _.

(** ** A device for the examples *)

Definition decode {A : Type} (table : list (Z * A)) (n : Z) : option A :=
  option_map snd (List.find (fun p => fst p =? n) table).

(** A register layout: the numbers of the bits and the codes are those of
    no header in particular. *)
Definition sample_K : regdefs :=
  {| dev_err_bit :=
       decode [(0, DEV_ERR_STAT_GT_ERROR); (1, DEV_ERR_STAT_SGGI_ERROR);
               (8, DEV_ERR_STAT_GSC_ERROR); (12, DEV_ERR_STAT_SGUNIT_ERROR);
               (16, DEV_ERR_STAT_SOC_ERROR); (18, DEV_ERR_STAT_SGCI_ERROR);
               (20, DEV_ERR_STAT_MERT_ERROR)];
     DEV_ERR_STAT_MAX_BITS := 21;
     gt_cor_bit :=
       decode [(0, L3_SNG_COR_ERR); (1, GUC_COR_ERR); (12, SAMPLER_COR_ERR);
               (13, SLM_COR_ERR); (14, EU_IC_COR_ERR); (15, EU_GRF_COR_ERR)];
     gt_fat_bit :=
       decode [(0, ARRAY_BIST_FAT_ERR); (1, FPU_UNCORR_FAT_ERR);
               (2, L3_DOUBLE_FAT_ERR); (3, L3_ECC_CHK_FAT_ERR);
               (6, GUC_FAT_ERR); (7, IDI_PAR_FAT_ERR); (8, SQIDI_FAT_ERR);
               (12, SAMPLER_FAT_ERR); (13, SLM_FAT_ERR); (14, EU_IC_FAT_ERR);
               (15, EU_GRF_FAT_ERR)];
     GT_HW_ERROR_MAX_ERR_BITS := 16;
     PVC_COR_ERR_MASK := 8194;
     PVC_FAT_ERR_MASK := 41024;
     gt_vctr_index :=
       decode [(0, ERR_STAT_GT_VCTR0); (1, ERR_STAT_GT_VCTR1);
               (2, ERR_STAT_GT_VCTR2); (3, ERR_STAT_GT_VCTR3);
               (6, ERR_STAT_GT_VCTR6); (7, ERR_STAT_GT_VCTR7)];
     ERR_STAT_GT_COR_VCTR_LEN := 4;
     ERR_STAT_GT_FATAL_VCTR_LEN := 8;
     gsc_cor_bit :=
       decode [(0, GSC_COR_SRAM_ECC_SINGLE_BIT_ERR);
               (1, GSC_COR_FW_REPORTED_ERR)];
     gsc_uncor_bit :=
       decode [(0, GSC_UNCOR_MIA_SHUTDOWN_ERR); (1, GSC_UNCOR_MIA_INT_ERR);
               (2, GSC_UNCOR_SRAM_ECC_ERR); (3, GSC_UNCOR_WDG_TIMEOUT_ERR);
               (4, GSC_UNCOR_ROM_PARITY_ERR);
               (5, GSC_UNCOR_UCODE_PARITY_ERR);
               (6, GSC_UNCOR_FW_REPORTED_ERR);
               (7, GSC_UNCOR_GLITCH_DET_ERR); (8, GSC_UNCOR_FUSE_PULL_ERR);
               (9, GSC_UNCOR_FUSE_CRC_CHECK_ERR);
               (10, GSC_UNCOR_SELFMBIST_ERR);
               (11, GSC_UNCOR_AON_PARITY_ERR)];
     GSC_HW_ERROR_MAX_ERR_BITS := 14;
     bank_cause_code :=
       decode [(1, BANK_SPARNG_ERR_MITIGATION_DOWNGRADED);
               (2, BANK_SPARNG_DIS_PCLS_EXCEEDED);
               (4, BANK_SPARNG_ENA_PCLS_UNCORRECTABLE);
               (8, BANK_CORRECTABLE_ERROR)];
     hbm_event_code :=
       decode [(1, UC_DEMAND_ACCESS); (2, PATROL_SCRUB_ERROR);
               (3, PCLS_EXCEEDED); (4, PCLS_SAME_CACHELINE)];
     EVENT_MASK := 31; TILE_MASK := 32; CHANNEL_MASK := 1984;
     PSEUDOCHANNEL_MASK := 2048; ROW_MASK := 1073737728;
     COLUMN_MASK := 1023; BANK_MASK := 64512; OLDSTATE_MASK := 983040;
     NEWSTATE_MASK := 15728640;
     SOC_SLAVE_IEH := 1;
     SOC_IEH0_LOCAL_ERR_STATUS := 0;
     SOC_IEH1_LOCAL_ERR_STATUS := 0;
     PVC_SOC_MDFI_EAST := 4;
     PVC_SOC_MDFI_SOUTH := 6;
     SOC_HW_ERR_MAX_BITS := 32;
     INTEL_GT_SOC_NUM_IEH := 2;
     INTEL_GT_SOC_IEH0 := 0; INTEL_GT_SOC_IEH1 := 1;
     INTEL_SOC_REG_LOCAL := 0; INTEL_SOC_REG_GLOBAL := 1;
     SOC_ERR_INDEX := fun ieh reg_type hw_err errbit =>
       ((ieh * 2 + reg_type) * 3 + hw_err_num hw_err) * 32 + errbit;
     MDFI_SEVERITY := fun hw_err => hw_err_num hw_err;
     soc_err_index_to_str := fun _ => "Undefined"%string;
     GEN12_ERROR_IRQ := fun hw_err => REG_BIT (26 + hw_err_num hw_err);
     GEN12_IAF_IRQ := REG_BIT 8;
     GEN11_DISPLAY_IRQ := REG_BIT 16;
     GEN11_GU_MISC_IRQ := REG_BIT 29;
     GEN11_GU_MISC_GSE := REG_BIT 27;
     GEN11_MASTER_IRQ := REG_BIT 31;
     GEN11_DISPLAY_IRQ_ENABLE := REG_BIT 31;
     DG1_MSTR_IRQ := REG_BIT 31;
     DG1_MSTR_TILE := fun t => REG_BIT t;
     PRELIM_I915_MEMORY_HEALTH_UEVENT := "MEMORY_HEALTH" |}.

(** Ponte Vecchio, and a platform without error vectors and without
    memory sparing. *)
Definition pvc : platform :=
  {| IS_PONTEVECCHIO := true; HAS_GT_ERROR_VECTORS := true;
     HAS_MEM_SPARING_SUPPORT := true; CPTCFG_DRM_I915_DISPLAY := false |}.

Definition dg1 : platform :=
  {| IS_PONTEVECCHIO := false; HAS_GT_ERROR_VECTORS := false;
     HAS_MEM_SPARING_SUPPORT := false; CPTCFG_DRM_I915_DISPLAY := true |}.

(** A device whose registers show the same values whatever is read or
    written, and on which the handlers of the other files do nothing. *)
Definition regfile : Type := Z -> reg -> Z.

Definition rf_read (h : regfile) (regs : Z) (r : reg) : Z * regfile :=
  (h regs r, h).

Definition rf_write (h : regfile) (regs : Z) (r : reg) (v : Z) : regfile :=
  h.

Definition rf_external (f : ext_handler) (tile arg : Z) (h : regfile)
  : regfile := h.

Definition store_ok (m : gmap Z Z) (index : Z) : bool := false.

(** A GT with all counters at zero. *)
Definition fresh_gt (id : Z) : intel_gt :=
  {| info_id := id; is_media := false;
     errors_hw := fun _ => 0; errors_gsc_hw := fun _ => 0;
     errors_sgunit := fun _ => 0; errors_soc := ∅;
     mem_sparing_cause := 0;
     mem_sparing_health_status := MEM_HEALTH_OKAY |}.

Definition boot (h : regfile) : st regfile :=
  {| hw := h; gt := fresh_gt 0; log := [] |}.

(** *** C5: blank status registers *)

Definition all_blank : regfile := fun _ _ => 0.

Lemma C5_blank_status_logged_witness :
  snd (gen12_hw_error_source_handler regfile rf_read rf_write store_ok
         sample_K dg1 HARDWARE_ERROR_CORRECTABLE (boot all_blank))
  = {| hw := all_blank; gt := fresh_gt 0;
       log := [MmioRead 0 (DEV_ERR_STAT_REG HARDWARE_ERROR_CORRECTABLE) 0;
               LogDriverError blank_dev_err_stat] |}
  /\ snd (gen12_gt_hw_error_handler regfile rf_read rf_write sample_K dg1
            HARDWARE_ERROR_CORRECTABLE (boot all_blank))
     = {| hw := all_blank; gt := fresh_gt 0;
          log := [MmioRead 0 (ERR_STAT_GT_REG HARDWARE_ERROR_CORRECTABLE) 0;
                  LogDriverError blank_err_stat_gt] |}.
Proof.
  destruct (C5_blank_status_logged regfile rf_read rf_write store_ok
              sample_K dg1 HARDWARE_ERROR_CORRECTABLE (boot all_blank))
    as [H1 H2].
  exact (conj (H1 eq_refl) (H2 eq_refl eq_refl)).
Defined.

(** *** C7: the uncorrectable cause

    The GSC reports a firmware error (status bit 1) and the firmware word
    holds the code of the uncorrectable cause. *)
Definition uncorrectable_report : regfile :=
  fun _ r =>
    match r with
    | GSC_HEC_CORR_UNCORR_ERR_STATUS HARDWARE_ERROR_CORRECTABLE => 2
    | GSC_HEC_CORR_FW_ERR_DW0 => 4
    | _ => 0
    end.

Definition after_gsc_irq : st regfile :=
  snd (gen12_gsc_hw_error_handler regfile rf_read rf_write sample_K pvc
         HARDWARE_ERROR_CORRECTABLE (boot uncorrectable_report)).

Definition after_health_work : st regfile :=
  snd (gen12_mem_health_work regfile sample_K after_gsc_irq).

Example uncorrectable_report_log :
  log after_health_work
  = [MmioRead 0 (GSC_HEC_CORR_UNCORR_ERR_STATUS HARDWARE_ERROR_CORRECTABLE) 2;
     MmioRead 0 GSC_HEC_CORR_FW_ERR_DW0 4;
     DrmErr gsc_fw_error;
     MmioRead 0 SWF_0 0;
     MmioRead 0 SWF_1 0;
     DevCrit unrepairable_fault;
     MmioWrite 0 SWF_0 0;
     MmioWrite 0 SWF_1 0;
     ScheduleWork mem_health_work;
     MmioWrite 0 (GSC_HEC_CORR_UNCORR_ERR_STATUS HARDWARE_ERROR_CORRECTABLE) 2;
     AddTaint;
     Uevent ["MEMORY_HEALTH=1"; "DEGRADED=1 EC_FAILED=1"]%string].
Proof. vm_compute. reflexivity. Qed.

Lemma C7_counterexample :
  ~ uncorrectable_cause_counted regfile rf_read rf_write sample_K pvc
      (boot uncorrectable_report).
Proof.
  unfold uncorrectable_cause_counted, some_counter_stepped.
  intros [[e H] | [[e H] | [[c H] | [i H]]]].
  - destruct e; vm_compute in H; discriminate H.
  - destruct e; vm_compute in H; discriminate H.
  - destruct c; vm_compute in H; discriminate H.
  - cbn in H. rewrite lookup_empty in H. discriminate H.
Qed.

Lemma C7_uncorrectable_notified_once_witness :
  log after_gsc_irq
  = log (boot uncorrectable_report)
    ++ [MmioRead 0
          (GSC_HEC_CORR_UNCORR_ERR_STATUS HARDWARE_ERROR_CORRECTABLE) 2;
        MmioRead 0 GSC_HEC_CORR_FW_ERR_DW0 4;
        DrmErr gsc_fw_error;
        MmioRead 0 SWF_0 0;
        MmioRead 0 SWF_1 0;
        DevCrit unrepairable_fault;
        MmioWrite 0 SWF_0 0;
        MmioWrite 0 SWF_1 0;
        ScheduleWork mem_health_work;
        MmioWrite 0
          (GSC_HEC_CORR_UNCORR_ERR_STATUS HARDWARE_ERROR_CORRECTABLE) 2]
  /\ mem_sparing_cause (gt after_gsc_irq) = 4
  /\ log after_health_work
     = log after_gsc_irq
       ++ [AddTaint;
           Uevent (health_event sample_K "DEGRADED=1 EC_FAILED=1")]
  /\ mem_sparing_health_status (gt after_health_work) = MEM_HEALTH_DEGRADED
  /\ mem_sparing_cause (gt after_health_work) = 0
  /\ snd (gen12_mem_health_work regfile sample_K after_health_work)
     = after_health_work
  /\ same_counters (gt after_health_work) (gt (boot uncorrectable_report)).
Proof.
  apply (C7_uncorrectable_notified_once regfile rf_read rf_write sample_K pvc
           (boot uncorrectable_report) 1).
  - reflexivity.
  - reflexivity.
  - reflexivity.
  - reflexivity.
  - reflexivity.
  - discriminate.
  - reflexivity.
Defined.

(** *** C4: the master enable

    Tile 0 is pending in the tile register and its master control reads
    all ones, as every register of a device in DPC containment does. *)
Definition device_in_dpc : regfile :=
  fun _ r =>
    match r with
    | DG1_MSTR_TILE_INTR => 1
    | GEN11_GFX_MSTR_IRQ => 4294967295
    | _ => 0
    end.

Definition probe (h : regfile) : drm_i915_private regfile :=
  {| uncore := h; to_gt := fresh_gt 0; gt_others := [];
     intel_irqs_enabled := true; dmesg := [] |}.

Example dg1_in_dpc_returns_early :
  fst (dg1_irq_handler regfile rf_read rf_write rf_external store_ok
         sample_K pvc (probe device_in_dpc)) = IRQ_HANDLED
  /\ dmesg (snd (dg1_irq_handler regfile rf_read rf_write rf_external
                   store_ok sample_K pvc (probe device_in_dpc)))
     = [MmioWrite 0 DG1_MSTR_TILE_INTR 0;
        MmioRead 0 DG1_MSTR_TILE_INTR 1;
        MmioWrite 0 DG1_MSTR_TILE_INTR 1;
        MmioRead 0 GEN11_GFX_MSTR_IRQ 4294967295;
        DevDbg dpc_containment].
Proof. split; vm_compute; reflexivity. Qed.

Lemma C4_counterexample :
  ~ dg1_reenables_on_every_return regfile rf_read rf_write rf_external
      store_ok sample_K pvc.
Proof.
  intros H. specialize (H (probe device_in_dpc) eq_refl).
  vm_compute in H. discriminate H.
Qed.

(** A device with tile 0 pending and nothing to serve on it. *)
Definition idle_tile : regfile :=
  fun _ r =>
    match r with
    | DG1_MSTR_TILE_INTR => 1
    | _ => 0
    end.

Lemma C4_master_reenabled_witness :
  last_write i915_uncore_regs GEN11_GFX_MSTR_IRQ
    (dmesg (snd (gen11_irq_handler regfile rf_read rf_write rf_external
                   sample_K dg1 (probe idle_tile))))
  = Some (u32 (GEN11_MASTER_IRQ sample_K))
  /\ (last_write (uncore_regs (to_gt (probe idle_tile))) DG1_MSTR_TILE_INTR
        (dmesg (snd (dg1_irq_handler regfile rf_read rf_write rf_external
                       store_ok sample_K dg1 (probe idle_tile))))
      = Some (u32 (DG1_MSTR_IRQ sample_K))
      \/ (fst (dg1_irq_handler regfile rf_read rf_write rf_external store_ok
                 sample_K dg1 (probe idle_tile)) = IRQ_HANDLED
          /\ last (dmesg (snd (dg1_irq_handler regfile rf_read rf_write
                                 rf_external store_ok sample_K dg1
                                 (probe idle_tile))))
             = Some (DevDbg dpc_containment))).
Proof.
  exact (C4_master_reenabled regfile rf_read rf_write rf_external store_ok
           sample_K dg1 (probe idle_tile) eq_refl).
Defined.

Example dg1_idle_tile_log :
  dmesg (snd (dg1_irq_handler regfile rf_read rf_write rf_external store_ok
                sample_K dg1 (probe idle_tile)))
  = [MmioWrite 0 DG1_MSTR_TILE_INTR 0;
     MmioRead 0 DG1_MSTR_TILE_INTR 1;
     MmioWrite 0 DG1_MSTR_TILE_INTR 1;
     MmioRead 0 GEN11_GFX_MSTR_IRQ 0;
     MmioWrite 0 GEN11_GFX_MSTR_IRQ 0;
     Call gen11_gt_irq_handler 0 0;
     MmioWrite 0 DG1_MSTR_TILE_INTR 2147483648;
     PmuIrqStats].
Proof. vm_compute. reflexivity. Qed.

(** *** C6: the SLM counter outside Ponte Vecchio

    The correctable status word shows the SLM bit (bit 13); the
    hardware's SLM error count reads 5 at the first interrupt and 2 at
    the second. *)
Definition slm_count (n : Z) : regfile :=
  fun _ r =>
    match r with
    | SLM_ECC_ERROR_CNTR HARDWARE_ERROR_CORRECTABLE => n
    | _ => 0
    end.

Definition slm_irq : hardware_error * Z := (HARDWARE_ERROR_CORRECTABLE, 8192).

Definition after_first_slm : st regfile :=
  snd (gt_stats_update regfile rf_read sample_K dg1 slm_irq
         (boot (slm_count 5))).

(** The hardware's count has restarted by the time of the second
    interrupt. *)
Definition before_second_slm : st regfile :=
  {| hw := slm_count 2; gt := gt after_first_slm;
     log := log after_first_slm |}.

Definition after_second_slm : st regfile :=
  snd (gt_stats_update regfile rf_read sample_K dg1 slm_irq
         before_second_slm).

Example slm_counter_follows_hardware :
  observed sample_K dg1 HARDWARE_ERROR_CORRECTABLE INTEL_GT_HW_ERROR_COR_SLM
    8192 = 1
  /\ errors_hw (gt after_first_slm) INTEL_GT_HW_ERROR_COR_SLM = 5
  /\ errors_hw (gt after_second_slm) INTEL_GT_HW_ERROR_COR_SLM = 2.
Proof. repeat split; vm_compute; reflexivity. Qed.

Lemma C6_counterexample :
  ~ counters_count_as_claimed regfile rf_read sample_K dg1.
Proof.
  intros H.
  destruct (H INTEL_GT_HW_ERROR_COR_SLM [slm_irq] before_second_slm)
    as [Hmono _].
  assert (Hle : 5 <= 2).
  { apply Hmono; vm_compute; [split |]; congruence. }
  lia.
Qed.

Lemma C6_counters_count_observations_witness :
  let e := INTEL_GT_HW_ERROR_COR_GUC in
  let l := [(HARDWARE_ERROR_CORRECTABLE, 2); (HARDWARE_ERROR_FATAL, 64);
            (HARDWARE_ERROR_CORRECTABLE, 8194)] in
  let s := boot all_blank in
  let s1 := snd (for_each regfile l
                   (gt_stats_update regfile rf_read sample_K pvc) s) in
  counts_events pvc e
  /\ is_ulong (errors_hw (gt s) e)
  /\ errors_hw (gt s1) e
     = u64 (errors_hw (gt s) e + observations sample_K pvc e l)
  /\ observations sample_K pvc e l = 2
  /\ errors_hw (gt s1) e = 2.
Proof.
  intros e l s s1.
  assert (Hside : counts_events pvc e) by (intros H; discriminate H).
  assert (Hr : is_ulong (errors_hw (gt s) e))
    by (vm_compute; split; congruence).
  destruct (C6_counters_count_observations regfile rf_read rf_write store_ok
              sample_K pvc e l s 0 Hside Hr) as [H _].
  split; [exact Hside |]. split; [exact Hr |]. split; [exact H |].
  split; vm_compute; reflexivity.
Defined.

(** *** Acknowledging and unmasking *)

(** The fatal status of the device shows an SGunit error. *)
Definition sgunit_fatal : regfile :=
  fun _ r =>
    match r with
    | DEV_ERR_STAT_REG HARDWARE_ERROR_FATAL => 4096
    | _ => 0
    end.

Example sgunit_fatal_log :
  log (snd (gen12_hw_error_source_handler regfile rf_read rf_write store_ok
              sample_K pvc HARDWARE_ERROR_FATAL (boot sgunit_fatal)))
  = [MmioRead 0 (DEV_ERR_STAT_REG HARDWARE_ERROR_FATAL) 4096;
     LogHwErr "DEV_ERR_STAT_REG_%s:0x%08lx\n";
     LogDriverError "%s %s error\n";
     MmioWrite 0 (DEV_ERR_STAT_REG HARDWARE_ERROR_FATAL) 4096].
Proof. vm_compute. reflexivity. Qed.

Lemma X18_error_status_acked_as_read_witness :
  exists mid,
    log (snd (gen12_hw_error_source_handler regfile rf_read rf_write store_ok
                sample_K pvc HARDWARE_ERROR_FATAL (boot sgunit_fatal)))
    = [] ++ MmioRead 0 (DEV_ERR_STAT_REG HARDWARE_ERROR_FATAL) (u32 4096)
         :: mid
         ++ [MmioWrite 0 (DEV_ERR_STAT_REG HARDWARE_ERROR_FATAL) (u32 4096)]
    /\ forall ev, In ev mid ->
         on_tile 0 ev
         /\ match ev with
            | MmioWrite _ (DEV_ERR_STAT_REG _) _ => False
            | _ => True
            end.
Proof.
  assert (H : u32 4096 <> 0) by (vm_compute; discriminate).
  exact (X18_error_status_acked_as_read regfile rf_read rf_write store_ok
           sample_K pvc HARDWARE_ERROR_FATAL (boot sgunit_fatal) 4096
           sgunit_fatal eq_refl H).
Defined.

Example soc_fatal_log :
  log (snd (gen12_soc_hw_error_handler regfile rf_read rf_write store_ok
              sample_K pvc HARDWARE_ERROR_FATAL (boot all_blank)))
  = [LogHwErr "SOC %s error\n";
     MmioWrite 0 (SOC_GSYSEVTCTL_REG 0) (u32 (Z.lnot 4));
     MmioWrite 0 (SOC_GSYSEVTCTL_REG 1) (u32 (Z.lnot 4));
     MmioRead 0 (SOC_GLOBAL_ERR_STAT_MASTER_REG HARDWARE_ERROR_FATAL) 0;
     LogHwErr "SOC_GLOBAL_ERR_STAT_MASTER_REG_%s:0x%08lx\n";
     MmioWrite 0 (SOC_GLOBAL_ERR_STAT_MASTER_REG HARDWARE_ERROR_FATAL) 0;
     MmioWrite 0 (SOC_GSYSEVTCTL_REG 0) 7;
     MmioWrite 0 (SOC_GSYSEVTCTL_REG 1) 7].
Proof. vm_compute. reflexivity. Qed.

Lemma X19_soc_errors_unmasked_on_return_witness :
  last_write 0 (SOC_GSYSEVTCTL_REG 1)
    (log (snd (gen12_soc_hw_error_handler regfile rf_read rf_write store_ok
                 sample_K pvc HARDWARE_ERROR_FATAL (boot all_blank))))
  = Some (u32 7).
Proof.
  assert (H : In 1 (indices (INTEL_GT_SOC_NUM_IEH sample_K)))
    by (right; left; reflexivity).
  exact (proj2 (proj2 (X19_soc_errors_unmasked_on_return regfile rf_read
                         rf_write store_ok sample_K pvc HARDWARE_ERROR_FATAL
                         (boot all_blank) eq_refl))
           1 H).
Defined.

(** ** The interrupt mask of a display pipe *)

(** What bdw_update_pipe_irq does to the outside world. *)
Inductive pipe_event : Type :=
| PipeWarn (cond : string)                 (* drm_WARN_ON *)
| PipeImrWrite (pipe : Z) (v : Z)          (* GEN8_DE_PIPE_IMR(pipe) *)
| PipeImrPostingRead (pipe : Z).

(** The device as the pipe interrupt code sees it: whether interrupts
    are enabled, the cached masks [de_irq_mask[]], the mask registers of
    the hardware, and what was done. *)
Record pipe_irqs : Type := {
  pipe_irqs_enabled : bool;        (* intel_irqs_enabled(dev_priv) *)
  de_irq_mask : Z -> Z;
  pipe_imr : Z -> Z;
  pipe_log : list pipe_event
}.

Definition pipe_warn (cond : string) (d : pipe_irqs) : pipe_irqs :=
  {| pipe_irqs_enabled := pipe_irqs_enabled d; de_irq_mask := de_irq_mask d;
     pipe_imr := pipe_imr d; pipe_log := pipe_log d ++ [PipeWarn cond] |}.

(** drm_WARN_ON(&dev_priv->drm, c) *)
Definition pipe_warn_on (c : bool) (cond : string) (d : pipe_irqs)
  : pipe_irqs :=
  if c then pipe_warn cond d else d.

(** bdw_update_pipe_irq; its arguments are [u32]. *)
Definition bdw_update_pipe_irq (d : pipe_irqs) (pipe : Z)
    (interrupt_mask enabled_irq_mask : Z) : pipe_irqs :=
  let interrupt_mask := u32 interrupt_mask in
  let enabled_irq_mask := u32 enabled_irq_mask in
  let d1 :=
    pipe_warn_on
      (negb (Z.land enabled_irq_mask (u32 (Z.lnot interrupt_mask)) =? 0))
      "enabled_irq_mask & ~interrupt_mask" d in
  if negb (pipe_irqs_enabled d1)
  then pipe_warn_on true "!intel_irqs_enabled(dev_priv)" d1
  else
    let new_val := de_irq_mask d1 pipe in
    let new_val := Z.land new_val (u32 (Z.lnot interrupt_mask)) in
    let new_val :=
      Z.lor new_val (Z.land (u32 (Z.lnot enabled_irq_mask)) interrupt_mask) in
    if negb (new_val =? de_irq_mask d1 pipe)
    then
      {| pipe_irqs_enabled := pipe_irqs_enabled d1;
         de_irq_mask := fun p => if p =? pipe then new_val
                                 else de_irq_mask d1 p;
         pipe_imr := fun p => if p =? pipe then new_val else pipe_imr d1 p;
         pipe_log := pipe_log d1 ++ [PipeImrWrite pipe new_val;
                                     PipeImrPostingRead pipe] |}
    else d1.

(** bdw_enable_pipe_irq *)
Definition bdw_enable_pipe_irq (d : pipe_irqs) (pipe bits : Z) : pipe_irqs :=
  bdw_update_pipe_irq d pipe bits bits.

(** bdw_disable_pipe_irq *)
Definition bdw_disable_pipe_irq (d : pipe_irqs) (pipe bits : Z) : pipe_irqs :=
  bdw_update_pipe_irq d pipe bits 0.

Inductive pipe_call : Type :=
| EnablePipeIrq (pipe bits : Z)
| DisablePipeIrq (pipe bits : Z).

Definition pipe_step (d : pipe_irqs) (c : pipe_call) : pipe_irqs :=
  match c with
  | EnablePipeIrq pipe bits => bdw_enable_pipe_irq d pipe bits
  | DisablePipeIrq pipe bits => bdw_disable_pipe_irq d pipe bits
  end.

(** The cached masks are 32 bits wide and are what the registers hold. *)
Definition pipe_coherent (d : pipe_irqs) : Prop :=
  forall p, de_irq_mask d p = pipe_imr d p /\ 0 <= de_irq_mask d p < 2 ^ 32.

Definition is_imr_write (ev : pipe_event) : bool :=
  match ev with
  | PipeImrWrite _ _ => true
  | _ => false
  end.

Lemma u32_bits (x b : Z) :
  0 <= b -> Z.testbit (u32 x) b = (b <? 32) && Z.testbit x b.
Proof.
  intros Hb. unfold u32, wrap.
  destruct (Z.ltb_spec b 32); cbn [andb].
  - apply Z.mod_pow2_bits_low. lia.
  - apply Z.mod_pow2_bits_high. lia.
Qed.

Lemma u32_range (x : Z) : 0 <= u32 x < 2 ^ 32.
Proof. unfold u32, wrap. apply Z.mod_pos_bound. lia. Qed.

Lemma bits_above_u32 (x b : Z) :
  0 <= x < 2 ^ 32 -> 32 <= b -> Z.testbit x b = false.
Proof.
  intros Hx Hb. destruct (Z.eq_dec x 0) as [-> | Hne]; [apply Z.bits_0 |].
  apply Z.bits_above_log2; [lia |].
  assert (Z.log2 x < 32) by (apply Z.log2_lt_pow2; lia). lia.
Qed.

Lemma range_of_bits (x : Z) :
  0 <= x -> (forall b, 32 <= b -> Z.testbit x b = false) -> x < 2 ^ 32.
Proof.
  intros Hx Hb. destruct (Z.eq_dec x 0) as [-> | Hne]; [lia |].
  apply Z.log2_lt_pow2; [lia |].
  destruct (Z_lt_le_dec (Z.log2 x) 32) as [H | H]; [exact H |].
  pose proof (Z.bit_log2 x ltac:(lia)) as B. rewrite Hb in B by exact H.
  discriminate B.
Qed.

(** The new mask of bdw_update_pipe_irq, bit by bit. *)
Lemma pipe_new_val_bits (old interrupt_mask enabled_irq_mask b : Z) :
  0 <= old < 2 ^ 32 -> 0 <= b ->
  Z.testbit
    (Z.lor (Z.land old (u32 (Z.lnot (u32 interrupt_mask))))
       (Z.land (u32 (Z.lnot (u32 enabled_irq_mask))) (u32 interrupt_mask))) b
  = if Z.testbit (u32 interrupt_mask) b
    then negb (Z.testbit (u32 enabled_irq_mask) b)
    else Z.testbit old b.
Proof.
  intros Ho Hb.
  rewrite Z.lor_spec, !Z.land_spec, !u32_bits, !Z.lnot_spec, !u32_bits by lia.
  destruct (Z.ltb_spec b 32); cbn [andb].
  - destruct (Z.testbit interrupt_mask b), (Z.testbit enabled_irq_mask b),
      (Z.testbit old b); reflexivity.
  - rewrite (bits_above_u32 old b Ho) by lia. reflexivity.
Qed.

Lemma pipe_new_val_range (old interrupt_mask enabled_irq_mask : Z) :
  0 <= old < 2 ^ 32 ->
  0 <= Z.lor (Z.land old (u32 (Z.lnot (u32 interrupt_mask))))
         (Z.land (u32 (Z.lnot (u32 enabled_irq_mask))) (u32 interrupt_mask))
  < 2 ^ 32.
Proof.
  intros Ho.
  pose proof (u32_range (Z.lnot (u32 interrupt_mask))).
  pose proof (u32_range (Z.lnot (u32 enabled_irq_mask))).
  pose proof (u32_range interrupt_mask).
  assert (N : 0 <= Z.lor (Z.land old (u32 (Z.lnot (u32 interrupt_mask))))
                     (Z.land (u32 (Z.lnot (u32 enabled_irq_mask)))
                        (u32 interrupt_mask))).
  { apply Z.lor_nonneg. split; apply Z.land_nonneg; left; lia. }
  split; [exact N |]. apply range_of_bits; [exact N |].
  intros b Hb. rewrite pipe_new_val_bits by lia.
  rewrite !u32_bits by lia.
  destruct (Z.ltb_spec b 32); [lia |]. cbn [andb].
  apply bits_above_u32; [exact Ho | lia].
Qed.

Lemma pipe_warn_on_same (c : bool) (cond : string) (d : pipe_irqs) :
  pipe_irqs_enabled (pipe_warn_on c cond d) = pipe_irqs_enabled d
  /\ de_irq_mask (pipe_warn_on c cond d) = de_irq_mask d
  /\ pipe_imr (pipe_warn_on c cond d) = pipe_imr d
  /\ List.filter is_imr_write (pipe_log (pipe_warn_on c cond d))
     = List.filter is_imr_write (pipe_log d).
Proof.
  destruct c; cbn; repeat split.
  rewrite List.filter_app. cbn. apply app_nil_r.
Qed.

(** One call, as the masks and the registers see it. *)
Lemma update_pipe_outcome (d : pipe_irqs) (pipe im en : Z) :
  let d' := bdw_update_pipe_irq d pipe im en in
  let new_val :=
    Z.lor (Z.land (de_irq_mask d pipe) (u32 (Z.lnot (u32 im))))
      (Z.land (u32 (Z.lnot (u32 en))) (u32 im)) in
  pipe_irqs_enabled d' = pipe_irqs_enabled d
  /\ (if pipe_irqs_enabled d
      then de_irq_mask d' pipe = new_val
           /\ (pipe_imr d' pipe = new_val \/
               (new_val = de_irq_mask d pipe
                /\ pipe_imr d' pipe = pipe_imr d pipe))
           /\ (new_val = de_irq_mask d pipe ->
               List.filter is_imr_write (pipe_log d')
               = List.filter is_imr_write (pipe_log d))
      else de_irq_mask d' = de_irq_mask d /\ pipe_imr d' = pipe_imr d
           /\ List.filter is_imr_write (pipe_log d')
              = List.filter is_imr_write (pipe_log d))
  /\ (forall p, p <> pipe ->
        de_irq_mask d' p = de_irq_mask d p /\ pipe_imr d' p = pipe_imr d p).
Proof.
  cbv zeta. unfold bdw_update_pipe_irq. cbv zeta.
  match goal with
  | |- context [pipe_warn_on ?c ?m d] =>
      destruct (pipe_warn_on_same c m d) as (W1 & W2 & W3 & W4);
        set (d1 := pipe_warn_on c m d) in *
  end.
  rewrite W1, W2. destruct (pipe_irqs_enabled d) eqn:En; cbn [negb].
  - match goal with
    | |- context [negb (?n =? ?o)] => destruct (Z.eqb_spec n o) as [E | N]
    end; cbn [negb].
    + split; [first [exact W1 | reflexivity] |]. split.
      * rewrite ?W2, ?W3. split; [symmetry; exact E |].
        split; [right; split; [exact E | reflexivity] |].
        intros _. exact W4.
      * intros p Hp. rewrite ?W2, ?W3. split; reflexivity.
    + cbn [pipe_irqs_enabled de_irq_mask pipe_imr pipe_log].
      rewrite Z.eqb_refl. split; [first [exact W1 | reflexivity] |]. split.
      * split; [reflexivity |]. split; [left; reflexivity |].
        intros E. contradiction.
      * intros p Hp. destruct (Z.eqb_spec p pipe); [contradiction |].
        rewrite ?W2, ?W3. split; reflexivity.
  - destruct (pipe_warn_on_same true "!intel_irqs_enabled(dev_priv)" d1)
      as (V1 & V2 & V3 & V4).
    rewrite ?V1, ?V2, ?V3, ?V4, ?W1, ?W2, ?W3, ?W4. repeat split.
Qed.

Lemma update_pipe_coherent (d : pipe_irqs) (pipe im en : Z) :
  pipe_coherent d -> pipe_coherent (bdw_update_pipe_irq d pipe im en).
Proof.
  intros H p.
  destruct (update_pipe_outcome d pipe im en) as (_ & O & Other).
  destruct (Z.eq_dec p pipe) as [-> | Hp].
  - destruct (H pipe) as [Hm Hr].
    destruct (pipe_irqs_enabled d).
    + destruct O as (O1 & O2 & _). rewrite O1. split.
      * destruct O2 as [-> | [E ->]]; [reflexivity |]. rewrite E. exact Hm.
      * apply pipe_new_val_range. exact Hr.
    + destruct O as (-> & -> & _). apply H.
  - destruct (Other p Hp) as [-> ->]. apply H.
Qed.

(** X21: the cached interrupt mask of a pipe is what its mask register
    holds.  Along any sequence of bdw_enable_pipe_irq and
    bdw_disable_pipe_irq the cache and the registers stay equal; with
    interrupts enabled an update sets the mask bit of every interrupt of
    [interrupt_mask] that is not to be enabled, clears it for those that
    are, and leaves the other bits and the other pipes alone; and the
    register is written only when the mask changes, so that a repeated
    call writes nothing. *)
Theorem X21_pipe_mask_cache_coherent (d : pipe_irqs)
    (calls : list pipe_call) (pipe interrupt_mask enabled_irq_mask : Z) :
  pipe_coherent d ->
  let d1 := fold_left pipe_step calls d in
  let d2 := bdw_update_pipe_irq d1 pipe interrupt_mask enabled_irq_mask in
  pipe_coherent d1
  /\ pipe_coherent d2
  /\ (pipe_irqs_enabled d = true ->
      forall b, 0 <= b ->
        Z.testbit (pipe_imr d2 pipe) b
        = if Z.testbit (u32 interrupt_mask) b
          then negb (Z.testbit (u32 enabled_irq_mask) b)
          else Z.testbit (pipe_imr d1 pipe) b)
  /\ (forall p, p <> pipe -> pipe_imr d2 p = pipe_imr d1 p)
  /\ List.filter is_imr_write
       (pipe_log (bdw_update_pipe_irq d2 pipe interrupt_mask
                    enabled_irq_mask))
     = List.filter is_imr_write (pipe_log d2).
Proof.
  intros H d1 d2.
  assert (H1 : pipe_coherent d1).
  { unfold d1. clear d1 d2. revert d H.
    induction calls as [| c r IH]; intros d H; cbn [fold_left];
      [exact H |].
    apply IH. destruct c; apply update_pipe_coherent, H. }
  assert (En : pipe_irqs_enabled d1 = pipe_irqs_enabled d).
  { unfold d1. clear. revert d.
    induction calls as [| c r IH]; intros d; cbn [fold_left];
      [reflexivity |].
    rewrite IH. destruct c; cbn [pipe_step];
      unfold bdw_enable_pipe_irq, bdw_disable_pipe_irq;
      apply update_pipe_outcome. }
  pose proof (update_pipe_coherent d1 pipe interrupt_mask enabled_irq_mask H1)
    as H2. fold d2 in H2.
  destruct (update_pipe_outcome d1 pipe interrupt_mask enabled_irq_mask)
    as (E1 & O1 & Other1). fold d2 in E1, O1, Other1.
  destruct (update_pipe_outcome d2 pipe interrupt_mask enabled_irq_mask)
    as (_ & O2 & _).
  assert (B : pipe_irqs_enabled d1 = true ->
              forall b, 0 <= b ->
                Z.testbit (de_irq_mask d2 pipe) b
                = if Z.testbit (u32 interrupt_mask) b
                  then negb (Z.testbit (u32 enabled_irq_mask) b)
                  else Z.testbit (de_irq_mask d1 pipe) b).
  { intros He b Hb. rewrite He in O1. destruct O1 as (-> & _).
    apply pipe_new_val_bits; [apply H1 | exact Hb]. }
  split; [exact H1 |]. split; [exact H2 |].
  split.
  { intros He b Hb. destruct (H2 pipe) as [<- _]. destruct (H1 pipe) as [<- _].
    apply B; [congruence | exact Hb]. }
  split; [intros p Hp; apply Other1, Hp |].
  rewrite E1 in O2. destruct (pipe_irqs_enabled d1) eqn:He.
  - destruct O2 as (_ & _ & O2). apply O2.
    apply Z.bits_inj'. intros b Hb.
    rewrite pipe_new_val_bits by (apply H2 || exact Hb).
    rewrite (B eq_refl b Hb).
    destruct (Z.testbit (u32 interrupt_mask) b); reflexivity.
  - apply O2.
Qed.

(** Pipe 0 with everything masked; the vblank interrupt (bit 0) is
    enabled twice. *)
Definition masked_pipes : pipe_irqs :=
  {| pipe_irqs_enabled := true; de_irq_mask := fun _ => 4294967295;
     pipe_imr := fun _ => 4294967295; pipe_log := [] |}.

Lemma masked_pipes_coherent : pipe_coherent masked_pipes.
Proof. intros p. cbn. split; [reflexivity | lia]. Qed.

Example vblank_enabled_twice :
  pipe_log (fold_left pipe_step [EnablePipeIrq 0 1; EnablePipeIrq 0 1]
              masked_pipes)
  = [PipeImrWrite 0 4294967294; PipeImrPostingRead 0].
Proof. reflexivity. Qed.

Lemma X21_pipe_mask_cache_coherent_witness :
  pipe_coherent (fold_left pipe_step [EnablePipeIrq 0 1; DisablePipeIrq 1 2]
                   masked_pipes).
Proof.
  exact (proj1 (X21_pipe_mask_cache_coherent masked_pipes
                  [EnablePipeIrq 0 1; DisablePipeIrq 1 2] 0 1 1
                  masked_pipes_coherent)).
Defined.

(** ** Installing and removing the interrupt handler *)

(** What the install and uninstall paths call, in order. *)
Inductive irq_op : Type :=
| OpProcessHwErrors          (* process_hw_errors *)
| OpIrqReset                 (* intel_irq_reset *)
| OpRequestIrq (ret : Z)     (* request_irq and what it returned *)
| OpIrqPostinstall           (* intel_irq_postinstall *)
| OpFreeIrq                  (* free_irq *)
| OpHpdCancelWork            (* intel_hpd_cancel_work *)
| OpSynchronizeIrq.          (* intel_synchronize_irq *)

(** The flags of the device these paths read and write. *)
Record irq_device : Type := {
  runtime_pm_irqs_enabled : bool;     (* runtime_pm.irqs_enabled *)
  drm_irq_enabled : bool;             (* drm.irq_enabled *)
  quiesce_gpu : bool;
  IS_DGFX : bool;
  irq_ops : list irq_op
}.

Definition with_irq_flags (runtime drm : bool) (ops : list irq_op)
    (d : irq_device) : irq_device :=
  {| runtime_pm_irqs_enabled := runtime; drm_irq_enabled := drm;
     quiesce_gpu := quiesce_gpu d; IS_DGFX := IS_DGFX d;
     irq_ops := irq_ops d ++ ops |}.

(** intel_irq_install; [ret] is what request_irq returns, an [int]. *)
Definition intel_irq_install (ret : Z) (d : irq_device) : Z * irq_device :=
  let before := if IS_DGFX d then [OpProcessHwErrors] else [] in
  (* We enable some interrupt sources in our postinstall hooks, so mark
     interrupts as enabled _before_ actually enabling them to avoid
     special cases in our ordering checks. *)
  if ret <? 0
  then (ret, with_irq_flags true false
               (before ++ [OpIrqReset; OpRequestIrq ret]) d)
  else (ret, with_irq_flags true true
               (before ++ [OpIrqReset; OpRequestIrq ret; OpIrqPostinstall])
               d).

(** intel_irq_uninstall *)
Definition intel_irq_uninstall (d : irq_device) : irq_device :=
  (* FIXME we can get called twice during driver probe error handling as
     well as during driver remove *)
  if negb (drm_irq_enabled d) then d
  else with_irq_flags false false [OpIrqReset; OpFreeIrq; OpHpdCancelWork] d.

(** intel_runtime_pm_disable_interrupts *)
Definition intel_runtime_pm_disable_interrupts (d : irq_device)
  : irq_device :=
  if quiesce_gpu d then d
  else with_irq_flags false (drm_irq_enabled d)
         [OpIrqReset; OpSynchronizeIrq] d.

(** intel_runtime_pm_enable_interrupts *)
Definition intel_runtime_pm_enable_interrupts (d : irq_device)
  : irq_device :=
  with_irq_flags true (drm_irq_enabled d) [OpIrqReset; OpIrqPostinstall] d.

(** intel_irqs_enabled(); the name is taken by the field of
    [drm_i915_private] above. *)
Definition irqs_enabled (d : irq_device) : bool :=
  runtime_pm_irqs_enabled d.

Inductive irq_call : Type :=
| CallInstall (request_irq_ret : Z)
| CallUninstall
| CallRuntimeDisable
| CallRuntimeEnable.

Definition irq_step (d : irq_device) (c : irq_call) : irq_device :=
  match c with
  | CallInstall ret => snd (intel_irq_install ret d)
  | CallUninstall => intel_irq_uninstall d
  | CallRuntimeDisable => intel_runtime_pm_disable_interrupts d
  | CallRuntimeEnable => intel_runtime_pm_enable_interrupts d
  end.

(** The handlers requested and not freed, going by the calls made. *)
Fixpoint irqs_requested (ops : list irq_op) : Z :=
  match ops with
  | [] => 0
  | OpRequestIrq ret :: rest =>
      (if ret <? 0 then 0 else 1) + irqs_requested rest
  | OpFreeIrq :: rest => irqs_requested rest - 1
  | _ :: rest => irqs_requested rest
  end.

(** Whether a handler was freed while none was requested. *)
Fixpoint freed_unrequested (held : Z) (ops : list irq_op) : bool :=
  match ops with
  | [] => false
  | OpRequestIrq ret :: rest =>
      freed_unrequested (held + (if ret <? 0 then 0 else 1)) rest
  | OpFreeIrq :: rest =>
      (held <=? 0) || freed_unrequested (held - 1) rest
  | _ :: rest => freed_unrequested held rest
  end.

Lemma irqs_requested_app (a b : list irq_op) :
  irqs_requested (a ++ b) = irqs_requested a + irqs_requested b.
Proof.
  induction a as [| [] r IH]; cbn [app irqs_requested]; rewrite ?IH; lia.
Qed.

Lemma freed_unrequested_app (a b : list irq_op) :
  forall held,
    freed_unrequested held (a ++ b)
    = freed_unrequested held a
      || freed_unrequested (held + irqs_requested a) b.
Proof.
  induction a as [| [] r IH]; intros held; cbn [app freed_unrequested
                                                 irqs_requested];
    rewrite ?IH, ?Z.add_0_r; try reflexivity.
  - f_equal. f_equal. lia.
  - rewrite orb_assoc. f_equal. f_equal. lia.
Qed.

(** What every call keeps: a handler is requested whenever the device
    says so, and none was ever freed that was not requested. *)
Definition irq_consistent (d : irq_device) : Prop :=
  (drm_irq_enabled d = true -> 1 <= irqs_requested (irq_ops d))
  /\ 0 <= irqs_requested (irq_ops d)
  /\ freed_unrequested 0 (irq_ops d) = false.

Lemma irq_step_consistent (d : irq_device) (c : irq_call) :
  irq_consistent d -> irq_consistent (irq_step d c).
Proof.
  intros (H1 & H2 & H3). destruct c as [ret | | |]; cbn [irq_step].
  - unfold intel_irq_install.
    destruct (Z.ltb_spec ret 0) as [Hr | Hr]; cbn [snd];
      unfold irq_consistent, with_irq_flags;
      cbn [drm_irq_enabled irq_ops];
      rewrite irqs_requested_app, freed_unrequested_app, H3,
        irqs_requested_app, freed_unrequested_app;
      destruct (IS_DGFX d); cbn [irqs_requested freed_unrequested orb];
      destruct (Z.ltb_spec ret 0); try lia;
      repeat split; try discriminate; try reflexivity; lia.
  - unfold intel_irq_uninstall.
    destruct (drm_irq_enabled d) eqn:E; cbn [negb].
    + specialize (H1 eq_refl).
      unfold irq_consistent, with_irq_flags. cbn [drm_irq_enabled irq_ops].
      rewrite irqs_requested_app, freed_unrequested_app, H3.
      cbn [irqs_requested freed_unrequested orb].
      destruct (Z.leb_spec (0 + irqs_requested (irq_ops d)) 0); [lia |].
      repeat split; try discriminate; lia.
    + repeat split; try assumption. rewrite E. discriminate.
  - unfold intel_runtime_pm_disable_interrupts.
    destruct (quiesce_gpu d); [repeat split; assumption |].
    unfold irq_consistent, with_irq_flags. cbn [drm_irq_enabled irq_ops].
    rewrite irqs_requested_app, freed_unrequested_app, H3.
    cbn [irqs_requested freed_unrequested orb].
    repeat split; try lia. intros E. specialize (H1 E). lia.
  - unfold intel_runtime_pm_enable_interrupts.
    unfold irq_consistent, with_irq_flags. cbn [drm_irq_enabled irq_ops].
    rewrite irqs_requested_app, freed_unrequested_app, H3.
    cbn [irqs_requested freed_unrequested orb].
    repeat split; try lia. intros E. specialize (H1 E). lia.
Qed.

(** X22: free_irq is called only for a handler that was requested.
    From a device on which no handler is installed, along any sequence
    of installs, uninstalls and runtime disables and enables, whatever
    request_irq returns: no handler is freed that was not requested, a
    handler is requested whenever [drm.irq_enabled] is set, and an
    uninstall that follows an uninstall, or an install that failed, does
    nothing.  A failed install leaves intel_irqs_enabled true. *)
Theorem X22_free_irq_only_after_request (d : irq_device)
    (calls : list irq_call) :
  drm_irq_enabled d = false -> irq_ops d = [] ->
  let d1 := fold_left irq_step calls d in
  freed_unrequested 0 (irq_ops d1) = false
  /\ 0 <= irqs_requested (irq_ops d1)
  /\ (drm_irq_enabled d1 = true -> 1 <= irqs_requested (irq_ops d1))
  /\ intel_irq_uninstall (intel_irq_uninstall d1) = intel_irq_uninstall d1
  /\ (forall ret, ret < 0 ->
        let d2 := snd (intel_irq_install ret d1) in
        fst (intel_irq_install ret d1) = ret
        /\ irqs_enabled d2 = true
        /\ intel_irq_uninstall d2 = d2).
Proof.
  intros Hd Ho d1.
  assert (C : irq_consistent d1).
  { unfold d1.
    assert (C0 : irq_consistent d).
    { unfold irq_consistent. rewrite Hd, Ho. cbn.
      repeat split; try discriminate; lia. }
    clear Hd Ho d1. revert d C0.
    induction calls as [| c r IH]; intros d C0; cbn [fold_left];
      [exact C0 |].
    apply IH, irq_step_consistent, C0. }
  destruct C as (C1 & C2 & C3).
  split; [exact C3 |]. split; [exact C2 |]. split; [exact C1 |].
  split.
  - unfold intel_irq_uninstall.
    destruct (drm_irq_enabled d1) eqn:E; cbn [negb];
      [reflexivity | rewrite E; reflexivity].
  - intros ret Hret. cbv zeta. unfold intel_irq_install.
    destruct (Z.ltb_spec ret 0); [| lia]. cbn [fst snd].
    repeat split.
Qed.

(** A device at probe time. *)
Definition probing : irq_device :=
  {| runtime_pm_irqs_enabled := false; drm_irq_enabled := false;
     quiesce_gpu := false; IS_DGFX := true; irq_ops := [] |}.

Example uninstall_twice :
  irq_ops (fold_left irq_step [CallInstall 0; CallUninstall; CallUninstall]
             probing)
  = [OpProcessHwErrors; OpIrqReset; OpRequestIrq 0; OpIrqPostinstall;
     OpIrqReset; OpFreeIrq; OpHpdCancelWork].
Proof. reflexivity. Qed.

Example failed_install_leaves_irqs_enabled :
  let d := fold_left irq_step [CallInstall (-16); CallUninstall] probing in
  irqs_enabled d = true /\ drm_irq_enabled d = false
  /\ irq_ops d = [OpProcessHwErrors; OpIrqReset; OpRequestIrq (-16)].
Proof. repeat split. Qed.

Lemma X22_free_irq_only_after_request_witness :
  freed_unrequested 0
    (irq_ops (fold_left irq_step
                [CallInstall (-16); CallUninstall; CallInstall 0;
                 CallRuntimeDisable; CallUninstall; CallUninstall]
                probing)) = false.
Proof.
  exact (proj1 (X22_free_irq_only_after_request probing
                  [CallInstall (-16); CallUninstall; CallInstall 0;
                   CallRuntimeDisable; CallUninstall; CallUninstall]
                  eq_refl eq_refl)).
Defined.

(** ** Hotplug pins *)

Section WithPins.

(** HPD_NUM_PINS, the bits of the hotplug control register that flag a
    long pulse, and the Type-C pins, from the display headers. *)
Variable HPD_NUM_PINS : nat.
Variable GEN11_HOTPLUG_CTL_LONG_DETECT : Z -> Z.
Variable is_tc_pin : Z -> bool.     (* HPD_PORT_TC1 ... HPD_PORT_TC6 *)

(** [for_each_hpd_pin]: from HPD_NONE + 1 up to HPD_NUM_PINS - 1. *)
Definition hpd_pins : list Z :=
  List.map Z.of_nat (seq 1 (HPD_NUM_PINS - 1)).

(** gen11_port_hotplug_long_detect *)
Definition gen11_port_hotplug_long_detect (pin val : Z) : bool :=
  if is_tc_pin pin
  then negb (Z.land val (GEN11_HOTPLUG_CTL_LONG_DETECT pin) =? 0)
  else false.

(** The body of the loop of intel_get_hpd_pins. *)
Definition hpd_pin_step (hotplug_trigger dig_hotplug_reg : Z)
    (hpd : Z -> Z) (long_pulse_detect : Z -> Z -> bool)
    (masks : Z * Z) (pin : Z) : Z * Z :=
  let '(pin_mask, long_mask) := masks in
  if Z.land (hpd pin) hotplug_trigger =? 0 then (pin_mask, long_mask)
  else
    let pin_mask := u32 (Z.lor pin_mask (Z.shiftl 1 pin)) in
    if long_pulse_detect pin dig_hotplug_reg
    then (pin_mask, u32 (Z.lor long_mask (Z.shiftl 1 pin)))
    else (pin_mask, long_mask).

(** intel_get_hpd_pins; it gives the new [*pin_mask] and [*long_mask]. *)
Definition intel_get_hpd_pins (pin_mask long_mask : Z)
    (hotplug_trigger dig_hotplug_reg : Z) (hpd : Z -> Z)
    (long_pulse_detect : Z -> Z -> bool) : Z * Z :=
  fold_left (hpd_pin_step hotplug_trigger dig_hotplug_reg hpd
               long_pulse_detect)
    hpd_pins (pin_mask, long_mask).

Lemma u32_bit (x b : Z) :
  0 <= b -> Z.testbit (u32 x) b = (b <? 32) && Z.testbit x b.
Proof.
  intros Hb. unfold u32, wrap.
  destruct (Z.ltb_spec b 32); cbn [andb].
  - apply Z.mod_pow2_bits_low. lia.
  - apply Z.mod_pow2_bits_high. lia.
Qed.

Lemma bit_of_shiftl_1 (pin b : Z) :
  0 <= pin -> 0 <= b -> Z.testbit (Z.shiftl 1 pin) b = (b =? pin).
Proof.
  intros Hp Hb. rewrite Z.shiftl_spec by lia.
  destruct (Z.eqb_spec b pin) as [-> | N].
  - rewrite Z.sub_diag. reflexivity.
  - destruct (Z_lt_le_dec b pin).
    + apply Z.testbit_neg_r. lia.
    + replace (b - pin) with (Z.succ (b - pin - 1)) by lia.
      rewrite <- (Z.bits_0 (b - pin - 1)).
      change 1 with (2 * 0 + 1) at 1.
      apply (Z.testbit_succ_r 0 true). lia.
Qed.

Section WithTrigger.

Variable hotplug_trigger dig_hotplug_reg : Z.
Variable hpd : Z -> Z.
Variable long_pulse_detect : Z -> Z -> bool.

Definition triggered (pin : Z) : bool :=
  negb (Z.land (hpd pin) hotplug_trigger =? 0).

Lemma hpd_fold_bits (pins : list Z) :
  forall pin_mask long_mask b,
    Forall (fun pin => 0 <= pin < 32) pins ->
    0 <= pin_mask < 2 ^ 32 -> 0 <= long_mask < 2 ^ 32 -> 0 <= b ->
    let r := fold_left (hpd_pin_step hotplug_trigger dig_hotplug_reg hpd
                          long_pulse_detect) pins (pin_mask, long_mask) in
    Z.testbit (fst r) b
    = Z.testbit pin_mask b
      || existsb (fun pin => (b =? pin) && triggered pin) pins
    /\ Z.testbit (snd r) b
       = Z.testbit long_mask b
         || existsb (fun pin => (b =? pin) && triggered pin
                                && long_pulse_detect pin dig_hotplug_reg) pins.
Proof.
  induction pins as [| pin rest IH]; intros pm lm b Hall Hpm Hlm Hb;
    cbn [fold_left existsb].
  - cbn [fst snd]. rewrite !orb_false_r. split; reflexivity.
  - pose proof (Forall_inv Hall) as Hp. cbv beta in Hp.
    pose proof (Forall_inv_tail Hall) as Hrest.
    assert (R : forall x, 0 <= u32 x < 2 ^ 32)
      by (intros x; unfold u32, wrap; apply Z.mod_pos_bound; lia).
    assert (B : forall m, 0 <= m < 2 ^ 32 ->
                  Z.testbit (u32 (Z.lor m (Z.shiftl 1 pin))) b
                  = Z.testbit m b || (b =? pin)).
    { intros m Hm. rewrite u32_bit, Z.lor_spec, bit_of_shiftl_1 by lia.
      destruct (Z.ltb_spec b 32); cbn [andb]; [reflexivity |].
      destruct (Z.eqb_spec b pin); [lia |]. rewrite orb_false_r.
      symmetry.
      destruct (Z.eq_dec m 0) as [-> | Hne]; [apply Z.bits_0 |].
      apply Z.bits_above_log2; [lia |].
      assert (Z.log2 m < 32) by (apply Z.log2_lt_pow2; lia). lia. }
    unfold hpd_pin_step at 2 4. unfold triggered at 1 3.
    destruct (Z.land (hpd pin) hotplug_trigger =? 0); cbn [negb].
    + rewrite !andb_false_r. cbn [orb]. apply IH; assumption.
    + destruct (long_pulse_detect pin dig_hotplug_reg).
      * destruct (IH (u32 (Z.lor pm (Z.shiftl 1 pin)))
                    (u32 (Z.lor lm (Z.shiftl 1 pin))) b Hrest (R _) (R _) Hb)
          as [I1 I2].
        rewrite I1, I2, (B pm Hpm), (B lm Hlm).
        destruct (b =? pin), (Z.testbit pm b), (Z.testbit lm b);
          cbn [andb orb]; split; reflexivity.
      * destruct (IH (u32 (Z.lor pm (Z.shiftl 1 pin))) lm b Hrest (R _) Hlm Hb)
          as [I1 I2].
        rewrite I1, I2, (B pm Hpm).
        destruct (b =? pin), (Z.testbit pm b), (Z.testbit lm b);
          cbn [andb orb]; split; reflexivity.
Qed.

(** X23: intel_get_hpd_pins accumulates.  It only adds to the masks it
    is handed: a pin is in the new pin mask exactly if it was there or
    its bits of [hpd] are in the trigger, and in the new long mask
    exactly if it was there or it triggered and shows a long pulse; so
    when the long mask was within the pin mask it still is. *)
Theorem X23_hpd_pins_accumulate (pin_mask long_mask : Z) :
  (HPD_NUM_PINS <= 32)%nat ->
  0 <= pin_mask < 2 ^ 32 -> 0 <= long_mask < 2 ^ 32 ->
  let r := intel_get_hpd_pins pin_mask long_mask hotplug_trigger
             dig_hotplug_reg hpd long_pulse_detect in
  (forall b, 0 <= b ->
     Z.testbit (fst r) b
     = Z.testbit pin_mask b
       || ((1 <=? b) && (b <? Z.of_nat HPD_NUM_PINS) && triggered b))
  /\ (forall b, 0 <= b ->
        Z.testbit (snd r) b
        = Z.testbit long_mask b
          || ((1 <=? b) && (b <? Z.of_nat HPD_NUM_PINS) && triggered b
              && long_pulse_detect b dig_hotplug_reg))
  /\ ((forall b, 0 <= b -> Z.testbit long_mask b = true ->
                 Z.testbit pin_mask b = true) ->
      forall b, 0 <= b -> Z.testbit (snd r) b = true ->
                Z.testbit (fst r) b = true).
Proof.
  intros Hn Hpm Hlm r.
  assert (Hall : Forall (fun pin => 0 <= pin < 32) hpd_pins).
  { apply List.Forall_forall. intros p Hp. unfold hpd_pins in Hp.
    apply List.in_map_iff in Hp. destruct Hp as (n & <- & Hin).
    apply List.in_seq in Hin. lia. }
  assert (Ex : forall (f : Z -> bool) b, 0 <= b ->
             existsb (fun pin => (b =? pin) && f pin) hpd_pins
             = (1 <=? b) && (b <? Z.of_nat HPD_NUM_PINS) && f b).
  { intros f b Hb.
    destruct ((1 <=? b) && (b <? Z.of_nat HPD_NUM_PINS)) eqn:E; cbn [andb].
    - apply andb_true_iff in E. destruct E as [E1 E2].
      apply Z.leb_le in E1. apply Z.ltb_lt in E2.
      destruct (f b) eqn:Ef.
      + apply List.existsb_exists. exists b. split.
        * unfold hpd_pins. apply List.in_map_iff. exists (Z.to_nat b).
          split; [lia |]. apply List.in_seq. lia.
        * rewrite Z.eqb_refl, Ef. reflexivity.
      + apply not_true_is_false. intros H.
        apply List.existsb_exists in H. destruct H as (p & _ & H).
        apply andb_true_iff in H. destruct H as [H1 H2].
        apply Z.eqb_eq in H1. subst p. congruence.
    - apply not_true_is_false. intros H.
      apply List.existsb_exists in H. destruct H as (p & Hin & H).
      apply andb_true_iff in H. destruct H as [H1 _].
      apply Z.eqb_eq in H1. subst p. unfold hpd_pins in Hin.
      apply List.in_map_iff in Hin. destruct Hin as (n & <- & Hin).
      apply List.in_seq in Hin.
      apply andb_false_iff in E. destruct E as [E | E];
        [apply Z.leb_gt in E | apply Z.ltb_ge in E]; lia. }
  assert (P : forall b, 0 <= b ->
            Z.testbit (fst r) b
            = Z.testbit pin_mask b
              || ((1 <=? b) && (b <? Z.of_nat HPD_NUM_PINS) && triggered b)).
  { intros b Hb.
    destruct (hpd_fold_bits hpd_pins pin_mask long_mask b Hall Hpm Hlm Hb)
      as [I1 _].
    unfold r, intel_get_hpd_pins. rewrite I1, (Ex triggered b Hb).
    reflexivity. }
  assert (L : forall b, 0 <= b ->
            Z.testbit (snd r) b
            = Z.testbit long_mask b
              || ((1 <=? b) && (b <? Z.of_nat HPD_NUM_PINS) && triggered b
                  && long_pulse_detect b dig_hotplug_reg)).
  { intros b Hb.
    destruct (hpd_fold_bits hpd_pins pin_mask long_mask b Hall Hpm Hlm Hb)
      as [_ I2].
    assert (Ee : forall l,
               existsb (fun pin => (b =? pin) && triggered pin
                                   && long_pulse_detect pin dig_hotplug_reg) l
               = existsb (fun pin => (b =? pin)
                                     && (triggered pin
                                         && long_pulse_detect pin
                                              dig_hotplug_reg)) l).
    { induction l as [| p l IHl]; [reflexivity |].
      cbn [existsb]. rewrite IHl, andb_assoc. reflexivity. }
    unfold r, intel_get_hpd_pins. rewrite I2, Ee.
    rewrite <- (andb_assoc _ (triggered b)).
    rewrite <- (Ex (fun p => triggered p
                             && long_pulse_detect p dig_hotplug_reg) b Hb).
    reflexivity. }
  split; [exact P |]. split; [exact L |].
  intros Hsub b Hb. rewrite (P b Hb), (L b Hb).
  intros H. apply orb_true_iff in H. apply orb_true_iff.
  destruct H as [H | H]; [left; apply Hsub; assumption |].
  right. apply andb_true_iff in H. apply H.
Qed.

End WithTrigger.

End WithPins.

(** Pins 1 to 4 of which 3 and 4 are Type-C; pin 1 and pin 3 trigger, and
    the control register shows a long pulse for every pin. *)
Definition sample_hpd (pin : Z) : Z := Z.shiftl 1 (16 + pin).

Example long_pulse_only_on_type_c :
  intel_get_hpd_pins 5 0 0 (Z.shiftl 10 16) 255 sample_hpd
    (gen11_port_hotplug_long_detect (fun pin => Z.shiftl 1 pin)
       (fun pin => 3 <=? pin))
  = (10, 8).
Proof. reflexivity. Qed.

Lemma X23_hpd_pins_accumulate_witness :
  Z.testbit (fst (intel_get_hpd_pins 5 0 0 (Z.shiftl 10 16) 255 sample_hpd
                    (gen11_port_hotplug_long_detect
                       (fun pin => Z.shiftl 1 pin)
                       (fun pin => 3 <=? pin)))) 3 = true.
Proof.
  assert (H1 : (5 <= 32)%nat) by lia.
  assert (H2 : 0 <= 0 < 2 ^ 32) by lia.
  assert (H3 : forall b, 0 <= b -> Z.testbit 0 b = true ->
                         Z.testbit 0 b = true) by (intros b _ H; exact H).
  assert (H4 : 0 <= 3) by lia.
  exact (proj2 (proj2 (X23_hpd_pins_accumulate 5 (Z.shiftl 10 16) 255
                         sample_hpd
                         (gen11_port_hotplug_long_detect
                            (fun pin => Z.shiftl 1 pin)
                            (fun pin => 3 <=? pin))
                         0 0 H1 H2 H2)) H3 3 H4 eq_refl).
Defined.
End Irq.
